(* ===== verification/_CoqProject ===== *)
-Q . S2P
Prelude.v
Random.v
Gob.v
MrRpc.v
GoLib.v
Json.v
MrCoordinator.v
MrWorker.v
MrSequential.v
MrLogic.v
MrSystem.v
MrProgress.v
MrApps.v
MrTiming.v
Programs.v
MrExamples.v
ShardCfg.v
ShardJson.v
LabRpc.v
RpcCalls.v
Persister.v
Group.v
Groups.v
Raft.v
Clnts.v
Models.v
KvTest.v
KvAppend.v
Rsm.v
KvServers.v
Annotation.v
Config.v
KvCheck.v
TestSystem.v
KvSetup.v
ShardTest.v
ShardChecks.v
ShardConcur.v
ShardPartition.v
KvDrive.v
Labgob.v
LabgobIo.v
RaftTest.v
RaftSetup.v
