(* ===== verification/Prelude.v ===== *)
(** * Verification of the distributed-systems labs

    The program is a Go repository with a MapReduce implementation and the
    framework on which its other servers are built and tested: a simulated
    network, persistent stores, server groups and clients of the tester, the
    shard-configuration library, a linearizability model and the checkers of
    the key/value and Raft tests.  The servers of the later labs (Raft, the
    key/value servers, the shard controller) are in the repository as
    skeletons.  Paths below are relative to [src/src/].

    ** Parts and files

    - [Prelude]: Go's control effects ([outcome]: return, [log.Fatal], panic),
      64- and 32-bit integers with their wrap-around, slices indexed with Go's
      bounds checks, and the list lemmas and hint database the other files share.
    - [Random]: the random names, seeds and shuffles of [tester1/config.go].
    - [Gob]: what [encoding/gob] makes of one integer.
    - [MrRpc]: the messages of [mr/rpc.go] and [KeyValue].
    - [GoLib], [Json]: what the code uses of the standard library: FNV-1a
      ([hash/fnv]), string concatenation, decimal numbers, sorting by key (the interface
      [SortsByKey] that any permutation-and-order sort satisfies, with merge
      sort as an instance) and the JSON stream codec (the interface [JsonKV],
      discharged for ASCII strings by the concrete codec of [Json]).
    - [MrCoordinator]: [mr/coordinator.go].  The record [Coordinator] is the Go
      struct, one definition per handler; the clock readings are arguments.
    - [MrWorker]: [mr/worker.go].  A worker is a program tree ([prog]) whose
      nodes are the effects of the code (open, read, create, rename, the two
      calls, fatal errors), so that interleavings are between effects.
    - [MrSequential]: [main/mrsequential.go], the reference implementation.
    - [MrLogic]: the contents every file of the job must have and a weakest
      precondition for worker programs against them.
    - [MrSystem]: the whole system: a coordinator, a file system and any number
      of workers that start, crash, race and lose calls or replies; its
      invariant, and correctness against [MrSequential].
    - [MrProgress]: an executable scheduler and the liveness theorem.
    - [MrApps]: [mrapps/*.go]: UTF-8 decoding, word splitting, word count, the
      indexer and the crash and early-exit applications.
    - [MrTiming]: [mrapps/mtiming.go], [rtiming.go] and [jobcount.go]: workers that
      count each other through files, as interleaved steps.
    - [Programs]: the other programs of [main/].
    - [MrExamples]: concrete jobs run to completion, the witnesses of the
      MapReduce theorems, and the failing-rename execution.
    - [ShardCfg]: [shardkv1/shardcfg/shardcfg.go]; [ShardJson]: its text form, with
      a JSON writer and reader.
    - [LabRpc]: [labrpc/labrpc.go], the simulated network as a transition system.
    - [RpcCalls]: that every [Call] on that network returns.
    - [Persister]: [tester1/persister.go] over a store of shared byte arrays.
    - [Group]: [tester1/srv.go] and [tester1/group.go] over [LabRpc] and [Persister]:
      one group; [Groups]: starting and stopping whole groups and the map of groups.
    - [Raft]: [raft1/raft.go], the skeleton, and the interface [RaftApi] of
      [raftapi/raftapi.go].
    - [Rsm]: [kvraft1/rsm]: the replicated-state-machine layer (a class
      [StateMachine]), the counter server of its tests and their checks.
    - [KvServers]: the skeletons of [kvsrv1], [kvraft1] and [shardkv1], and what
      their servers expose to RPCs.
    - [Clnts]: [tester1/clnts.go] over [LabRpc].
    - [Models]: [models1/kv.go], the model handed to the linearizability checker.
    - [KvTest]: [kvtest1/kvtest.go] and [kvtest1/porcupine.go]: clerk calls, the
      operation log, put clients and checkers.
    - [KvAppend]: the concurrent append test of [kvtest1/kvtest.go] as a
      transition system of clients against a server with the documented
      contract.
    - [KvCheck]: concurrent clerks against the documented server, the
      linearizability check ([kvtest1/porcupine.go]) and the test around it.
    - [KvDrive]: the partitioner and [SpawnClientsAndWait] of [kvtest1/kvtest.go].
    - [TestSystem]: a running test: the operations of [tester1] composed with the
      calls of clerks and the steps of the network, simulated by the network alone.
    - [KvSetup]: [kvsrv1/test.go] and [kvraft1/test.go]: making tests and their
      clerks, against the interface [IClerkMaker] of [kvtest1/kvtest.go] with its
      laws [ClerkMakerLaws].
    - [ShardTest]: [shardkv1/test.go]: tests of the sharded service, whose
      controller is a parameter (the classes [Controller], [ControllerLaws]);
      joins, leaves and checks, and what is relied on of controllers that are
      interrupted, recover and are superseded ([Interruptible], [RecoveryLaws],
      [SupersededLaws]).  [ShardChecks]: what the checks decide, and a concrete
      test.  [ShardConcur]: [concurCtrler], goroutines with a controller each whose
      changes are recorded, completed by others or superseded ([ConcurrentLaws],
      which the recovery laws imply as far as they go).  [ShardPartition]:
      [partitionCtrler], a controller whose client is disconnected, one that
      recovers, and the first one after the partition has healed.
    - [Annotation]: [tester1/annotation.go], the annotations of test runs.
    - [Config]: [tester1/config.go], which composes the network, the groups, the
      clerks and the annotations into a test.
    - [Labgob]: [labgob/labgob.go], the checks of the encoder;
      [LabgobIo]: its encoder and decoder over [encoding/gob], a parameter (the
      classes [GobLib], [GobLaws]).
    - [RaftTest]: [raft1/server.go], [raft1/test.go] and the messages of
      [raftapi/raftapi.go]: the tester's side of Raft, whose implementation is a
      parameter.
    - [RaftSetup]: the tests of [raft1/test.go] and [kvraft1/rsm/test.go] around a
      tester configuration: making, restarting, disconnecting and cleaning up.

    ** How state and operations correspond to the code

    A Go struct is a record with the struct's fields, without its mutex: every
    method that holds the lock for its whole body is one atomic step.  Where
    the code releases the lock or waits (request processing in [labrpc], the
    worker, the tester's clients), the steps are separate constructors of a
    step relation.  A function that mutates its receiver returns the new
    state.  [log.Fatalf] and panics are values of [outcome], so that a theorem
    saying [= Return _] excludes both; the text of a fatal message is
    abbreviated where it only formats its arguments.  Go's unspecified map iteration order is
    an argument: a list that enumerates the map, over which the theorems
    quantify.  Random numbers, clock readings and library behaviour that the
    code does not fix are arguments too.

    ** What the theorems show

    - MapReduce: the coordinator's invariant, phase ordering, leases and
      completion; no execution reaches a fatal path of the coordinator; when
      the job is done the output is the sequential program's; the job can
      always be finished; the applications compute what they promise.
    - Shard configurations: rebalancing terminates, balances, is deterministic
      and moves the minimum on single joins and on leaves; reachable
      configurations pass the repository's own check and serve every key; the
      text form reads back.
    - Network: at-most-once execution and its link to the caller's answer,
      no answers from deleted servers, no losses when reliable, progress,
      counters and service tables; every call whose handler returns is answered,
      by steps of the network alone.
    - Composition: an execution of a test is an execution of the network, so that
      the network's theorems hold in every test; a server that the tester shut
      down is handed no call and answers none until it is started again; a call
      of a clerk that the tester made reaches the server and returns its reply.
    - Tester: persisters are isolated from the crashed instance's arrays,
      restarts keep exactly the state saved before the crash, whatever the old
      instance saves later; partitions cut exactly what they should, also under
      the random partitioner; clients reach exactly the servers their controls
      allow; operations on groups are type safe, a
      started group is connected and an exited one gone without disturbing the
      others; a test's report and clean-up are right, within the counters' width.
    - Checkers: the model partitions histories by key and versions order
      successful puts; the append checker accepts exactly the legal histories
      and never fails a correct server when no put is in flight, whatever the
      interleaving; concurrent
      clerks of a correct server leave a linearizable log, which the check
      passes; spawned clients are all collected.
    - Servers: a snapshot of the counter server replaces the operations before
      it; concurrent increments are counted; the servers expose exactly their RPC
      methods; a killed peer's ticker stops.
    - Raft tester: as long as no test failure was raised, the servers' logs
      agree and have no gaps; the commit counter, the agreement loop and the
      leader check return what they promise; snapshots restore the log.
    - Test set-ups: a clerk of any of the tests reaches the servers it should and
      takes its own client's ends with it when it is deleted (the ends of a shardkv
      clerk's controller stay); a restarted Raft server
      and a reconnected leader are back; joins and leaves of the sharded service
      implement a set of members, its concurrent controllers do no harm, and
      its checks decide what they are meant to, with the exceptions below.
    - Encoder and annotations: every lower-case field of every reachable type
      is reported once, also through recursive types; values sent through the encoder are read
      back in order; used variables are
      noticed; the failure annotation tells the current status, or the two sides
      announced since it last changed; the
      history of a failed check is not written over.
    - Several theorems record behaviour that departs from what the code
      intends: a failing rename loses output, a refused [Join] may have changed
      the configuration, [MakePartition] is wrong for even sizes, [OnePut]
      checks too little, [ConnectTo] does not disconnect, the end of a check
      does not reset its begin, decoding into unexported fields panics, [Start]
      claims leadership that [GetState] denies, concurrent increments may reply
      the same number, [diskvd] takes unreadable numbers for 0, a thirteenth
      group joins and is reported not to have joined, a deleted shardkv clerk
      leaves a client behind, the check after a partition can fail correct
      controllers, and a superseded controller's goroutine can end the process.

    ** Fuel

    - [GoLib.decode_loop]: the length of the stream plus one; decoding consumes
      input ([decode_loop_fuel]).
    - [Worker.reduceLoop], [Sequential.sequentialLoop]: the number of pairs;
      each round consumes at least one.
    - [ShardCfg.moveLoop]: 67; each move decreases the number of pairs of shards
      in the same group, at most 66 for twelve shards, and [rebalance_balances]
      proves that the fuel is never exhausted.
    - [MrApps.runes]: the length of the string; a rune is at least one byte.
    - [Labgob.checkType]: one more than the number of types not checked yet
      ([Labgob.enough]); every recursive call has checked one more type.
    - [ShardJson.parse]: twice the length of the text; a value takes at least
      one character and a list one more for each element.
    - [Raft.ticker]: one turn per 50 milliseconds of life and two more
      ([ticker_stops]).
    - [KvTest.PutAtLeastOnce]: an argument, with a theorem that a bound on
      it gives a result.

    ** Not modelled

    The bodies that the course skeletons leave out: what the other parts rely on
    is stated as classes ([RaftApi], [StateMachine], [KvContract],
    [VersionedClerk], [StoreClerk], [Controller] with its laws).  The porcupine
    checker is a parameter with its documentation as the class [Porcupine], and
    [encoding/gob] beyond one integer one with [GobLaws].
    Test files ([*_test.go]), pure printing ([DPrintf], stack traces), the
    visualisation's file, reading the clock, and failing file operations of the
    job counter are left out, as is JSON text that is not ASCII.  Errors of writing
    and closing MapReduce's temporary files, which the code drops, do not occur.
    In [partitionCtrler] a controller's call returns when its client is connected;
    it is not followed down to the requests on the network.  The function of a
    spawned client is one step, and so is an applier's message. *)

From Stdlib Require Export Ascii.
From stdpp Require Export base gmap strings list sorting pretty.

(** ** Go's control effects

    A Go function either returns, terminates the process ([log.Fatal],
    [log.Fatalf], [os.Exit]) or panics (index out of range, nil dereference,
    negative length in [make]). *)
Inductive outcome (A : Type) : Type :=
| Return (a : A)
| Fatal (msg : string)
| Panic (msg : string).
Arguments Return {_} _.
Arguments Fatal {_} _.
Arguments Panic {_} _.

#[export] Instance outcome_ret : MRet outcome := fun A a => Return a.
#[export] Instance outcome_bind : MBind outcome := fun A B f m =>
  match m with
  | Return a => f a
  | Fatal s => Fatal s
  | Panic s => Panic s
  end.

(** [returns m P]: the call returns normally, with a value satisfying [P]. *)
Definition returns {A} (m : outcome A) (P : A -> Prop) : Prop :=
  match m with Return a => P a | _ => False end.

Lemma bind_Return {A B} (m : outcome A) (f : A -> outcome B) b :
  (m ≫= f) = Return b -> exists a, m = Return a /\ f a = Return b.
Proof. destruct m; [eauto|done|done]. Qed.

(** What the computation of an outcome decides. *)
Definition check {A} (m : outcome A) (f : A -> bool) : bool :=
  match m with Return x => f x | _ => false end.
Lemma check_Return {A} (m : outcome A) f x : m = Return x -> check m f = true -> f x = true.
Proof. by intros ->. Qed.
Lemma check_inv {A} (m : outcome A) f : check m f = true -> exists x, m = Return x /\ f x = true.
Proof. destruct m as [x| |]; [by exists x|done|done]. Qed.

(** ** Go integers *)

Declare Scope go_scope.
Delimit Scope go_scope with go.

Definition int_min : Z := (- 2 ^ 63)%Z.
Definition int_max : Z := (2 ^ 63 - 1)%Z.

(** Two's-complement wrap-around of a 64-bit signed [int]. *)
Definition wrap64 (z : Z) : Z := ((z + 2 ^ 63) mod 2 ^ 64 - 2 ^ 63)%Z.

(** Two's-complement wrap-around of an [int32]. *)
Definition wrap32 (z : Z) : Z := ((z + 2 ^ 31) mod 2 ^ 32 - 2 ^ 31)%Z.

(** Wrap-around of [uint64] and [uint32]. *)
Definition uwrap64 (z : Z) : Z := (z mod 2 ^ 64)%Z.
Definition uwrap32 (z : Z) : Z := (z mod 2 ^ 32)%Z.

Lemma wrap64_add z k : wrap64 (wrap64 z + k) = wrap64 (z + k).
Proof.
  unfold wrap64. f_equal.
  replace ((z + 2 ^ 63) `mod` 2 ^ 64 - 2 ^ 63 + k + 2 ^ 63)%Z
    with ((z + 2 ^ 63) `mod` 2 ^ 64 + k)%Z by lia.
  rewrite Zplus_mod_idemp_l. f_equal. lia.
Qed.

Lemma wrap32_add z k : wrap32 (wrap32 z + k) = wrap32 (z + k).
Proof.
  unfold wrap32. f_equal.
  replace ((z + 2 ^ 31) `mod` 2 ^ 32 - 2 ^ 31 + k + 2 ^ 31)%Z
    with ((z + 2 ^ 31) `mod` 2 ^ 32 + k)%Z by lia.
  rewrite Zplus_mod_idemp_l. f_equal. lia.
Qed.

Lemma wrap32_idem z : wrap32 (wrap32 z) = wrap32 z.
Proof.
  trans (wrap32 (wrap32 z + 0)); [by rewrite Z.add_0_r|]. rewrite wrap32_add. by rewrite Z.add_0_r.
Qed.

Lemma wrap32_small z : (- 2 ^ 31 <= z < 2 ^ 31)%Z -> wrap32 z = z.
Proof. intros Hz. unfold wrap32. rewrite Z.mod_small; lia. Qed.

Lemma wrap32_range z : (- 2 ^ 31 <= wrap32 z < 2 ^ 31)%Z.
Proof. unfold wrap32. pose proof (Z.mod_pos_bound (z + 2 ^ 31) (2 ^ 32)). lia. Qed.

Lemma wrap64_small z : (int_min <= z <= int_max)%Z -> wrap64 z = z.
Proof. unfold int_min, int_max, wrap64. intros Hz. rewrite Z.mod_small; lia. Qed.

(** ** Go slices *)

(** The length of a slice, as a Go [int]. *)
Definition len {A} (l : list A) : Z := Z.of_nat (length l).

(** [s[i]]: reading outside the bounds panics. *)
Definition slice_get {A} (l : list A) (i : Z) : outcome A :=
  if decide (0 <= i)%Z then
    match l !! Z.to_nat i with
    | Some a => Return a
    | None => Panic "index out of range"
    end
  else Panic "index out of range".

(** [s[i] = a]: writing outside the bounds panics. *)
Definition slice_set {A} (l : list A) (i : Z) (a : A) : outcome (list A) :=
  if decide (0 <= i < len l)%Z then Return (<[Z.to_nat i := a]> l)
  else Panic "index out of range".

(** [make([]T, n)]: a negative length panics. *)
Definition go_make {A} (zero : A) (n : Z) : outcome (list A) :=
  if decide (0 <= n)%Z then Return (replicate (Z.to_nat n) zero)
  else Panic "makeslice: len out of range".

(** [strconv.Itoa] and the [%d] verb. *)
Definition Itoa (z : Z) : string := pretty z.

(** ** The development's automation *)

Create HintDb golabs.

(** Split every conjunction and existential of the context. *)
Ltac destr_hyps :=
  repeat match goal with
  | H : _ /\ _ |- _ => destruct H
  | H : exists _, _ |- _ => destruct H
  end.

(** Case analysis on every boolean or decidable test of the goal. *)
Ltac case_tests := repeat (case_decide || case_match); simplify_eq/=.

#[export] Hint Extern 1 (_ <= _)%nat => lia : golabs.
#[export] Hint Extern 1 (_ < _)%nat => lia : golabs.
#[export] Hint Extern 1 (_ <= _)%Z => lia : golabs.
#[export] Hint Extern 1 (_ < _)%Z => lia : golabs.

Lemma len_nonneg {A} (l : list A) : (0 <= len l)%Z.
Proof. unfold len. lia. Qed.
#[export] Hint Resolve len_nonneg : golabs.

Lemma slice_get_Some {A} (l : list A) (i : nat) a :
  l !! i = Some a -> slice_get l (Z.of_nat i) = Return a.
Proof.
  intros H. unfold slice_get. rewrite decide_True by lia.
  by rewrite Nat2Z.id, H.
Qed.

Lemma slice_get_inv {A} (l : list A) (i : Z) a :
  slice_get l i = Return a -> (0 <= i < len l)%Z /\ l !! Z.to_nat i = Some a.
Proof.
  unfold slice_get, len. case_decide; [|done].
  destruct (l !! Z.to_nat i) eqn:E; intros [= ->].
  apply lookup_lt_Some in E as ?. split; [lia|done].
Qed.

Lemma slice_get_bound {A} (l : list A) (i : Z) :
  (0 <= i < len l)%Z -> exists a, slice_get l i = Return a.
Proof.
  intros Hi. destruct (lookup_lt_is_Some_2 l (Z.to_nat i)) as [a Ha].
  { unfold len in Hi. lia. }
  exists a. unfold slice_get. rewrite decide_True by lia. by rewrite Ha.
Qed.

(** ** First index satisfying a test

    The shape of the labs' [for i := 0; i < len(ts); i++ { if test { ...; return } }]
    loops: the test may depend on the iteration (it reads the clock). *)
Fixpoint first_index {A} (test : nat -> A -> bool) (i : nat) (l : list A) : option nat :=
  match l with
  | [] => None
  | x :: l => if test i x then Some i else first_index test (S i) l
  end.

Lemma first_index_Some {A} (test : nat -> A -> bool) i l k :
  first_index test i l = Some k ->
  exists j x, k = i + j /\ l !! j = Some x /\ test k x = true /\
    forall j' x', j' < j -> l !! j' = Some x' -> test (i + j') x' = false.
Proof.
  revert i. induction l as [|y l IH]; intros i; simpl; [done|].
  destruct (test i y) eqn:E.
  - intros [= <-]. exists 0, y. rewrite Nat.add_0_r. split_and!; try done. intros; lia.
  - intros (j & x & -> & Hx & Ht & Hmin)%IH. exists (S j), x.
    rewrite Nat.add_succ_r. simpl in *. split_and!; [done|done|done|].
    intros [|j'] x' Hj; simpl.
    + intros [= ->]. by rewrite Nat.add_0_r.
    + rewrite Nat.add_succ_r. apply Hmin. lia.
Qed.

Lemma first_index_None {A} (test : nat -> A -> bool) i l :
  first_index test i l = None <->
  forall j x, l !! j = Some x -> test (i + j) x = false.
Proof.
  revert i. induction l as [|y l IH]; intros i; simpl; [done|].
  destruct (test i y) eqn:E; split.
  - done.
  - intros H. specialize (H 0 y eq_refl). rewrite Nat.add_0_r in H. congruence.
  - intros Hn [|j] x; simpl.
    + intros [= ->]. by rewrite Nat.add_0_r.
    + intros Hx. rewrite <-Nat.add_succ_comm. by apply IH.
  - intros H. apply IH. intros j x Hx. rewrite Nat.add_succ_comm. by apply H.
Qed.

(** ** Counting *)

(** Number of elements satisfying a decidable predicate. *)
Definition count {A} (P : A -> Prop) `{!forall x, Decision (P x)} (l : list A) : nat :=
  length (filter P l).

Lemma count_cons {A} (P : A -> Prop) `{!forall x, Decision (P x)} x l :
  count P (x :: l) = (if decide (P x) then 1 else 0) + count P l.
Proof. unfold count. rewrite filter_cons. by case_decide. Qed.

Lemma count_le {A} (P : A -> Prop) `{!forall x, Decision (P x)} l : count P l <= length l.
Proof. apply length_filter. Qed.
#[export] Hint Resolve count_le : golabs.

Lemma count_app {A} (P : A -> Prop) `{!forall x, Decision (P x)} l1 l2 :
  count P (l1 ++ l2) = count P l1 + count P l2.
Proof. unfold count. by rewrite filter_app, length_app. Qed.

Lemma count_insert {A} (P : A -> Prop) `{!forall x, Decision (P x)} l i x y :
  l !! i = Some x ->
  count P (<[i:=y]> l) + (if decide (P x) then 1 else 0)
  = count P l + (if decide (P y) then 1 else 0).
Proof.
  revert i. induction l as [|z l IH]; intros [|i] Hi; simplify_eq/=.
  - rewrite !count_cons. lia.
  - rewrite !count_cons. specialize (IH _ Hi). lia.
Qed.

Lemma count_all {A} (P : A -> Prop) `{!forall x, Decision (P x)} l :
  count P l = length l <-> Forall P l.
Proof.
  induction l as [|x l IH]; [done|].
  rewrite count_cons, Forall_cons, <-IH; simpl.
  pose proof (count_le P l).
  case_decide; (split; [intros ?|intros [? ?]]; try split; try done; lia).
Qed.

Lemma count_perm {A} (P : A -> Prop) `{!forall x, Decision (P x)} l1 l2 :
  l1 ≡ₚ l2 -> count P l1 = count P l2.
Proof. unfold count. by intros ->. Qed.

Lemma count_none {A} (P : A -> Prop) `{!forall x, Decision (P x)} l :
  Forall (fun x => ~ P x) l -> count P l = 0.
Proof.
  induction 1; [done|]. rewrite count_cons, decide_False by done. lia.
Qed.

(** ** Filtering *)

Lemma filter_all_id {A} (P : A -> Prop) `{!forall x, Decision (P x)} (l : list A) :
  Forall P l -> filter P l = l.
Proof. induction 1; [done|]. rewrite filter_cons, decide_True by done. by f_equal. Qed.

Lemma filter_none_nil {A} (P : A -> Prop) `{!forall x, Decision (P x)} (l : list A) :
  Forall (fun x => ~ P x) l -> filter P l = [].
Proof. induction 1; [done|]. by rewrite filter_cons, decide_False. Qed.

Lemma filter_comm {A} (P Q : A -> Prop) `{!forall x, Decision (P x), !forall x, Decision (Q x)}
    (l : list A) : filter P (filter Q l) = filter Q (filter P l).
Proof.
  induction l as [|x l IH]; [done|]. rewrite !filter_cons.
  repeat case_decide; rewrite ?filter_cons; repeat case_decide; (by f_equal) || done.
Qed.

Lemma filter_filter_impl {A} (P Q : A -> Prop) `{!forall x, Decision (P x), !forall x, Decision (Q x)}
    (l : list A) :
  (forall x, x ∈ l -> P x -> Q x) -> filter P (filter Q l) = filter P l.
Proof.
  induction l as [|x l IH]; intros HPQ; [done|]. rewrite !filter_cons.
  assert (forall y, y ∈ l -> P y -> Q y) as HPQ' by (intros; apply HPQ; [by right|done]).
  repeat case_decide; rewrite ?filter_cons; repeat case_decide; try done.
  - f_equal. auto.
  - auto.
  - exfalso. naive_solver (left).
  - auto.
Qed.

Lemma StronglySorted_filter_sub {A} (R : relation A) (P : A -> Prop) `{!forall x, Decision (P x)} l :
  StronglySorted R l -> StronglySorted R (filter P l).
Proof.
  induction 1 as [|x l Hs IH Hx]; [constructor|].
  rewrite filter_cons. case_decide; [|done]. constructor; [done|].
  rewrite Forall_forall in Hx |- *. intros y [_ Hy]%list_elem_of_filter. auto.
Qed.

(** ** Decimal numbers in names *)

Lemma str_cons_app c s1 s2 : String c s1 +:+ s2 = String c (s1 +:+ s2).
Proof. done. Qed.

Lemma str_nil_app s : "" +:+ s = s.
Proof. done. Qed.

(** Strings of decimal digits. *)
Fixpoint digits (s : string) : Prop :=
  match s with
  | EmptyString => True
  | String c s => is_Some (Ascii.is_nat c) /\ digits s
  end.

Fixpoint no_dash (s : string) : Prop :=
  match s with
  | EmptyString => True
  | String c s => c <> "-"%char /\ no_dash s
  end.

Lemma digits_no_dash s : digits s -> no_dash s.
Proof.
  induction s as [|c s IH]; [done|]. intros [[d Hd] Hs]. split; [by intros ->|auto].
Qed.

Lemma pretty_N_char_digit x : is_Some (Ascii.is_nat (pretty_N_char x)).
Proof. unfold pretty_N_char. by repeat case_match; eexists. Qed.

Lemma pretty_N_go_digits x s : digits s -> digits (pretty_N_go x s).
Proof.
  revert s. induction (N.lt_wf_0 x) as [x _ IH]; intros s Hs.
  destruct (decide (x = 0)%N) as [->|Hx]; [done|].
  rewrite pretty_N_go_step by lia. apply IH; [apply N.div_lt; lia|].
  split; [apply pretty_N_char_digit|done].
Qed.

Lemma Itoa_nat_digits (m : nat) : digits (Itoa (Z.of_nat m)).
Proof.
  unfold Itoa, pretty, pretty_Z. destruct m as [|m]; [by split; [eexists|]|]. simpl.
  by apply pretty_N_go_digits.
Qed.

Lemma Itoa_nat_inj (m m' : nat) : Itoa (Z.of_nat m) = Itoa (Z.of_nat m') -> m = m'.
Proof. unfold Itoa. intros ?%(inj pretty). lia. Qed.

Lemma dash_split a b a' b' :
  no_dash a -> no_dash a' -> a +:+ "-" +:+ b = a' +:+ "-" +:+ b' -> a = a' /\ b = b'.
Proof.
  revert a'. induction a as [|c a IH]; intros [|c' a'] Ha Ha';
    rewrite ?str_cons_app, ?str_nil_app.
  - by intros [= ->].
  - intros [= <- _]. by destruct Ha'.
  - intros [= -> _]. by destruct Ha.
  - intros [= -> Heq]. destruct Ha, Ha'. by destruct (IH a') as [-> ->].
Qed.

(** ** Codes as strings

    A string for every countable value, used where a concrete encoding is
    needed to instantiate an interface. *)
Definition bit1 : Ascii.ascii := Ascii.ascii_of_nat 49.
Definition bit0 : Ascii.ascii := Ascii.ascii_of_nat 48.

Fixpoint pos_str (p : positive) : string :=
  match p with
  | xH => ""
  | xO p => String bit0 (pos_str p)
  | xI p => String bit1 (pos_str p)
  end.
Fixpoint str_pos (s : string) : positive :=
  match s with
  | EmptyString => xH
  | String c s => if decide (c = bit1) then xI (str_pos s) else xO (str_pos s)
  end.

Lemma str_pos_str p : str_pos (pos_str p) = p.
Proof. induction p as [p IH|p IH|]; simpl; [by rewrite IH|by rewrite IH|done]. Qed.
