(* ===== verification/Random.v ===== *)
(** * Randomness of the tester

    Models the random helpers of [src/src/tester1/config.go]: [Randstring], with
    the URL-safe base64 encoding of Go's [encoding/base64] that it uses,
    [makeSeed] and [random_handles].  What the random sources deliver is an
    argument: the bytes of [crand.Read], the number of [crand.Int], the results
    of [rand.Intn]. *)

From S2P Require Import Prelude.

Module Random.

Set Default Proof Using "Type".

(** ** base64 *)

Definition alphabet : list ascii :=
  String.list_ascii_of_string "ABCDEFGHIJKLMNOPQRSTUVWXYZabcdefghijklmnopqrstuvwxyz0123456789-_".

(** [enc.encode[v&0x3F]] *)
Definition enc (v : Z) : ascii := default "A"%char (alphabet !! Z.to_nat (Z.land v 63)).

Definition stdPadding : ascii := "="%char.

(** [URLEncoding.Encode]: three bytes become four characters; a last group of
    one or two bytes is padded. *)
Fixpoint encode (src : list Z) : list ascii :=
  match src with
  | b0 :: b1 :: b2 :: src =>
      let val := Z.lor (Z.lor (Z.shiftl b0 16) (Z.shiftl b1 8)) b2 in
      enc (Z.shiftr val 18) :: enc (Z.shiftr val 12) :: enc (Z.shiftr val 6) :: enc val :: encode src
  | [b0; b1] =>
      let val := Z.lor (Z.shiftl b0 16) (Z.shiftl b1 8) in
      [enc (Z.shiftr val 18); enc (Z.shiftr val 12); enc (Z.shiftr val 6); stdPadding]
  | [b0] =>
      let val := Z.shiftl b0 16 in
      [enc (Z.shiftr val 18); enc (Z.shiftr val 12); stdPadding; stdPadding]
  | [] => []
  end.

(** [s[0:n]] *)
Definition str_take (s : list ascii) (n : Z) : outcome (list ascii) :=
  if decide (0 <= n <= len s)%Z then Return (take (Z.to_nat n) s)
  else Panic "slice bounds out of range".

(** [read k] are the [k] bytes that [crand.Read] delivers. *)
Definition Randstring (read : nat -> list Z) (n : Z) : outcome string :=
  b ← go_make 0%Z (wrap64 (2 * n));
  s ← str_take (encode (read (length b))) n;
  mret (String.string_of_list_ascii s).

(** [crand.Read] fills the buffer with bytes. *)
Record readOk (read : nat -> list Z) : Prop := {
  ro_len k : length (read k) = k;
  ro_byte k : Forall (fun b => 0 <= b < 256)%Z (read k)
}.

(** [crand.Int(crand.Reader, max)] delivers [bigx], at least 0 and below [max];
    [Int64] wraps. *)
Definition seedMax : Z := Z.shiftl 1 62.
Definition makeSeed (bigx : Z) : Z := wrap64 bigx.

(** ** Shuffling *)

Section Shuffle.
Context {A : Type}.
Implicit Types (l q p : list A).

(** [sa[i], sa[j] = sa[j], sa[i]] for each [i], where [j] is the result of
    [rand.Intn(i+1)] in that iteration. *)
Fixpoint shuffle (Intn : nat -> Z) (idx : list nat) (sa : list A) : outcome (list A) :=
  match idx with
  | [] => Return sa
  | i :: idx =>
      let j := Intn i in
      x ← slice_get sa j;
      y ← slice_get sa (Z.of_nat i);
      sa ← slice_set sa (Z.of_nat i) x;
      sa ← slice_set sa j y;
      shuffle Intn idx sa
  end.

(** [copy(sa, kvh)] of equal lengths: [sa] is a new array with the same handles. *)
Definition random_handles (Intn : nat -> Z) (kvh : list A) : outcome (list A) :=
  shuffle Intn (seq 0 (length kvh)) kvh.

(** [rand.Intn(n)] delivers a number from 0 to [n-1]. *)
Definition IntnOk (Intn : nat -> Z) : Prop := forall i, (0 <= Intn i < Z.of_nat (i + 1))%Z.

End Shuffle.

(** ** Bits *)

Definition bits (w : nat) (z : Z) : list bool :=
  (fun i => Z.testbit z (Z.of_nat (w - 1 - i))) <$> seq 0 w.
Definition allBits (w : nat) (l : list Z) : list bool := mjoin (bits w <$> l).

(** The numbers below 64 that [encode] looks up. *)
Fixpoint sextets (src : list Z) : list Z :=
  match src with
  | b0 :: b1 :: b2 :: src =>
      let val := Z.lor (Z.lor (Z.shiftl b0 16) (Z.shiftl b1 8)) b2 in
      Z.land (Z.shiftr val 18) 63 :: Z.land (Z.shiftr val 12) 63 :: Z.land (Z.shiftr val 6) 63
        :: Z.land val 63 :: sextets src
  | [b0; b1] =>
      let val := Z.lor (Z.shiftl b0 16) (Z.shiftl b1 8) in
      [Z.land (Z.shiftr val 18) 63; Z.land (Z.shiftr val 12) 63; Z.land (Z.shiftr val 6) 63]
  | [b0] =>
      let val := Z.shiftl b0 16 in
      [Z.land (Z.shiftr val 18) 63; Z.land (Z.shiftr val 12) 63]
  | [] => []
  end.

Definition letter (v : Z) : ascii := default "A"%char (alphabet !! Z.to_nat v).

(** Induction by groups of three. *)
Lemma three_ind {A} (P : list A -> Prop) :
  P [] -> (forall a, P [a]) -> (forall a b, P [a; b]) ->
  (forall a b c l, P l -> P (a :: b :: c :: l)) -> forall l, P l.
Proof.
  intros H0 H1 H2 H3. fix IH 1. intros [|a [|b [|c l]]]; [exact H0|apply H1|apply H2|apply H3, IH].
Qed.

Lemma encode_sextets src : exists pad, encode src = (letter <$> sextets src) ++ pad.
Proof.
  induction src as [|a|a b|a b c src [pad IH]] using three_ind.
  - by exists [].
  - by exists [stdPadding; stdPadding].
  - by exists [stdPadding].
  - exists pad. cbn [encode sextets]. rewrite IH. done.
Qed.

Lemma sextets_length src : 4 * length src <= 3 * length (sextets src).
Proof. induction src as [|a|a b|a b c src IH] using three_ind; simpl in *; lia. Qed.

Lemma land63_range z : (0 <= Z.land z 63 < 64)%Z.
Proof.
  change 63%Z with (Z.ones 6). rewrite Z.land_ones by lia. apply Z.mod_pos_bound. lia.
Qed.

Lemma sextets_range src : Forall (fun v => 0 <= v < 64)%Z (sextets src).
Proof.
  induction src as [|a|a b|a b c src IH] using three_ind; simpl;
    repeat (constructor; [apply land63_range|]); done.
Qed.

Lemma byte_high b k : (0 <= b < 256)%Z -> (8 <= k)%Z -> Z.testbit b k = false.
Proof.
  intros Hb Hk. destruct (decide (b = 0)%Z) as [->|]; [apply Z.testbit_0_l|].
  apply Z.bits_above_log2; [lia|]. apply Z.log2_lt_pow2; [lia|].
  apply (Z.lt_le_trans _ (2 ^ 8)); [lia|]. apply Z.pow_le_mono_r; lia.
Qed.

Lemma bits_inj w x y : (0 <= x < 2 ^ Z.of_nat w)%Z -> (0 <= y < 2 ^ Z.of_nat w)%Z ->
  bits w x = bits w y -> x = y.
Proof.
  intros Hx Hy He. apply Z.bits_inj'. intros k Hk. destruct (decide (k < Z.of_nat w)%Z).
  - assert (bits w x !! (w - 1 - Z.to_nat k) = bits w y !! (w - 1 - Z.to_nat k)) as Hl by congruence.
    unfold bits in Hl. rewrite !list_lookup_fmap, !lookup_seq_lt in Hl by lia. simpl in Hl.
    injection Hl as Hl. replace (w - 1 - (w - 1 - Z.to_nat k)) with (Z.to_nat k) in Hl by lia.
    by rewrite Z2Nat.id in Hl by lia.
  - assert (forall z, (0 <= z < 2 ^ Z.of_nat w)%Z -> Z.testbit z k = false) as Hh; [|by rewrite !Hh].
    intros z Hz. destruct (decide (z = 0)%Z) as [->|]; [apply Z.testbit_0_l|].
    apply Z.bits_above_log2; [lia|]. apply Z.log2_lt_pow2; [lia|].
    apply (Z.lt_le_trans _ (2 ^ Z.of_nat w)); [lia|]. apply Z.pow_le_mono_r; lia.
Qed.
(** The bits of the sextets are the bits of the bytes, and zeros. *)
Lemma bit_sextet v s k : (0 <= k < 6)%Z -> (0 <= s)%Z ->
  Z.testbit (Z.land (Z.shiftr v s) 63) k = Z.testbit v (k + s).
Proof.
  intros Hk Hs. rewrite Z.land_spec, Z.shiftr_spec by lia. change 63%Z with (Z.ones 6).
  by rewrite Z.ones_spec_low, andb_true_r by lia.
Qed.

Lemma bit_val b0 b1 b2 k :
  (0 <= b0 < 256)%Z -> (0 <= b1 < 256)%Z -> (0 <= b2 < 256)%Z -> (0 <= k < 24)%Z ->
  Z.testbit (Z.lor (Z.lor (Z.shiftl b0 16) (Z.shiftl b1 8)) b2) k
  = if decide (16 <= k)%Z then Z.testbit b0 (k - 16)
    else if decide (8 <= k)%Z then Z.testbit b1 (k - 8) else Z.testbit b2 k.
Proof.
  intros H0 H1 H2 Hk. rewrite !Z.lor_spec, !Z.shiftl_spec by lia.
  repeat case_decide.
  - rewrite (byte_high b1), (byte_high b2) by lia. by rewrite !orb_false_r.
  - rewrite (Z.testbit_neg_r b0), (byte_high b2) by lia. by rewrite orb_false_r.
  - by rewrite (Z.testbit_neg_r b0), (Z.testbit_neg_r b1) by lia.
Qed.

Lemma group_bits b0 b1 b2 :
  (0 <= b0 < 256)%Z -> (0 <= b1 < 256)%Z -> (0 <= b2 < 256)%Z ->
  let val := Z.lor (Z.lor (Z.shiftl b0 16) (Z.shiftl b1 8)) b2 in
  allBits 6 [Z.land (Z.shiftr val 18) 63; Z.land (Z.shiftr val 12) 63;
             Z.land (Z.shiftr val 6) 63; Z.land val 63] = allBits 8 [b0; b1; b2].
Proof.
  intros H0 H1 H2 val. rewrite <-(Z.shiftr_0_r val) at 4. unfold allBits, bits. cbn.
  rewrite !bit_sextet by lia. unfold val. rewrite !bit_val by lia. reflexivity.
Qed.

Lemma allBits_app w l1 l2 : allBits w (l1 ++ l2) = allBits w l1 ++ allBits w l2.
Proof. unfold allBits. by rewrite fmap_app, join_app. Qed.

Lemma bits_length w z : length (bits w z) = w.
Proof. unfold bits. by rewrite length_fmap, length_seq. Qed.

Lemma allBits_length w l : length (allBits w l) = w * length l.
Proof.
  induction l as [|x l IH]; [simpl; lia|]. change (allBits w (x :: l)) with (bits w x ++ allBits w l).
  rewrite length_app, bits_length, IH. simpl. lia.
Qed.

Lemma take_allBits w n l : take (w * n) (allBits w l) = allBits w (take n l).
Proof.
  revert n. induction l as [|x l IH]; intros [|n];
    [by rewrite Nat.mul_0_r|by rewrite take_nil; apply take_nil|by rewrite Nat.mul_0_r|].
  change (allBits w (x :: l)) with (bits w x ++ allBits w l). simpl take.
  change (allBits w (x :: ?k)) with (bits w x ++ allBits w k).
  replace (w * S n) with (length (bits w x) + w * n) by (rewrite bits_length; lia).
  by rewrite take_app_add, IH.
Qed.

(** A last group counts as one completed with zero bytes. *)
Lemma sextets_bits src : Forall (fun b => 0 <= b < 256)%Z src ->
  exists zs, allBits 6 (sextets src) = allBits 8 src ++ zs.
Proof.
  induction src as [|a|a b|a b c src IH] using three_ind; intros Hs; decompose_Forall_hyps.
  - by exists [].
  - pose proof (group_bits a 0 0 ltac:(lia) ltac:(lia) ltac:(lia)) as Hg. cbn zeta in Hg.
    rewrite Z.shiftl_0_l, !Z.lor_0_r in Hg.
    apply (f_equal (take (6 * 2))) in Hg. rewrite take_allBits in Hg.
    exists (replicate 4 false). exact Hg.
  - pose proof (group_bits a b 0 ltac:(lia) ltac:(lia) ltac:(lia)) as Hg. cbn zeta in Hg.
    rewrite !Z.lor_0_r in Hg.
    apply (f_equal (take (6 * 3))) in Hg. rewrite take_allBits in Hg.
    exists (replicate 2 false). exact Hg.
  - destruct IH as [zs IH]; [done|]. exists zs. cbn [sextets].
    change (?x :: ?y :: ?z :: ?w :: sextets src) with ([x; y; z; w] ++ sextets src).
    rewrite allBits_app, group_bits, IH, app_assoc by done. done.
Qed.

Lemma allBits_inj w l1 l2 :
  0 < w -> Forall (fun v => 0 <= v < 2 ^ Z.of_nat w)%Z l1 -> Forall (fun v => 0 <= v < 2 ^ Z.of_nat w)%Z l2 ->
  allBits w l1 = allBits w l2 -> l1 = l2.
Proof.
  intros Hw. revert l2. induction l1 as [|x l1 IH]; intros [|y l2] H1 H2 He; [done| | |].
  - apply (f_equal length) in He. rewrite !allBits_length in He. simpl in He. lia.
  - apply (f_equal length) in He. rewrite !allBits_length in He. simpl in He. lia.
  - decompose_Forall_hyps. unfold allBits in He. simpl in He.
    apply app_inj_1 in He as [Hb He]; [|by rewrite !bits_length].
    f_equal; [by eapply bits_inj|]. by apply IH.
Qed.

(** ** Random strings *)

Lemma letter_lookup v : (0 <= v < 64)%Z -> alphabet !! Z.to_nat v = Some (letter v).
Proof.
  intros Hv. unfold letter. destruct (lookup_lt_is_Some_2 alphabet (Z.to_nat v)) as [c Hc].
  { change (length alphabet) with 64. lia. }
  by rewrite Hc.
Qed.

Lemma letter_inj v v' : (0 <= v < 64)%Z -> (0 <= v' < 64)%Z -> letter v = letter v' -> v = v'.
Proof.
  intros Hv Hv' He. pose proof (letter_lookup v Hv) as H1. pose proof (letter_lookup v' Hv') as H2.
  rewrite <-He in H2. assert (NoDup alphabet) as Hnd.
  { apply (bool_decide_eq_true_1 (NoDup alphabet)). vm_compute. reflexivity. }
  pose proof (NoDup_lookup _ _ _ _ Hnd H1 H2). lia.
Qed.

Lemma letters_inj l l' : Forall (fun v => 0 <= v < 64)%Z l -> Forall (fun v => 0 <= v < 64)%Z l' ->
  letter <$> l = letter <$> l' -> l = l'.
Proof.
  intros H. revert l'. induction H as [|v l Hv _ IH]; intros [|v' l']; csimpl; try done.
  intros Hl' [= E1 E2]. apply Forall_cons in Hl' as [Hv' Hl'].
  f_equal; [by apply letter_inj|by apply IH].
Qed.

(** What [Randstring] returns. *)
Lemma Randstring_eq read n : readOk read -> (0 <= n < 2 ^ 62)%Z ->
  Randstring read n
  = Return (String.string_of_list_ascii (letter <$> take (Z.to_nat n) (sextets (read (Z.to_nat (2 * n)))))).
Proof.
  intros [Hlen _] Hn. unfold Randstring. rewrite wrap64_small by (unfold int_min, int_max; lia).
  unfold go_make. rewrite decide_True by lia. cbn [mbind outcome_bind]. rewrite length_replicate.
  set (src := read (Z.to_nat (2 * n))).
  destruct (encode_sextets src) as [pad Hp]. pose proof (sextets_length src) as Hs.
  unfold src in Hs at 1. rewrite Hlen in Hs.
  unfold str_take, len. rewrite Hp, length_app, length_fmap, decide_True by lia. cbn [mbind outcome_bind].
  by rewrite take_app_le, fmap_take by (rewrite length_fmap; lia).
Qed.

Lemma str_length l : String.length (String.string_of_list_ascii l) = length l.
Proof. induction l as [|c l IH]; simpl; congruence. Qed.

(** Every character of a list of letters is in the alphabet. *)
Lemma letters_alphabet l : Forall (fun v => 0 <= v < 64)%Z l -> Forall (fun c => c ∈ alphabet) (letter <$> l).
Proof.
  intros H. apply Forall_fmap. eapply Forall_impl; [exact H|]. intros v Hv. simpl.
  eapply list_elem_of_lookup_2. by apply letter_lookup.
Qed.

(** [Randstring] is within bounds.  For every length [n] from 0 up to 2^62,
    the slice [s[0:n]] of the base64 text of [2n] random bytes is within the
    text, so it returns a string of exactly [n] characters, all of the 64
    letters of the URL-safe alphabet (never the padding); for a negative [n]
    it panics. *)
Theorem randstring_bounds read n :
  readOk read ->
  ((0 <= n < 2 ^ 62)%Z -> exists s, Randstring read n = Return s /\
     Z.of_nat (String.length s) = n /\ Forall (fun c => c ∈ alphabet) (String.list_ascii_of_string s)) /\
  ((int_min <= n < 0)%Z -> exists m, Randstring read n = Panic m).
Proof.
  intros Hr. split; intros Hn.
  - rewrite (Randstring_eq read n Hr Hn). eexists. split; [done|].
    rewrite String.list_ascii_of_string_of_list_ascii. split.
    + pose proof (sextets_length (read (Z.to_nat (2 * n)))) as Hs. rewrite (ro_len _ Hr) in Hs.
      rewrite str_length, length_fmap, length_take. lia.
    + apply letters_alphabet, Forall_take, sextets_range.
  - unfold Randstring, go_make. case_decide; [|by eexists]. cbn [mbind outcome_bind].
    unfold str_take. rewrite decide_False by lia. by eexists.
Qed.

(** Two random strings collide exactly when their first [6n] random bits do:
    [Randstring n] keeps six bits of randomness per character. *)
Theorem randstring_collides read read' n :
  readOk read -> readOk read' -> (0 <= n < 2 ^ 62)%Z ->
  Randstring read n = Randstring read' n <->
  take (Z.to_nat (6 * n)) (allBits 8 (read (Z.to_nat (2 * n))))
  = take (Z.to_nat (6 * n)) (allBits 8 (read' (Z.to_nat (2 * n)))).
Proof.
  intros Hr Hr' Hn. rewrite !Randstring_eq by done.
  assert (forall r, readOk r -> take (Z.to_nat (6 * n)) (allBits 8 (r (Z.to_nat (2 * n))))
    = allBits 6 (take (Z.to_nat n) (sextets (r (Z.to_nat (2 * n)))))) as Hb.
  { intros r Ho. destruct (sextets_bits (r (Z.to_nat (2 * n)))) as [zs Hz]; [apply Ho|].
    rewrite <-take_allBits, Hz. replace (6 * Z.to_nat n) with (Z.to_nat (6 * n)) by lia.
    rewrite take_app_le; [done|]. rewrite allBits_length, (ro_len _ Ho). lia. }
  rewrite !Hb by done. split; [|by intros ->%allBits_inj; [|lia|apply Forall_take, sextets_range..]].
  intros [= He]. apply (f_equal String.list_ascii_of_string) in He.
  rewrite !String.list_ascii_of_string_of_list_ascii in He.
  apply letters_inj in He as ->; [done|apply Forall_take, sextets_range..].
Qed.

(** ** The shuffle *)

Section ShuffleProofs.
Context {A : Type}.
Implicit Types (l q p : list A).

Lemma shuffle_cong f f' idx : forall l, (forall i, i ∈ idx -> f i = f' i) ->
  shuffle f idx l = shuffle f' idx l.
Proof.
  induction idx as [|i idx IH]; intros l Hf; simpl; [done|]. rewrite (Hf i) by left.
  repeat (destruct (slice_get _ _); [|done..]; csimpl).
  repeat (destruct (slice_set _ _ _); [|done..]; csimpl).
  apply IH. intros j Hj. apply Hf. by right.
Qed.

(** The swap of the last iteration, when the earlier ones made [q]. *)
Definition lastSwap (j : nat) q (x : A) : list A :=
  match q !! j with Some z => <[j := x]> q ++ [z] | None => q ++ [x] end.

(** One iteration on a list: positions [i] and [j] are exchanged. *)
Lemma shuffle_one (f : nat -> Z) i idx l j x y :
  f i = Z.of_nat j -> l !! j = Some x -> l !! i = Some y ->
  shuffle f (i :: idx) l = shuffle f idx (<[j := y]> (<[i := x]> l)).
Proof.
  intros Hf Hj Hi. simpl. rewrite Hf, (slice_get_Some _ _ _ Hj). csimpl.
  rewrite (slice_get_Some _ _ _ Hi). csimpl.
  apply lookup_lt_Some in Hj, Hi. unfold slice_set, len.
  rewrite decide_True, Nat2Z.id by lia. csimpl.
  by rewrite decide_True, Nat2Z.id by (rewrite length_insert; lia).
Qed.

(** Iterations below [n] leave the rest alone, and the last one swaps. *)
Lemma shuffle_snoc f l x : IntnOk f ->
  exists q, shuffle f (seq 0 (length l)) l = Return q /\ length q = length l /\
    shuffle f (seq 0 (S (length l))) (l ++ [x]) = Return (lastSwap (Z.to_nat (f (length l))) q x).
Proof.
  intros Hf.
  assert (forall k (m r : list A), k + length m = length r -> forall s,
    exists q, shuffle f (seq k (length m)) r = Return q /\ length q = length r /\
      shuffle f (seq k (length m) ++ s) (r ++ [x]) = shuffle f s (q ++ [x])) as Hgen.
  { intros k m. revert k. induction m as [|a m IH]; intros k r Hk s; [by exists r|].
    cbn [length seq app]. cbn [length] in Hk. specialize (Hf k).
    destruct (lookup_lt_is_Some_2 r (Z.to_nat (f k))) as [u Hu]; [lia|].
    destruct (lookup_lt_is_Some_2 r k) as [v Hv]; [lia|].
    assert (f k = Z.of_nat (Z.to_nat (f k))) as Hz by lia.
    rewrite (shuffle_one f k _ r _ u v Hz Hu Hv).
    rewrite (shuffle_one f k _ (r ++ [x]) _ u v Hz) by (by apply lookup_app_l_Some).
    rewrite insert_app_l by lia. rewrite insert_app_l by (rewrite length_insert; lia).
    edestruct (IH (S k)) as (q & H1 & H2 & H3); [|exists q; split_and!; [exact H1| |exact H3]].
    - rewrite !length_insert. lia.
    - by rewrite H2, !length_insert. }
  destruct (Hgen 0 l l eq_refl [length l]) as (q & H1 & H2 & H3). exists q. split_and!; [done|done|].
  rewrite seq_S. change (0 + length l) with (length l). rewrite H3. specialize (Hf (length l)).
  assert (f (length l) = Z.of_nat (Z.to_nat (f (length l)))) as Hz by lia.
  set (j := Z.to_nat (f (length l))) in *. unfold lastSwap.
  assert ((q ++ [x]) !! length l = Some x) as Hx by (rewrite <-H2; by apply list_lookup_middle).
  destruct (q !! j) as [z|] eqn:Hj.
  - rewrite (shuffle_one f _ _ _ j z x Hz); [|by apply lookup_app_l_Some|done].
    simpl. f_equal. apply lookup_lt_Some in Hj as Hlt.
    rewrite <-H2, insert_app_r_alt, Nat.sub_diag by lia. by rewrite insert_app_l.
  - apply lookup_ge_None in Hj. assert (j = length l) as Ej by lia.
    rewrite (shuffle_one f _ _ _ j x x Hz); [|by rewrite Ej|done]. simpl. f_equal.
    rewrite Ej. rewrite !list_insert_id; [done|done|]. by rewrite list_insert_id.
Qed.

Lemma lastSwap_perm j q x : lastSwap j q x ≡ₚ q ++ [x].
Proof.
  unfold lastSwap. destruct (q !! j) as [z|] eqn:Hj; [|done].
  rewrite <-(take_drop_middle q j z Hj) at 2.
  rewrite insert_take_drop by (by eapply lookup_lt_Some). rewrite <-!app_assoc.
  apply Permutation_app_head. simpl. rewrite <-!Permutation_cons_append. constructor.
Qed.

(** The position of [x] tells which swap was made, and undoes it. *)
Lemma lastSwap_inj j j' q q' x :
  NoDup (q ++ [x]) -> NoDup (q' ++ [x]) -> length q = length q' -> j <= length q -> j' <= length q' ->
  lastSwap j q x = lastSwap j' q' x -> j = j' /\ q = q'.
Proof.
  assert (forall i r, i <= length r -> lastSwap i r x !! i = Some x) as Hpos.
  { intros i r Hi. unfold lastSwap. destruct (r !! i) as [z|] eqn:Hz.
    - apply lookup_lt_Some in Hz as ?. rewrite lookup_app_l by (rewrite length_insert; lia).
      by apply list_lookup_insert_eq.
    - apply lookup_ge_None in Hz. apply list_lookup_middle. lia. }
  intros H1 H2 Hl Hj Hj' He. assert (j = j') as <-.
  { pose proof (Hpos j q Hj) as E1. pose proof (Hpos j' q' Hj') as E2. rewrite <-He in E2.
    eapply NoDup_lookup; [|exact E1|exact E2]. by rewrite lastSwap_perm. }
  split; [done|]. unfold lastSwap in He.
  destruct (q !! j) as [z|] eqn:Hz.
  - apply lookup_lt_Some in Hz as Hlt. destruct (lookup_lt_is_Some_2 q' j) as [z' Hz']; [lia|].
    rewrite Hz' in He. apply app_inj_2 in He as [He [= <-]]; [|done].
    rewrite <-(list_insert_id q j z Hz), <-(list_insert_id q' j z Hz').
    by rewrite <-(list_insert_insert_eq q j z x), He, list_insert_insert_eq.
  - apply lookup_ge_None in Hz. rewrite (lookup_ge_None_2 q') in He by lia.
    by apply app_inj_2 in He as [-> _].
Qed.

Lemma lastSwap_surj p l x : p ≡ₚ l ++ [x] ->
  exists j q, j <= length l /\ q ≡ₚ l /\ lastSwap j q x = p.
Proof.
  intros Hp. assert (x ∈ p) as [j Hj]%list_elem_of_lookup by (rewrite Hp, elem_of_app; right; by left).
  pose proof (lookup_lt_Some _ _ _ Hj) as Hlt. pose proof (Permutation_length Hp) as Hlen.
  rewrite length_app in Hlen. simpl in Hlen.
  destruct (exists_last (l := p)) as (p0 & z & ->); [by intros ->|].
  rewrite length_app in Hlen, Hlt. simpl in Hlen, Hlt.
  destruct (decide (j < length p0)) as [Hj0|Hj0].
  - rewrite lookup_app_l in Hj by done. exists j, (<[j := z]> p0). split; [lia|]. split.
    + apply (Permutation_app_inv_r [x]). rewrite <-Hp.
      rewrite <-(lastSwap_perm j). unfold lastSwap.
      rewrite list_lookup_insert_eq, list_insert_insert_eq, list_insert_id by done. done.
    + unfold lastSwap. by rewrite list_lookup_insert_eq, list_insert_insert_eq, list_insert_id by done.
  - rewrite lookup_app_r in Hj by lia. replace (j - length p0) with 0 in Hj by lia.
    injection Hj as ->. exists j, p0. split; [lia|]. split.
    + by apply (Permutation_app_inv_r [x]).
    + unfold lastSwap. by rewrite lookup_ge_None_2 by lia.
Qed.
End ShuffleProofs.

(** [random_handles] is a fair shuffle.  Whatever numbers [rand.Intn] delivers,
    it returns a permutation of the handles; and for different handles every
    permutation is the result of exactly one sequence of those numbers, so that
    uniform independent numbers make every order equally likely. *)
Theorem random_handles_fair {A} (kvh : list A) :
  (forall f, IntnOk f -> exists sa, random_handles f kvh = Return sa /\ sa ≡ₚ kvh) /\
  (NoDup kvh -> forall p, p ≡ₚ kvh ->
     exists f, IntnOk f /\ random_handles f kvh = Return p /\
       forall f', IntnOk f' -> random_handles f' kvh = Return p ->
         forall i, i < length kvh -> f' i = f i).
Proof.
  unfold random_handles. split.
  - intros f Hf. induction kvh as [|x l IH] using rev_ind; [by exists []|].
    destruct IH as (sa & Hs & Hp). destruct (shuffle_snoc f l x Hf) as (q & H1 & _ & H2).
    rewrite length_app, Nat.add_1_r, H2. eexists. split; [done|].
    rewrite lastSwap_perm. f_equiv. congruence.
  - induction kvh as [|x l IH] using rev_ind; intros Hnd p Hp.
    { apply Permutation_nil_r in Hp as ->. exists (fun _ => 0%Z). split; [intros i; lia|].
      split; [done|]. simpl. lia. }
    pose proof Hnd as (Hnl & _ & _)%NoDup_app.
    destruct (lastSwap_surj p l x Hp) as (j & q & Hj & Hq & <-).
    destruct (IH Hnl q Hq) as (f & Hf & Hs & Hu).
    set (f1 := fun i => if decide (i = length l) then Z.of_nat j else f i).
    assert (IntnOk f1) as Hf1.
    { intros i. unfold f1. case_decide; [lia|apply Hf]. }
    assert (shuffle f1 (seq 0 (length l)) l = Return q) as Hs1.
    { rewrite <-Hs. apply shuffle_cong. intros i Hi%elem_of_seq. unfold f1. rewrite decide_False; [done|lia]. }
    exists f1. split; [done|]. rewrite length_app, Nat.add_1_r. split.
    + destruct (shuffle_snoc f1 l x Hf1) as (q' & E1 & _ & ->). rewrite Hs1 in E1. injection E1 as <-.
      unfold f1. by rewrite decide_True, Nat2Z.id.
    + intros f' Hf' Hr i Hi. destruct (shuffle_snoc f' l x Hf') as (q' & E1 & El & E2).
      rewrite E2 in Hr. injection Hr as Hr. pose proof (Hf' (length l)) as Hb.
      assert (q' ≡ₚ l) as Hq'.
      { apply (Permutation_app_inv_r [x]). rewrite <-(lastSwap_perm (Z.to_nat (f' (length l)))), Hr.
        rewrite lastSwap_perm. by f_equiv. }
      pose proof (Permutation_length Hq) as Lq.
      destruct (lastSwap_inj (Z.to_nat (f' (length l))) j q' q x) as [Ej ->];
        [by rewrite Hq'|by rewrite Hq|congruence|lia|lia|done|].
      unfold f1. case_decide as Hd; [subst i; lia|]. apply Hu; [done|done|lia].
Qed.

(** ** Witnesses *)

(** The bytes [b], [b+1], ... *)
Definition counting (b : Z) (k : nat) : list Z := (fun i => (b + Z.of_nat i) mod 256)%Z <$> seq 0 k.

Lemma counting_ok b : readOk (counting b).
Proof.
  constructor; intros k; unfold counting; [by rewrite length_fmap, length_seq|].
  apply Forall_fmap, Forall_forall. intros i _. apply Z.mod_pos_bound. lia.
Qed.

Lemma randstring_bounds_witness :
  exists s, Randstring (counting 250) 20 = Return s /\ Z.of_nat (String.length s) = 20%Z.
Proof.
  destruct (randstring_bounds (counting 250) 20 (counting_ok 250)) as [(s & Hs & Hl & _) _]; [lia|].
  exists s. split; [exact Hs|exact Hl].
Defined.

Lemma randstring_collides_witness :
  readOk (counting 1) /\ Randstring (counting 1) 3 <> Randstring (counting 2) 3.
Proof.
  split; [apply counting_ok|]. intros H. apply (randstring_collides (counting 1) (counting 2) 3 (counting_ok 1) (counting_ok 2)) in H;
    [|lia]. vm_compute in H. discriminate.
Defined.

Lemma random_handles_fair_witness :
  exists f, IntnOk f /\ random_handles f ["a"; "b"; "c"] = Return ["c"; "a"; "b"].
Proof.
  destruct (random_handles_fair ["a"; "b"; "c"]) as [_ H].
  destruct (H ltac:(apply (bool_decide_eq_true_1 (NoDup _)); reflexivity) ["c"; "a"; "b"]) as (f & Hf & Hr & _).
  - apply (bool_decide_eq_true_1 (["c"; "a"; "b"] ≡ₚ ["a"; "b"; "c"])). vm_compute. reflexivity.
  - exists f. split; [exact Hf|exact Hr].
Defined.

End Random.
