(* ===== verification/Gob.v ===== *)
(** * Go's gob encoding of an integer

    [labgob] hands values to Go's [encoding/gob].  The labs' servers snapshot a
    single [int]; this file has the bytes that gob writes for it, with its
    variable-length integers and message framing, the decoder, and their round
    trip.  Bytes are integers from 0 to 255. *)

From S2P Require Import Prelude.

Module Gob.

(** ** Unsigned integers *)

(** The big-endian bytes of [x], without leading zeros, before [acc]. *)
Fixpoint bigEndian (fuel : nat) (x : Z) (acc : list Z) : list Z :=
  match fuel with
  | O => acc
  | S fuel => if decide (x = 0)%Z then acc else bigEndian fuel (Z.shiftr x 8) (Z.land x 255 :: acc)
  end.

(** One byte up to 127; otherwise the negated number of bytes, and the bytes. *)
Definition encodeUint (x : Z) : list Z :=
  if decide (x <= 127)%Z then [x]
  else let bs := bigEndian 8 x [] in (256 - len bs)%Z :: bs.

Definition bytesValue (x : Z) (bs : list Z) : Z := foldl (fun x b => Z.lor (Z.shiftl x 8) b) x bs.

Definition decodeUint (l : list Z) : option (Z * list Z) :=
  match l with
  | [] => None
  | b :: l =>
      if decide (b <= 127)%Z then Some (b, l)
      else
        let n := (256 - b)%Z in
        if decide (n > 8)%Z then None
        else if decide (len l < n)%Z then None
        else Some (bytesValue 0 (take (Z.to_nat n) l), drop (Z.to_nat n) l)
  end.

(** ** Signed integers: the sign is the lowest bit *)

Definition fromInt (i : Z) : Z :=
  if decide (i < 0)%Z then Z.lor (Z.shiftl (Z.lnot i) 1) 1 else Z.shiftl i 1.
Definition toInt (x : Z) : Z :=
  if decide (Z.land x 1 <> 0)%Z then Z.lnot (Z.shiftr x 1) else Z.shiftr x 1.

Definition encodeInt (i : Z) : list Z := encodeUint (fromInt i).
Definition decodeInt (l : list Z) : option (Z * list Z) :=
  '(x, l) ← decodeUint l; Some (toInt x, l).

(** ** A message with one integer *)

Definition tInt : Z := 2.

(** [Encode] of an [int]: the length of the message, the type, a zero field
    delta and the value. *)
Definition Encode (v : Z) : list Z :=
  let body := encodeInt tInt ++ encodeUint 0 ++ encodeInt v in
  encodeUint (len body) ++ body.

(** [Decode] into an [int]: an error when the message is cut short, has another
    type or a non-zero delta. *)
Definition Decode (data : list Z) : option Z :=
  '(n, l) ← decodeUint data;
  if decide (len l < n)%Z then None
  else
    '(ty, l) ← decodeInt (take (Z.to_nat n) l);
    if decide (ty <> tInt) then None
    else
      '(delta, l) ← decodeUint l;
      if decide (delta <> 0)%Z then None
      else '(v, _) ← decodeInt l; Some v.

(** A decoder reads its stream message by message; the rest of the stream is
    returned. *)
Definition DecodeNext (data : list Z) : option (Z * list Z) :=
  '(n, l) ← decodeUint data;
  if decide (len l < n)%Z then None
  else v ← Decode (encodeUint n ++ take (Z.to_nat n) l); Some (v, drop (Z.to_nat n) l).

(** ** Round trips *)

Lemma lor_shift8 q r : (0 <= r < 256)%Z -> Z.lor (Z.shiftl q 8) r = (q * 256 + r)%Z.
Proof.
  intros Hr. assert (Z.land (Z.shiftl q 8) r = 0)%Z as Hl.
  { apply Z.bits_inj'. intros k Hk. rewrite Z.land_spec, Z.shiftl_spec, Z.bits_0 by lia.
    destruct (decide (k < 8)%Z).
    - by rewrite (Z.testbit_neg_r q) by lia.
    - destruct (decide (r = 0)%Z) as [->|]; [by rewrite Z.bits_0, andb_false_r|].
      rewrite (Z.bits_above_log2 r), andb_false_r; [done|lia|].
      apply Z.log2_lt_pow2; [lia|]. apply (Z.lt_le_trans _ (2 ^ 8)); [lia|].
      apply Z.pow_le_mono_r; lia. }
  rewrite <-Z.lxor_lor, <-Z.add_nocarry_lxor by done. by rewrite Z.shiftl_mul_pow2 by lia.
Qed.

Lemma byte_split x : (0 <= x)%Z ->
  Z.lor (Z.shiftl (Z.shiftr x 8) 8) (Z.land x 255) = x.
Proof.
  intros Hx. change 255%Z with (Z.ones 8). rewrite Z.land_ones, Z.shiftr_div_pow2 by lia.
  change (2 ^ 8)%Z with 256%Z. rewrite lor_shift8 by (apply Z.mod_pos_bound; lia).
  pose proof (Z.div_mod x 256). lia.
Qed.

Lemma bigEndian_value fuel : forall x acc, (0 <= x < 256 ^ Z.of_nat fuel)%Z ->
  bytesValue 0 (bigEndian fuel x acc) = bytesValue x acc.
Proof.
  induction fuel as [|fuel IH]; intros x acc Hx; simpl.
  { change (256 ^ Z.of_nat 0)%Z with 1%Z in Hx. by replace x with 0%Z by lia. }
  case_decide as H0; [by subst|]. rewrite IH.
  - unfold bytesValue at 1. simpl. by rewrite byte_split by lia.
  - rewrite Nat2Z.inj_succ, Z.pow_succ_r in Hx by lia. rewrite Z.shiftr_div_pow2 by lia.
    change (2 ^ 8)%Z with 256%Z. split; [apply Z.div_pos; lia|]. apply Z.div_lt_upper_bound; lia.
Qed.

Lemma bigEndian_length fuel : forall x acc,
  length acc <= length (bigEndian fuel x acc) <= fuel + length acc.
Proof.
  induction fuel as [|fuel IH]; intros x acc; simpl; [lia|]. case_decide; [lia|].
  specialize (IH (Z.shiftr x 8) (Z.land x 255 :: acc)). simpl in IH. lia.
Qed.

Lemma bigEndian_nonempty fuel x : x <> 0%Z -> 1 <= length (bigEndian (S fuel) x []).
Proof.
  intros Hx. cbn [bigEndian]. rewrite decide_False by done.
  pose proof (bigEndian_length fuel (Z.shiftr x 8) [Z.land x 255]) as H.
  change (length [Z.land x 255]) with 1 in H. lia.
Qed.

Lemma Uint_roundtrip x r : (0 <= x < 2 ^ 64)%Z -> decodeUint (encodeUint x ++ r) = Some (x, r).
Proof.
  intros Hx. unfold encodeUint. case_decide as Hs; cbn [app decodeUint]; [by rewrite decide_True|].
  pose proof (bigEndian_length 8 x []) as Hl. pose proof (bigEndian_nonempty 7 x ltac:(lia)) as Hn.
  set (bs := bigEndian 8 x []) in *. change (length (@nil Z)) with 0 in Hl. unfold len.
  rewrite decide_False by lia. replace (256 - (256 - Z.of_nat (length bs)))%Z with (Z.of_nat (length bs)) by lia.
  rewrite !decide_False by (rewrite ?length_app; lia). rewrite Nat2Z.id, take_app_length, drop_app_length.
  do 2 f_equal. apply (bigEndian_value 8). exact Hx.
Qed.

Lemma land1 x : Z.land x 1 = (x `mod` 2)%Z.
Proof. change 1%Z with (Z.ones 1). by rewrite Z.land_ones by lia. Qed.

(** Shifting left by one and setting the lowest bit. *)
Lemma lor_double z : Z.lor (Z.shiftl z 1) 1 = (2 * z + 1)%Z.
Proof.
  rewrite Z.shiftl_mul_pow2 by lia. change (2 ^ 1)%Z with 2%Z.
  assert (Z.land (z * 2) 1 = 0)%Z as Hl.
  { rewrite land1. by apply Z.mod_mul. }
  rewrite <-Z.lxor_lor, <-Z.add_nocarry_lxor by done. lia.
Qed.

Lemma fromInt_range i : (int_min <= i <= int_max)%Z -> (0 <= fromInt i < 2 ^ 64)%Z.
Proof.
  unfold int_min, int_max, fromInt, Z.lnot. intros Hi. case_decide; [rewrite lor_double; lia|].
  rewrite Z.shiftl_mul_pow2 by lia. lia.
Qed.

Lemma toInt_fromInt i : toInt (fromInt i) = i.
Proof.
  unfold toInt, fromInt. rewrite land1, !Z.shiftr_div_pow2 by lia.
  change (2 ^ 1)%Z with 2%Z. destruct (decide (i < 0)%Z).
  - rewrite lor_double, decide_True.
    + unfold Z.lnot. rewrite Z.mul_comm, Z.div_add_l by lia. change (1 / 2)%Z with 0%Z. lia.
    + rewrite Z.add_comm, Z.mul_comm, Z.mod_add by lia. done.
  - rewrite Z.shiftl_mul_pow2 by lia. change (2 ^ 1)%Z with 2%Z.
    rewrite decide_False by (rewrite Z.mod_mul by lia; lia). by rewrite Z.div_mul by lia.
Qed.

Lemma Int_roundtrip i r : (int_min <= i <= int_max)%Z -> decodeInt (encodeInt i ++ r) = Some (i, r).
Proof.
  intros Hi. unfold decodeInt, encodeInt. rewrite Uint_roundtrip by (by apply fromInt_range). simpl.
  by rewrite toInt_fromInt.
Qed.

Lemma encodeUint_length x : 1 <= length (encodeUint x) <= 9.
Proof.
  unfold encodeUint. case_decide; [simpl; lia|]. pose proof (bigEndian_length 8 x []) as Hl.
  change (length (@nil Z)) with 0 in Hl. cbn [length]. lia.
Qed.

Lemma body_length v : (0 <= len (encodeInt tInt ++ encodeUint 0 ++ encodeInt v) < 2 ^ 64)%Z.
Proof.
  unfold len, encodeInt. rewrite !length_app. pose proof (encodeUint_length (fromInt tInt)).
  pose proof (encodeUint_length 0). pose proof (encodeUint_length (fromInt v)). lia.
Qed.

(** Decoding an encoded [int] gives it back. *)
Lemma gob_int_roundtrip v : (int_min <= v <= int_max)%Z -> Decode (Encode v) = Some v.
Proof.
  intros Hv. unfold Decode, Encode. set (body := encodeInt tInt ++ _).
  pose proof (body_length v) as Hb. fold body in Hb.
  rewrite Uint_roundtrip by done. cbn [mbind option_bind]. rewrite decide_False by lia.
  unfold len. rewrite Nat2Z.id, take_ge by lia. unfold body.
  rewrite Int_roundtrip by (unfold int_min, int_max, tInt; lia). cbn [mbind option_bind].
  rewrite decide_False by (by intros ?). rewrite Uint_roundtrip by lia. cbn [mbind option_bind].
  rewrite decide_False by (by intros ?).
  by rewrite <-(app_nil_r (encodeInt v)), Int_roundtrip.
Qed.

(** A stream of encoded integers is read back one after the other. *)
Lemma gob_next_roundtrip v rest : (int_min <= v <= int_max)%Z -> DecodeNext (Encode v ++ rest) = Some (v, rest).
Proof.
  intros Hv. pose proof (gob_int_roundtrip v Hv) as Hd. unfold DecodeNext, Encode in *.
  set (body := encodeInt tInt ++ _) in *. pose proof (body_length v) as Hb. fold body in Hb.
  rewrite <-app_assoc, Uint_roundtrip by done. cbn [mbind option_bind].
  rewrite decide_False by (unfold len; rewrite length_app; lia).
  unfold len in *. rewrite !Nat2Z.id, take_app_length, drop_app_length. by rewrite Hd.
Qed.

(** The bytes of gob's documentation: the integer 7. *)
Example Encode_7 : Encode 7 = [3; 4; 0; 14]%Z.
Proof. reflexivity. Qed.

End Gob.
