(* ===== verification/MrRpc.v ===== *)
(** * MapReduce: the data the coordinator and its workers exchange

    Models [src/src/mr/rpc.go] (task types and states, RPC arguments and
    replies, the socket name) and [KeyValue] of [src/src/mr/worker.go]. *)

From S2P Require Import Prelude.

(** [TaskTypeT]: [MapTask] is the zero value. *)
Inductive TaskTypeT : Type :=
| MapTask | ReduceTask | Exit | Wait.

(** [TaskStatus]: [Success] is the zero value. *)
Inductive TaskStatus : Type :=
| Success | Fail | AskANewTask | Todo | Assigned.

#[export] Instance TaskTypeT_eq_dec : EqDecision TaskTypeT.
Proof. solve_decision. Defined.
#[export] Instance TaskStatus_eq_dec : EqDecision TaskStatus.
Proof. solve_decision. Defined.

Record ExampleArgs := { ExampleArgs_X : Z }.
Record ExampleReply := { ExampleReply_Y : Z }.

Record WorkerArgs := {
  WorkerArgs_TaskStatus : TaskStatus;
  WorkerArgs_WorkID : Z;
  WorkerArgs_TaskType : TaskTypeT
}.

Record CoordinatorReply := {
  TaskType : TaskTypeT;
  InputFiles : list string;
  NReduce : Z;
  WorkId : Z
}.

(** [CoordinatorReply{}]: every field has its zero value. *)
Definition zeroReply : CoordinatorReply :=
  {| TaskType := MapTask; InputFiles := []; NReduce := 0; WorkId := 0 |}.

(** [WorkerArgs{}]. *)
Definition zeroArgs : WorkerArgs :=
  {| WorkerArgs_TaskStatus := Success; WorkerArgs_WorkID := 0; WorkerArgs_TaskType := MapTask |}.

Record KeyValue := { Key : string; Value : string }.

#[export] Instance KeyValue_eq_dec : EqDecision KeyValue.
Proof. solve_decision. Defined.

(** The name of the coordinator's UNIX-domain socket, for user [uid]. *)
Definition coordinatorSock (uid : Z) : string := "/var/tmp/5840-mr-" +:+ Itoa uid.
