(* ===== verification/GoLib.v ===== *)
(** * The parts of Go's standard library the labs rely on

    [hash/fnv]'s 32-bit FNV-1a, byte-wise string order, decimal numbers, and two
    interfaces:
    what [sort.Slice] / [sort.Sort] promise about the order of key/value pairs,
    and what [encoding/json] promises about a stream of them.  Each interface
    comes with an instance. *)

From Stdlib Require Import Ascii.
From S2P Require Import Prelude MrRpc.

(** ** hash/fnv *)

Definition byte_of (c : ascii) : Z := Z.of_N (N_of_ascii c).

Definition fnv_offset32 : Z := 2166136261.
Definition fnv_prime32 : Z := 16777619.

(** [h := fnv.New32a(); h.Write([]byte(s)); h.Sum32()]. *)
Fixpoint fnv_write (h : Z) (s : string) : Z :=
  match s with
  | EmptyString => h
  | String c s => fnv_write (uwrap32 (Z.lxor h (byte_of c) * fnv_prime32)) s
  end.
Definition fnv32a (s : string) : Z := fnv_write fnv_offset32 s.

Example fnv32a_a : fnv32a "a" = 0xe40c292c%Z.
Proof. reflexivity. Qed.
Example fnv32a_foobar : fnv32a "foobar" = 0xbf9cf968%Z.
Proof. reflexivity. Qed.

Lemma uwrap32_range z : (0 <= uwrap32 z < 2 ^ 32)%Z.
Proof. unfold uwrap32. apply Z.mod_pos_bound. lia. Qed.

Lemma fnv32a_range s : (0 <= fnv32a s < 2 ^ 32)%Z.
Proof.
  unfold fnv32a. assert (0 <= fnv_offset32 < 2 ^ 32)%Z as H0 by (unfold fnv_offset32; lia).
  revert H0. generalize fnv_offset32. induction s as [|c s IH]; intros h Hh; simpl; [done|].
  apply IH, uwrap32_range.
Qed.
#[export] Hint Resolve fnv32a_range uwrap32_range : golabs.

(** ** Sorting by key *)

(** Go compares strings byte-wise; [String.le] is that order. *)
Definition key_le (a b : KeyValue) : Prop := (Key a ≤ Key b)%string.

#[export] Instance key_le_dec : RelDecision key_le.
Proof. intros a b. unfold key_le. apply _. Defined.
#[export] Instance key_le_total : Total key_le.
Proof. intros a b. unfold key_le. apply (total (≤)%string). Qed.
#[export] Instance key_le_trans : Transitive key_le.
Proof. intros a b c. unfold key_le. by intros; etrans. Qed.

(** What [sort.Slice] with [less i j := Key i < Key j] and
    [sort.Sort(ByKey(...))] promise: the same pairs, in non-decreasing key
    order; the order of equal keys is unspecified. *)
Class SortsByKey (sort : list KeyValue -> list KeyValue) : Prop := {
  sorts_perm l : sort l ≡ₚ l;
  sorts_sorted l : StronglySorted key_le (sort l)
}.

#[export] Instance merge_sort_SortsByKey : SortsByKey (merge_sort key_le).
Proof.
  split.
  - apply merge_sort_Permutation.
  - intros l. apply StronglySorted_merge_sort; apply _.
Qed.

(** ** String building *)

(** A line feed. *)
Definition NL : string := String "010"%char EmptyString.

(** [strings.Contains] *)
Fixpoint Contains (s sub : string) : bool :=
  String.prefix sub s || match s with EmptyString => false | String _ s => Contains s sub end.

(** The bytes written by successive writes to one file. *)
Definition str_concat (l : list string) : string := foldr String.app "" l.

Lemma str_app_nil_r s : s +:+ "" = s.
Proof. induction s as [|c s IH]; [done|]. change (String c (s +:+ "") = String c s). by rewrite IH. Qed.

Lemma str_app_assoc s1 s2 s3 : (s1 +:+ s2) +:+ s3 = s1 +:+ s2 +:+ s3.
Proof.
  induction s1 as [|c s IH]; [done|].
  change (String c ((s +:+ s2) +:+ s3) = String c (s +:+ s2 +:+ s3)). by rewrite IH.
Qed.

Lemma str_concat_app l1 l2 : str_concat (l1 ++ l2) = str_concat l1 +:+ str_concat l2.
Proof.
  induction l1 as [|s l1 IH]; [done|].
  change (s +:+ str_concat (l1 ++ l2) = (s +:+ str_concat l1) +:+ str_concat l2).
  by rewrite IH, str_app_assoc.
Qed.

Lemma str_length_app s1 s2 : String.length (s1 +:+ s2) = String.length s1 + String.length s2.
Proof.
  induction s1 as [|c s IH]; [done|].
  change (S (String.length (s +:+ s2)) = S (String.length s + String.length s2)). lia.
Qed.

(** ** Streams of JSON values *)

(** What [json.Encoder.Encode] and [json.Decoder.Decode] promise about
    key/value pairs: [Encode] writes one value followed by a newline,
    [Decode] skips leading newlines and reads one value back, consuming input,
    and fails at the end of the stream.  The pairs for which encoding is
    lossless are those satisfying [json_ok] (Go replaces invalid UTF-8). *)
Class JsonKV := {
  json_Encode : KeyValue -> string;
  json_Decode : string -> option (KeyValue * string);
  json_ok : KeyValue -> Prop;
  json_roundtrip kv rest :
    json_ok kv -> json_Decode (json_Encode kv +:+ rest) = Some (kv, NL +:+ rest);
  json_skip_newline s : json_Decode (NL +:+ s) = json_Decode s;
  json_eof : json_Decode "" = None;
  json_progress s kv rest :
    json_Decode s = Some (kv, rest) -> String.length rest < String.length s
}.

Section json_stream.
Context `{JsonKV}.

(** [for { var kv KeyValue; if dec.Decode(&kv) != nil { break }; ... }]:
    every iteration consumes input, so the length of the stream bounds the
    number of iterations. *)
Fixpoint decode_loop (fuel : nat) (s : string) : list KeyValue :=
  match fuel with
  | 0 => []
  | S fuel =>
      match json_Decode s with
      | Some (kv, rest) => kv :: decode_loop fuel rest
      | None => []
      end
  end.
Definition decode_all (s : string) : list KeyValue := decode_loop (S (String.length s)) s.

Lemma decode_loop_fuel n m s :
  String.length s < n -> n <= m -> decode_loop m s = decode_loop n s.
Proof.
  revert m s. induction n as [|n IH]; intros m s Hs Hm; [lia|].
  destruct m as [|m]; [lia|]. simpl.
  destruct (json_Decode s) as [[kv rest]|] eqn:E; [|done].
  apply json_progress in E. rewrite (IH m); [done|lia|lia].
Qed.

Lemma decode_all_step s :
  decode_all s = match json_Decode s with
                 | Some (kv, rest) => kv :: decode_all rest
                 | None => []
                 end.
Proof.
  unfold decode_all at 1. simpl. destruct (json_Decode s) as [[kv rest]|] eqn:E; [|done].
  apply json_progress in E. f_equal. apply decode_loop_fuel; lia.
Qed.

Lemma decode_all_newline s : decode_all (NL +:+ s) = decode_all s.
Proof. by rewrite decode_all_step, json_skip_newline, <-decode_all_step. Qed.

(** Reading back what was encoded. *)
Lemma decode_all_encode kvs :
  Forall json_ok kvs -> decode_all (str_concat (json_Encode <$> kvs)) = kvs.
Proof.
  induction 1 as [|kv kvs Hkv _ IH]; simpl.
  - by rewrite decode_all_step, json_eof.
  - rewrite decode_all_step. unfold str_concat. simpl.
    rewrite json_roundtrip by done. f_equal. by rewrite decode_all_newline.
Qed.
End json_stream.

(** ** Reading decimal numbers *)

(** The value of the leading decimal digits. *)
Fixpoint scanDigits (s : string) (acc : Z) : Z :=
  match s with
  | String c s =>
      match Ascii.is_nat c with
      | Some d => scanDigits s (acc * 10 + Z.of_nat d)
      | None => acc
      end
  | EmptyString => acc
  end.
Definition startsWithDigit (s : string) : bool :=
  match s with String c _ => match Ascii.is_nat c with Some _ => true | None => false end | _ => false end.

Lemma is_nat_pretty x : (x < 10)%N -> Ascii.is_nat (pretty_N_char x) = Some (N.to_nat x).
Proof.
  intros Hx. assert (x = 0 \/ x = 1 \/ x = 2 \/ x = 3 \/ x = 4 \/ x = 5 \/ x = 6 \/ x = 7 \/ x = 8 \/ x = 9)%N
    as H by lia. by repeat (destruct H as [->|H]; [reflexivity|]); subst.
Qed.

Lemma scanDigits_go x : forall s, scanDigits (pretty_N_go x s) 0 = scanDigits s (Z.of_N x).
Proof.
  induction (N.lt_wf_0 x) as [x _ IH]; intros s. destruct (decide (x = 0)%N) as [->|Hx]; [done|].
  rewrite pretty_N_go_step by lia. rewrite IH by (apply N.div_lt; lia). cbn [scanDigits].
  rewrite is_nat_pretty by (apply N.mod_lt; lia). f_equal.
  rewrite N_nat_Z, N2Z.inj_div, N2Z.inj_mod. pose proof (Z.div_mod (Z.of_N x) 10). lia.
Qed.

Lemma Itoa_nonneg z : (0 <= z)%Z -> exists c s, Itoa z = String c s /\ is_Some (Ascii.is_nat c) /\
  scanDigits (Itoa z) 0 = z.
Proof.
  intros Hz. assert (digits (Itoa z)) as Hd by (rewrite <-(Z2Nat.id z Hz); apply Itoa_nat_digits).
  assert (scanDigits (Itoa z) 0 = z) as Hs.
  { unfold Itoa, pretty, pretty_Z. destruct z as [|p|p]; [done| |lia].
    unfold pretty, pretty_positive, pretty, pretty_N. rewrite decide_False by done. apply scanDigits_go. }
  destruct (Itoa z) as [|c s] eqn:He.
  - exfalso. simpl in Hs. subst z. vm_compute in He. discriminate.
  - exists c, s. split_and!; [done|apply Hd|done].
Qed.

Lemma digit_not c : is_Some (Ascii.is_nat c) -> c <> "-"%char /\ c <> "+"%char /\ c <> " "%char /\ c <> "009"%char.
Proof. intros [d Hd]. split_and!; by intros ->. Qed.

(** An optional sign. *)
Definition splitSign (s : string) : bool * string :=
  match s with
  | String c s' => if decide (c = "-"%char) then (true, s') else if decide (c = "+"%char) then (false, s')
                   else (false, s)
  | EmptyString => (false, s)
  end.

Lemma splitSign_digit c s : is_Some (Ascii.is_nat c) -> splitSign (String c s) = (false, String c s).
Proof. intros (N1 & N2 & _)%digit_not. unfold splitSign. by rewrite !decide_False. Qed.

Fixpoint allDigits (s : string) : bool :=
  match s with
  | EmptyString => true
  | String c s => bool_decide (is_Some (Ascii.is_nat c)) && allDigits s
  end.

Lemma allDigits_digits s : digits s -> allDigits s = true.
Proof.
  induction s as [|c s IH]; [done|]. intros [Hc Hs]. simpl. rewrite IH by done.
  by rewrite bool_decide_eq_true_2.
Qed.

Lemma Itoa_digits z : (0 <= z)%Z -> digits (Itoa z).
Proof. intros Hz. rewrite <-(Z2Nat.id z Hz). apply Itoa_nat_digits. Qed.

Lemma Itoa_neg z : (z < 0)%Z -> Itoa z = "-" +:+ Itoa (- z).
Proof. by destruct z. Qed.

(** [strconv.ParseInt(s, 10, 64)]; [None] is an error. *)
Definition parseInt64 (s : string) : option Z :=
  let '(neg, ds) := splitSign s in
  let v := if neg then (- scanDigits ds 0)%Z else scanDigits ds 0 in
  if startsWithDigit ds && allDigits ds && bool_decide (int_min <= v <= int_max)%Z then Some v else None.

Lemma Itoa_reads z : (0 <= z)%Z ->
  startsWithDigit (Itoa z) = true /\ allDigits (Itoa z) = true /\ scanDigits (Itoa z) 0 = z /\
  splitSign (Itoa z) = (false, Itoa z).
Proof.
  intros Hz. destruct (Itoa_nonneg z Hz) as (c & s & E & [d Hc] & Hs).
  split_and!; [|by apply allDigits_digits, Itoa_digits|done|].
  - rewrite E. simpl. by rewrite Hc.
  - rewrite E. by apply splitSign_digit.
Qed.

Lemma parseInt64_Itoa z : (int_min <= z <= int_max)%Z -> parseInt64 (Itoa z) = Some z.
Proof.
  intros Hz. unfold parseInt64. destruct (decide (0 <= z)%Z) as [Hp|Hn].
  - destruct (Itoa_reads z Hp) as (H1 & H2 & H3 & ->). rewrite H1, H2, H3. by rewrite bool_decide_eq_true_2.
  - rewrite Itoa_neg by lia. rewrite str_cons_app, str_nil_app. cbn [splitSign].
    rewrite decide_True by done. destruct (Itoa_reads (- z)) as (H1 & H2 & H3 & _); [lia|].
    rewrite H1, H2, H3, Z.opp_involutive. by rewrite bool_decide_eq_true_2.
Qed.

(** ** sort and strings *)

(** [sort.Strings] and [strings.Join]. *)
Definition sortStrings : list string -> list string := merge_sort (≤)%string.

Definition Join (l : list string) (sep : string) : string :=
  match l with
  | [] => ""
  | s :: l => foldl (fun acc x => acc +:+ sep +:+ x) s l
  end.

#[export] Instance sortStrings_Proper : Proper ((≡ₚ) ==> (=)) sortStrings.
Proof.
  intros l l' Hp. unfold sortStrings.
  apply (StronglySorted_unique (≤)%string); [apply StronglySorted_merge_sort; apply _..|].
  by rewrite !merge_sort_Permutation.
Qed.
