(* ===== verification/Json.v ===== *)
(** * A JSON codec for key/value pairs

    An instance of [GoLib.JsonKV]: the text [json.Encoder] writes for a
    [KeyValue] whose fields are ASCII, with the escapes of Go's encoder
    (quotes, backslashes, control characters and the HTML-sensitive
    characters), and the reader of that text. *)

From Stdlib Require Import Ascii.
From S2P Require Import Prelude MrRpc GoLib.

Module Json.

Definition chr (n : nat) : ascii := ascii_of_nat n.
Definition code (c : ascii) : nat := nat_of_ascii c.

(** The two lower-case hexadecimal digits of a byte. *)
Definition hex (n : nat) : ascii := if n <? 10 then chr (48 + n) else chr (87 + n).
Definition unhex (c : ascii) : option nat :=
  let n := code c in
  if (48 <=? n) && (n <=? 57) then Some (n - 48)
  else if (97 <=? n) && (n <=? 102) then Some (n - 87)
  else if (65 <=? n) && (n <=? 70) then Some (n - 55)
  else None.

Definition backslash : ascii := chr 92.
Definition dquote : ascii := chr 34.

(** How one byte of a string appears between the quotes. *)
Definition escape_byte (c : ascii) : string :=
  let n := code c in
  if (n =? 34) || (n =? 92) then String backslash (String c "")
  else if n =? 8 then String backslash "b"
  else if n =? 12 then String backslash "f"
  else if n =? 10 then String backslash "n"
  else if n =? 13 then String backslash "r"
  else if n =? 9 then String backslash "t"
  else if (n <? 32) || (n =? 60) || (n =? 62) || (n =? 38) then
    String backslash (String "u" (String "0" (String "0"
      (String (hex (n / 16)) (String (hex (n mod 16)) "")))))
  else String c "".

Fixpoint escape (s : string) : string :=
  match s with
  | EmptyString => ""
  | String c s => escape_byte c +:+ escape s
  end.

(** The byte a one-letter escape stands for. *)
Definition unescape_letter (c : ascii) : option ascii :=
  let n := code c in
  if (n =? 34) || (n =? 92) || (n =? 47) then Some c
  else if n =? 98 then Some (chr 8)
  else if n =? 102 then Some (chr 12)
  else if n =? 110 then Some (chr 10)
  else if n =? 114 then Some (chr 13)
  else if n =? 116 then Some (chr 9)
  else None.

(** Read a string body up to its closing quote. *)
Fixpoint unquote (s : string) : option (string * string) :=
  match s with
  | EmptyString => None
  | String c s1 =>
      if code c =? 34 then Some ("", s1)
      else if code c =? 92 then
        match s1 with
        | EmptyString => None
        | String u s2 =>
            if code u =? 117 then
              match s2 with
              | String h1 (String h2 (String h3 (String h4 s3))) =>
                  match unhex h1, unhex h2, unhex h3, unhex h4, unquote s3 with
                  | Some 0, Some 0, Some d1, Some d2, Some (r, rest) =>
                      Some (String (chr (16 * d1 + d2)) r, rest)
                  | _, _, _, _, _ => None
                  end
              | _ => None
              end
            else
              match unescape_letter u, unquote s2 with
              | Some b, Some (r, rest) => Some (String b r, rest)
              | _, _ => None
              end
        end
      else if code c <? 32 then None
      else
        match unquote s1 with
        | Some (r, rest) => Some (String c r, rest)
        | None => None
        end
  end.

(** The fixed text around the two string bodies. *)
Definition open_key : string :=
  "{" +:+ String dquote "Key" +:+ String dquote ":" +:+ String dquote "".
Definition open_value : string :=
  "," +:+ String dquote "Value" +:+ String dquote ":" +:+ String dquote "".

Definition Encode (kv : KeyValue) : string :=
  open_key +:+ escape (Key kv) +:+ String dquote "" +:+
  open_value +:+ escape (Value kv) +:+ String dquote "" +:+ "}" +:+ NL.

Fixpoint strip_prefix (p s : string) : option string :=
  match p, s with
  | EmptyString, _ => Some s
  | String a p, String b s => if decide (a = b) then strip_prefix p s else None
  | String _ _, EmptyString => None
  end.

Definition decode_value (s : string) : option (KeyValue * string) :=
  s1 ← strip_prefix open_key s;
  '(k, s2) ← unquote s1;
  s3 ← strip_prefix open_value s2;
  '(v, s4) ← unquote s3;
  s5 ← strip_prefix "}" s4;
  Some ({| Key := k; Value := v |}, s5).

(** [Decode] skips line feeds before the value. *)
Fixpoint Decode (s : string) : option (KeyValue * string) :=
  match s with
  | String c s' => if code c =? 10 then Decode s' else decode_value s
  | EmptyString => None
  end.

(** Pairs whose fields are ASCII. *)
Fixpoint ascii_only (s : string) : bool :=
  match s with
  | EmptyString => true
  | String c s => (code c <? 128) && ascii_only s
  end.
Definition kv_ascii (kv : KeyValue) : Prop := ascii_only (Key kv) && ascii_only (Value kv) = true.

(** ** The codec laws *)

Lemma unquote_escape_byte c s r rest :
  code c < 128 -> unquote s = Some (r, rest) ->
  unquote (escape_byte c +:+ s) = Some (String c r, rest).
Proof.
  intros Hc Hs.
  destruct c as [[] [] [] [] [] [] [] []]; try (exfalso; revert Hc; vm_compute; lia);
    clear Hc; cbv -[unquote String.app]; rewrite ?str_cons_app; change (EmptyString +:+ s) with s;
    simpl; by rewrite Hs.
Qed.

Lemma unquote_escape s rest :
  ascii_only s = true -> unquote (escape s +:+ String dquote "" +:+ rest) = Some (s, rest).
Proof.
  induction s as [|c s IH]; simpl; [done|].
  rewrite andb_true_iff, Nat.ltb_lt. intros [Hc Hs].
  rewrite str_app_assoc. apply unquote_escape_byte; auto.
Qed.

Lemma strip_prefix_app p s : strip_prefix p (p +:+ s) = Some s.
Proof.
  induction p as [|c p IH]; [done|]. rewrite str_cons_app. simpl. by rewrite decide_True.
Qed.

Lemma strip_prefix_length p s s' :
  strip_prefix p s = Some s' -> String.length s = String.length p + String.length s'.
Proof.
  revert s. induction p as [|c p IH]; intros [|c' s]; simpl; try by intros [= <-].
  case_decide; [|done]. intros ->%IH. done.
Qed.

Lemma unquote_length s r rest :
  unquote s = Some (r, rest) -> String.length rest < String.length s.
Proof.
  remember (String.length s) as n eqn:Hn. revert s r rest Hn.
  induction (lt_wf n) as [n _ IH]. intros [|c s1] r rest ->; [done|]. simpl.
  destruct (code c =? 34); [by intros [= _ ->]; lia|].
  destruct (code c =? 92).
  - destruct s1 as [|u s2]; [done|]. destruct (code u =? 117).
    + destruct s2 as [|h1 [|h2 [|h3 [|h4 s3]]]]; try done.
      destruct (unhex h1) as [[|]|], (unhex h2) as [[|]|], (unhex h3), (unhex h4); try done.
      destruct (unquote s3) as [[r' rest']|] eqn:E; [|done]. intros [= _ ->].
      apply (IH (String.length s3)) in E; simpl in *; [lia|lia|done].
    + destruct (unescape_letter u); [|done].
      destruct (unquote s2) as [[r' rest']|] eqn:E; [|done]. intros [= _ ->].
      apply (IH (String.length s2)) in E; simpl in *; [lia|lia|done].
  - destruct (code c <? 32); [done|].
    destruct (unquote s1) as [[r' rest']|] eqn:E; [|done]. intros [= _ ->].
    apply (IH (String.length s1)) in E; simpl in *; [lia|lia|done].
Qed.

#[local] Arguments strip_prefix : simpl never.
#[local] Arguments unquote : simpl never.

Lemma decode_value_length s kv rest :
  decode_value s = Some (kv, rest) -> String.length rest < String.length s.
Proof.
  unfold decode_value.
  destruct (strip_prefix open_key s) as [s1|] eqn:E1; simpl; [|done].
  destruct (unquote s1) as [[k s2]|] eqn:E2; simpl; [|done].
  destruct (strip_prefix open_value s2) as [s3|] eqn:E3; simpl; [|done].
  destruct (unquote s3) as [[v s4]|] eqn:E4; simpl; [|done].
  destruct (strip_prefix "}" s4) as [s5|] eqn:E5; simpl; [|done]. intros [= _ <-].
  apply strip_prefix_length in E1, E3, E5. apply unquote_length in E2, E4. simpl in *. lia.
Qed.

Lemma Decode_length s kv rest :
  Decode s = Some (kv, rest) -> String.length rest < String.length s.
Proof.
  induction s as [|c s IH]; [done|]. cbn [Decode]. destruct (code c =? 10).
  - intros ?%IH. simpl. lia.
  - apply decode_value_length.
Qed.

Lemma Decode_open s : Decode (open_key +:+ s) = decode_value (open_key +:+ s).
Proof. done. Qed.

#[local] Opaque open_key open_value.

Lemma Decode_Encode kv rest :
  kv_ascii kv -> Decode (Encode kv +:+ rest) = Some (kv, NL +:+ rest).
Proof.
  unfold kv_ascii. rewrite andb_true_iff. intros [Hk Hv].
  destruct kv as [k v]; simpl in *. unfold Encode, Key, Value.
  rewrite !str_app_assoc, Decode_open.
  unfold decode_value. rewrite strip_prefix_app. simpl.
  rewrite (unquote_escape k) by done. simpl.
  rewrite strip_prefix_app. simpl. rewrite (unquote_escape v) by done. simpl. done.
Qed.

#[local] Transparent open_key open_value.

#[export] Instance JsonKV_ascii : JsonKV := {|
  json_Encode := Encode;
  json_Decode := Decode;
  json_ok := kv_ascii;
  json_roundtrip := Decode_Encode;
  json_skip_newline := fun s => eq_refl;
  json_eof := eq_refl;
  json_progress := Decode_length
|}.

End Json.
