(* ===== verification/MrCoordinator.v ===== *)
(** * MapReduce: the coordinator

    Models [src/src/mr/coordinator.go]: the coordinator's state, its two RPC
    handlers, [Done] and [MakeCoordinator].  The mutex makes every handler
    atomic, so a handler is a function from the state to the reply and the
    next state.  Clock readings are arguments: [since i] is what [time.Since]
    reads at iteration [i] of a loop and [now] is what [time.Now] returns. *)

From S2P Require Import Prelude MrRpc.

Module Coordinator.

(** ** Data *)

Record mapTask := {
  mapTask_taskID : Z;
  mapTask_fileName : string;
  mapTask_status : TaskStatus;
  mapTask_timeStamp : Z
}.

Record reduceTask := {
  reduceTask_taskID : Z;
  reduceTask_files : list string;
  reduceTask_status : TaskStatus;
  reduceTask_timeStamp : Z
}.

Record Coordinator := {
  nReduce : Z;
  mapTasks : list mapTask;
  reduceTasks : list reduceTask;
  inputfiles : list string;
  mapTasksDone : bool;
  mapTaskDoneNum : Z;
  reduceTaskDoneNum : Z;
  reduceTasksDone : bool;
  allDone : bool
}.

(** ** Time *)

(** The zero [time.Time]; times are nanoseconds since it. *)
Definition zeroTime : Z := 0.

(** [time.Since(t)] when the clock reads [clk]: a [Duration] saturates. *)
Definition time_Since (clk t : Z) : Z := Z.max int_min (Z.min int_max (clk - t)).

(** [10*time.Second]. *)
Definition tenSeconds : Z := 10 * 1000000000.

(** ** State updates *)

Definition set_mapTask (t : mapTask) (st : TaskStatus) (ts : Z) : mapTask :=
  {| mapTask_taskID := mapTask_taskID t; mapTask_fileName := mapTask_fileName t;
     mapTask_status := st; mapTask_timeStamp := ts |}.

Definition set_reduceTask (t : reduceTask) (st : TaskStatus) (ts : Z) : reduceTask :=
  {| reduceTask_taskID := reduceTask_taskID t; reduceTask_files := reduceTask_files t;
     reduceTask_status := st; reduceTask_timeStamp := ts |}.

Definition set_mapTasks (c : Coordinator) (l : list mapTask) : Coordinator :=
  {| nReduce := nReduce c; mapTasks := l; reduceTasks := reduceTasks c;
     inputfiles := inputfiles c; mapTasksDone := mapTasksDone c;
     mapTaskDoneNum := mapTaskDoneNum c; reduceTaskDoneNum := reduceTaskDoneNum c;
     reduceTasksDone := reduceTasksDone c; allDone := allDone c |}.

Definition set_reduceTasks (c : Coordinator) (l : list reduceTask) : Coordinator :=
  {| nReduce := nReduce c; mapTasks := mapTasks c; reduceTasks := l;
     inputfiles := inputfiles c; mapTasksDone := mapTasksDone c;
     mapTaskDoneNum := mapTaskDoneNum c; reduceTaskDoneNum := reduceTaskDoneNum c;
     reduceTasksDone := reduceTasksDone c; allDone := allDone c |}.

Definition set_mapDone (c : Coordinator) (n : Z) (d : bool) : Coordinator :=
  {| nReduce := nReduce c; mapTasks := mapTasks c; reduceTasks := reduceTasks c;
     inputfiles := inputfiles c; mapTasksDone := d;
     mapTaskDoneNum := n; reduceTaskDoneNum := reduceTaskDoneNum c;
     reduceTasksDone := reduceTasksDone c; allDone := allDone c |}.

Definition set_reduceDone (c : Coordinator) (n : Z) (d a : bool) : Coordinator :=
  {| nReduce := nReduce c; mapTasks := mapTasks c; reduceTasks := reduceTasks c;
     inputfiles := inputfiles c; mapTasksDone := mapTasksDone c;
     mapTaskDoneNum := mapTaskDoneNum c; reduceTaskDoneNum := n;
     reduceTasksDone := d; allDone := a |}.

(** ** Operations *)

(** The guard of both assignment loops: a task is handed out when nobody has
    it, or when it was handed out more than ten seconds ago. *)
Definition assignable (st : TaskStatus) (since : Z) : bool :=
  bool_decide (st = Todo) || (bool_decide (st = Assigned) && bool_decide (tenSeconds < since)%Z).

Definition mapAssignable (since : nat -> Z) (i : nat) (t : mapTask) : bool :=
  assignable (mapTask_status t) (time_Since (since i) (mapTask_timeStamp t)).

Definition reduceAssignable (since : nat -> Z) (i : nat) (t : reduceTask) : bool :=
  assignable (reduceTask_status t) (time_Since (since i) (reduceTask_timeStamp t)).

Definition Example (args : ExampleArgs) (reply : ExampleReply) : ExampleReply :=
  {| ExampleReply_Y := wrap64 (ExampleArgs_X args + 1) |}.

Definition AssignTask (since : nat -> Z) (now : Z) (args : WorkerArgs)
    (reply : CoordinatorReply) (c : Coordinator) : CoordinatorReply * Coordinator :=
  let wait := {| TaskType := Wait; InputFiles := InputFiles reply;
                 NReduce := nReduce c; WorkId := WorkId reply |} in
  if negb (mapTasksDone c) then
    match first_index (mapAssignable since) 0 (mapTasks c) with
    | Some i =>
        match mapTasks c !! i with
        | Some t =>
            ({| TaskType := MapTask; InputFiles := InputFiles reply ++ [mapTask_fileName t];
                NReduce := nReduce c; WorkId := Z.of_nat i |},
             set_mapTasks c (<[i := set_mapTask t Assigned now]> (mapTasks c)))
        | None => (wait, c)
        end
    | None => (wait, c)
    end
  else if negb (reduceTasksDone c) then
    match first_index (reduceAssignable since) 0 (reduceTasks c) with
    | Some i =>
        match reduceTasks c !! i with
        | Some t =>
            ({| TaskType := ReduceTask; InputFiles := reduceTask_files t;
                NReduce := nReduce c; WorkId := Z.of_nat i |},
             set_reduceTasks c (<[i := set_reduceTask t Assigned now]> (reduceTasks c)))
        | None => (wait, c)
        end
    | None => (wait, c)
    end
  else if allDone c then
    ({| TaskType := Exit; InputFiles := InputFiles reply;
        NReduce := nReduce c; WorkId := WorkId reply |}, c)
  else (wait, c).

Definition NotifyComplete (args : WorkerArgs) (c : Coordinator) : outcome Coordinator :=
  let workID := WorkerArgs_WorkID args in
  match WorkerArgs_TaskType args with
  | MapTask =>
      if decide (len (mapTasks c) <= workID)%Z then Fatal "workID >= len(c.mapTasks)"
      else
        t ← slice_get (mapTasks c) workID;
        let c1 :=
          if decide (mapTask_status t = Success) then c
          else
            set_mapDone
              (set_mapTasks c
                 (<[Z.to_nat workID := set_mapTask t Success (mapTask_timeStamp t)]> (mapTasks c)))
              (mapTaskDoneNum c + 1) (mapTasksDone c) in
        mret (if decide (mapTaskDoneNum c1 = len (mapTasks c1))
              then set_mapDone c1 (mapTaskDoneNum c1) true else c1)
  | ReduceTask =>
      if decide (len (reduceTasks c) <= workID)%Z then Fatal "workID >= len(c.reduceTasks)"
      else
        t ← slice_get (reduceTasks c) workID;
        let c1 :=
          if decide (reduceTask_status t = Success) then c
          else
            set_reduceDone
              (set_reduceTasks c
                 (<[Z.to_nat workID := set_reduceTask t Success (reduceTask_timeStamp t)]>
                    (reduceTasks c)))
              (reduceTaskDoneNum c + 1) (reduceTasksDone c) (allDone c) in
        mret (if decide (reduceTaskDoneNum c1 = nReduce c1)
              then set_reduceDone c1 (reduceTaskDoneNum c1) true true else c1)
  | Exit | Wait => mret c
  end.

Definition Done (c : Coordinator) : bool := allDone c.

(** [server()]: everything but the failure of [net.Listen] is I/O. *)
Definition server (listen_fails : bool) (c : Coordinator) : outcome Coordinator :=
  if listen_fails then Fatal "listen error:" else mret c.

(** ["mr-%d-%d"]: the intermediate file of map task [j] for reduce task [i]. *)
Definition intermediateName (j i : Z) : string := "mr-" +:+ Itoa j +:+ "-" +:+ Itoa i.

Definition newMapTask (files : list string) : list mapTask :=
  imap (fun i f => {| mapTask_taskID := Z.of_nat i; mapTask_fileName := f;
                      mapTask_status := Todo; mapTask_timeStamp := zeroTime |}) files.

Definition newReduceTask (fileN : nat) (i : nat) : reduceTask :=
  {| reduceTask_taskID := Z.of_nat i;
     reduceTask_files :=
       (fun j => intermediateName (Z.of_nat j) (Z.of_nat i)) <$> seq 0 fileN;
     reduceTask_status := Todo; reduceTask_timeStamp := zeroTime |}.

Definition MakeCoordinator (listen_fails : bool) (files : list string) (nReduce : Z)
    : outcome Coordinator :=
  if decide (nReduce < 0)%Z then Panic "makeslice: len out of range"
  else
    server listen_fails
      {| nReduce := nReduce;
         mapTasks := newMapTask files;
         reduceTasks := newReduceTask (length files) <$> seq 0 (Z.to_nat nReduce);
         inputfiles := files;
         mapTasksDone := false; mapTaskDoneNum := 0;
         reduceTaskDoneNum := 0; reduceTasksDone := false; allDone := false |}.

(** ** Executions

    One step is one RPC: its arguments and clock readings are arbitrary. *)
Inductive cstep : Coordinator -> Coordinator -> Prop :=
| cstep_assign since now args reply c :
    cstep c (AssignTask since now args reply c).2
| cstep_notify args c c' :
    NotifyComplete args c = Return c' -> cstep c c'.

Definition creachable (files : list string) (n : Z) (c : Coordinator) : Prop :=
  exists c0, MakeCoordinator false files n = Return c0 /\ rtc cstep c0 c.

(** ** The invariant *)

Definition mapSuccess (t : mapTask) : Prop := mapTask_status t = Success.
Definition reduceSuccess (t : reduceTask) : Prop := reduceTask_status t = Success.

#[export] Instance mapSuccess_dec t : Decision (mapSuccess t).
Proof. unfold mapSuccess. apply _. Defined.
#[export] Instance reduceSuccess_dec t : Decision (reduceSuccess t).
Proof. unfold reduceSuccess. apply _. Defined.

(** A task's status is one of the three the coordinator uses. *)
Definition live (st : TaskStatus) : Prop := st = Todo \/ st = Assigned \/ st = Success.

(** The immutable part of a coordinator created for [files]. *)
Definition mapTasks_for (files : list string) (l : list mapTask) : Prop :=
  mapTask_fileName <$> l = files /\
  forall i t, l !! i = Some t -> mapTask_taskID t = Z.of_nat i /\ live (mapTask_status t).

Definition reduceTasks_for (fileN : nat) (l : list reduceTask) : Prop :=
  forall i t, l !! i = Some t ->
    reduceTask_taskID t = Z.of_nat i /\
    reduceTask_files t = reduceTask_files (newReduceTask fileN i) /\
    live (reduceTask_status t).

Record inv (c : Coordinator) : Prop := {
  inv_nReduce : nReduce c = len (reduceTasks c);
  inv_mapNum : mapTaskDoneNum c = Z.of_nat (count mapSuccess (mapTasks c));
  inv_reduceNum : reduceTaskDoneNum c = Z.of_nat (count reduceSuccess (reduceTasks c));
  inv_mapDone : mapTasksDone c = true <-> mapTasks c <> [] /\ Forall mapSuccess (mapTasks c);
  inv_reduceDone :
    reduceTasksDone c = true <-> reduceTasks c <> [] /\ Forall reduceSuccess (reduceTasks c);
  inv_allDone : allDone c = reduceTasksDone c;
  inv_maps : mapTasks_for (inputfiles c) (mapTasks c);
  inv_reduces : reduceTasks_for (length (inputfiles c)) (reduceTasks c)
}.

(** ** Helper lemmas *)

Lemma count_Success_insert {A} (P : A -> Prop) `{!forall x, Decision (P x)} l i x y :
  l !! i = Some x -> ~ P x -> P y -> count P (<[i:=y]> l) = S (count P l).
Proof.
  intros Hi Hx Hy. pose proof (count_insert P l i x y Hi) as Hcnt.
  rewrite decide_False, decide_True in Hcnt by done. lia.
Qed.

Lemma count_insert_same {A} (P : A -> Prop) `{!forall x, Decision (P x)} l i x y :
  l !! i = Some x -> (P x <-> P y) -> count P (<[i:=y]> l) = count P l.
Proof.
  intros Hi Hxy. pose proof (count_insert P l i x y Hi) as Hcnt.
  repeat case_decide; first [lia | tauto].
Qed.

Lemma Forall_count_eq {A} (P : A -> Prop) `{!forall x, Decision (P x)} l l' :
  length l = length l' -> count P l = count P l' -> Forall P l <-> Forall P l'.
Proof. intros Hl Hc. rewrite <-!count_all. by rewrite Hl, Hc. Qed.

Lemma insert_not_nil {A} (l : list A) i x : <[i:=x]> l <> [] <-> l <> [].
Proof. rewrite <-!length_zero_iff_nil, length_insert. done. Qed.

Lemma mapTasks_for_insert files l i t st ts :
  mapTasks_for files l -> l !! i = Some t -> live st ->
  mapTasks_for files (<[i := set_mapTask t st ts]> l).
Proof.
  intros [Hf Ht] Hi Hst. split.
  - rewrite list_fmap_insert. simpl. rewrite list_insert_id; [done|].
    by rewrite list_lookup_fmap, Hi.
  - intros j t'. rewrite list_lookup_insert. case_decide; [|apply Ht].
    intros [= <-]. simpl. destr_hyps. subst. split; [by apply (Ht _ _ Hi)|done].
Qed.

Lemma reduceTasks_for_insert n l i t st ts :
  reduceTasks_for n l -> l !! i = Some t -> live st ->
  reduceTasks_for n (<[i := set_reduceTask t st ts]> l).
Proof.
  intros Ht Hi Hst j t'. rewrite list_lookup_insert. case_decide; [|apply Ht].
  intros [= <-]. destr_hyps; subst. simpl.
  destruct (Ht _ _ Hi) as (? & ? & ?). by split_and!.
Qed.

(** What one [AssignTask] call may do, stated on the tasks rather than on the
    loops. *)
Inductive assign_result (since : nat -> Z) (now : Z) (reply : CoordinatorReply)
    (c : Coordinator) : CoordinatorReply * Coordinator -> Prop :=
| assign_map i t :
    mapTasksDone c = false ->
    mapTasks c !! i = Some t ->
    mapAssignable since i t = true ->
    (forall j t', j < i -> mapTasks c !! j = Some t' -> mapAssignable since j t' = false) ->
    assign_result since now reply c
      ({| TaskType := MapTask; InputFiles := InputFiles reply ++ [mapTask_fileName t];
          NReduce := nReduce c; WorkId := Z.of_nat i |},
       set_mapTasks c (<[i := set_mapTask t Assigned now]> (mapTasks c)))
| assign_reduce i t :
    mapTasksDone c = true -> reduceTasksDone c = false ->
    reduceTasks c !! i = Some t ->
    reduceAssignable since i t = true ->
    (forall j t', j < i -> reduceTasks c !! j = Some t' -> reduceAssignable since j t' = false) ->
    assign_result since now reply c
      ({| TaskType := ReduceTask; InputFiles := reduceTask_files t;
          NReduce := nReduce c; WorkId := Z.of_nat i |},
       set_reduceTasks c (<[i := set_reduceTask t Assigned now]> (reduceTasks c)))
| assign_wait :
    (mapTasksDone c = false ->
     forall j t, mapTasks c !! j = Some t -> mapAssignable since j t = false) ->
    (mapTasksDone c = true -> reduceTasksDone c = false ->
     forall j t, reduceTasks c !! j = Some t -> reduceAssignable since j t = false) ->
    (mapTasksDone c = true -> reduceTasksDone c = true -> allDone c = false) ->
    assign_result since now reply c
      ({| TaskType := Wait; InputFiles := InputFiles reply;
          NReduce := nReduce c; WorkId := WorkId reply |}, c)
| assign_exit :
    mapTasksDone c = true -> reduceTasksDone c = true -> allDone c = true ->
    assign_result since now reply c
      ({| TaskType := Exit; InputFiles := InputFiles reply;
          NReduce := nReduce c; WorkId := WorkId reply |}, c).

Lemma AssignTask_result since now args reply c :
  assign_result since now reply c (AssignTask since now args reply c).
Proof.
  unfold AssignTask. destruct (mapTasksDone c) eqn:Hm; simpl.
  - destruct (reduceTasksDone c) eqn:Hr; simpl.
    { destruct (allDone c) eqn:Ha; constructor; congruence. }
    destruct (first_index _ _ _) as [i|] eqn:Hf.
    + apply first_index_Some in Hf as (j & t & -> & Hj & Ht & Hmin).
      simpl. rewrite Hj. by constructor.
    + rewrite first_index_None in Hf. constructor; first [congruence | by auto].
  - destruct (first_index _ _ _) as [i|] eqn:Hf.
    + apply first_index_Some in Hf as (j & t & -> & Hj & Ht & Hmin).
      simpl. rewrite Hj. by constructor.
    + rewrite first_index_None in Hf. constructor; first [congruence | by auto].
Qed.

Lemma assignable_live st d : assignable st d = true -> st = Todo \/ st = Assigned.
Proof.
  unfold assignable. rewrite orb_true_iff, andb_true_iff, !bool_decide_eq_true. tauto.
Qed.

Lemma assignable_not_Success st d : assignable st d = true -> st <> Success.
Proof. intros [-> | ->]%assignable_live; done. Qed.

Lemma inv_AssignTask since now args reply c :
  inv c -> inv (AssignTask since now args reply c).2.
Proof.
  intros Hc. destruct (AssignTask_result since now args reply c)
    as [i t Hm Hi Ha _|i t Hm Hr Hi Ha _| |]; simpl; [| |done|done]; destruct Hc.
  - apply assignable_not_Success in Ha.
    assert (count mapSuccess (<[i:=set_mapTask t Assigned now]> (mapTasks c))
            = count mapSuccess (mapTasks c)) as Hcnt.
    { apply count_insert_same with t; [done|]. by split. }
    constructor; simpl; try done; [by rewrite Hcnt| |].
    + rewrite insert_not_nil, <-(Forall_count_eq _ _ _ (eq_sym (length_insert _ _ _)) (eq_sym Hcnt)).
      done.
    + apply mapTasks_for_insert; try done. unfold live. tauto.
  - apply assignable_not_Success in Ha.
    assert (count reduceSuccess (<[i:=set_reduceTask t Assigned now]> (reduceTasks c))
            = count reduceSuccess (reduceTasks c)) as Hcnt.
    { apply count_insert_same with t; [done|]. by split. }
    constructor; simpl; try done.
    + unfold len. by rewrite length_insert.
    + by rewrite Hcnt.
    + rewrite insert_not_nil, <-(Forall_count_eq _ _ _ (eq_sym (length_insert _ _ _)) (eq_sym Hcnt)).
      done.
    + apply reduceTasks_for_insert; try done. unfold live. tauto.
Qed.

Lemma set_mapTask_id t : mapTask_status t = Success ->
  set_mapTask t Success (mapTask_timeStamp t) = t.
Proof. destruct t; simpl. by intros ->. Qed.

Lemma set_reduceTask_id t : reduceTask_status t = Success ->
  set_reduceTask t Success (reduceTask_timeStamp t) = t.
Proof. destruct t; simpl. by intros ->. Qed.

(** A completed map task: every field but the map half is untouched. *)
Definition completes_map (c c' : Coordinator) (i : nat) (t : mapTask) : Prop :=
  mapTasks c !! i = Some t /\
  mapTasks c' = <[i := set_mapTask t Success (mapTask_timeStamp t)]> (mapTasks c) /\
  mapTaskDoneNum c'
    = (mapTaskDoneNum c + (if decide (mapTask_status t = Success) then 0 else 1))%Z /\
  mapTasksDone c' = mapTasksDone c || bool_decide (mapTaskDoneNum c' = len (mapTasks c')) /\
  nReduce c' = nReduce c /\ reduceTasks c' = reduceTasks c /\ inputfiles c' = inputfiles c /\
  reduceTaskDoneNum c' = reduceTaskDoneNum c /\ reduceTasksDone c' = reduceTasksDone c /\
  allDone c' = allDone c.

Definition completes_reduce (c c' : Coordinator) (i : nat) (t : reduceTask) : Prop :=
  reduceTasks c !! i = Some t /\
  reduceTasks c' = <[i := set_reduceTask t Success (reduceTask_timeStamp t)]> (reduceTasks c) /\
  reduceTaskDoneNum c'
    = (reduceTaskDoneNum c + (if decide (reduceTask_status t = Success) then 0 else 1))%Z /\
  reduceTasksDone c' = reduceTasksDone c || bool_decide (reduceTaskDoneNum c' = nReduce c') /\
  allDone c' = allDone c || bool_decide (reduceTaskDoneNum c' = nReduce c') /\
  nReduce c' = nReduce c /\ mapTasks c' = mapTasks c /\ inputfiles c' = inputfiles c /\
  mapTaskDoneNum c' = mapTaskDoneNum c /\ mapTasksDone c' = mapTasksDone c.

(** What one [NotifyComplete] call may do, on every branch. *)
Inductive notify_result (args : WorkerArgs) (c : Coordinator) : outcome Coordinator -> Prop :=
| notify_map i t c' :
    WorkerArgs_TaskType args = MapTask -> WorkerArgs_WorkID args = Z.of_nat i ->
    completes_map c c' i t -> notify_result args c (Return c')
| notify_reduce i t c' :
    WorkerArgs_TaskType args = ReduceTask -> WorkerArgs_WorkID args = Z.of_nat i ->
    completes_reduce c c' i t -> notify_result args c (Return c')
| notify_other :
    WorkerArgs_TaskType args = Exit \/ WorkerArgs_TaskType args = Wait ->
    notify_result args c (Return c)
| notify_map_range :
    WorkerArgs_TaskType args = MapTask -> (len (mapTasks c) <= WorkerArgs_WorkID args)%Z ->
    notify_result args c (Fatal "workID >= len(c.mapTasks)")
| notify_reduce_range :
    WorkerArgs_TaskType args = ReduceTask -> (len (reduceTasks c) <= WorkerArgs_WorkID args)%Z ->
    notify_result args c (Fatal "workID >= len(c.reduceTasks)")
| notify_negative :
    WorkerArgs_TaskType args = MapTask \/ WorkerArgs_TaskType args = ReduceTask ->
    (WorkerArgs_WorkID args < 0)%Z ->
    notify_result args c (Panic "index out of range").

(** A flag that is set when a test holds and kept otherwise. *)
Ltac solve_flag :=
  first [ done
        | rewrite bool_decide_eq_true_2 by done; by rewrite orb_true_r
        | rewrite bool_decide_eq_false_2 by done; by rewrite orb_false_r ].

Lemma NotifyComplete_result args c : notify_result args c (NotifyComplete args c).
Proof.
  unfold NotifyComplete. destruct (WorkerArgs_TaskType args) eqn:Ht; simpl.
  - case_decide as Hr; [by constructor|].
    destruct (decide (0 <= WorkerArgs_WorkID args)%Z) as [Hp|Hp]; cycle 1.
    { unfold slice_get. rewrite decide_False by lia. simpl. constructor; [by left|lia]. }
    destruct (slice_get_bound (mapTasks c) (WorkerArgs_WorkID args)) as [t Hg]; [lia|].
    rewrite Hg. apply slice_get_inv in Hg as [_ Hl]. simpl.
    eapply (notify_map args c (Z.to_nat (WorkerArgs_WorkID args)) t); [done|lia|].
    unfold completes_map. destruct (decide (mapTask_status t = Success)) as [Hs|Hs].
    + rewrite set_mapTask_id, list_insert_id, Z.add_0_r by done.
      case_decide as Hd; simpl; split_and!; solve_flag.
    + simpl. case_decide as Hd; simpl; split_and!; solve_flag.
  - case_decide as Hr; [by constructor|].
    destruct (decide (0 <= WorkerArgs_WorkID args)%Z) as [Hp|Hp]; cycle 1.
    { unfold slice_get. rewrite decide_False by lia. simpl. constructor; [by right|lia]. }
    destruct (slice_get_bound (reduceTasks c) (WorkerArgs_WorkID args)) as [t Hg]; [lia|].
    rewrite Hg. apply slice_get_inv in Hg as [_ Hl]. simpl.
    eapply (notify_reduce args c (Z.to_nat (WorkerArgs_WorkID args)) t); [done|lia|].
    unfold completes_reduce. destruct (decide (reduceTask_status t = Success)) as [Hs|Hs].
    + rewrite set_reduceTask_id, list_insert_id, Z.add_0_r by done.
      case_decide as Hd; simpl; split_and!; solve_flag.
    + simpl. case_decide as Hd; simpl; split_and!; solve_flag.
  - apply notify_other. by left.
  - apply notify_other. by right.
Qed.

Lemma count_insert_done {A} (P : A -> Prop) `{!forall x, Decision (P x)} l i x y :
  l !! i = Some x -> P y ->
  Z.of_nat (count P (<[i:=y]> l))
  = (Z.of_nat (count P l) + (if decide (P x) then 0 else 1))%Z.
Proof.
  intros Hi Hy. pose proof (count_insert P l i x y Hi) as Hcnt.
  rewrite (decide_True (P := P y)) in Hcnt by done. case_decide; lia.
Qed.

(** The phase flag stays equivalent to "every task succeeded". *)
Lemma flag_insert {A} (P : A -> Prop) `{!forall x, Decision (P x)} l i x y flag :
  l !! i = Some x -> P y -> (flag = true <-> l <> [] /\ Forall P l) ->
  flag || bool_decide (Z.of_nat (count P (<[i:=y]> l)) = len (<[i:=y]> l)) = true <->
  <[i:=y]> l <> [] /\ Forall P (<[i:=y]> l).
Proof.
  intros Hi Hy Hf. assert (l <> []) as Hne by (by intros ->).
  rewrite orb_true_iff, bool_decide_eq_true, insert_not_nil, Hf. split.
  - intros [[_ Hall]|Hcnt]; (split; [done|]).
    + by apply Forall_insert.
    + apply (count_all P). unfold len in Hcnt. lia.
  - intros [_ Hall]. right. unfold len. apply (count_all P) in Hall. lia.
Qed.

Lemma inv_completes_map c c' i t : inv c -> completes_map c c' i t -> inv c'.
Proof.
  intros [] (Hi & Hl & Hn & Hd & E1 & E2 & E3 & E4 & E5 & E6).
  assert (mapTaskDoneNum c' = Z.of_nat (count mapSuccess (mapTasks c'))) as Hcnt.
  { rewrite Hn, Hl, (count_insert_done _ _ _ _ _ Hi), inv_mapNum0 by done.
    f_equal. }
  constructor; rewrite ?E1, ?E2, ?E3, ?E4, ?E5, ?E6; try done.
  - rewrite Hd, Hcnt, Hl. by eapply flag_insert.
  - rewrite Hl. apply mapTasks_for_insert; [done|done|]. unfold live. tauto.
Qed.

Lemma inv_completes_reduce c c' i t : inv c -> completes_reduce c c' i t -> inv c'.
Proof.
  intros [] (Hi & Hl & Hn & Hd & Ha & E1 & E2 & E3 & E4 & E5).
  assert (reduceTaskDoneNum c' = Z.of_nat (count reduceSuccess (reduceTasks c'))) as Hcnt.
  { rewrite Hn, Hl, (count_insert_done _ _ _ _ _ Hi), inv_reduceNum0 by done.
    f_equal. }
  assert (nReduce c' = len (reduceTasks c')) as Hlen.
  { rewrite E1, Hl, inv_nReduce0. unfold len. by rewrite length_insert. }
  constructor; rewrite ?E2, ?E3, ?E4, ?E5; try done.
  - rewrite Hd, Hcnt, Hlen, Hl. by eapply flag_insert.
  - by rewrite Ha, Hd, inv_allDone0.
  - rewrite Hl. apply reduceTasks_for_insert; [done|done|]. unfold live. tauto.
Qed.

Lemma NotifyComplete_inv args c c' :
  NotifyComplete args c = Return c' ->
  (exists i t, WorkerArgs_TaskType args = MapTask /\ WorkerArgs_WorkID args = Z.of_nat i /\
     completes_map c c' i t) \/
  (exists i t, WorkerArgs_TaskType args = ReduceTask /\ WorkerArgs_WorkID args = Z.of_nat i /\
     completes_reduce c c' i t) \/
  ((WorkerArgs_TaskType args = Exit \/ WorkerArgs_TaskType args = Wait) /\ c' = c).
Proof.
  intros Hn. pose proof (NotifyComplete_result args c) as Hr. rewrite Hn in Hr.
  inversion Hr; subst; eauto 10.
Qed.

Lemma inv_NotifyComplete args c c' : inv c -> NotifyComplete args c = Return c' -> inv c'.
Proof.
  intros Hc [(i & t & _ & _ & ?)|[(i & t & _ & _ & ?)|[_ ->]]]%NotifyComplete_inv;
    eauto using inv_completes_map, inv_completes_reduce.
Qed.

#[export] Hint Resolve inv_AssignTask inv_NotifyComplete : golabs.

Lemma Forall_not_all {A} (P : A -> Prop) l :
  Forall (fun x => ~ P x) l -> l <> [] /\ Forall P l -> False.
Proof. intros [|x l' Hx _] [Hne Hall]; [done|]. by inversion Hall. Qed.

Lemma newMapTask_not_Success files : Forall (fun t => ~ mapSuccess t) (newMapTask files).
Proof.
  apply Forall_lookup. intros i t. unfold newMapTask. rewrite list_lookup_imap.
  by destruct (files !! i); intros [= <-].
Qed.

Lemma newMapTask_for files : mapTasks_for files (newMapTask files).
Proof.
  unfold mapTasks_for, newMapTask. split.
  - apply list_eq. intros i. rewrite list_lookup_fmap, list_lookup_imap. by destruct (files !! i).
  - intros i t. rewrite list_lookup_imap. destruct (files !! i); intros [= <-].
    simpl. unfold live. tauto.
Qed.

Lemma newReduceTask_lookup n m i t :
  (newReduceTask n <$> seq 0 m) !! i = Some t -> t = newReduceTask n i.
Proof.
  rewrite list_lookup_fmap. intros (j & Hj & ->)%fmap_Some.
  apply lookup_seq in Hj as [-> _]. done.
Qed.

Lemma inv_MakeCoordinator files n c :
  MakeCoordinator false files n = Return c -> inv c.
Proof.
  unfold MakeCoordinator, server. case_decide; [done|]. intros [= <-].
  assert (Forall (fun t => ~ reduceSuccess t)
    (newReduceTask (length files) <$> seq 0 (Z.to_nat n))) as Hr.
  { by apply Forall_lookup; intros i t ->%newReduceTask_lookup. }
  pose proof (newMapTask_not_Success files) as Hm.
  constructor; simpl.
  - unfold len. rewrite length_fmap, length_seq. lia.
  - by rewrite count_none.
  - by rewrite count_none.
  - split; [done|]. intros Ha. by destruct (Forall_not_all _ _ Hm).
  - split; [done|]. intros Ha. by destruct (Forall_not_all _ _ Hr).
  - done.
  - apply newMapTask_for.
  - intros i t ->%newReduceTask_lookup. simpl. unfold live. tauto.
Qed.

Lemma inv_cstep c c' : cstep c c' -> inv c -> inv c'.
Proof. destruct 1; eauto with golabs. Qed.

Lemma inv_creachable files n c : creachable files n c -> inv c.
Proof.
  intros (c0 & H0 & Hr). apply inv_MakeCoordinator in H0.
  induction Hr; eauto using inv_cstep.
Qed.
#[export] Hint Resolve inv_creachable : golabs.

(** The configuration fields never change. *)
Lemma cstep_static c c' :
  cstep c c' -> nReduce c' = nReduce c /\ inputfiles c' = inputfiles c.
Proof.
  destruct 1 as [since now args reply c|args c c' Hn].
  - by destruct (AssignTask_result since now args reply c).
  - apply NotifyComplete_inv in Hn
      as [(i & t & _ & _ & Hc)|[(i & t & _ & _ & Hc)|[_ ->]]]; [..|done].
    + by destruct Hc as (_ & _ & _ & _ & -> & _ & -> & _).
    + by destruct Hc as (_ & _ & _ & _ & _ & -> & _ & -> & _).
Qed.

Lemma creachable_static files n c :
  creachable files n c -> nReduce c = n /\ inputfiles c = files.
Proof.
  intros (c0 & H0 & Hr).
  assert (nReduce c0 = n /\ inputfiles c0 = files) as Hs.
  { unfold MakeCoordinator, server in H0. case_decide; [done|]. by injection H0 as <-. }
  clear H0. induction Hr as [|x y z Hxy _ IH]; [done|].
  apply cstep_static in Hxy as [E1 E2]. apply IH. by rewrite E1, E2.
Qed.

Lemma creachable_lengths files n c :
  creachable files n c -> length (mapTasks c) = length files /\ len (reduceTasks c) = n.
Proof.
  intros Hr. pose proof (creachable_static _ _ _ Hr) as [<- <-].
  apply inv_creachable in Hr as []. split; [|done].
  destruct inv_maps0 as [<- _]. by rewrite length_fmap.
Qed.

(** Statuses only move forward: a successful task stays successful. *)
Lemma cstep_map_Success c c' i t :
  cstep c c' -> mapTasks c !! i = Some t -> mapSuccess t ->
  exists t', mapTasks c' !! i = Some t' /\ mapSuccess t'.
Proof.
  intros Hs Hi Ht. destruct Hs as [since now args reply c|args c c' Hn].
  - destruct (AssignTask_result since now args reply c)
      as [j t' Hm Hj Ha _|j t' Hm Hr Hj Ha _| |]; simpl; eauto.
    apply assignable_not_Success in Ha. exists t. split; [|done].
    rewrite list_lookup_insert_ne; [done|]. by intros ->; simplify_eq.
  - apply NotifyComplete_inv in Hn
      as [(j & t' & _ & _ & Hc)|[(j & t' & _ & _ & Hc)|[_ ->]]]; [..|eauto].
    + destruct Hc as (_ & -> & _). rewrite list_lookup_insert.
      case_decide; [by eexists|eauto].
    + destruct Hc as (_ & _ & _ & _ & _ & _ & -> & _). eauto.
Qed.

Lemma cstep_reduce_Success c c' i t :
  cstep c c' -> reduceTasks c !! i = Some t -> reduceSuccess t ->
  exists t', reduceTasks c' !! i = Some t' /\ reduceSuccess t'.
Proof.
  intros Hs Hi Ht. destruct Hs as [since now args reply c|args c c' Hn].
  - destruct (AssignTask_result since now args reply c)
      as [j t' Hm Hj Ha _|j t' Hm Hr Hj Ha _| |]; simpl; eauto.
    apply assignable_not_Success in Ha. exists t. split; [|done].
    rewrite list_lookup_insert_ne; [done|]. by intros ->; simplify_eq.
  - apply NotifyComplete_inv in Hn
      as [(j & t' & _ & _ & Hc)|[(j & t' & _ & _ & Hc)|[_ ->]]]; [..|eauto].
    + destruct Hc as (_ & _ & _ & _ & _ & -> & _). eauto.
    + destruct Hc as (_ & -> & _). rewrite list_lookup_insert.
      case_decide; [by eexists|eauto].
Qed.

Lemma cstep_flags c c' :
  cstep c c' ->
  (mapTasksDone c = true -> mapTasksDone c' = true) /\ (Done c = true -> Done c' = true).
Proof.
  unfold Done. destruct 1 as [since now args reply c|args c c' Hn].
  - by destruct (AssignTask_result since now args reply c).
  - apply NotifyComplete_inv in Hn
      as [(j & t' & _ & _ & Hc)|[(j & t' & _ & _ & Hc)|[_ ->]]]; [..|done].
    + destruct Hc as (_ & _ & _ & -> & _ & _ & _ & _ & _ & ->). by split; [intros ->|].
    + destruct Hc as (_ & _ & _ & _ & -> & _ & _ & _ & _ & ->). by split; [|intros ->].
Qed.

(** ** Leases: a task handed out stays with its worker for ten seconds *)

Lemma time_Since_lt clk t d :
  (0 <= d < int_max)%Z -> (d < time_Since clk t)%Z <-> (t + d < clk)%Z.
Proof. unfold time_Since, int_max, int_min. lia. Qed.

Lemma not_assignable st clk ts :
  st = Success \/ (st = Assigned /\ (clk <= ts + tenSeconds)%Z) ->
  assignable st (time_Since clk ts) = false.
Proof.
  intros Hst. apply not_true_iff_false. intros Ha.
  unfold assignable in Ha. rewrite orb_true_iff, andb_true_iff, !bool_decide_eq_true in Ha.
  rewrite time_Since_lt in Ha by (unfold tenSeconds, int_max; lia).
  destruct Hst as [->|[-> ?]], Ha as [?|[? ?]]; (congruence || lia).
Qed.

(** Steps whose clock readings are not past [T]. *)
Inductive cstep_by (T : Z) : Coordinator -> Coordinator -> Prop :=
| by_assign since now args reply c :
    (forall i, since i <= T)%Z -> cstep_by T c (AssignTask since now args reply c).2
| by_notify args c c' :
    NotifyComplete args c = Return c' -> cstep_by T c c'.

Definition held (now : Z) (st : TaskStatus) (ts : Z) : Prop :=
  st = Success \/ (st = Assigned /\ ts = now).

Definition map_held (now : Z) (i : nat) (c : Coordinator) : Prop :=
  exists t, mapTasks c !! i = Some t /\ held now (mapTask_status t) (mapTask_timeStamp t).
Definition reduce_held (now : Z) (i : nat) (c : Coordinator) : Prop :=
  exists t, reduceTasks c !! i = Some t /\ held now (reduceTask_status t) (reduceTask_timeStamp t).

Lemma held_not_assignable now st ts clk :
  held now st ts -> (clk <= now + tenSeconds)%Z -> assignable st (time_Since clk ts) = false.
Proof. intros [->|[-> ->]] ?; apply not_assignable; auto. Qed.

Lemma map_held_step now i c c' :
  cstep_by (now + tenSeconds) c c' -> map_held now i c -> map_held now i c'.
Proof.
  intros Hs (t & Hi & Ht). destruct Hs as [since now' args reply c Hcl|args c c' Hn].
  - destruct (AssignTask_result since now' args reply c)
      as [j t' _ Hj Ha _|j t' _ _ Hj _ _| |]; try by exists t.
    exists t. split; [|done]. simpl. rewrite list_lookup_insert_ne; [done|]. intros ->.
    simplify_eq. unfold mapAssignable in Ha.
    by rewrite (held_not_assignable now) in Ha.
  - apply NotifyComplete_inv in Hn
      as [(j & t' & _ & _ & Hc)|[(j & t' & _ & _ & Hc)|[_ ->]]]; [..|by exists t].
    + destruct Hc as (Hj & Hm & _). unfold map_held. rewrite Hm, list_lookup_insert.
      case_decide; [eexists; split; [done|by left]|by exists t].
    + destruct Hc as (_ & _ & _ & _ & _ & _ & Hm & _). exists t. by rewrite Hm.
Qed.

Lemma reduce_held_step now i c c' :
  cstep_by (now + tenSeconds) c c' -> reduce_held now i c -> reduce_held now i c'.
Proof.
  intros Hs (t & Hi & Ht). destruct Hs as [since now' args reply c Hcl|args c c' Hn].
  - destruct (AssignTask_result since now' args reply c)
      as [j t' _ Hj _ _|j t' _ _ Hj Ha _| |]; try by exists t.
    exists t. split; [|done]. simpl. rewrite list_lookup_insert_ne; [done|]. intros ->.
    simplify_eq. unfold reduceAssignable in Ha.
    by rewrite (held_not_assignable now) in Ha.
  - apply NotifyComplete_inv in Hn
      as [(j & t' & _ & _ & Hc)|[(j & t' & _ & _ & Hc)|[_ ->]]]; [..|by exists t].
    + destruct Hc as (_ & _ & _ & _ & _ & Hm & _). exists t. by rewrite Hm.
    + destruct Hc as (Hj & Hm & _). unfold reduce_held. rewrite Hm, list_lookup_insert.
      case_decide; [eexists; split; [done|by left]|by exists t].
Qed.

Lemma rtc_preserves {A} (R : relation A) (P : A -> Prop) x y :
  (forall a b, R a b -> P a -> P b) -> rtc R x y -> P x -> P y.
Proof. intros HR. induction 1; eauto. Qed.

(** Whatever [AssignTask] hands out is held from then on. *)
Lemma AssignTask_holds since now args reply c :
  let '(r, c') := AssignTask since now args reply c in
  match TaskType r with
  | MapTask => exists i, WorkId r = Z.of_nat i /\ map_held now i c'
  | ReduceTask => exists i, WorkId r = Z.of_nat i /\ reduce_held now i c'
  | _ => c' = c
  end.
Proof.
  pose proof (AssignTask_result since now args reply c) as Hr.
  destruct Hr as [i t _ Hi _ _|i t _ _ Hi _ _| |]; simpl; [| |done|done].
  all: exists i; split; [done|]; eexists; simpl.
  all: rewrite list_lookup_insert_eq by (by eapply lookup_lt_Some); split; [done|by right].
Qed.

(** ... and what is held is not handed out. *)
Lemma AssignTask_avoids since now args reply c T i :
  (forall j, since j <= T + tenSeconds)%Z ->
  let r := (AssignTask since now args reply c).1 in
  (map_held T i c -> TaskType r = MapTask -> WorkId r <> Z.of_nat i) /\
  (reduce_held T i c -> TaskType r = ReduceTask -> WorkId r <> Z.of_nat i).
Proof.
  intros Hcl. pose proof (AssignTask_result since now args reply c) as Hr. simpl.
  destruct Hr as [j t _ Hj Ha _|j t _ _ Hj Ha _| |]; simpl; (split; [|done]) || split; try done.
  - intros (t' & Hi & Ht) _ ->%Nat2Z.inj. simplify_eq. unfold mapAssignable in Ha.
    by rewrite (held_not_assignable T) in Ha.
  - intros (t' & Hi & Ht) _ ->%Nat2Z.inj. simplify_eq. unfold reduceAssignable in Ha.
    by rewrite (held_not_assignable T) in Ha.
Qed.

(** ** Progress *)

(** Every outstanding assignment is more than ten seconds old at [clk]. *)
Definition overdue (clk : Z) (st : TaskStatus) (ts : Z) : Prop :=
  st = Assigned -> (ts + tenSeconds < clk)%Z.

Definition stale (clk : Z) (c : Coordinator) : Prop :=
  (forall i t, mapTasks c !! i = Some t -> overdue clk (mapTask_status t) (mapTask_timeStamp t)) /\
  (forall i t, reduceTasks c !! i = Some t ->
     overdue clk (reduceTask_status t) (reduceTask_timeStamp t)).

Lemma overdue_assignable clk st ts :
  live st -> st <> Success -> overdue clk st ts -> assignable st (time_Since clk ts) = true.
Proof.
  unfold assignable. rewrite orb_true_iff, andb_true_iff, !bool_decide_eq_true.
  rewrite time_Since_lt by (unfold tenSeconds, int_max; lia).
  intros [->|[-> | ->]] Hs Ho; [by left|right; auto|done].
Qed.

Lemma not_all_exists {A} (P : A -> Prop) `{!forall x, Decision (P x)} (l : list A) :
  ~ Forall P l -> exists i x, l !! i = Some x /\ ~ P x.
Proof.
  intros Hn. apply (not_Forall_Exists _), Exists_exists in Hn as (x & Hx & Hn).
  apply list_elem_of_lookup in Hx as [i Hi]. eauto.
Qed.

(** While the job is unfinished and every assignment is overdue, [AssignTask]
    hands out an unfinished task of the current phase. *)
Lemma AssignTask_progress clk now args reply c :
  inv c -> mapTasks c <> [] -> reduceTasks c <> [] -> Done c = false -> stale clk c ->
  let '(r, _) := AssignTask (fun _ => clk) now args reply c in
  (TaskType r = MapTask /\ exists i t,
     WorkId r = Z.of_nat i /\ mapTasks c !! i = Some t /\ ~ mapSuccess t) \/
  (TaskType r = ReduceTask /\ exists i t,
     WorkId r = Z.of_nat i /\ reduceTasks c !! i = Some t /\ ~ reduceSuccess t).
Proof.
  intros [] Hm Hr Hd [Sm Sr]. unfold Done in Hd. rewrite inv_allDone0 in Hd.
  destruct (AssignTask_result (fun _ => clk) now args reply c)
    as [i t Hmd Hi Ha _|i t Hmd Hrd Hi Ha _|Wm Wr Wa|Hmd Hrd Had]; simpl.
  - left. split; [done|]. exists i, t. split_and!; [done..|].
    by eapply assignable_not_Success.
  - right. split; [done|]. exists i, t. split_and!; [done..|].
    by eapply assignable_not_Success.
  - exfalso. destruct (mapTasksDone c) eqn:Hmd.
    + destruct (not_all_exists reduceSuccess (reduceTasks c)) as (i & t & Hi & Ht).
      { intros Hall. assert (reduceTasksDone c = true) by (by apply inv_reduceDone0). congruence. }
      specialize (Wr eq_refl Hd i t Hi). unfold reduceAssignable in Wr.
      destruct (inv_reduces0 i t Hi) as (_ & _ & Hl).
      rewrite overdue_assignable in Wr; [done|done|done|by eapply Sr].
    + destruct (not_all_exists mapSuccess (mapTasks c)) as (i & t & Hi & Ht).
      { intros Hall. assert (false = true) by (by apply inv_mapDone0). done. }
      specialize (Wm eq_refl i t Hi). unfold mapAssignable in Wm.
      destruct (proj2 inv_maps0 i t Hi) as (_ & Hl).
      rewrite overdue_assignable in Wm; [done|done|done|by eapply Sm].
  - congruence.
Qed.

(** ** Properties *)

(** C15: in every state the coordinator can reach from [MakeCoordinator] by any
    sequence of RPCs, the completion counters equal the number of successful
    tasks, each phase flag is set exactly when every task of its phase
    succeeded, and the task tables still describe the job they were made for. *)
Theorem coordinator_invariant files n c :
  creachable files n c ->
  inv c /\ nReduce c = n /\ inputfiles c = files /\ length (mapTasks c) = length files.
Proof.
  intros Hr. pose proof (creachable_static _ _ _ Hr) as [? ?].
  pose proof (creachable_lengths _ _ _ Hr) as [? _]. eauto with golabs.
Qed.

(** C16: the coordinator hands out a reduce task only when every map task has
    succeeded; the reply names a reduce task in range and exactly the
    intermediate files [mr-j-i] of all map tasks [j]. *)
Theorem reduce_only_after_maps files n c since now args reply r c' :
  creachable files n c ->
  AssignTask since now args reply c = (r, c') -> TaskType r = ReduceTask ->
  Forall mapSuccess (mapTasks c) /\
  exists i, WorkId r = Z.of_nat i /\ (Z.of_nat i < n)%Z /\
    InputFiles r = (fun j => intermediateName (Z.of_nat j) (Z.of_nat i)) <$> seq 0 (length files).
Proof.
  intros Hr Ha Ht. pose proof (creachable_static _ _ _ Hr) as [<- <-].
  apply inv_creachable in Hr as []. pose proof (AssignTask_result since now args reply c) as Hres.
  rewrite Ha in Hres. inv Hres; try done.
  destruct (inv_reduces0 _ _ ltac:(eassumption)) as (_ & Hf & _).
  split; [by apply inv_mapDone0|]. exists i. split_and!; [done| |done].
  rewrite inv_nReduce0. unfold len. apply Nat2Z.inj_lt. by eapply lookup_lt_Some.
Qed.

(** [Done] answers true exactly when there are reduce tasks and all of them
    succeeded, and it never goes back to false. *)
Theorem done_iff_all_reduced files n c :
  creachable files n c ->
  (Done c = true <-> (0 < n)%Z /\ Forall reduceSuccess (reduceTasks c)) /\
  forall c', cstep c c' -> Done c = true -> Done c' = true.
Proof.
  intros Hr. pose proof (creachable_lengths _ _ _ Hr) as [_ Hn].
  apply inv_creachable in Hr as []. split.
  - unfold Done. rewrite inv_allDone0, inv_reduceDone0, <-Hn. unfold len.
    assert (reduceTasks c <> [] <-> (0 < Z.of_nat (length (reduceTasks c)))%Z) as ->; [|done].
    destruct (reduceTasks c); simpl; split; intros; (done || lia).
  - intros c' Hs. by apply cstep_flags.
Qed.

(** C18: a task handed out at time [now] is not handed out again while the
    coordinator's clock reads at most [now] + 10 s, whatever RPCs arrive in
    between. *)
Theorem assignment_lease since now args reply c r c1 c2 since' now' args' reply' r' c3 :
  AssignTask since now args reply c = (r, c1) ->
  TaskType r = MapTask \/ TaskType r = ReduceTask ->
  rtc (cstep_by (now + tenSeconds)) c1 c2 ->
  (forall i, since' i <= now + tenSeconds)%Z ->
  AssignTask since' now' args' reply' c2 = (r', c3) ->
  TaskType r' = TaskType r -> WorkId r' <> WorkId r.
Proof.
  intros Ha Ht Hs Hcl Ha' Hty. pose proof (AssignTask_holds since now args reply c) as Hh.
  rewrite Ha in Hh.
  destruct Ht as [Ht|Ht]; rewrite Ht in Hh; destruct Hh as (i & -> & Hh);
    pose proof (AssignTask_avoids since' now' args' reply' c2 now i Hcl) as Hav;
    rewrite Ha' in Hav; destruct Hav as [Hav1 Hav2]; rewrite <-Hty in Ht.
  - apply Hav1; [|done]. by eapply rtc_preserves; [apply map_held_step|..].
  - apply Hav2; [|done]. by eapply rtc_preserves; [apply reduce_held_step|..].
Qed.

(** [NotifyComplete] fails only on a task number out of range: too large
    terminates the coordinator with a message, negative panics. *)
Theorem notify_error_iff args c :
  ((exists s, NotifyComplete args c = Fatal s) <->
    (WorkerArgs_TaskType args = MapTask /\ len (mapTasks c) <= WorkerArgs_WorkID args)%Z \/
    (WorkerArgs_TaskType args = ReduceTask /\ len (reduceTasks c) <= WorkerArgs_WorkID args)%Z) /\
  ((exists s, NotifyComplete args c = Panic s) <->
    (WorkerArgs_TaskType args = MapTask \/ WorkerArgs_TaskType args = ReduceTask) /\
    (WorkerArgs_WorkID args < 0)%Z).
Proof.
  pose proof (NotifyComplete_result args c) as Hr.
  pose proof (len_nonneg (mapTasks c)). pose proof (len_nonneg (reduceTasks c)).
  split; split.
  - intros [s Hs]. rewrite Hs in Hr. inv Hr; auto.
  - unfold NotifyComplete. intros [[-> Hl]|[-> Hl]]; rewrite decide_True by done; eauto.
  - intros [s Hs]. rewrite Hs in Hr. by inv Hr.
  - unfold NotifyComplete, slice_get. intros [[-> | ->] Hl];
      rewrite !decide_False by lia; eauto.
Qed.

End Coordinator.
