(* ===== verification/MrWorker.v ===== *)
(** * MapReduce: the worker

    Models [src/src/mr/worker.go].  A worker interacts with the file system and
    with the coordinator; other processes run between any two interactions.  A
    handler is therefore a [prog]: a tree of interactions whose branches are
    the answers, so that an execution of the whole system can interleave the
    interactions of several workers (see [MrSystem]).

    A temporary file is private to the process that created it, so a
    [CreateTemp ... write ... Rename] sequence is the single interaction
    [Rename content newname] that publishes the written content.  A failing
    [os.CreateTemp] and a failing [os.Rename] are answers [false]. *)

From S2P Require Import Prelude MrRpc GoLib.

(** ** Interactive programs *)

Inductive prog (A : Type) : Type :=
| Ret (a : A)
| Open (name : string) (k : option string -> prog A)
| ReadAll (content : string) (k : option string -> prog A)
| CreateTemp (pattern : string) (k : bool -> prog A)
| Rename (content newname : string) (k : bool -> prog A)
| CallAssignTask (args : WorkerArgs) (k : option CoordinatorReply -> prog A)
| CallNotifyComplete (args : WorkerArgs) (k : bool -> prog A)
| Sleep (seconds : Z) (k : prog A)
| OsExit (code : Z)
| Crash (msg : string).
Arguments Ret {_} _.
Arguments Open {_} _ _.
Arguments ReadAll {_} _ _.
Arguments CreateTemp {_} _ _.
Arguments Rename {_} _ _ _.
Arguments CallAssignTask {_} _ _.
Arguments CallNotifyComplete {_} _ _.
Arguments Sleep {_} _ _.
Arguments OsExit {_} _.
Arguments Crash {_} _.

#[export] Instance prog_ret : MRet prog := @Ret.
#[export] Instance prog_bind : MBind prog := fun A B f =>
  fix bind (p : prog A) : prog B :=
    match p with
    | Ret a => f a
    | Open n k => Open n (fun x => bind (k x))
    | ReadAll c k => ReadAll c (fun x => bind (k x))
    | CreateTemp s k => CreateTemp s (fun x => bind (k x))
    | Rename c n k => Rename c n (fun x => bind (k x))
    | CallAssignTask a k => CallAssignTask a (fun x => bind (k x))
    | CallNotifyComplete a k => CallNotifyComplete a (fun x => bind (k x))
    | Sleep s k => Sleep s (bind k)
    | OsExit c => OsExit c
    | Crash s => Crash s
    end.

(** Single interactions; [log.Fatal] prints and exits with status 1. *)
Definition os_Open (name : string) : prog (option string) := Open name Ret.
Definition io_ReadAll (content : string) : prog (option string) := ReadAll content Ret.
Definition os_CreateTemp (pattern : string) : prog bool := CreateTemp pattern Ret.
Definition os_Rename (content newname : string) : prog bool := Rename content newname Ret.
Definition log_Fatal {A} (msg : string) : prog A := OsExit 1.

Definition prog_of_outcome {A} (m : outcome A) : prog A :=
  match m with
  | Return a => Ret a
  | Fatal s => log_Fatal s
  | Panic s => Crash s
  end.

Module Worker.

(** [int(h.Sum32() & 0x7fffffff)] *)
Definition ihash (key : string) : Z := Z.land (fnv32a key) 0x7fffffff.

(** ** Calls to the coordinator *)

Definition GetATask : prog CoordinatorReply :=
  CallAssignTask {| WorkerArgs_TaskStatus := AskANewTask;
                    WorkerArgs_WorkID := WorkerArgs_WorkID zeroArgs;
                    WorkerArgs_TaskType := WorkerArgs_TaskType zeroArgs |}
    (fun status =>
       match status with
       | Some reply => Ret reply
       | None => Ret zeroReply (* the call failed: the reply keeps its zero value *)
       end).

Definition completionArgs (reply : CoordinatorReply) : WorkerArgs :=
  {| WorkerArgs_TaskStatus := Success;
     WorkerArgs_WorkID := WorkId reply;
     WorkerArgs_TaskType := TaskType reply |}.

Definition NotifyComplete (reply : CoordinatorReply) : prog unit :=
  CallNotifyComplete (completionArgs reply) (fun _ => Ret tt).

Definition CallExample_args : ExampleArgs := {| ExampleArgs_X := 99 |}.

Section Worker.
Context (mapf : string -> string -> list KeyValue).
Context (reducef : string -> list string -> string).
Context (sortSlice : list KeyValue -> list KeyValue).
Context `{JsonKV}.

(** ** Map tasks *)

(** The first loop of [writeIntermediate]: append every pair to the bucket of
    its key. *)
Fixpoint dispatch (nReduce : Z) (kvs : list KeyValue) (intermediate : list (list KeyValue))
    : outcome (list (list KeyValue)) :=
  match kvs with
  | [] => Return intermediate
  | kv :: kvs =>
      if decide (nReduce = 0%Z) then Panic "integer divide by zero"
      else
        let r := Z.rem (ihash (Key kv)) nReduce in
        b ← slice_get intermediate r;
        intermediate' ← slice_set intermediate r (b ++ [kv]);
        dispatch nReduce kvs intermediate'
  end.

Definition outputFileName (mapID r : Z) : string := "mr-" +:+ Itoa mapID +:+ "-" +:+ Itoa r.
Definition tmpoutputFileName (mapID r : Z) : string :=
  "mr-" +:+ Itoa mapID +:+ "-" +:+ Itoa r +:+ "-x.tmp".

(** The JSON lines of one bucket. *)
Definition bucketContent (kva : list KeyValue) : string := str_concat (json_Encode <$> kva).

(** The second loop of [writeIntermediate].  The error of [os.CreateTemp] is
    dropped, so a failure surfaces as a nil dereference in [tmpofile.Name()];
    the error of [os.Rename] is dropped silently.  So are the errors of encoding
    to and closing the temporary file, which here do not occur. *)
Fixpoint writeBuckets (mapID : Z) (r : nat) (intermediate : list (list KeyValue)) : prog unit :=
  match intermediate with
  | [] => Ret tt
  | kva :: intermediate =>
      created ← os_CreateTemp (tmpoutputFileName mapID (Z.of_nat r));
      if (created : bool) then
        _ ← os_Rename (bucketContent kva) (outputFileName mapID (Z.of_nat r));
        writeBuckets mapID (S r) intermediate
      else Crash "nil pointer dereference"
  end.

Definition writeIntermediate (mapID nReduce : Z) (kvs : list KeyValue) : prog unit :=
  intermediate ← prog_of_outcome (go_make [] nReduce ≫= dispatch nReduce kvs);
  writeBuckets mapID 0 intermediate.

Definition handleMapTask (reply : CoordinatorReply) : prog unit :=
  match InputFiles reply with
  | [fileName] =>
      file ← os_Open fileName;
      match file with
      | None => log_Fatal "cannot open"
      | Some file =>
          content ← io_ReadAll file;
          match content with
          | None => log_Fatal "cannot read"
          | Some content =>
              let kva := mapf fileName content in
              _ ← writeIntermediate (WorkId reply) (NReduce reply) kva;
              NotifyComplete reply
          end
      end
  | _ => log_Fatal "len(reply.InputFiles) != 1"
  end.

(** ** Reduce tasks *)

(** The loading loop: every file must open; pairs are read until the first
    decoding error. *)
Fixpoint loadIntermediate (files : list string) (intermediate : list KeyValue)
    : prog (list KeyValue) :=
  match files with
  | [] => Ret intermediate
  | f :: files =>
      file ← os_Open f;
      match file with
      | None => log_Fatal "fail to open file"
      | Some content => loadIntermediate files (intermediate ++ decode_all content)
      end
  end.

(** [fmt.Fprintf(f, "%v %v\n", key, output)] *)
Definition outputLine (key output : string) : string := key +:+ " " +:+ output +:+ NL.

(** The inner loop: from position [j], collect the values of the run of pairs
    whose key is [key]; returns the values and the pairs left. *)
Fixpoint collectRun (key : string) (vals : list string) (l : list KeyValue)
    : list string * list KeyValue :=
  match l with
  | [] => (vals, [])
  | kv :: l' => if decide (Key kv = key) then collectRun key (vals ++ [Value kv]) l' else (vals, l)
  end.

(** The outer loop, on the pairs from position [i] on; each round consumes at
    least one pair, so the number of pairs bounds the rounds. *)
Fixpoint reduceLoop (fuel : nat) (l : list KeyValue) : list string :=
  match fuel, l with
  | S fuel, kv :: l' =>
      let '(vals, rest) := collectRun (Key kv) [Value kv] l' in
      outputLine (Key kv) (reducef (Key kv) vals) :: reduceLoop fuel rest
  | _, _ => []
  end.

(** The lines written for one reduce task, from its loaded pairs. *)
Definition reduceOutput (intermediate : list KeyValue) : list string :=
  let sorted := sortSlice intermediate in reduceLoop (length sorted) sorted.

Definition outFileName (workId : Z) : string := "mr-out-" +:+ Itoa workId.
Definition tmpoutFileName (workId : Z) : string := "mr-out-" +:+ Itoa workId +:+ "-*.tmp".

(** The errors of printing to and closing the temporary file, which the code
    drops, do not occur here. *)
Definition handleReduceTask (reply : CoordinatorReply) : prog unit :=
  intermediate ← loadIntermediate (InputFiles reply) [];
  created ← os_CreateTemp (tmpoutFileName (WorkId reply));
  if (created : bool) then
    _ ← os_Rename (str_concat (reduceOutput intermediate)) (outFileName (WorkId reply));
    NotifyComplete reply
  else log_Fatal "Fail to CreateTemp".

(** ** The main loop *)

(** One iteration of the endless loop of [Worker]. *)
Definition workerIteration : prog unit :=
  reply ← GetATask;
  match TaskType reply with
  | MapTask => handleMapTask reply
  | ReduceTask => handleReduceTask reply
  | Exit => OsExit 0
  | Wait => Sleep 1 (Ret tt)
  end.

End Worker.

(** ** What the loops compute *)

(** The bucket of a key among [n > 0] reduce tasks. *)
Definition bucketOf (n : nat) (key : string) : nat := Z.to_nat (Z.rem (ihash key) (Z.of_nat n)).

Definition inBucket (n r : nat) (kv : KeyValue) : Prop := bucketOf n (Key kv) = r.
#[export] Instance inBucket_dec n r kv : Decision (inBucket n r kv).
Proof. unfold inBucket. apply _. Defined.

(** The pairs of bucket [r], in their original order. *)
Definition bucket (n r : nat) (kvs : list KeyValue) : list KeyValue := filter (inBucket n r) kvs.

(** The values of one key, in their original order. *)
Definition valuesOf (key : string) (l : list KeyValue) : list string :=
  Value <$> filter (fun kv => Key kv = key) l.

(** The reference result of reducing [l]: one line per key of [keys]. *)
Definition linesFor (reducef : string -> list string -> string) (keys : list string) (l : list KeyValue) : list string :=
  (fun k => outputLine k (reducef k (valuesOf k l))) <$> keys.

(** [keys] lists the keys of [l], in strictly increasing order. *)
Definition keysOf (keys : list string) (l : list KeyValue) : Prop :=
  StronglySorted (≤)%string keys /\ NoDup keys /\ forall k, k ∈ keys <-> k ∈ (Key <$> l).

Lemma ihash_range key : (0 <= ihash key < 2 ^ 31)%Z.
Proof.
  unfold ihash. change 0x7fffffff%Z with (Z.ones 31).
  rewrite Z.land_ones by lia. apply Z.mod_pos_bound. lia.
Qed.

Lemma bucketOf_lt n key : 0 < n -> bucketOf n key < n.
Proof.
  intros Hn. unfold bucketOf. pose proof (ihash_range key).
  pose proof (Z.rem_bound_pos (ihash key) (Z.of_nat n)). lia.
Qed.

Lemma dispatch_spec n kvs bs :
  0 < n -> length bs = n ->
  dispatch (Z.of_nat n) kvs bs = Return (imap (fun r b => b ++ bucket n r kvs) bs).
Proof.
  intros Hn. revert bs. induction kvs as [|kv kvs IH]; intros bs Hl; simpl.
  - f_equal. apply list_eq. intros i. rewrite list_lookup_imap.
    destruct (bs !! i); simpl; [|done]. by rewrite app_nil_r.
  - rewrite decide_False by lia. pose proof (bucketOf_lt n (Key kv) Hn) as Hb.
    assert (Z.rem (ihash (Key kv)) (Z.of_nat n) = Z.of_nat (bucketOf n (Key kv))) as ->.
    { unfold bucketOf. pose proof (ihash_range (Key kv)).
      pose proof (Z.rem_bound_pos (ihash (Key kv)) (Z.of_nat n)). lia. }
    set (b := bucketOf n (Key kv)) in *.
    destruct (lookup_lt_is_Some_2 bs b) as [bv Hbv]; [lia|].
    rewrite (slice_get_Some _ _ _ Hbv). simpl. unfold slice_set, len.
    rewrite decide_True by lia. simpl. rewrite Nat2Z.id, IH by (by rewrite length_insert).
    f_equal. apply list_eq. intros i. rewrite !list_lookup_imap, list_lookup_insert.
    unfold bucket. rewrite filter_cons. unfold inBucket at 2. fold b.
    case_decide as Hi.
    + destruct Hi as [<- _]. rewrite Hbv. simpl. rewrite decide_True by done.
      by rewrite <-app_assoc.
    + destruct (bs !! i) eqn:Hbi; simpl; [|done]. rewrite decide_False; [done|].
      intros Hbi'. apply Hi. split; [done|lia].
Qed.

(** The buckets [writeIntermediate] writes. *)
Lemma buckets_spec n kvs :
  0 < n ->
  (go_make [] (Z.of_nat n) ≫= dispatch (Z.of_nat n) kvs)
  = Return ((fun r => bucket n r kvs) <$> seq 0 n).
Proof.
  intros Hn. unfold go_make. rewrite decide_True by lia. simpl.
  rewrite Nat2Z.id, dispatch_spec by (try rewrite length_replicate; done).
  f_equal. apply list_eq. intros i. rewrite list_lookup_imap, list_lookup_fmap.
  destruct (decide (i < n)).
  - rewrite lookup_replicate_2, lookup_seq_lt by lia. done.
  - by rewrite !lookup_ge_None_2 by (rewrite ?length_replicate, ?length_seq; lia).
Qed.

(** ** The reduce loop on sorted pairs *)

Section Reduce.
Context (reducef : string -> list string -> string).
Context (sortSlice : list KeyValue -> list KeyValue).

Lemma key_le_min k l :
  StronglySorted key_le l -> Forall (fun kv => (k ≤ Key kv)%string) l ->
  forall vals, collectRun k vals l
    = (vals ++ valuesOf k l, filter (fun kv => Key kv <> k) l).
Proof.
  unfold valuesOf. induction l as [|kv l IH]; intros Hs Hk vals; simpl.
  - by rewrite app_nil_r.
  - apply StronglySorted_cons in Hs as [Hle Hs]. apply Forall_cons in Hk as [Hk Hkl].
    rewrite !filter_cons. case_decide as Heq.
    + rewrite (decide_False (P := Key kv <> k)) by tauto. rewrite IH by done. simpl.
      by rewrite <-app_assoc.
    + rewrite (decide_True (P := Key kv <> k)) by done.
      assert (Forall (fun kv => Key kv <> k) l) as Hne.
      { rewrite Forall_forall in Hle, Hkl |- *. intros kv' Hkv' Hk'.
        apply Heq, (anti_symm (≤)%string); [rewrite <-Hk'; by apply Hle|done]. }
      by rewrite (filter_none_nil (fun kv => Key kv = k)), app_nil_r, filter_all_id.
Qed.

Lemma valuesOf_filter_ne k k' l :
  k' <> k -> valuesOf k' (filter (fun kv => Key kv <> k) l) = valuesOf k' l.
Proof.
  intros Hk. unfold valuesOf. f_equal. apply filter_filter_impl. by intros ? _ ->.
Qed.

Lemma valuesOf_cons_ne k kv l : Key kv <> k -> valuesOf k (kv :: l) = valuesOf k l.
Proof. intros Hk. unfold valuesOf. by rewrite filter_cons, decide_False. Qed.

Lemma linesFor_ext keys l l' :
  (forall k, k ∈ keys -> valuesOf k l = valuesOf k l') -> linesFor reducef keys l = linesFor reducef keys l'.
Proof.
  intros Hv. unfold linesFor. apply list_fmap_ext. intros i k Hk.
  rewrite Hv; [done|]. by eapply list_elem_of_lookup_2.
Qed.

(** On sorted pairs, the loop prints one line per distinct key, in increasing
    key order, reducing all the values of that key. *)
Lemma reduceLoop_spec fuel l :
  length l <= fuel -> StronglySorted key_le l ->
  exists keys, keysOf keys l /\ reduceLoop reducef fuel l = linesFor reducef keys l.
Proof.
  revert l. induction fuel as [|fuel IH]; intros [|kv l] Hl Hs; simpl in *; [|lia| |].
  1-2: exists []; split; [|done]; split_and!; [constructor|constructor|done].
  apply StronglySorted_cons in Hs as [Hle Hs].
  rewrite (key_le_min (Key kv) l) by done.
  set (rest := filter (fun kv' => Key kv' <> Key kv) l).
  destruct (IH rest) as (keys & (Hsk & Hnd & Hmem) & ->).
  { unfold rest. pose proof (length_filter (fun kv' => Key kv' <> Key kv) l). lia. }
  { by apply StronglySorted_filter_sub. }
  assert (forall k, k ∈ keys <-> k ∈ (Key <$> l) /\ k <> Key kv) as Hmem'.
  { intros k. rewrite Hmem, !list_elem_of_fmap. unfold rest.
    setoid_rewrite list_elem_of_filter.
    split; [intros (? & -> & ? & ?)|intros [(? & -> & ?) ?]]; eauto 10. }
  exists (Key kv :: keys). split; [split_and!|].
  - apply StronglySorted_cons. split; [|done]. apply Forall_forall.
    intros k [(kv' & -> & Hkv')%list_elem_of_fmap _]%Hmem'.
    rewrite Forall_forall in Hle. by apply Hle.
  - constructor; [|done]. rewrite Hmem'. tauto.
  - intros k. rewrite fmap_cons, !elem_of_cons, Hmem'.
    destruct (decide (k = Key kv)); tauto.
  - unfold linesFor at 2. rewrite fmap_cons. f_equal.
    + unfold valuesOf. by rewrite filter_cons, decide_True.
    + apply linesFor_ext. intros k [_ Hk]%Hmem'.
      unfold rest. rewrite valuesOf_filter_ne by done. by rewrite valuesOf_cons_ne.
Qed.

Context `{!SortsByKey sortSlice}.
Context {reducef_perm : forall k, Proper ((≡ₚ) ==> (=)) (reducef k)}.

Lemma keysOf_perm keys l l' : l ≡ₚ l' -> keysOf keys l -> keysOf keys l'.
Proof.
  intros Hp (Hs & Hn & Hm). split_and!; [done|done|].
  intros k. by rewrite Hm, Hp.
Qed.

Lemma linesFor_perm keys l l' : l ≡ₚ l' -> linesFor reducef keys l = linesFor reducef keys l'.
Proof.
  intros Hp. unfold linesFor. apply list_fmap_ext. intros i k _.
  f_equal. apply reducef_perm. unfold valuesOf. by rewrite Hp.
Qed.

(** For a reduce function that ignores the order of its values, the output of
    a reduce task is the reference result on its pairs, whatever the sort. *)
Lemma reduceOutput_spec l :
  exists keys, keysOf keys l /\ reduceOutput reducef sortSlice l = linesFor reducef keys l.
Proof.
  unfold reduceOutput. destruct (reduceLoop_spec (length (sortSlice l)) (sortSlice l))
    as (keys & Hk & ->); [done|apply sorts_sorted|].
  exists keys. split.
  - eapply keysOf_perm; [apply sorts_perm|done].
  - apply linesFor_perm, sorts_perm.
Qed.

End Reduce.
End Worker.
