(* ===== verification/MrSequential.v ===== *)
(** * MapReduce: the sequential reference program

    Models [src/src/main/mrsequential.go] and proves that its output agrees,
    line for line up to order, with the buckets reduced by the workers. *)

From S2P Require Import Prelude MrRpc GoLib MrWorker.

Module Sequential.

Abbreviation MapF := (string -> string -> list KeyValue) (only parsing).
Abbreviation ReduceF := (string -> list string -> string) (only parsing).

(** A Go plugin: the symbols [Map] and [Reduce], if it exports them. *)
Record plugin := {
  plugin_Map : option (string -> string -> list KeyValue);
  plugin_Reduce : option (string -> list string -> string)
}.

Section Sequential.
(** [plugin.Open], [ioutil.ReadAll] on an open file's content, and
    [sort.Sort(ByKey(...))]. *)
Context (plugin_Open : string -> option plugin).
Context (readAll : string -> option string).
Context (sortSort : list KeyValue -> list KeyValue).

Definition loadPlugin (filename : string) : outcome (MapF * ReduceF) :=
  match plugin_Open filename with
  | None => Fatal "cannot load plugin"
  | Some p =>
      match plugin_Map p with
      | None => Fatal "cannot find Map"
      | Some mapf =>
          match plugin_Reduce p with
          | None => Fatal "cannot find Reduce"
          | Some reducef => Return (mapf, reducef)
          end
      end
  end.

(** The reading loop: accumulate the map output of every input file. *)
Fixpoint mapInputs (mapf : MapF) (fs : gmap string string) (files : list string)
    (intermediate : list KeyValue) : outcome (list KeyValue) :=
  match files with
  | [] => Return intermediate
  | filename :: files =>
      match fs !! filename with
      | None => Fatal "cannot open"
      | Some file =>
          match readAll file with
          | None => Fatal "cannot read"
          | Some content => mapInputs mapf fs files (intermediate ++ mapf filename content)
          end
      end
  end.

(** [j] minus [i + 1]: how many of the following pairs have the same key. *)
Fixpoint runLength (key : string) (l : list KeyValue) : nat :=
  match l with
  | kv :: l => if decide (Key kv = key) then S (runLength key l) else 0
  | [] => 0
  end.

(** The outer loop on the pairs from position [i] on. *)
Fixpoint sequentialLoop (reducef : ReduceF) (fuel : nat) (l : list KeyValue) : list string :=
  match fuel, l with
  | S fuel, kv :: l' =>
      let n := runLength (Key kv) l' in
      let values := Value <$> take (S n) l in
      Worker.outputLine (Key kv) (reducef (Key kv) values)
        :: sequentialLoop reducef fuel (drop n l')
  | _, _ => []
  end.

Definition sequentialOutput (reducef : ReduceF) (intermediate : list KeyValue) : list string :=
  let sorted := sortSort intermediate in sequentialLoop reducef (length sorted) sorted.

(** [main]: [args] is [os.Args]; the result is the file system afterwards. *)
Definition main (args : list string) (fs : gmap string string) : outcome (gmap string string) :=
  match args with
  | _ :: xso :: ((_ :: _) as files) =>
      '(mapf, reducef) ← loadPlugin xso;
      intermediate ← mapInputs mapf fs files [];
      mret (<["mr-out-0" := str_concat (sequentialOutput reducef intermediate)]> fs)
  | _ => Fatal "Usage: mrsequential xxx.so inputfiles..."
  end.

(** ** The two grouping loops agree *)

Lemma collectRun_runLength key vals l :
  Worker.collectRun key vals l
  = (vals ++ (Value <$> take (runLength key l) l), drop (runLength key l) l).
Proof.
  revert vals. induction l as [|kv l IH]; intros vals; simpl.
  - by rewrite app_nil_r.
  - case_decide; simpl.
    + rewrite IH. by rewrite <-app_assoc.
    + by rewrite app_nil_r.
Qed.

Lemma sequentialLoop_reduceLoop reducef fuel l :
  sequentialLoop reducef fuel l = Worker.reduceLoop reducef fuel l.
Proof.
  revert l. induction fuel as [|fuel IH]; intros [|kv l]; simpl; try done.
  rewrite collectRun_runLength. by rewrite IH.
Qed.

Lemma sequentialOutput_reduceOutput reducef l :
  sequentialOutput reducef l = Worker.reduceOutput reducef sortSort l.
Proof. apply sequentialLoop_reduceLoop. Qed.

(** The map phase succeeds on readable inputs and yields, in order, the pairs
    of every file. *)
Definition mapAll (mapf : MapF) (inputs : list (string * string)) : list KeyValue :=
  inputs ≫= (fun '(f, c) => mapf f c).

Lemma mapInputs_spec mapf fs inputs acc :
  (forall c, readAll c = Some c) ->
  Forall (fun '(f, c) => fs !! f = Some c) inputs ->
  mapInputs mapf fs inputs.*1 acc = Return (acc ++ mapAll mapf inputs).
Proof.
  intros Hread. revert acc. induction inputs as [|[f c] inputs IH]; intros acc Hfs; simpl.
  - by rewrite app_nil_r.
  - apply Forall_cons in Hfs as [Hf Hfs]. rewrite Hf, Hread, IH by done.
    by rewrite <-app_assoc.
Qed.

End Sequential.

(** ** Bucketed reduction agrees with sequential reduction *)

Section Equivalence.
Context (reducef : ReduceF).
Context {reducef_perm : forall k, Proper ((≡ₚ) ==> (=)) (reducef k)}.
Context (sortSlice sortSort : list KeyValue -> list KeyValue).
Context `{!SortsByKey sortSlice, !SortsByKey sortSort}.

Lemma valuesOf_bucket n r k l :
  Worker.bucketOf n k = r -> Worker.valuesOf k (Worker.bucket n r l) = Worker.valuesOf k l.
Proof.
  intros Hk. unfold Worker.valuesOf, Worker.bucket. f_equal.
  apply filter_filter_impl. intros kv _ Hkv. unfold Worker.inBucket. by rewrite Hkv.
Qed.

Lemma buckets_lines n l rs :
  NoDup rs ->
  exists keys, NoDup keys /\
    (forall k, k ∈ keys <-> k ∈ (Key <$> l) /\ Worker.bucketOf n k ∈ rs) /\
    (rs ≫= fun r => Worker.reduceOutput reducef sortSlice (Worker.bucket n r l))
    = Worker.linesFor reducef keys l.
Proof.
  induction rs as [|r rs IH]; intros Hnd.
  { exists []. split_and!; [constructor| |done]. intros k. rewrite !elem_of_nil. tauto. }
  apply NoDup_cons in Hnd as [Hr Hnd]. destruct (IH Hnd) as (keys & Hk & Hmem & Heq).
  destruct (Worker.reduceOutput_spec reducef sortSlice (Worker.bucket n r l))
    as (keys' & (_ & Hk' & Hmem') & Heq').
  assert (forall k, k ∈ keys' <-> k ∈ (Key <$> l) /\ Worker.bucketOf n k = r) as Hm'.
  { intros k. rewrite Hmem', !list_elem_of_fmap. unfold Worker.bucket, Worker.inBucket.
    setoid_rewrite list_elem_of_filter.
    split; [intros (? & -> & ? & ?)|intros [(? & -> & ?) ?]]; eauto 10. }
  exists (keys' ++ keys). split_and!.
  - apply NoDup_app. split_and!; [done| |done].
    intros k [_ Hkr]%Hm' [_ Hkrs]%Hmem. congruence.
  - intros k. rewrite elem_of_app, Hm', Hmem, elem_of_cons. tauto.
  - rewrite bind_cons, Heq, Heq'. unfold Worker.linesFor.
    rewrite fmap_app. f_equal. apply Worker.linesFor_ext.
    intros k [_ Hkr]%Hm'. by apply valuesOf_bucket.
Qed.

(** Reducing the [n] buckets one by one prints the lines of the sequential
    program, in some order. *)
Lemma buckets_sequential n l :
  0 < n ->
  (seq 0 n ≫= fun r => Worker.reduceOutput reducef sortSlice (Worker.bucket n r l))
  ≡ₚ sequentialOutput sortSort reducef l.
Proof.
  intros Hn. rewrite sequentialOutput_reduceOutput.
  destruct (Worker.reduceOutput_spec reducef sortSort l) as (keys & (_ & Hnd & Hmem) & ->).
  destruct (buckets_lines n l (seq 0 n)) as (keys' & Hnd' & Hmem' & ->); [apply NoDup_seq|].
  unfold Worker.linesFor. apply fmap_Permutation.
  apply NoDup_Permutation; [done|done|]. intros k. rewrite Hmem', Hmem, elem_of_seq.
  pose proof (Worker.bucketOf_lt n k Hn). split; [tauto|]. intros ?. split; [done|lia].
Qed.

End Equivalence.
End Sequential.
