(* ===== verification/MrLogic.v ===== *)
(** * MapReduce: reasoning about worker programs

    File names are injective; what every file of a job must contain; and a
    program logic for worker programs: [wp K p Q] says that [p], started when
    the files of [K] are known to hold their proper content, only publishes
    proper content, only reports finished tasks, and ends in [Q]. *)

From Stdlib Require Import Ascii.
From S2P Require Import Prelude MrRpc GoLib MrCoordinator MrWorker.

Module Logic.

(** ** File names *)

Definition midName (m r : nat) : string := Worker.outputFileName (Z.of_nat m) (Z.of_nat r).
Definition outName (r : nat) : string := Worker.outFileName (Z.of_nat r).

(** The coordinator and the workers use the same names. *)
Lemma midName_intermediateName m r :
  midName m r = Coordinator.intermediateName (Z.of_nat m) (Z.of_nat r).
Proof. done. Qed.

Lemma midName_inj m r m' r' : midName m r = midName m' r' -> m = m' /\ r = r'.
Proof.
  unfold midName, Worker.outputFileName. intros Heq%(inj (String.app "mr-")).
  apply dash_split in Heq as [Hm Hr];
    auto using Itoa_nat_digits, digits_no_dash, Itoa_nat_inj.
Qed.

Lemma outName_inj r r' : outName r = outName r' -> r = r'.
Proof. unfold outName, Worker.outFileName. intros ?%(inj (String.app _)). by apply Itoa_nat_inj. Qed.

Lemma midName_outName m r r' : midName m r <> outName r'.
Proof.
  unfold midName, Worker.outputFileName, outName, Worker.outFileName.
  change ("mr-out-" +:+ ?x) with ("mr-" +:+ "out" +:+ "-" +:+ x).
  intros Heq%(inj (String.app "mr-")).
  pose proof (Itoa_nat_digits m) as Hd.
  apply dash_split in Heq as [Hm _]; [|by apply digits_no_dash|by split_and!].
  rewrite Hm in Hd. destruct Hd as [[d Hd] _]. done.
Qed.

(** ** The job: what each file must contain *)

Section Job.
Context (mapf : string -> string -> list KeyValue).
Context (reducef : string -> list string -> string).
Context (sortSlice : list KeyValue -> list KeyValue).
Context `{JsonKV}.
Context (files : list string) (content : string -> string) (n : nat).

Definition mapOut (f : string) : list KeyValue := mapf f (content f).
Definition allPairs : list KeyValue := files ≫= mapOut.
Definition midContent (f : string) (r : nat) : string :=
  Worker.bucketContent (Worker.bucket n r (mapOut f)).
Definition outLines (r : nat) : list string :=
  Worker.reduceOutput reducef sortSlice (Worker.bucket n r allPairs).

(** [good name c]: [c] is the content file [name] must have. *)
Inductive good : string -> string -> Prop :=
| good_input f : f ∈ files -> good f (content f)
| good_mid m f r : files !! m = Some f -> r < n -> good (midName m r) (midContent f r)
| good_out r : r < n -> good (outName r) (str_concat (outLines r)).

(** No input file is named like an intermediate or an output file. *)
Definition names_ok : Prop :=
  forall f, f ∈ files -> (forall m r, f <> midName m r) /\ (forall r, f <> outName r).

Context (Hnames : names_ok).

Lemma good_cases x c :
  good x c ->
  (x ∈ files /\ c = content x) \/
  (exists m f r, files !! m = Some f /\ x = midName m r /\ c = midContent f r) \/
  (exists r, x = outName r /\ c = str_concat (outLines r)).
Proof. destruct 1; eauto 10. Qed.

Lemma good_input_inv f c : f ∈ files -> good f c -> c = content f.
Proof.
  intros Hf. destruct (Hnames f Hf) as [H1 H2].
  intros [[_ ?]|[(m & f' & r & _ & Hx & _)|(r & Hx & _)]]%good_cases; [done|..].
  - by destruct (H1 m r).
  - by destruct (H2 r).
Qed.

Lemma good_mid_inv m f r c : files !! m = Some f -> good (midName m r) c -> c = midContent f r.
Proof.
  intros Hf [[Hx _]|[(m' & f' & r' & Hf' & Hx & ->)|(r' & Hx & _)]]%good_cases.
  - by destruct (Hnames _ Hx) as [H1 _], (H1 m r).
  - apply midName_inj in Hx as [-> ->]. by simplify_eq.
  - by destruct (midName_outName m r r').
Qed.

Lemma good_out_inv r c : good (outName r) c -> c = str_concat (outLines r).
Proof.
  intros [[Hx _]|[(m' & f' & r' & Hf' & Hx & ->)|(r' & Hx & ->)]]%good_cases.
  - by destruct (Hnames _ Hx) as [_ H2], (H2 r).
  - by destruct (midName_outName m' r' r).
  - by apply outName_inj in Hx as ->.
Qed.

(** ** Weakest preconditions *)

(** What a reply of the coordinator may be. *)
Definition replyOK (r : CoordinatorReply) : Prop :=
  match TaskType r with
  | MapTask => exists m f, files !! m = Some f /\ WorkId r = Z.of_nat m /\
                 InputFiles r = [f] /\ NReduce r = Z.of_nat n
  | ReduceTask => exists i, i < n /\ WorkId r = Z.of_nat i /\
                 InputFiles r = (fun j => midName j i) <$> seq 0 (length files)
  | _ => True
  end.

(** Files that a reply guarantees to be in place: a reduce task is only handed
    out when all intermediate files are. *)
Definition replyKnows (r : CoordinatorReply) (x : string) : Prop :=
  TaskType r = ReduceTask /\ exists m i, m < length files /\ i < n /\ x = midName m i.

(** What a completion report requires. *)
Definition notifyOK (K : string -> Prop) (args : WorkerArgs) : Prop :=
  match WorkerArgs_TaskType args with
  | MapTask => exists m, m < length files /\ WorkerArgs_WorkID args = Z.of_nat m /\
                 forall r, r < n -> K (midName m r)
  | ReduceTask => exists r, r < n /\ WorkerArgs_WorkID args = Z.of_nat r /\ K (outName r)
  | _ => True
  end.

Fixpoint wp {A} (K : string -> Prop) (p : prog A) (Q : (string -> Prop) -> A -> Prop) : Prop :=
  match p with
  | Ret a => Q K a
  | Open name k => wp K (k None) Q /\ forall c, (K name -> good name c) -> wp K (k (Some c)) Q
  | ReadAll c k => wp K (k None) Q /\ wp K (k (Some c)) Q
  | CreateTemp _ k => forall b, wp K (k b) Q
  | Rename c name k => good name c /\ wp (fun x => K x \/ x = name) (k true) Q
  | CallAssignTask _ k =>
      wp K (k None) Q /\
      forall r, replyOK r -> wp (fun x => K x \/ replyKnows r x) (k (Some r)) Q
  | CallNotifyComplete args k => notifyOK K args /\ forall b, wp K (k b) Q
  | Sleep _ k => wp K k Q
  | OsExit _ | Crash _ => True
  end.

Lemma wp_bind {A B} K (p : prog A) (f : A -> prog B) Q :
  wp K p (fun K' a => wp K' (f a) Q) -> wp K (p ≫= f) Q.
Proof.
  revert K. induction p as [a|? k IH|? k IH|? k IH|? ? k IH|? k IH|? k IH|? k IH| |];
    intros K; simpl; intros Hp; destr_hyps; auto.
Qed.

Lemma wp_mono {A} K (p : prog A) (Q Q' : (string -> Prop) -> A -> Prop) :
  (forall K' a, Q K' a -> Q' K' a) -> wp K p Q -> wp K p Q'.
Proof.
  intros HQ. revert K. induction p as [a|? k IH|? k IH|? k IH|? ? k IH|? k IH|? k IH|? k IH| |];
    intros K; simpl; intros Hp; destr_hyps; eauto.
Qed.

(** ** The worker satisfies its specification *)

Context (Hn : 0 < n).
Context (Hjson : Forall json_ok allPairs).

Lemma wp_writeBuckets K m f r bs :
  files !! m = Some f ->
  (forall i b, bs !! i = Some b -> r + i < n /\ b = Worker.bucket n (r + i) (mapOut f)) ->
  wp K (Worker.writeBuckets (Z.of_nat m) r bs)
    (fun K' _ => (forall x, K x -> K' x) /\ forall i, i < length bs -> K' (midName m (r + i))).
Proof.
  intros Hf. revert K r. induction bs as [|b bs IH]; intros K r Hbs; simpl.
  { split; [done|]. intros i Hi. lia. }
  intros [|]; [|done]. destruct (Hbs 0 b eq_refl) as [Hr Hb].
  rewrite Nat.add_0_r in Hr, Hb. subst b. split; [by apply good_mid|].
  eapply wp_mono; [|apply (IH _ (S r))].
  - intros K' _ [Hsub Hall]. split; [auto|]. intros [|i] Hi.
    + rewrite Nat.add_0_r. auto.
    + rewrite <-Nat.add_succ_comm. apply Hall. simpl in Hi. lia.
  - intros i b Hi. rewrite Nat.add_succ_comm. by apply Hbs.
Qed.

Lemma wp_writeIntermediate K m f :
  files !! m = Some f ->
  wp K (Worker.writeIntermediate (Z.of_nat m) (Z.of_nat n) (mapOut f))
    (fun K' _ => forall r, r < n -> K' (midName m r)).
Proof.
  intros Hf. unfold Worker.writeIntermediate. rewrite Worker.buckets_spec by done.
  eapply wp_mono; [|apply (wp_writeBuckets K m f 0); [done|]].
  - intros K' _ [_ Hall] r Hr. apply (Hall r). by rewrite length_fmap, length_seq.
  - intros i b Hi. rewrite list_lookup_fmap in Hi. apply fmap_Some in Hi as (j & Hj & ->).
    apply lookup_seq in Hj as [-> ?]. split; [lia|done].
Qed.

Lemma wp_handleMapTask K r :
  (forall f, f ∈ files -> K f) -> TaskType r = MapTask -> replyOK r ->
  wp K (Worker.handleMapTask mapf r) (fun _ _ => True).
Proof.
  unfold replyOK. intros HK Ht. rewrite Ht. intros (m & f & Hf & Hw & Hi & Hnr).
  assert (f ∈ files) as Hin by by eapply list_elem_of_lookup_2.
  unfold Worker.handleMapTask. rewrite Hi. simpl. split; [done|]. intros c Hc.
  apply good_input_inv in Hc; [|auto..]. subst c. split; [done|].
  rewrite Hw, Hnr. apply wp_bind. eapply wp_mono; [|by apply wp_writeIntermediate].
  intros K' u Hall. simpl. split; [|done]. unfold notifyOK. simpl. rewrite Ht.
  exists m. split_and!; [by eapply lookup_lt_Some|done|done].
Qed.

Lemma bucket_json_ok f i : f ∈ files -> Forall json_ok (Worker.bucket n i (mapOut f)).
Proof.
  intros Hf. rewrite Forall_forall in Hjson |- *.
  intros kv [_ Hkv]%list_elem_of_filter. apply Hjson.
  unfold allPairs. apply list_elem_of_bind. eauto.
Qed.

Lemma wp_loadIntermediate K i pre suf acc :
  files = pre ++ suf -> i < n ->
  (forall j, j < length files -> K (midName j i)) ->
  wp K (Worker.loadIntermediate ((fun j => midName j i) <$> seq (length pre) (length suf)) acc)
    (fun K' l => K' = K /\ l = acc ++ (suf ≫= fun f => Worker.bucket n i (mapOut f))).
Proof.
  intros Hfiles Hi HK. revert pre acc Hfiles.
  induction suf as [|f suf IH]; intros pre acc Hfiles; simpl.
  { by rewrite app_nil_r. }
  split; [done|]. intros c Hc.
  assert (files !! length pre = Some f) as Hf by by rewrite Hfiles, list_lookup_middle.
  apply (good_mid_inv _ f) in Hc; [|done|apply HK; by eapply lookup_lt_Some].
  subst c. unfold midContent, Worker.bucketContent.
  rewrite decode_all_encode by (apply bucket_json_ok; by eapply list_elem_of_lookup_2).
  replace (S (length pre)) with (length (pre ++ [f])) by (rewrite length_app; simpl; lia).
  eapply wp_mono; [|apply IH; by rewrite <-app_assoc].
  intros K' l [-> ->]. split; [done|]. by rewrite <-app_assoc.
Qed.

Lemma bucket_allPairs i :
  (files ≫= fun f => Worker.bucket n i (mapOut f)) = Worker.bucket n i allPairs.
Proof.
  unfold allPairs. clear. induction files as [|f l IH]; [done|].
  rewrite !bind_cons, IH. unfold Worker.bucket. by rewrite filter_app.
Qed.

Lemma wp_handleReduceTask K r :
  TaskType r = ReduceTask -> replyOK r -> (forall x, replyKnows r x -> K x) ->
  wp K (Worker.handleReduceTask reducef sortSlice r) (fun _ _ => True).
Proof.
  unfold replyOK. intros Ht. rewrite Ht. intros (i & Hi & Hw & Hin) HK.
  unfold Worker.handleReduceTask. rewrite Hin. apply wp_bind.
  eapply wp_mono; [|apply (wp_loadIntermediate K i [] files); [done|done|]].
  - intros K' l [-> ->]. simpl. intros [|]; simpl; [|done]. rewrite Hw, bucket_allPairs.
    split; [by apply good_out|]. split; [|done]. unfold notifyOK. simpl. rewrite Ht.
    exists i. split_and!; [done|done|by right].
  - intros j Hj. apply HK. split; [done|]. eauto 10.
Qed.

Lemma wp_workerIteration K :
  (forall f, f ∈ files -> K f) ->
  wp K (Worker.workerIteration mapf reducef sortSlice) (fun _ _ => True).
Proof.
  intros HK. unfold Worker.workerIteration. simpl. split; [done|]. intros r Hr.
  destruct (TaskType r) eqn:Ht; try done.
  - apply wp_handleMapTask; auto.
  - apply wp_handleReduceTask; auto.
Qed.

End Job.
End Logic.
