(* ===== verification/MrSystem.v ===== *)
(** * MapReduce: the whole system

    Any number of workers run concurrently against one coordinator and one
    shared file system; their interactions interleave arbitrarily, workers
    start and crash at any time, RPCs may be lost, files may fail to open.
    The main theorem: when the coordinator reports the job done, every output
    file [mr-out-r] holds the reduction of its bucket, and together the output
    files hold the lines the sequential program prints. *)

From S2P Require Import Prelude MrRpc GoLib MrCoordinator MrWorker MrSequential MrLogic.

Module System.
Import Coordinator(Coordinator).

(** ** Executions *)

Record world := {
  coord : Coordinator;
  fs : gmap string string;
  workers : list (prog unit)
}.

Section System.
Context (mapf : string -> string -> list KeyValue).
Context (reducef : string -> list string -> string).
Context (sortSlice : list KeyValue -> list KeyValue).
Context `{JsonKV}.

Definition Worker : prog unit := Worker.workerIteration mapf reducef sortSlice.

(** One interaction of one worker.  [rename_fails] says whether the
    environment may make [os.Rename] fail.  A [call] may fail to dial the
    coordinator, which ends the worker; may fail, before or after the
    coordinator handled it, which answers [None] or [false]; or succeed. *)
Inductive pstep (rename_fails : bool) :
    prog unit -> Coordinator -> gmap string string ->
    prog unit -> Coordinator -> gmap string string -> Prop :=
| p_loop c s : pstep rename_fails (Ret tt) c s Worker c s
| p_open name k c s : pstep rename_fails (Open name k) c s (k (s !! name)) c s
| p_open_error name k c s : pstep rename_fails (Open name k) c s (k None) c s
| p_readAll content k c s :
    pstep rename_fails (ReadAll content k) c s (k (Some content)) c s
| p_readAll_error content k c s :
    pstep rename_fails (ReadAll content k) c s (k None) c s
| p_createTemp pattern k b c s : pstep rename_fails (CreateTemp pattern k) c s (k b) c s
| p_rename content name k c s :
    pstep rename_fails (Rename content name k) c s (k true) c (<[name := content]> s)
| p_rename_error content name k c s :
    rename_fails = true -> pstep rename_fails (Rename content name k) c s (k false) c s
| p_assign args k since now c s :
    pstep rename_fails (CallAssignTask args k) c s
      (k (Some (Coordinator.AssignTask since now args zeroReply c).1))
      (Coordinator.AssignTask since now args zeroReply c).2 s
| p_assign_reply_lost args k since now c s :
    pstep rename_fails (CallAssignTask args k) c s
      (k None) (Coordinator.AssignTask since now args zeroReply c).2 s
| p_assign_lost args k c s : pstep rename_fails (CallAssignTask args k) c s (k None) c s
| p_assign_dial args k c s :
    pstep rename_fails (CallAssignTask args k) c s (log_Fatal "dialing:") c s
| p_notify args k c c' s :
    Coordinator.NotifyComplete args c = Return c' ->
    pstep rename_fails (CallNotifyComplete args k) c s (k true) c' s
| p_notify_reply_lost args k c c' s :
    Coordinator.NotifyComplete args c = Return c' ->
    pstep rename_fails (CallNotifyComplete args k) c s (k false) c' s
| p_notify_lost args k c s : pstep rename_fails (CallNotifyComplete args k) c s (k false) c s
| p_notify_dial args k c s :
    pstep rename_fails (CallNotifyComplete args k) c s (log_Fatal "dialing:") c s
| p_sleep sec k c s : pstep rename_fails (Sleep sec k) c s k c s.

Inductive wstep (rename_fails : bool) : world -> world -> Prop :=
| w_start w :
    wstep rename_fails w {| coord := coord w; fs := fs w; workers := workers w ++ [Worker] |}
| w_crash w i :
    wstep rename_fails w {| coord := coord w; fs := fs w; workers := delete i (workers w) |}
| w_step w i p p' c' s' :
    workers w !! i = Some p ->
    pstep rename_fails p (coord w) (fs w) p' c' s' ->
    wstep rename_fails w {| coord := c'; fs := s'; workers := <[i := p']> (workers w) |}.

(** Executions of a job started by [MakeCoordinator] on the files [files]. *)
Definition reachable (rename_fails : bool) (files : list string) (n : Z)
    (s0 : gmap string string) (w : world) : Prop :=
  exists c0, Coordinator.MakeCoordinator false files n = Return c0 /\
    rtc (wstep rename_fails) {| coord := c0; fs := s0; workers := [] |} w.

(** ** The coordinator's side of the contract *)

Context (files : list string) (content : string -> string) (n : nat).

Lemma map_fileName c m t :
  Coordinator.creachable files (Z.of_nat n) c ->
  Coordinator.mapTasks c !! m = Some t ->
  files !! m = Some (Coordinator.mapTask_fileName t).
Proof.
  intros Hr Hm. pose proof (Coordinator.creachable_static _ _ _ Hr) as [_ <-].
  apply Coordinator.inv_creachable in Hr as []. destruct inv_maps as [<- _].
  by rewrite list_lookup_fmap, Hm.
Qed.

(** Every reply of the coordinator satisfies what the worker logic assumes. *)
Lemma AssignTask_replyOK c since now args :
  Coordinator.creachable files (Z.of_nat n) c ->
  Logic.replyOK files n (Coordinator.AssignTask since now args zeroReply c).1 /\
  (TaskType (Coordinator.AssignTask since now args zeroReply c).1 = ReduceTask ->
   Forall Coordinator.mapSuccess (Coordinator.mapTasks c)).
Proof.
  intros Hr. pose proof (Coordinator.creachable_static _ _ _ Hr) as [Hn Hf].
  pose proof (Coordinator.inv_creachable _ _ _ Hr) as [].
  pose proof (Coordinator.AssignTask_result since now args zeroReply c) as Hres.
  unfold Logic.replyOK. destruct Hres as [i t Hm Hi _ _|i t Hm _ Hi _ _| |]; simpl; try done.
  - split; [|done]. exists i, (Coordinator.mapTask_fileName t).
    split_and!; [by eapply map_fileName|done..].
  - destruct (inv_reduces i t Hi) as (_ & Hrf & _). split; [|by intros _; apply inv_mapDone].
    exists i. split_and!; [|done|by rewrite Hrf, Hf].
    apply lookup_lt_Some in Hi. rewrite inv_nReduce in Hn. unfold len in *. lia.
Qed.

(** [AssignTask] does not make a task successful. *)
Lemma AssignTask_Success_back c since now args reply :
  (forall m t', Coordinator.mapTasks (Coordinator.AssignTask since now args reply c).2 !! m = Some t' ->
     Coordinator.mapSuccess t' ->
     exists t, Coordinator.mapTasks c !! m = Some t /\ Coordinator.mapSuccess t) /\
  (forall r t', Coordinator.reduceTasks (Coordinator.AssignTask since now args reply c).2 !! r = Some t' ->
     Coordinator.reduceSuccess t' ->
     exists t, Coordinator.reduceTasks c !! r = Some t /\ Coordinator.reduceSuccess t).
Proof.
  destruct (Coordinator.AssignTask_result since now args reply c)
    as [i t Hm Hi _ _|i t Hm _ Hi _ _| |]; simpl; (split; [|eauto]) || split; eauto.
  all: intros m t'; rewrite list_lookup_insert; case_decide; eauto; by intros [= <-].
Qed.

(** ** The system invariant *)

Abbreviation good := (Logic.good mapf reducef sortSlice files content n).
Abbreviation wp := (Logic.wp mapf reducef sortSlice files content n).

(** File [x] is in place. *)
Definition known (s : gmap string string) (x : string) : Prop :=
  exists c, good x c /\ s !! x = Some c.

(** The files of finished tasks are in place. *)
Record safe (c : Coordinator) (s : gmap string string) : Prop := {
  safe_reach : Coordinator.creachable files (Z.of_nat n) c;
  safe_inputs f : f ∈ files -> known s f;
  safe_map m t r :
    Coordinator.mapTasks c !! m = Some t -> Coordinator.mapSuccess t -> r < n ->
    known s (Logic.midName m r);
  safe_reduce r t :
    Coordinator.reduceTasks c !! r = Some t -> Coordinator.reduceSuccess t ->
    known s (Logic.outName r)
}.

(** A worker program is fine when the files it counts on are in place. *)
Definition fine (s : gmap string string) (p : prog unit) : Prop :=
  exists K, (forall x, K x -> known s x) /\ wp K p (fun _ _ => True).

Record Inv (w : world) : Prop := {
  Inv_safe : safe (coord w) (fs w);
  Inv_workers i p : workers w !! i = Some p -> fine (fs w) p
}.

Lemma known_insert s name c x : good name c -> known s x -> known (<[name:=c]> s) x.
Proof.
  intros Hg (c' & Hg' & Hs). destruct (decide (name = x)) as [->|Hne].
  - exists c. by rewrite lookup_insert_eq.
  - exists c'. by rewrite lookup_insert_ne.
Qed.

Lemma known_insert_same s name c : good name c -> known (<[name:=c]> s) name.
Proof. intros Hg. exists c. by rewrite lookup_insert_eq. Qed.

Lemma safe_insert c s name d : good name d -> safe c s -> safe c (<[name:=d]> s).
Proof. intros Hg []. constructor; eauto using known_insert. Qed.

Lemma fine_insert s name d p : good name d -> fine s p -> fine (<[name:=d]> s) p.
Proof. intros Hg (K & HK & Hp). exists K. eauto using known_insert. Qed.

Lemma creachable_step m c c' :
  Coordinator.creachable files m c -> Coordinator.cstep c c' -> Coordinator.creachable files m c'.
Proof. intros (c0 & H0 & Hr) Hs. exists c0. split; [done|]. by eapply rtc_r. Qed.

Lemma safe_assign c s since now args reply :
  safe c s -> safe (Coordinator.AssignTask since now args reply c).2 s.
Proof.
  intros []. pose proof (AssignTask_Success_back c since now args reply) as [Hb1 Hb2].
  constructor; [|done|..].
  - eapply creachable_step; [done|constructor].
  - intros m t r Hm Ht Hr. destruct (Hb1 m t Hm Ht) as (t' & ? & ?). eauto.
  - intros r t Hr Ht. destruct (Hb2 r t Hr Ht) as (t' & ? & ?). eauto.
Qed.

Lemma safe_notify c c' s K args :
  safe c s -> (forall x, K x -> known s x) -> Logic.notifyOK files n K args ->
  Coordinator.NotifyComplete args c = Return c' -> safe c' s.
Proof.
  intros [] HK Hok Hc.
  assert (Coordinator.creachable files (Z.of_nat n) c') as Hreach.
  { eapply creachable_step; [done|]. by econstructor. }
  apply Coordinator.NotifyComplete_inv in Hc
    as [(i & t & Ht & Hw & Hcm)|[(i & t & Ht & Hw & Hcm)|[_ ->]]]; [..|by constructor];
    unfold Logic.notifyOK in Hok; rewrite Ht, Hw in Hok; constructor; try done.
  - destruct Hok as (m & _ & <-%Nat2Z.inj & Hk).
    destruct Hcm as (_ & -> & _). intros m' t' r. rewrite list_lookup_insert.
    case_decide as Hm; [destruct Hm as [<- _]; auto|eauto].
  - destruct Hcm as (_ & _ & _ & _ & _ & -> & _). done.
  - destruct Hcm as (_ & _ & _ & _ & _ & _ & -> & _). done.
  - destruct Hok as (r & _ & <-%Nat2Z.inj & Hk).
    destruct Hcm as (_ & -> & _). intros r' t'. rewrite list_lookup_insert.
    case_decide as Hm; [destruct Hm as [<- _]; auto|eauto].
Qed.

Context (Hnames : Logic.names_ok files) (Hn : 0 < n).
Context (Hjson : Forall json_ok (Logic.allPairs mapf files content)).

Lemma fine_Worker c s : safe c s -> fine s Worker.
Proof.
  intros []. exists (fun x => x ∈ files). split; [auto|].
  by apply Logic.wp_workerIteration.
Qed.

(** One interaction of a fine worker keeps the finished files in place and the
    worker fine. *)
Lemma fine_pstep p c s p' c' s' :
  pstep false p c s p' c' s' -> safe c s -> fine s p ->
  safe c' s' /\ fine s' p' /\ (forall q, fine s q -> fine s' q).
Proof.
  intros Hstep Hs (K & HK & Hp).
  destruct Hstep; simpl in Hp;
    match type of Hp with _ /\ _ => destruct Hp as [Hp1 Hp2] | _ => idtac end;
    (split_and!; [first [done | by apply safe_assign | by eapply safe_notify]
                 |try by (exists K; auto)|done]) || idtac.
  - by eapply fine_Worker.
  - destruct (s !! name) as [d|] eqn:Hd; [|by exists K].
    exists K. split; [done|]. apply Hp2. intros Hk. destruct (HK _ Hk) as (d' & ? & ?).
    by simplify_eq.
  - split_and!; [by apply safe_insert| |intros q; by apply fine_insert].
    eexists. split; [|exact Hp2]. simpl.
    intros x [Hx| ->]; [by apply known_insert, HK|by apply known_insert_same].
  - destruct Hs. destruct (AssignTask_replyOK c since now args safe_reach0) as [Hok Hall].
    eexists. split; [|by apply Hp2]. simpl.
    intros x [Hx|(Ht & m & i & Hm & Hi & ->)]; [by apply HK|].
    destruct (lookup_lt_is_Some_2 (Coordinator.mapTasks c) m) as [t Ht'].
    { by rewrite (proj1 (Coordinator.creachable_lengths _ _ _ safe_reach0)). }
    eapply safe_map0; [done| |done].
    specialize (Hall Ht). rewrite Forall_lookup in Hall. by eapply Hall.
Qed.

Lemma Inv_wstep w w' : wstep false w w' -> Inv w -> Inv w'.
Proof.
  destruct 1 as [w|w i|w i p p' c' s' Hi Hp]; intros [Hs Hw]; constructor; simpl; try done.
  - intros i p [Hp|[_ Hp]]%lookup_app_Some; [eauto|].
    apply list_lookup_singleton_Some in Hp as [_ <-]. by eapply fine_Worker.
  - intros j p Hp. destruct (decide (j < i)).
    + rewrite list_lookup_delete_lt in Hp by done. eauto.
    + rewrite list_lookup_delete_ge in Hp by lia. eauto.
  - by eapply fine_pstep; eauto.
  - intros j q Hq. destruct (fine_pstep _ _ _ _ _ _ Hp Hs (Hw i p Hi)) as (_ & Hp' & Hall).
    rewrite list_lookup_insert in Hq. case_decide; simplify_eq; eauto.
Qed.

Lemma Inv_reachable s0 w :
  (forall f, f ∈ files -> s0 !! f = Some (content f)) ->
  reachable false files (Z.of_nat n) s0 w -> Inv w.
Proof.
  intros Hin (c0 & H0 & Hr).
  assert (Inv {| coord := c0; fs := s0; workers := [] |}) as HI.
  { pose proof (Coordinator.inv_MakeCoordinator _ _ _ H0) as Hc.
    unfold Coordinator.MakeCoordinator, Coordinator.server in H0.
    rewrite decide_False in H0 by lia. injection H0 as <-.
    constructor; simpl; [|done]. constructor.
    - eexists. split; [|apply rtc_refl].
      unfold Coordinator.MakeCoordinator. by rewrite decide_False by lia.
    - intros f Hf. exists (content f). split; [by constructor|auto].
    - intros m t r Hm Ht. exfalso. simpl in Hm.
      pose proof (Coordinator.newMapTask_not_Success files) as Hns.
      rewrite Forall_lookup in Hns. by eapply Hns.
    - intros r t ->%Coordinator.newReduceTask_lookup. done. }
  clear H0. remember {| coord := c0; fs := s0; workers := [] |} as w0 eqn:E. clear E.
  induction Hr; eauto using Inv_wstep.
Qed.

(** When the job is done, every output file is in place. *)
Lemma done_outputs w :
  Inv w -> Coordinator.Done (coord w) = true ->
  forall r, r < n ->
    fs w !! Logic.outName r
    = Some (str_concat (Logic.outLines mapf reducef sortSlice files content n r)).
Proof.
  intros [[] _] Hd r Hr. pose proof (Coordinator.creachable_lengths _ _ _ safe_reach0) as [_ Hl].
  pose proof (Coordinator.inv_creachable _ _ _ safe_reach0) as Hinv.
  unfold Coordinator.Done in Hd. rewrite (Coordinator.inv_allDone _ Hinv) in Hd.
  apply (Coordinator.inv_reduceDone _ Hinv) in Hd as [_ Hall].
  destruct (lookup_lt_is_Some_2 (Coordinator.reduceTasks (coord w)) r) as [t Ht].
  { unfold len in Hl. lia. }
  rewrite Forall_lookup in Hall.
  destruct (safe_reduce0 r t Ht (Hall _ _ Ht)) as (c & Hg & Hc).
  apply Logic.good_out_inv in Hg; [|done]. by subst.
Qed.

(** A report allowed by the worker logic is accepted. *)
Lemma notifyOK_returns c s K args :
  safe c s -> Logic.notifyOK files n K args -> exists c', Coordinator.NotifyComplete args c = Return c'.
Proof.
  intros [] Hok. pose proof (Coordinator.creachable_lengths _ _ _ safe_reach0) as [Hm Hr].
  pose proof (Coordinator.NotifyComplete_result args c) as Hres.
  unfold Logic.notifyOK in Hok. unfold len in Hr.
  destruct Hres as [| | |Ht Hb|Ht Hb|Ht Hb]; [eauto..| | |].
  all: try (rewrite Ht in Hok); unfold len in *; destr_hyps; try lia.
  destruct Ht as [Ht|Ht]; rewrite Ht in Hok; destr_hyps; lia.
Qed.

(** The pairs the sequential program sorts are those of the job. *)
Lemma mapAll_allPairs :
  Sequential.mapAll mapf ((fun f => (f, content f)) <$> files) = Logic.allPairs mapf files content.
Proof.
  unfold Sequential.mapAll, Logic.allPairs. clear. induction files as [|f l IH]; [done|].
  by rewrite fmap_cons, !bind_cons, IH.
Qed.

(** The sequential program on the same inputs. *)
Lemma sequential_main plugin_Open readAll sortSort prog xso s0 :
  plugin_Open xso = Some {| Sequential.plugin_Map := Some mapf;
                            Sequential.plugin_Reduce := Some reducef |} ->
  (forall c, readAll c = Some c) ->
  (forall f, f ∈ files -> s0 !! f = Some (content f)) -> files <> [] ->
  Sequential.main plugin_Open readAll sortSort (prog :: xso :: files) s0
  = Return (<["mr-out-0" := str_concat (Sequential.sequentialOutput sortSort reducef
                                          (Logic.allPairs mapf files content))]> s0).
Proof.
  intros Hp Hread Hin Hne. unfold Sequential.main, Sequential.loadPlugin. rewrite Hp.
  pose proof (Sequential.mapInputs_spec readAll mapf s0 ((fun f => (f, content f)) <$> files) [])
    as Hm. rewrite mapAll_allPairs in Hm.
  assert (((fun f => (f, content f)) <$> files).*1 = files) as Hfst.
  { rewrite <-list_fmap_compose. by apply list_fmap_id. }
  rewrite Hfst in Hm. destruct files as [|f l]; [done|].
  cbn -[Sequential.mapInputs]. rewrite Hm; [done|done|]. apply Forall_fmap, Forall_forall. simpl. auto.
Qed.

End System.

(** C17: no worker ever brings the coordinator down.  Whatever a worker is about
    to report, in any execution in which [os.Rename] works, the coordinator's
    [NotifyComplete] returns: its [log.Fatalf] and its index panics are
    unreachable. *)
Theorem report_accepted `{JsonKV} mapf reducef sortSlice files content n s0 w i args k :
  0 < n -> Logic.names_ok files ->
  (forall f, f ∈ files -> s0 !! f = Some (content f)) ->
  Forall json_ok (Logic.allPairs mapf files content) ->
  reachable mapf reducef sortSlice false files (Z.of_nat n) s0 w ->
  workers w !! i = Some (CallNotifyComplete args k) ->
  exists c', Coordinator.NotifyComplete args (coord w) = Return c'.
Proof.
  intros Hn Hnames Hin Hjson Hr Hi.
  assert (Inv mapf reducef sortSlice files content n w) as [Hs Hw] by by eapply Inv_reachable.
  destruct (Hw i _ Hi) as (K & _ & Hok & _). by eapply notifyOK_returns.
Qed.

(** C1: correctness of the distributed job.  In every execution in which
    [os.Rename] works -- with any number of workers starting, crashing and
    racing, lost calls and replies, expired leases and re-executed tasks -- as
    soon as the coordinator's [Done] returns true, the [n] output files are in
    place, and the lines they hold are, up to order, exactly the lines that
    [mrsequential] run on the same input files writes to [mr-out-0]. *)
Theorem mapreduce_correct `{JsonKV} mapf reducef sortSlice sortSort plugin_Open readAll
    progname xso files content n s0 w :
  SortsByKey sortSlice -> SortsByKey sortSort ->
  (forall k, Proper ((≡ₚ) ==> (=)) (reducef k)) ->
  plugin_Open xso = Some {| Sequential.plugin_Map := Some mapf;
                            Sequential.plugin_Reduce := Some reducef |} ->
  (forall c, readAll c = Some c) ->
  0 < n -> files <> [] -> Logic.names_ok files ->
  (forall f, f ∈ files -> s0 !! f = Some (content f)) ->
  Forall json_ok (Logic.allPairs mapf files content) ->
  reachable mapf reducef sortSlice false files (Z.of_nat n) s0 w ->
  Coordinator.Done (coord w) = true ->
  exists outs lines,
    (forall r, r < n -> exists ls, outs !! r = Some ls /\
       fs w !! Worker.outFileName (Z.of_nat r) = Some (str_concat ls)) /\
    length outs = n /\
    mjoin outs ≡ₚ lines /\
    Sequential.main plugin_Open readAll sortSort (progname :: xso :: files) s0
    = Return (<["mr-out-0" := str_concat lines]> s0).
Proof.
  intros ? ? Hperm Hplug Hread Hn Hne Hnames Hin Hjson Hr Hd.
  set (out := Logic.outLines mapf reducef sortSlice files content n).
  exists (out <$> seq 0 n), (Sequential.sequentialOutput sortSort reducef
                               (Logic.allPairs mapf files content)).
  split_and!.
  - intros r Hr'. exists (out r). split.
    + by rewrite list_lookup_fmap, lookup_seq_lt.
    + eapply done_outputs; eauto. by eapply Inv_reachable.
  - by rewrite length_fmap, length_seq.
  - rewrite <-(Sequential.buckets_sequential reducef sortSlice sortSort n) by done.
    rewrite list_join_bind. unfold out. clear. induction (seq 0 n) as [|r l IH]; [done|].
    by rewrite fmap_cons, !bind_cons, IH.
  - by eapply sequential_main.
Qed.

End System.
