(* ===== verification/MrProgress.v ===== *)
(** * MapReduce: progress

    From every state the system can reach, a fresh worker that is not
    disturbed drives the job to completion, one task per iteration of the
    worker's loop. *)

From S2P Require Import Prelude MrRpc GoLib MrCoordinator MrWorker MrSequential MrLogic MrSystem.

Module Progress.
Import Coordinator(Coordinator).

(** ** Undisturbed runs *)

(** Run a program against the file system, every operation succeeding (but
    [os.Rename] when [ok] is false), up to its next call to the coordinator or
    its end. *)
Fixpoint fsrun {A} (ok : bool) (p : prog A) (s : gmap string string) : prog A * gmap string string :=
  match p with
  | Open name k => fsrun ok (k (s !! name)) s
  | ReadAll c k => fsrun ok (k (Some c)) s
  | CreateTemp _ k => fsrun ok (k true) s
  | Rename c name k => if ok then fsrun ok (k true) (<[name := c]> s) else fsrun ok (k false) s
  | Sleep _ k => fsrun ok k s
  | p => (p, s)
  end.

Lemma fsrun_bind {A B} ok (p : prog A) (f : A -> prog B) s :
  fsrun ok (p ≫= f) s
  = match (fsrun ok p s).1 with
    | Ret a => fsrun ok (f a) (fsrun ok p s).2
    | q => (q ≫= f, (fsrun ok p s).2)
    end.
Proof. revert s. induction p; intros s; simpl; destruct ok; auto. Qed.

Lemma fsrun_writeBuckets `{JsonKV} m r bs s : (fsrun true (Worker.writeBuckets m r bs) s).1 = Ret tt.
Proof. revert r s. induction bs as [|b bs IH]; intros r s; simpl; auto. Qed.

Lemma fsrun_loadIntermediate `{JsonKV} files acc s :
  Forall (fun f => is_Some (s !! f)) files ->
  exists l, fsrun true (Worker.loadIntermediate files acc) s = (Ret l, s).
Proof.
  intros Hf. revert acc. induction Hf as [|f files [c Hc] _ IH]; intros acc; simpl; [eauto|].
  rewrite Hc. apply IH.
Qed.

Section Progress.
Context (mapf : string -> string -> list KeyValue).
Context (reducef : string -> list string -> string).
Context (sortSlice : list KeyValue -> list KeyValue).
Context `{JsonKV}.

(** A map task whose input file is readable runs up to its report. *)
Lemma fsrun_handleMapTask reply f c n s :
  InputFiles reply = [f] -> s !! f = Some c -> NReduce reply = Z.of_nat n -> 0 < n ->
  exists s', fsrun true (Worker.handleMapTask mapf reply) s = (Worker.NotifyComplete reply, s').
Proof.
  intros Hi Hf Hr Hn. unfold Worker.handleMapTask. rewrite Hi, Hr. simpl. rewrite Hf. simpl.
  unfold Worker.writeIntermediate. rewrite Worker.buckets_spec by done. simpl.
  rewrite fsrun_bind, fsrun_writeBuckets. by eexists.
Qed.

(** A reduce task whose intermediate files are readable runs up to its report. *)
Lemma fsrun_handleReduceTask reply s :
  Forall (fun f => is_Some (s !! f)) (InputFiles reply) ->
  exists s', fsrun true (Worker.handleReduceTask reducef sortSlice reply) s
             = (Worker.NotifyComplete reply, s').
Proof.
  intros Hf. unfold Worker.handleReduceTask. rewrite fsrun_bind.
  destruct (fsrun_loadIntermediate (InputFiles reply) [] s Hf) as [l ->]. simpl. by eexists.
Qed.

(** ** Undisturbed runs are executions *)

Context (rename_fails : bool).

Abbreviation pstep := (System.pstep mapf reducef sortSlice rename_fails).

(** Interactions of one worker, as steps on its configuration. *)
Definition cfg : Type := prog unit * Coordinator * gmap string string.
Definition cfgstep (x y : cfg) : Prop := pstep x.1.1 x.1.2 x.2 y.1.1 y.1.2 y.2.

Lemma fsrun_steps ok p c s :
  (ok = false -> rename_fails = true) ->
  rtc cfgstep (p, c, s) ((fsrun ok p s).1, c, (fsrun ok p s).2).
Proof.
  intros Hok. revert s. induction p; intros s; simpl; try apply rtc_refl;
    try destruct ok; (eapply rtc_l; [|by auto]); unfold cfgstep; simpl; by constructor; auto.
Qed.

Lemma insert_worker_steps w i x y :
  rtc cfgstep x y -> x = (x.1.1, System.coord w, System.fs w) ->
  System.workers w !! i = Some x.1.1 ->
  rtc (System.wstep mapf reducef sortSlice rename_fails) w
    {| System.coord := y.1.2; System.fs := y.2;
       System.workers := <[i := y.1.1]> (System.workers w) |}.
Proof.
  intros Hxy. revert w. induction Hxy as [x|x y z Hs _ IH]; intros w Hx Hi.
  - rewrite Hx. simpl. rewrite list_insert_id by done. by destruct w.
  - eapply rtc_l.
    + eapply (System.w_step _ _ _ _ _ _ _ y.1.1 y.1.2 y.2); [done|].
      unfold cfgstep in Hs. by rewrite Hx in Hs.
    + set (w' := {| System.coord := y.1.2; System.fs := y.2;
                    System.workers := <[i := y.1.1]> (System.workers w) |}).
      specialize (IH w'). simpl in IH. rewrite list_insert_insert_eq in IH.
      apply IH; [by destruct y as [[??]?]|].
      apply list_lookup_insert_eq. by eapply lookup_lt_Some.
Qed.

End Progress.

(** ** Measure: the tasks still to be done *)

Definition unfinished (c : Coordinator) : nat :=
  count (fun t => ~ Coordinator.mapSuccess t) (Coordinator.mapTasks c)
  + count (fun t => ~ Coordinator.reduceSuccess t) (Coordinator.reduceTasks c).

Lemma unfinished_AssignTask since now args reply c :
  unfinished (Coordinator.AssignTask since now args reply c).2 = unfinished c.
Proof.
  unfold unfinished. destruct (Coordinator.AssignTask_result since now args reply c)
    as [i t _ Hi Ha _|i t _ _ Hi Ha _| |]; simpl; try done; f_equal;
    (eapply Coordinator.count_insert_same; [done|]);
    apply Coordinator.assignable_not_Success in Ha; by split.
Qed.

(** Task number [id] of the given type exists and is unfinished. *)
Definition pending (c : Coordinator) (ty : TaskTypeT) (id : Z) : Prop :=
  match ty with
  | MapTask => exists i t, id = Z.of_nat i /\
      Coordinator.mapTasks c !! i = Some t /\ ~ Coordinator.mapSuccess t
  | ReduceTask => exists i t, id = Z.of_nat i /\
      Coordinator.reduceTasks c !! i = Some t /\ ~ Coordinator.reduceSuccess t
  | _ => False
  end.

(** Reporting a pending task finishes it. *)
Lemma NotifyComplete_pending args c :
  pending c (WorkerArgs_TaskType args) (WorkerArgs_WorkID args) ->
  exists c', Coordinator.NotifyComplete args c = Return c' /\ unfinished c' < unfinished c.
Proof.
  unfold pending, unfinished. pose proof (Coordinator.NotifyComplete_result args c) as Hr.
  destruct Hr as [j u c' Ht Hw Hc|j u c' Ht Hw Hc|[Ht|Ht]|Ht Hl|Ht Hl|[Ht|Ht] Hl];
    rewrite Ht; try done; intros (i & t & Hid & Hi & Hns); rewrite Hid in *;
    try (apply lookup_lt_Some in Hi; unfold len in Hl; lia);
    apply Nat2Z.inj in Hw as <-; (eexists; split; [done|]).
  - destruct Hc as (Hu & Hl & _ & _ & _ & Hr & _). rewrite Hr, Hl.
    rewrite Hu in Hi. injection Hi as <-.
    pose proof (count_insert (fun t => ~ Coordinator.mapSuccess t) _ _ _
      (Coordinator.set_mapTask u Success (Coordinator.mapTask_timeStamp u)) Hu) as Hcnt.
    rewrite (decide_True _ _ Hns), decide_False in Hcnt by (by intros []). lia.
  - destruct Hc as (Hu & Hl & _ & _ & _ & _ & Hr & _). rewrite Hr, Hl.
    rewrite Hu in Hi. injection Hi as <-.
    pose proof (count_insert (fun t => ~ Coordinator.reduceSuccess t) _ _ _
      (Coordinator.set_reduceTask u Success (Coordinator.reduceTask_timeStamp u)) Hu) as Hcnt.
    rewrite (decide_True _ _ Hns), decide_False in Hcnt by (by intros []). lia.
Qed.

(** A task just handed out is pending. *)
Lemma AssignTask_pending since now args reply c :
  let '(r, c') := Coordinator.AssignTask since now args reply c in
  TaskType r = MapTask \/ TaskType r = ReduceTask -> pending c' (TaskType r) (WorkId r).
Proof.
  destruct (Coordinator.AssignTask_result since now args reply c)
    as [i t _ Hi _ _|i t _ _ Hi _ _| |]; simpl; [| |by intros []..].
  all: intros _; exists i; eexists; split_and!; [done| |];
    [by rewrite list_lookup_insert_eq by (by eapply lookup_lt_Some)|by intros [=]].
Qed.

(** There is a time at which every outstanding lease has expired. *)
Lemma list_bound {A} (f : A -> Z) (l : list A) :
  exists b, forall i x, l !! i = Some x -> (f x < b)%Z.
Proof.
  induction l as [|y l [b Hb]]; [by exists 0%Z|].
  exists (Z.max b (f y + 1)). intros [|i] x Hi; simplify_eq/=; [lia|].
  specialize (Hb i x Hi). lia.
Qed.

Lemma stale_exists c : exists clk, Coordinator.stale clk c.
Proof.
  destruct (list_bound Coordinator.mapTask_timeStamp (Coordinator.mapTasks c)) as [b1 H1].
  destruct (list_bound Coordinator.reduceTask_timeStamp (Coordinator.reduceTasks c)) as [b2 H2].
  exists (Z.max b1 b2 + Coordinator.tenSeconds)%Z.
  split; intros i t Hi _; [specialize (H1 i t Hi)|specialize (H2 i t Hi)]; lia.
Qed.

(** ** One iteration of an undisturbed worker finishes one task *)

Section Round.
Context (mapf : string -> string -> list KeyValue).
Context (reducef : string -> list string -> string).
Context (sortSlice : list KeyValue -> list KeyValue).
Context `{JsonKV}.
Context (files : list string) (content : string -> string) (n : nat).
Context (Hnames : Logic.names_ok files) (Hn : 0 < n) (Hfiles : files <> []).
Context (Hjson : Forall json_ok (Logic.allPairs mapf files content)).

Abbreviation safe := (System.safe mapf reducef sortSlice files content n).
Abbreviation Worker := (System.Worker mapf reducef sortSlice).
Abbreviation handler r :=
  (match TaskType r with
   | MapTask => Worker.handleMapTask mapf r
   | ReduceTask => Worker.handleReduceTask reducef sortSlice r
   | Exit => OsExit 0
   | Wait => Sleep 1 (Ret tt)
   end).

Definition askArgs : WorkerArgs :=
  {| WorkerArgs_TaskStatus := AskANewTask;
     WorkerArgs_WorkID := WorkerArgs_WorkID zeroArgs;
     WorkerArgs_TaskType := WorkerArgs_TaskType zeroArgs |}.

(** The first interaction of an iteration. *)
Lemma Worker_asks since now c s :
  let '(r, c') := Coordinator.AssignTask since now askArgs zeroReply c in
  cfgstep mapf reducef sortSlice false (Worker, c, s) (handler r, c', s).
Proof.
  pose proof (System.p_assign mapf reducef sortSlice false askArgs
    (fun st => match st with Some r => Ret r | None => Ret zeroReply end ≫= fun r => handler r) since now c s) as Hstep.
  destruct (Coordinator.AssignTask since now askArgs zeroReply c) as [r c'].
  exact Hstep.
Qed.

(** A handed-out task runs up to its report. *)
Lemma fsrun_handler c s since now args :
  let r := (Coordinator.AssignTask since now args zeroReply c).1 in
  safe c s -> TaskType r = MapTask \/ TaskType r = ReduceTask ->
  exists s', fsrun true (handler r) s = (Worker.NotifyComplete r, s').
Proof.
  simpl. intros [] Ht.
  destruct (System.AssignTask_replyOK files n c since now args safe_reach) as [Hok Hall].
  unfold Logic.replyOK in Hok. destruct Ht as [Ht|Ht]; rewrite Ht in Hok |- *.
  - destruct Hok as (m & f & Hf & _ & Hi & Hr).
    destruct (safe_inputs f) as (d & _ & Hd); [by eapply list_elem_of_lookup_2|].
    by eapply fsrun_handleMapTask.
  - destruct Hok as (i & Hi & _ & Hin). apply fsrun_handleReduceTask.
    rewrite Hin. apply Forall_fmap, Forall_seq. intros j [_ Hj]. simpl in *.
    destruct (lookup_lt_is_Some_2 (Coordinator.mapTasks c) j) as [t Hjt].
    { by rewrite (proj1 (Coordinator.creachable_lengths _ _ _ safe_reach)). }
    specialize (Hall Ht). rewrite Forall_lookup in Hall.
    destruct (safe_map j t i Hjt (Hall _ _ Hjt) Hi) as (d & _ & Hd). by eexists.
Qed.

Lemma cfgsteps_safe x y :
  rtc (cfgstep mapf reducef sortSlice false) x y ->
  safe x.1.2 x.2 -> System.fine mapf reducef sortSlice files content n x.2 x.1.1 ->
  safe y.1.2 y.2.
Proof.
  induction 1 as [|x y z Hs _ IH]; [done|]. intros Hsafe Hfine.
  destruct (System.fine_pstep _ _ _ _ _ _ Hnames Hn Hjson _ _ _ _ _ _ Hs Hsafe Hfine)
    as (? & ? & _). auto.
Qed.

Lemma round c s :
  safe c s -> Coordinator.Done c = false ->
  exists c' s', rtc (cfgstep mapf reducef sortSlice false) (Worker, c, s) (Worker, c', s') /\
    unfinished c' < unfinished c.
Proof.
  intros Hs Hd. pose proof (System.safe_reach _ _ _ _ _ _ _ _ Hs) as Hr.
  pose proof (Coordinator.creachable_lengths _ _ _ Hr) as [Hlm Hlr].
  destruct (stale_exists c) as [clk Hclk].
  pose proof (Coordinator.AssignTask_progress clk 0 askArgs zeroReply c) as Hp.
  pose proof (fsrun_handler c s (fun _ => clk) 0%Z askArgs Hs) as Hrun.
  pose proof (unfinished_AssignTask (fun _ => clk) 0%Z askArgs zeroReply c) as Hun.
  pose proof (AssignTask_pending (fun _ => clk) 0%Z askArgs zeroReply c) as Hunf.
  pose proof (System.safe_assign _ _ _ _ _ _ c s (fun _ => clk) 0%Z askArgs zeroReply Hs) as Hs1.
  pose proof (Worker_asks (fun _ => clk) 0%Z c s) as Hask.
  destruct (Coordinator.AssignTask (fun _ => clk) 0%Z askArgs zeroReply c) as [r c1].
  simpl in *.
  assert (TaskType r = MapTask \/ TaskType r = ReduceTask) as Ht.
  { destruct Hp as [[? _]|[? _]]; [by eapply Coordinator.inv_creachable| | |done|done|auto..].
    - intros E. rewrite E in Hlm. by destruct files.
    - intros E. rewrite E in Hlr. unfold len in Hlr. simpl in Hlr. lia. }
  destruct (Hrun Ht) as [s' Hrun'].
  destruct (NotifyComplete_pending (Worker.completionArgs r) c1 (Hunf Ht)) as (c2 & Hnot & Hlt).
  exists c2, s'. split; [|lia]. eapply rtc_l; [exact Hask|].
  pose proof (fsrun_steps mapf reducef sortSlice false true (handler r) c1 s ltac:(done)) as Hf. rewrite Hrun' in Hf.
  etrans; [exact Hf|]. simpl.
  eapply (rtc_l _ _ (Ret tt, c2, s')).
  { exact (System.p_notify _ _ _ _ _ (fun _ => Ret tt) _ _ s' Hnot). }
  eapply (rtc_l _ _ (Worker, c2, s')); [apply System.p_loop|].
  apply rtc_refl.
Qed.

(** Undisturbed iterations finish the job. *)
Lemma rounds c s :
  safe c s ->
  exists c' s', rtc (cfgstep mapf reducef sortSlice false) (Worker, c, s) (Worker, c', s') /\
    Coordinator.Done c' = true.
Proof.
  remember (unfinished c) as k eqn:Hk. revert c s Hk.
  induction (lt_wf k) as [k _ IH]; intros c s -> Hs.
  destruct (Coordinator.Done c) eqn:Hd; [exists c, s; by split; [apply rtc_refl|]|].
  destruct (round c s Hs Hd) as (c1 & s1 & Hsteps & Hlt).
  assert (safe c1 s1) as Hs1.
  { apply (cfgsteps_safe _ _ Hsteps); [done|]. by eapply System.fine_Worker. }
  destruct (IH _ Hlt c1 s1 eq_refl Hs1) as (c2 & s2 & Hsteps2 & Hd2).
  exists c2, s2. split; [by etrans|done].
Qed.

End Round.

(** ** Executable runs

    One worker drives the job alone; each iteration is given the clock reading
    and whether its renames work. *)

Section Exec.
Context (mapf : string -> string -> list KeyValue).
Context (reducef : string -> list string -> string).
Context (sortSlice : list KeyValue -> list KeyValue).
Context `{JsonKV}.

(** Answer the call a worker is at: its next program, the coordinator and the
    files. *)
Definition answer (clk : Z) (x : cfg) : option cfg :=
  match x with
  | (CallAssignTask args k, c, s) =>
      let '(r, c') := Coordinator.AssignTask (fun _ => clk) clk args zeroReply c in
      Some (k (Some r), c', s)
  | (CallNotifyComplete args k, c, s) =>
      match Coordinator.NotifyComplete args c with
      | Return c' => Some (k true, c', s)
      | _ => None
      end
  | (Ret tt, c, s) => Some (System.Worker mapf reducef sortSlice, c, s)
  | _ => None
  end.

Fixpoint exec (sched : list (Z * bool)) (x : cfg) : option cfg :=
  match sched with
  | [] => Some x
  | (clk, ok) :: sched =>
      match answer clk x with
      | Some (p, c, s) => let '(p', s') := fsrun ok p s in exec sched (p', c, s')
      | None => None
      end
  end.

Lemma answer_step rf clk x y : answer clk x = Some y -> cfgstep mapf reducef sortSlice rf x y.
Proof.
  destruct x as [[[[]| | | | |args k|args k| | |] c] s]; simpl; try done.
  - intros [= <-]. apply System.p_loop.
  - pose proof (System.p_assign mapf reducef sortSlice rf args k (fun _ => clk) clk c s) as Hs.
    destruct (Coordinator.AssignTask _ _ _ _ _) as [r c']. by intros [= <-].
  - destruct (Coordinator.NotifyComplete args c) as [c'| |] eqn:Hn; intros [= <-].
    by apply System.p_notify.
Qed.

Lemma exec_steps rf sched x y :
  Forall (fun '(_, ok) => ok = false -> rf = true) sched ->
  exec sched x = Some y -> rtc (cfgstep mapf reducef sortSlice rf) x y.
Proof.
  intros Hs. revert x. induction Hs as [|[clk ok] sched Hok _ IH]; intros x; simpl.
  - by intros [= ->].
  - destruct (answer clk x) as [[[p c] s]|] eqn:Ha; [|done].
    apply (answer_step rf) in Ha.
    pose proof (fsrun_steps mapf reducef sortSlice rf ok p c s Hok) as Hf.
    destruct (fsrun ok p s) as [p' s'] eqn:E. intros He.
    eapply rtc_l; [exact Ha|]. etrans; [exact Hf|]. by apply IH.
Qed.

(** A whole job: [MakeCoordinator], then one worker following the schedule. *)
Definition execJob (files : list string) (n : Z) (s0 : gmap string string)
    (sched : list (Z * bool)) : option cfg :=
  match Coordinator.MakeCoordinator false files n with
  | Return c0 => exec sched (System.Worker mapf reducef sortSlice, c0, s0)
  | _ => None
  end.

Lemma execJob_reachable rf files n s0 sched x :
  Forall (fun '(_, ok) => ok = false -> rf = true) sched ->
  execJob files n s0 sched = Some x ->
  System.reachable mapf reducef sortSlice rf files n s0
    {| System.coord := x.1.2; System.fs := x.2; System.workers := [x.1.1] |}.
Proof.
  unfold execJob. intros Hs.
  destruct (Coordinator.MakeCoordinator false files n) as [c0| |] eqn:H0; [|done..].
  intros He%(exec_steps rf); [|done]. exists c0. split; [done|].
  eapply rtc_l; [apply System.w_start|].
  by apply (insert_worker_steps _ _ _ _
    {| System.coord := c0; System.fs := s0; System.workers := [_] |} 0 _ _ He).
Qed.

End Exec.

(** C2: the job can always be finished.  From every state reachable in any
    execution in which [os.Rename] works -- whatever workers crashed and
    whatever calls were lost -- one more worker, started now and running alone,
    takes the system to a state in which the coordinator's [Done] returns true;
    the other workers need not move. *)
Theorem job_can_always_finish `{JsonKV} mapf reducef sortSlice files content n s0 w :
  0 < n -> files <> [] -> Logic.names_ok files ->
  (forall f, f ∈ files -> s0 !! f = Some (content f)) ->
  Forall json_ok (Logic.allPairs mapf files content) ->
  System.reachable mapf reducef sortSlice false files (Z.of_nat n) s0 w ->
  let worker := System.Worker mapf reducef sortSlice in
  exists c' s',
    rtc (cfgstep mapf reducef sortSlice false)
      (worker, System.coord w, System.fs w) (worker, c', s') /\
    rtc (System.wstep mapf reducef sortSlice false) w
      {| System.coord := c'; System.fs := s'; System.workers := System.workers w ++ [worker] |} /\
    Coordinator.Done c' = true.
Proof.
  intros Hn Hne Hnames Hin Hjson Hr.
  assert (System.Inv mapf reducef sortSlice files content n w) as [Hs _]
    by by eapply System.Inv_reachable.
  destruct (rounds mapf reducef sortSlice files content n Hnames Hn Hne Hjson _ _ Hs)
    as (c' & s' & Hsteps & Hd).
  exists c', s'. split_and!; [done| |done]. eapply rtc_l; [apply System.w_start|].
  etrans.
  { eapply (insert_worker_steps _ _ _ _ _ (length (System.workers w)) _ _ Hsteps); [done|].
    by apply list_lookup_middle. }
  simpl. by rewrite insert_app_r_alt, Nat.sub_diag by lia.
Qed.

End Progress.
