(* ===== verification/MrApps.v ===== *)
(** * MapReduce applications

    Models the plugins of [src/src/mrapps]: [wc.go], [indexer.go], [crash.go],
    [nocrash.go] and [early_exit.go].  The reduce functions ignore the order of
    their values ([Proper] instances below), which is what the system theorem
    of [MrSystem] asks of a plugin. *)

From Stdlib Require Import Ascii.
From S2P Require Import Prelude MrRpc GoLib MrWorker MrSequential.

(** ** Runes and words *)

(** [utf8.DecodeRuneInString]: the first rune of a string and its width; an
    invalid encoding decodes as U+FFFD of width 1. *)
Definition RuneError : Z := 0xFFFD.

Definition cont (b : Z) : bool := bool_decide (0x80 <= b < 0xC0)%Z.

Definition decodeRune (s : string) : Z * nat :=
  match s with
  | EmptyString => (RuneError, 0)
  | String c0 s1 =>
      let b0 := byte_of c0 in
      if decide (b0 < 0x80)%Z then (b0, 1)
      else
        match s1 with
        | EmptyString => (RuneError, 1)
        | String c1 s2 =>
            let b1 := byte_of c1 in
            if negb (cont b1) then (RuneError, 1)
            else if decide (0xC2 <= b0 < 0xE0)%Z then
              (((b0 - 0xC0) * 0x40 + (b1 - 0x80))%Z, 2)
            else
              match s2 with
              | EmptyString => (RuneError, 1)
              | String c2 s3 =>
                  let b2 := byte_of c2 in
                  if negb (cont b2) then (RuneError, 1)
                  else if decide (0xE0 <= b0 < 0xF0)%Z then
                    let r := ((b0 - 0xE0) * 0x1000 + (b1 - 0x80) * 0x40 + (b2 - 0x80))%Z in
                    if decide (r < 0x800 \/ 0xD800 <= r < 0xE000)%Z then (RuneError, 1) else (r, 3)
                  else
                    match s3 with
                    | EmptyString => (RuneError, 1)
                    | String c3 _ =>
                        let b3 := byte_of c3 in
                        let r := ((b0 - 0xF0) * 0x40000 + (b1 - 0x80) * 0x1000
                                  + (b2 - 0x80) * 0x40 + (b3 - 0x80))%Z in
                        if cont b3 && bool_decide (0xF0 <= b0 < 0xF5)%Z
                           && bool_decide (0x10000 <= r < 0x110000)%Z
                        then (r, 4) else (RuneError, 1)
                    end
              end
        end
  end.

(** [unicode.IsLetter]: exact on Latin-1; the Unicode tables above it are a
    parameter. *)
Definition latin1Letter (r : Z) : bool :=
  bool_decide (0x41 <= r <= 0x5A)%Z || bool_decide (0x61 <= r <= 0x7A)%Z
  || bool_decide (r = 0xAA)%Z || bool_decide (r = 0xB5)%Z || bool_decide (r = 0xBA)%Z
  || bool_decide (0xC0 <= r <= 0xD6)%Z || bool_decide (0xD8 <= r <= 0xF6)%Z
  || bool_decide (0xF8 <= r <= 0xFF)%Z.

Section Unicode.
Context (highLetter : Z -> bool).

Definition IsLetter (r : Z) : bool :=
  if decide (r <= 0xFF)%Z then latin1Letter r else highLetter r.

(** The runes of a string with their encodings, in order; every step consumes
    a byte, so the length bounds the number of steps. *)
Fixpoint runes_fuel (fuel : nat) (s : string) : list (Z * string) :=
  match fuel, s with
  | S fuel, String _ _ =>
      let '(r, w) := decodeRune s in
      (r, String.substring 0 w s) :: runes_fuel fuel (String.substring w (String.length s - w) s)
  | _, _ => []
  end.
Definition runes (s : string) : list (Z * string) := runes_fuel (String.length s) s.

(** [strings.FieldsFunc(s, f)] on the runes: the maximal runs of runes that do
    not satisfy [f]; [cur] is the run in progress. *)
Fixpoint fields (f : Z -> bool) (cur : option string) (l : list (Z * string)) : list string :=
  match l with
  | [] => option_list cur
  | (r, enc) :: l =>
      if f r then option_list cur ++ fields f None l
      else fields f (Some (default "" cur +:+ enc)) l
  end.
Definition FieldsFunc (s : string) (f : Z -> bool) : list string := fields f None (runes s).

Definition words (contents : string) : list string :=
  FieldsFunc contents (fun r => negb (IsLetter r)).

End Unicode.

(** ** wc.go *)

Module Wc.
Definition Map (highLetter : Z -> bool) (filename contents : string) : list KeyValue :=
  (fun w => {| Key := w; Value := "1" |}) <$> words highLetter contents.

Definition Reduce (key : string) (values : list string) : string := Itoa (len values).

#[global] Instance Wc_Reduce_Proper key : Proper ((≡ₚ) ==> (=)) (Reduce key).
Proof. intros l l' Hp. unfold Reduce, len. by rewrite Hp. Qed.
End Wc.

(** ** indexer.go *)

Module Indexer.
(** Iterating over the Go map [m] visits its keys in an arbitrary order:
    [rangeOrder] picks it. *)
Definition Map (highLetter : Z -> bool) (rangeOrder : gset string -> list string)
    (document value : string) : list KeyValue :=
  let m : gset string := list_to_set (words highLetter value) in
  (fun w => {| Key := w; Value := document |}) <$> rangeOrder m.

Definition Reduce (key : string) (values : list string) : string :=
  Itoa (len (sortStrings values)) +:+ " " +:+ Join (sortStrings values) ",".

#[global] Instance Indexer_Reduce_Proper key : Proper ((≡ₚ) ==> (=)) (Reduce key).
Proof. intros l l' Hp. unfold Reduce. by rewrite Hp. Qed.
End Indexer.

(** ** crash.go and nocrash.go *)

Module Crash.
(** [maybeCrash], given the random number drawn and the delay drawn: exit the
    process, sleep, or go on. *)
Inductive fate := Exits (code : Z) | Delays (ms : Z) | GoesOn.
Definition maybeCrash (rr ms : Z) : fate :=
  if decide (rr < 330)%Z then Exits 1
  else if decide (rr < 660)%Z then Delays ms
  else GoesOn.

(** nocrash.go: [false && rr < 500]. *)
Definition maybeCrash_nocrash (rr : Z) : fate :=
  if (false && bool_decide (rr < 500)%Z)%bool then Exits 1 else GoesOn.

(** What [Map] and [Reduce] return when [maybeCrash] lets them. *)
Definition Map (filename contents : string) : list KeyValue :=
  [ {| Key := "a"; Value := filename |};
    {| Key := "b"; Value := Itoa (Z.of_nat (String.length filename)) |};
    {| Key := "c"; Value := Itoa (Z.of_nat (String.length contents)) |};
    {| Key := "d"; Value := "xyzzy" |} ].

Definition Reduce (key : string) (values : list string) : string :=
  Join (sortStrings values) " ".

#[global] Instance Crash_Reduce_Proper key : Proper ((≡ₚ) ==> (=)) (Reduce key).
Proof. intros l l' Hp. unfold Reduce. by rewrite Hp. Qed.
End Crash.

(** ** nocrash.go: the same application, whose [maybeCrash] goes on *)

Module NoCrash.
Definition Map (rr : Z) (filename contents : string) : outcome (list KeyValue) :=
  match Crash.maybeCrash_nocrash rr with
  | Crash.Exits _ => Fatal "exit status 1"
  | _ => Return [ {| Key := "a"; Value := filename |};
                  {| Key := "b"; Value := Itoa (Z.of_nat (String.length filename)) |};
                  {| Key := "c"; Value := Itoa (Z.of_nat (String.length contents)) |};
                  {| Key := "d"; Value := "xyzzy" |} ]
  end.
Definition Reduce (rr : Z) (key : string) (values : list string) : outcome string :=
  match Crash.maybeCrash_nocrash rr with
  | Crash.Exits _ => Fatal "exit status 1"
  | _ => Return (Join (sortStrings values) " ")
  end.

(** Whatever number is drawn, it computes what the crashing application computes. *)
Lemma nocrash_same rr filename contents key values :
  Map rr filename contents = Return (Crash.Map filename contents) /\
  Reduce rr key values = Return (Crash.Reduce key values).
Proof. done. Qed.
End NoCrash.

(** ** early_exit.go *)

Module EarlyExit.
Definition Map (filename contents : string) : list KeyValue :=
  [ {| Key := filename; Value := "1" |} ].

(** Seconds [Reduce] sleeps before it answers. *)
Definition delay (key : string) : Z :=
  if Contains key "sherlock" || Contains key "tom" then 3 else 0.

Definition Reduce (key : string) (values : list string) : string := Itoa (len values).

#[global] Instance EarlyExit_Reduce_Proper key : Proper ((≡ₚ) ==> (=)) (Reduce key).
Proof. intros l l' Hp. unfold Reduce, len. by rewrite Hp. Qed.
End EarlyExit.

Example wc_words : words (fun _ => false) "the cat, the hat!" = ["the"; "cat"; "the"; "hat"].
Proof. vm_compute. reflexivity. Qed.
Example join_ex : Join ["a"; "b"; "c"] "," = "a,b,c".
Proof. reflexivity. Qed.

(** ** Words are the maximal runs of letters *)

Lemma decodeRune_width c s : 1 <= (decodeRune (String c s)).2 <= String.length (String c s).
Proof. unfold decodeRune. repeat (case_decide || case_match); simpl; lia. Qed.

Lemma substring_split w s :
  w <= String.length s ->
  String.substring 0 w s +:+ String.substring w (String.length s - w) s = s.
Proof.
  revert s. induction w as [|w IH]; intros s Hw.
  - rewrite Nat.sub_0_r. replace (String.substring 0 0 s) with "" by (by destruct s).
    rewrite str_nil_app. clear Hw. induction s as [|c s IH]; [done|]. simpl. by rewrite IH.
  - destruct s as [|c s]; simpl in *; [lia|]. rewrite str_cons_app, IH by lia. done.
Qed.

Lemma substring_length w s :
  w <= String.length s ->
  String.length (String.substring w (String.length s - w) s) = String.length s - w.
Proof.
  intros Hw. pose proof (substring_split w s Hw) as Hs. apply (f_equal String.length) in Hs.
  rewrite str_length_app in Hs.
  enough (String.length (String.substring 0 w s) = w) by lia. clear Hs.
  revert s Hw. induction w as [|w IH]; intros [|c s] Hw; simpl in *; try lia.
  rewrite IH; lia.
Qed.

(** Decoding loses nothing. *)
Lemma runes_concat s : str_concat (runes s).*2 = s.
Proof.
  unfold runes. remember (String.length s) as k eqn:Hk.
  assert (String.length s <= k) as Hle by lia. clear Hk. revert s Hle.
  induction k as [|k IH]; intros [|c s] Hle; simpl in Hle; try done; [lia|].
  cbn -[decodeRune String.substring String.length].
  pose proof (decodeRune_width c s) as Hw. destruct (decodeRune (String c s)) as [r w].
  simpl snd in Hw. cbn -[String.substring String.length str_concat].
  change (str_concat (?x :: ?l)) with (x +:+ str_concat l).
  rewrite IH by (rewrite substring_length; simpl in *; lia).
  apply substring_split. lia.
Qed.

Section Fields.
Context (f : Z -> bool).

(** [w] is a run of runes kept by [f]. *)
Definition run (w : string) (l : list (Z * string)) : Prop :=
  l <> [] /\ w = str_concat l.*2 /\ Forall (fun x => f x.1 = false) l.

(** [seps] separates the words of [ws] in [l]: [l] is a sequence of runs of
    kept runes, one per word, and of separator runes, and two runs never
    touch. *)
Inductive split_into : list string -> list (Z * string) -> Prop :=
| split_end : split_into [] []
| split_sep ws r e l : f r = true -> split_into ws l -> split_into ws ((r, e) :: l)
| split_last w l : run w l -> split_into [w] l
| split_word w l r e ws l' :
    run w l -> f r = true -> split_into ws l' -> split_into (w :: ws) (l ++ (r, e) :: l').

Lemma run_snoc cur l r e :
  run cur l -> f r = false -> run (cur +:+ e) (l ++ [(r, e)]).
Proof.
  intros (Hne & -> & Hall) Hr. split_and!.
  - by intros []%app_eq_nil.
  - rewrite fmap_app, str_concat_app. simpl.
    change (str_concat [e]) with (e +:+ ""). by rewrite str_app_nil_r.
  - apply Forall_app. split; [done|]. by constructor.
Qed.

Lemma fields_split l :
  split_into (fields f None l) l /\
  forall cur pre, run cur pre -> split_into (fields f (Some cur) l) (pre ++ l).
Proof.
  induction l as [|[r e] l [IH1 IH2]]; simpl.
  - split; [constructor|]. intros cur pre Hrun. rewrite app_nil_r. by constructor.
  - destruct (f r) eqn:Hr; simpl.
    + split; [by constructor|]. intros cur pre Hrun. by apply split_word.
    + split.
      * rewrite str_nil_app. apply (IH2 e [(r, e)]). split_and!; [done| |by constructor].
        simpl. change (str_concat [e]) with (e +:+ ""). by rewrite str_app_nil_r.
      * intros cur pre Hrun. change ((r, e) :: l) with ([(r, e)] ++ l). rewrite app_assoc. apply IH2. by apply run_snoc.
Qed.
End Fields.

(** The words that [wc] and [indexer] map over are the maximal runs of
    letters of the file: decoding the file into runes loses no byte, and the
    file is a sequence of non-letter runes and of runs of letters, two runs
    always separated, the words being exactly the runs in order. *)
Theorem words_are_letter_runs highLetter contents :
  str_concat (runes contents).*2 = contents /\
  split_into (fun r => negb (IsLetter highLetter r)) (words highLetter contents) (runes contents).
Proof. split; [apply runes_concat|apply fields_split]. Qed.

(** C31: the word-count job counts words.  On any input files, the lines that
    [mrsequential] prints with the [wc] plugin are one line [w n] per distinct
    word, in increasing order, where [n] is the number of occurrences of [w]
    in all the files. *)
Theorem wc_counts_words highLetter sortSort `{!SortsByKey sortSort} inputs :
  exists keys,
    StronglySorted (≤)%string keys /\ NoDup keys /\
    (forall w, w ∈ keys <-> w ∈ (inputs ≫= fun '(_, c) => words highLetter c)) /\
    Sequential.sequentialOutput sortSort Wc.Reduce
      (Sequential.mapAll (Wc.Map highLetter) inputs)
    = (fun w => Worker.outputLine w
         (Itoa (Z.of_nat (count (fun x => x = w) (inputs ≫= fun '(_, c) => words highLetter c)))))
      <$> keys.
Proof.
  set (mk := fun w => {| Key := w; Value := "1" |}).
  assert (Sequential.mapAll (Wc.Map highLetter) inputs
          = mk <$> (inputs ≫= fun '(_, c) => words highLetter c)) as ->.
  { induction inputs as [|[f c] inputs IH]; [done|].
    unfold Sequential.mapAll. rewrite !bind_cons, fmap_app. by f_equal. }
  set (ws := inputs ≫= _). rewrite Sequential.sequentialOutput_reduceOutput.
  destruct (Worker.reduceOutput_spec Wc.Reduce sortSort (mk <$> ws)) as (keys & Hk & ->).
  exists keys. destruct Hk as (? & ? & Hmem). split_and!; [done|done| |].
  - intros w. rewrite Hmem, <-list_fmap_compose. by rewrite list_fmap_id.
  - unfold Worker.linesFor. apply list_fmap_ext. intros _ w _. unfold Wc.Reduce, len.
    do 3 f_equal. unfold Worker.valuesOf, count. rewrite length_fmap. clear.
    induction ws as [|x ws IH]; [done|]. rewrite fmap_cons, !filter_cons. simpl.
    case_decide; simpl; by rewrite IH.
Qed.
