(* ===== verification/MrTiming.v ===== *)
(** * MapReduce: the applications that observe the workers

    Models [src/src/mrapps/mtiming.go], [rtiming.go] and [jobcount.go], which
    count the workers that run at the same time, or the tasks that were run,
    with files in the working directory.  The directory is a set of names; which
    processes are alive is what [kill(pid, 0)] would answer.  [fmt.Sscanf] with
    [%d] and the listing of the directory are modelled.  A file operation that
    fails panics, which ends the worker's process: in [nparallel] that is the
    step [np_die]; in the job counter it is left out. *)

From S2P Require Import Prelude MrRpc GoLib MrApps.

Module Timing.

Set Default Proof Using "Type".

(** ** Names *)

Definition workerPrefix (phase : string) : string := "mr-worker-" +:+ phase +:+ "-".
Definition workerName (phase : string) (pid : Z) : string := workerPrefix phase +:+ Itoa pid.

(** Spaces before the number are skipped. *)
Fixpoint skipSpace (s : string) : string :=
  match s with
  | String c s' => if bool_decide (c = " "%char) || bool_decide (c = "009"%char) then skipSpace s' else s
  | EmptyString => s
  end.

(** [%d]: decimal digits, after an optional sign; an overflow is an error. *)
Definition scanInt (s : string) : option Z :=
  let '(neg, s) := splitSign (skipSpace s) in
  if startsWithDigit s then
    let v := scanDigits s 0 in
    let v := if neg then (- v)%Z else v in
    if decide (int_min <= v <= int_max)%Z then Some v else None
  else None.

(** What is left of [s] after the literal text [p]. *)
Fixpoint stripPrefix (p s : string) : option string :=
  match p, s with
  | EmptyString, _ => Some s
  | String c p, String c' s => if decide (c = c') then stripPrefix p s else None
  | String _ _, EmptyString => None
  end.

(** [fmt.Sscanf(name, "mr-worker-<phase>-%d", &xpid)]: [Some xpid] when one item
    was read without error. *)
Definition Sscanf (phase name : string) : option Z := stripPrefix (workerPrefix phase) name ≫= scanInt.

(** ** nparallel *)

(** The loop over the names of the directory. *)
Fixpoint countAlive (phase : string) (alive : Z -> bool) (names : list string) (ret : Z) : Z :=
  match names with
  | [] => ret
  | name :: names =>
      match Sscanf phase name with
      | Some xpid => countAlive phase alive names (if alive xpid then ret + 1 else ret)
      | None => countAlive phase alive names ret
      end
  end.

(** [dd.Readdirnames(1000000)]: at most that many names, in the order in which the
    directory has them. *)
Definition maxNames : nat := Z.to_nat 1000000.
Definition Readdirnames (order : list string) : list string := take maxNames order.

(** A worker inside [nparallel]: it has made its file; it has counted. *)
Inductive pstate := Wrote | Counted (n : Z).

(** The directory, the processes that are alive, the workers inside
    [nparallel], and the results returned so far. *)
Record world := { dir : gset string; live : gset Z; inside : gmap Z pstate; results : list (Z * Z) }.

(** The steps of [nparallel] in one worker, interleaved with those of others,
    and a worker that dies, also in the panic after a file operation that failed. *)
Inductive step (phase : string) (w : world) : world -> Prop :=
| np_write pid :
    pid ∈ live w -> inside w !! pid = None ->
    step phase w {| dir := {[workerName phase pid]} ∪ dir w; live := live w;
                    inside := <[pid := Wrote]> (inside w); results := results w |}
| np_count pid order :
    inside w !! pid = Some Wrote -> order ≡ₚ elements (dir w) ->
    step phase w {| dir := dir w; live := live w;
                    inside := <[pid := Counted (countAlive phase (fun p => bool_decide (p ∈ live w))
                                                  (Readdirnames order) 0)]> (inside w);
                    results := results w |}
| np_remove pid n :
    inside w !! pid = Some (Counted n) ->
    step phase w {| dir := dir w ∖ {[workerName phase pid]}; live := live w;
                    inside := delete pid (inside w); results := results w ++ [(pid, n)] |}
| np_die pid :
    step phase w {| dir := dir w; live := live w ∖ {[pid]}; inside := delete pid (inside w);
                    results := results w |}.

(** ** The applications *)

(** mtiming.go: [ts] is the time, printed; [n] the result of [nparallel]. *)
Definition mtiming_Map (pid : Z) (ts : string) (n : Z) (filename contents : string) : list KeyValue :=
  [ {| Key := "times-" +:+ Itoa pid; Value := ts |};
    {| Key := "parallel-" +:+ Itoa pid; Value := Itoa n |} ].
Definition mtiming_Reduce (key : string) (values : list string) : string := Join (sortStrings values) " ".

(** rtiming.go *)
Definition rtiming_Map (filename contents : string) : list KeyValue :=
  (fun k => {| Key := k; Value := "1" |}) <$> ["a"; "b"; "c"; "d"; "e"; "f"; "g"; "h"; "i"; "j"].
(** [rtiming.go]'s copy of [nparallel], which its [Reduce] calls. *)
Definition rtiming_step : world -> world -> Prop := step "reduce".
Definition rtiming_Reduce (n : Z) (key : string) (values : list string) : string := Itoa n.

(** jobcount.go: each process has its own [count]. *)
Definition jobName (me count : Z) : string := "mr-worker-jobcount-" +:+ Itoa me +:+ "-" +:+ Itoa count.
Record jobs := { jdir : gset string; jcount : gmap Z Z }.

Definition jobcount_Map (me : Z) (filename contents : string) (j : jobs) : list KeyValue * jobs :=
  let count := default 0%Z (jcount j !! me) in
  ([ {| Key := "a"; Value := "x" |} ],
   {| jdir := {[jobName me count]} ∪ jdir j; jcount := <[me := wrap64 (count + 1)]> (jcount j) |}).

(** [files] is the listing of the directory. *)
Definition isJob (name : string) : bool := String.prefix "mr-worker-jobcount" name.
Fixpoint countJobs (files : list string) : Z :=
  match files with [] => 0 | f :: files => (if isJob f then 1 else 0) + countJobs files end.
Definition jobcount_Reduce (files : list string) (key : string) (values : list string) : string :=
  Itoa (countJobs files).
(** ** Reading the names back *)

(** The workers of the one application do not count those of the other. *)
Lemma other_phase_ignored pid :
  Sscanf "map" (workerName "reduce" pid) = None /\ Sscanf "reduce" (workerName "map" pid) = None.
Proof. done. Qed.

Lemma stripPrefix_app p s : stripPrefix p (p +:+ s) = Some s.
Proof.
  induction p as [|c p IH]; [done|]. rewrite str_cons_app. cbn [stripPrefix]. by rewrite decide_True.
Qed.

Lemma scanInt_digits c s v :
  is_Some (Ascii.is_nat c) -> scanDigits (String c s) 0 = v -> (int_min <= v <= int_max)%Z ->
  scanInt (String c s) = Some v.
Proof.
  intros Hc Hv Hr. destruct (digit_not c Hc) as (_ & _ & N3 & N4). unfold scanInt.
  assert (skipSpace (String c s) = String c s) as ->.
  { cbn [skipSpace]. by rewrite !bool_decide_eq_false_2. }
  rewrite splitSign_digit by done.
  destruct Hc as [d Hd]. cbn [startsWithDigit]. rewrite Hd, Hv. by rewrite decide_True.
Qed.

Lemma Sscanf_workerName phase pid :
  (0 <= pid <= int_max)%Z -> Sscanf phase (workerName phase pid) = Some pid.
Proof.
  intros Hp. unfold Sscanf, workerName. rewrite stripPrefix_app. cbn [mbind option_bind].
  destruct (Itoa_nonneg pid) as (c & s & E & Hc & Hs); [lia|]. rewrite E in Hs |- *.
  apply scanInt_digits; [done|done|]. unfold int_min in *. lia.
Qed.

Lemma workerName_inj phase p q : workerName phase p = workerName phase q -> p = q.
Proof. unfold workerName. intros H%(inj (String.app _)). by apply (inj pretty). Qed.

(** ** How many workers are counted *)

(** Before the job: no worker is inside, process numbers are in range, and no
    file in the directory names a live process. *)
Record initial (phase : string) (w : world) : Prop := {
  in_inside : inside w = ∅;
  in_results : results w = [];
  in_range p : p ∈ live w -> (0 < p <= int_max)%Z;
  in_dir name x : name ∈ dir w -> Sscanf phase name = Some x -> (0 < x)%Z /\ x ∉ live w
}.

Record Inv (phase : string) (n0 : nat) (w : world) : Prop := {
  iv_live : dom (inside w) ⊆ live w;
  iv_size : size (live w) <= n0;
  iv_range p : p ∈ live w -> (0 < p <= int_max)%Z;
  iv_file p : is_Some (inside w !! p) -> workerName phase p ∈ dir w;
  iv_dir name x : name ∈ dir w -> Sscanf phase name = Some x -> x ∈ live w ->
    name = workerName phase x /\ is_Some (inside w !! x);
  iv_counted p n : inside w !! p = Some (Counted n) -> (0 <= n <= Z.of_nat n0)%Z;
  iv_results p n : (p, n) ∈ results w -> (0 <= n <= Z.of_nat n0)%Z
}.

(** The names that the loop counts. *)
Definition counts (phase : string) (live : gset Z) (name : string) : Prop :=
  exists x, Sscanf phase name = Some x /\ x ∈ live.
#[local] Instance counts_dec phase live name : Decision (counts phase live name).
Proof.
  unfold counts. destruct (Sscanf phase name) as [x|]; [|right; by intros (? & ? & _)].
  destruct (decide (x ∈ live)); [left; by exists x|right; by intros (? & [= <-] & ?)].
Defined.

Lemma countAlive_filter phase live names : forall ret,
  countAlive phase (fun p => bool_decide (p ∈ live)) names ret
  = (ret + Z.of_nat (length (filter (counts phase live) names)))%Z.
Proof.
  induction names as [|name names IH]; intros ret; cbn [countAlive]; [by rewrite Z.add_0_r|].
  rewrite filter_cons. destruct (Sscanf phase name) as [x|] eqn:Hs.
  - destruct (decide (x ∈ live)) as [Hx|Hx].
    + rewrite bool_decide_eq_true_2 by done. rewrite decide_True by (by exists x). rewrite IH. simpl. lia.
    + rewrite bool_decide_eq_false_2 by done.
      rewrite decide_False by (intros (y & Hy & ?); congruence). apply IH.
  - rewrite decide_False by (intros (y & Hy & ?); congruence). apply IH.
Qed.

(** The counted names are the files of the workers inside. *)
Lemma counted_names phase n0 w names :
  Inv phase n0 w -> names ≡ₚ elements (dir w) ->
  filter (counts phase (live w)) names ≡ₚ workerName phase <$> elements (dom (inside w)).
Proof.
  intros [I1 I2 I3 I4 I5 _ _] Hn. apply NoDup_Permutation.
  - apply NoDup_filter. rewrite Hn. apply NoDup_elements.
  - apply NoDup_fmap_2_strong; [|apply NoDup_elements]. intros x y _ _. apply workerName_inj.
  - intros name. rewrite list_elem_of_filter, Hn, elem_of_elements, list_elem_of_fmap. split.
    + intros [(x & Hs & Hx) Hd]. destruct (I5 name x Hd Hs Hx) as [-> Hi]. exists x. split; [done|].
      by apply elem_of_elements, elem_of_dom.
    + intros (x & -> & Hx%elem_of_elements). pose proof (I1 x Hx) as Hl. apply elem_of_dom in Hx.
      split; [|auto]. exists x. split; [|done]. apply Sscanf_workerName. specialize (I3 x Hl). lia.
Qed.

Lemma count_spec phase n0 w names :
  Inv phase n0 w -> names ≡ₚ elements (dir w) ->
  countAlive phase (fun p => bool_decide (p ∈ live w)) names 0 = Z.of_nat (size (inside w)).
Proof.
  intros HI Hn. rewrite countAlive_filter, (counted_names phase n0 w names HI Hn), length_fmap.
  rewrite <-(size_dom (inside w)). unfold size at 1, set_size. simpl. lia.
Qed.

(** A listing that is cut off counts no more. *)
Lemma count_upper phase n0 w order :
  Inv phase n0 w -> order ≡ₚ elements (dir w) ->
  (0 <= countAlive phase (fun p => bool_decide (p ∈ live w)) (Readdirnames order) 0
     <= Z.of_nat (size (inside w)))%Z.
Proof.
  intros HI Hn. rewrite <-(count_spec phase n0 w order HI Hn), !countAlive_filter. unfold Readdirnames.
  rewrite <-(take_drop maxNames order) at 3. rewrite filter_app, length_app. lia.
Qed.

Lemma inside_bound phase n0 w p :
  Inv phase n0 w -> is_Some (inside w !! p) -> 1 <= size (inside w) <= n0.
Proof.
  intros [I1 I2 _ _ _ _ _] Hp. rewrite <-(size_dom (inside w)). split.
  - destruct (size (dom (inside w))) eqn:Hz; [|lia]. apply size_empty_inv in Hz.
    apply elem_of_dom in Hp. set_solver.
  - pose proof (subseteq_size _ _ I1). lia.
Qed.

Lemma count_step phase n0 w w' : step phase w w' -> Inv phase n0 w -> Inv phase n0 w'.
Proof.
  intros Hs HI. pose proof HI as [I1 I2 I3 I4 I5 I6 I7].
  destruct Hs as [pid Hl Hn|pid order Hi Hp|pid n Hi|pid]; constructor; simpl; try done.
  - rewrite dom_insert. set_solver.
  - intros p [x Hx]. apply lookup_insert_Some in Hx as [[<- _]|[_ Hx]]; [set_solver|].
    apply elem_of_union. right. apply I4. by eexists.
  - intros name x [->%elem_of_singleton|Hd]%elem_of_union Hsc Hx.
    + rewrite Sscanf_workerName in Hsc by (specialize (I3 pid Hl); lia). injection Hsc as <-.
      split; [done|]. rewrite lookup_insert_eq. by eexists.
    + destruct (I5 name x Hd Hsc Hx) as [-> Hin]. split; [done|]. rewrite lookup_insert.
      case_decide; [by eexists|done].
  - intros p n [[_ ?]|[_ Hx]]%lookup_insert_Some; [done|]. by eapply I6.
  - rewrite dom_insert. apply elem_of_dom_2 in Hi. set_solver.
  - intros p [x [[<- _]|[_ Hx]]%lookup_insert_Some]; apply I4; by eexists.
  - intros name x Hd Hsc Hx. destruct (I5 name x Hd Hsc Hx) as [-> Hin]. split; [done|].
    rewrite lookup_insert. case_decide; [by eexists|done].
  - intros p n [[_ [= <-]]|[_ Hx]]%lookup_insert_Some; [|by eapply I6].
    pose proof (count_upper phase n0 w order HI Hp).
    pose proof (inside_bound phase n0 w pid HI ltac:(by eexists)). lia.
  - rewrite dom_delete. set_solver.
  - intros p [x [Hne Hx]%lookup_delete_Some]. apply elem_of_difference. split; [apply I4; by eexists|].
    rewrite elem_of_singleton. by intros ?%workerName_inj.
  - intros name x [Hd Hne]%elem_of_difference Hsc Hx. destruct (I5 name x Hd Hsc Hx) as [-> Hin].
    split; [done|]. rewrite lookup_delete_ne; [done|]. intros ->. apply Hne. by apply elem_of_singleton.
  - intros p m [_ Hx]%lookup_delete_Some. by eapply I6.
  - intros p m [?|Hx%list_elem_of_singleton]%elem_of_app; [by eapply I7|]. injection Hx as -> ->. by eapply I6.
  - rewrite dom_delete. set_solver.
  - pose proof (subseteq_size (live w ∖ {[pid]}) (live w) ltac:(set_solver)). lia.
  - intros p Hp. apply I3. set_solver.
  - intros p [x [_ Hx]%lookup_delete_Some]. apply I4. by eexists.
  - intros name x Hd Hsc [Hx Hne]%elem_of_difference. destruct (I5 name x Hd Hsc Hx) as [-> Hin].
    split; [done|]. rewrite lookup_delete_ne; [done|]. intros ->. apply Hne. by apply elem_of_singleton.
  - intros p m [_ Hx]%lookup_delete_Some. by eapply I6.
Qed.

Lemma count_steps phase n0 w w' : rtc (step phase) w w' -> Inv phase n0 w -> Inv phase n0 w'.
Proof. induction 1 as [|x y z Hs _ IH]; [done|]. intros HI. apply IH. by eapply count_step. Qed.

Lemma Inv_initial phase w : initial phase w -> Inv phase (size (live w)) w.
Proof.
  intros [H1 H2 H3 H4]. constructor; rewrite ?H1, ?H2.
  - rewrite dom_empty. set_solver.
  - done.
  - done.
  - intros p [x Hx]. by rewrite lookup_empty in Hx.
  - intros name x Hd Hs Hx. by destruct (H4 name x Hd Hs) as [_ ?].
  - intros p n Hx. by rewrite lookup_empty in Hx.
  - by intros p n ?%elem_of_nil.
Qed.

(** The timing applications count the workers that run at the same time.
    However the workers' steps interleave, and whichever workers die in
    between and leave their files behind, every number that [nparallel] returns
    is at most the number of workers; and in a directory of at most a million
    files a worker that counts finds exactly the live workers that are inside
    [nparallel] at that moment, itself included. *)
Theorem nparallel_counts phase w0 w pid order :
  initial phase w0 -> rtc (step phase) w0 w -> inside w !! pid = Some Wrote ->
  order ≡ₚ elements (dir w) ->
  (forall p n, (p, n) ∈ results w -> (0 <= n <= Z.of_nat (size (live w0)))%Z) /\
  1 <= size (inside w) <= size (live w0) /\
  (size (dir w) <= maxNames ->
   countAlive phase (fun p => bool_decide (p ∈ live w)) (Readdirnames order) 0
   = Z.of_nat (size (inside w))).
Proof.
  intros H0 Hr Hi Hn. assert (Inv phase (size (live w0)) w) as HI.
  { eapply count_steps; [done|]. by apply Inv_initial. }
  split; [intros p n; by apply HI|]. split; [eapply inside_bound; [done|by eexists]|].
  intros Hm. unfold Readdirnames. rewrite take_ge by (by rewrite Hn). by eapply count_spec.
Qed.

(** ** Counting tasks *)

Lemma jobName_inj m c m' c' : (0 <= m)%Z -> (0 <= m')%Z -> jobName m c = jobName m' c' -> m = m' /\ c = c'.
Proof.
  intros Hm Hm'. unfold jobName. intros H%(inj (String.app _)).
  assert (forall z, (0 <= z)%Z -> no_dash (Itoa z)) as Hd.
  { intros z Hz. rewrite <-(Z2Nat.id z Hz). apply digits_no_dash, Itoa_nat_digits. }
  apply dash_split in H as [H1 H2]; [|by apply Hd|by apply Hd]. split; by apply (inj pretty).
Qed.

Lemma isJob_jobName m c : isJob (jobName m c) = true.
Proof. unfold isJob, jobName. by destruct (Itoa m +:+ _). Qed.

Fixpoint runMaps (pids : list Z) (j : jobs) : jobs :=
  match pids with [] => j | p :: pids => runMaps pids (jobcount_Map p "" "" j).2 end.

(** Processes have used the numbers below their count. *)
Definition fresh (j : jobs) : Prop :=
  forall m c, (0 <= m)%Z -> (default 0 (jcount j !! m) <= c)%Z -> jobName m c ∉ jdir j.

Lemma countJobs_length l : countJobs l = Z.of_nat (length (filter (fun f => isJob f = true) l)).
Proof.
  induction l as [|f l IH]; [done|]. cbn [countJobs]. rewrite filter_cons, IH.
  destruct (isJob f); [rewrite decide_True by done; simpl; lia|by rewrite decide_False].
Qed.

Lemma countJobs_perm l l' : l ≡ₚ l' -> countJobs l = countJobs l'.
Proof. intros Hp. rewrite !countJobs_length. by rewrite Hp. Qed.

Lemma runMaps_count pids : forall j, Forall (fun p => 0 <= p)%Z pids -> fresh j ->
  (forall m, (0 <= default 0 (jcount j !! m))%Z /\
     (default 0 (jcount j !! m) + Z.of_nat (length pids) <= int_max)%Z) ->
  countJobs (elements (jdir (runMaps pids j))) = (countJobs (elements (jdir j)) + Z.of_nat (length pids))%Z.
Proof.
  induction pids as [|p pids IH]; intros j Hp Hf Hc; simpl; [lia|].
  apply Forall_cons in Hp as [Hp0 Hp]. set (c := default 0%Z (jcount j !! p)).
  assert (wrap64 (c + 1) = c + 1)%Z as Hw.
  { apply wrap64_small. specialize (Hc p). fold c in Hc. simpl in Hc. unfold int_min, int_max in *. lia. }
  assert (jobName p c ∉ jdir j) as Hn by (apply Hf; [done|unfold c; lia]).
  rewrite IH; simpl.
  - rewrite (countJobs_perm _ (jobName p c :: elements (jdir j))) by (by apply elements_union_singleton).
    cbn [countJobs]. rewrite isJob_jobName. lia.
  - done.
  - intros m d Hm. simpl. rewrite lookup_insert. fold c. rewrite Hw. case_decide as Hd.
    + subst m. simpl. intros Hcd. rewrite elem_of_union, elem_of_singleton.
      intros [H|H]; [apply jobName_inj in H as [_ ->]; [lia|done|done]|].
      apply (Hf p d); [done|fold c; lia|done].
    + intros Hcd. rewrite elem_of_union, elem_of_singleton. intros [H|H].
      * apply jobName_inj in H as [-> _]; done.
      * by apply (Hf m d).
  - intros m. fold c. rewrite lookup_insert, Hw. specialize (Hc m) as Hcm. simpl in Hcm.
    specialize (Hc p). fold c in Hc. simpl in Hc. case_decide; simpl; lia.
Qed.

(** The job counter counts every run of a map task.  In a directory without
    its files, after any sequence of [Map] calls by any processes (a task that
    is run twice, by the same process or by another, counts twice), [Reduce]
    returns the number of those calls. *)
Theorem jobcount_counts_runs pids j files key values :
  Forall (fun p => 0 <= p)%Z pids -> jcount j = ∅ ->
  (forall f, f ∈ jdir j -> isJob f = false) -> (Z.of_nat (length pids) <= int_max)%Z ->
  files ≡ₚ elements (jdir (runMaps pids j)) ->
  jobcount_Reduce files key values = Itoa (Z.of_nat (length pids)).
Proof.
  intros Hp Hc Hd Hl Hf. unfold jobcount_Reduce. rewrite (countJobs_perm _ _ Hf), runMaps_count.
  - rewrite countJobs_length. rewrite filter_none_nil; [done|].
    apply Forall_forall. intros f Hin%elem_of_elements. by rewrite Hd.
  - done.
  - intros m c _ _ Hin. apply Hd in Hin. by rewrite isJob_jobName in Hin.
  - intros m. rewrite Hc, lookup_empty. simpl. lia.
Qed.

(** Two workers inside, beside the file of one that died in an earlier job. *)
Definition ex_start : world :=
  {| dir := {["mr-worker-map-9"; "pg-being.txt"]}; live := {[1; 2]}%Z; inside := ∅; results := [] |}.
Definition ex_wrote (w : world) (pid : Z) : world :=
  {| dir := {[workerName "map" pid]} ∪ dir w; live := live w; inside := <[pid := Wrote]> (inside w);
     results := results w |}.

Lemma ex_initial : initial "map" ex_start.
Proof.
  constructor; [done|done| |].
  - intros p Hp. assert (p = 1 \/ p = 2)%Z as [-> | ->] by set_solver; by vm_compute.
  - intros name x Hn. assert (name = "mr-worker-map-9" \/ name = "pg-being.txt") as [-> | ->] by set_solver.
    + vm_compute (Sscanf _ _). intros [= <-]. split; [done|set_solver].
    + by vm_compute.
Qed.

Lemma nparallel_counts_witness :
  exists w, rtc (step "map") ex_start w /\
    countAlive "map" (fun p => bool_decide (p ∈ live w)) (Readdirnames (elements (dir w))) 0 = 2%Z.
Proof.
  pose (w := ex_wrote (ex_wrote ex_start 1) 2).
  assert (rtc (step "map") ex_start w) as Hr.
  { eapply rtc_l; [apply (np_write _ _ 1); [set_solver|done]|].
    eapply rtc_l; [apply (np_write _ _ 2); [set_solver|done]|]. apply rtc_refl. }
  exists w. split; [exact Hr|].
  destruct (nparallel_counts "map" ex_start w 2 (elements (dir w)) ex_initial Hr eq_refl) as (_ & _ & H);
    [reflexivity|].
  rewrite H; [reflexivity|]. unfold maxNames. apply Nat2Z.inj_le. rewrite Z2Nat.id by done. vm_compute. discriminate.
Defined.

Lemma jobcount_counts_runs_witness :
  jobcount_Reduce (elements (jdir (runMaps [7; 8; 7]%Z {| jdir := {["pg-being.txt"]}; jcount := ∅ |}))) "a" ["x"]
  = "3".
Proof.
  rewrite (jobcount_counts_runs [7; 8; 7]%Z {| jdir := {["pg-being.txt"]}; jcount := ∅ |} _ "a" ["x"]);
    [reflexivity|by repeat constructor|done| |by vm_compute|reflexivity].
  intros f Hf. simpl in Hf. apply elem_of_singleton in Hf. by subst f.
Defined.

End Timing.
