(* ===== verification/Programs.v ===== *)
(** * The command-line programs

    Models the programs of [src/src/main] other than [mrsequential.go]: what they
    make of their arguments and what they then start.  [os.Args] is a list whose
    head is the program's name.  The packages that [diskvd.go], [lockc.go],
    [lockd.go], [pbc.go], [pbd.go] and [viewd.go] import are not in the
    repository; the call that a program makes into them is its result. *)

From S2P Require Import Prelude MrRpc GoLib MrCoordinator.

Module Programs.

Set Default Proof Using "Type".

(** ** strconv; the programs ignore the errors *)

Definition clamp (v : Z) : Z := Z.max int_min (Z.min int_max v).

(** [ParseInt(s, 10, 64)] and [Atoi(s)]: 0 for what is not a number, the nearest
    value for a number that does not fit. *)
Definition ParseInt (s : string) : Z :=
  let '(neg, s) := splitSign s in
  if startsWithDigit s && allDigits s
  then clamp (if neg then - scanDigits s 0 else scanDigits s 0)%Z else 0%Z.
Definition Atoi : string -> Z := ParseInt.

Definition ParseBool (s : string) : bool :=
  bool_decide (s ∈ ["1"; "t"; "T"; "true"; "TRUE"; "True"]).

(** ** diskvd.go *)

Record opts := {
  gid : Z;
  masters : list string;
  replicas : list string;
  me : Z;
  unreliable : bool;
  dir : string;
  restart : bool
}.

Definition opts0 : opts :=
  {| gid := -1; masters := []; replicas := []; me := -1; unreliable := false; dir := "";
     restart := false |}.

(** One option; [None] calls [usage]. *)
Definition setOpt (a0 a1 : string) (o : opts) : option opts :=
  let mk g ms rs m u d r :=
    {| gid := g; masters := ms; replicas := rs; me := m; unreliable := u; dir := d; restart := r |} in
  if decide (a0 = "-g") then
    Some (mk (ParseInt a1) (masters o) (replicas o) (me o) (unreliable o) (dir o) (restart o))
  else if decide (a0 = "-m") then
    Some (mk (gid o) (masters o ++ [a1]) (replicas o) (me o) (unreliable o) (dir o) (restart o))
  else if decide (a0 = "-s") then
    Some (mk (gid o) (masters o) (replicas o ++ [a1]) (me o) (unreliable o) (dir o) (restart o))
  else if decide (a0 = "-i") then
    Some (mk (gid o) (masters o) (replicas o) (Atoi a1) (unreliable o) (dir o) (restart o))
  else if decide (a0 = "-u") then
    Some (mk (gid o) (masters o) (replicas o) (me o) (ParseBool a1) (dir o) (restart o))
  else if decide (a0 = "-d") then
    Some (mk (gid o) (masters o) (replicas o) (me o) (unreliable o) a1 (restart o))
  else if decide (a0 = "-r") then
    Some (mk (gid o) (masters o) (replicas o) (me o) (unreliable o) (dir o) (ParseBool a1))
  else None.

(** The loop over the arguments, two at a time. *)
Fixpoint setOpts (args : list string) (o : opts) : option opts :=
  match args with
  | a0 :: a1 :: args => o ← setOpt a0 a1 o; setOpts args o
  | _ => Some o
  end.

Definition usable (o : opts) : bool :=
  negb (bool_decide (gid o < 0)%Z || bool_decide (me o < 0)%Z || bool_decide (len (masters o) < 1)%Z
        || bool_decide (len (replicas o) <= me o)%Z || bool_decide (dir o = "")).

Definition diskvd_usage : outcome opts :=
  Fatal "Usage: diskvd -g gid -m master... -s server... -i my-index -d dir".

(** The arguments of [diskv.StartServer] and of [Setunreliable]. *)
Definition diskvd_main (argv : list string) : outcome opts :=
  match setOpts (drop 1 argv) opts0 with
  | Some o => if usable o then Return o else diskvd_usage
  | None => diskvd_usage
  end.

(** ** lockd.go, lockc.go, pbd.go, pbc.go and viewd.go *)

Inductive call :=
| LockServer (primary backup : string) (isPrimary : bool)
| Lock (primary backup name : string)
| Unlock (primary backup name : string)
| PbServer (viewport myport : string)
| PbGet (viewport key : string)
| PbPut (viewport key value : string)
| ViewServer (port : string).

Definition lockd_main (argv : list string) : outcome call :=
  match argv with
  | [_; a1; a2; a3] =>
      if decide (a1 = "-p") then Return (LockServer a2 a3 true)
      else if decide (a1 = "-b") then Return (LockServer a2 a3 false)
      else Fatal "Usage: lockd -p|-b primaryport backupport"
  | _ => Fatal "Usage: lockd -p|-b primaryport backupport"
  end.

Definition lockc_usage : outcome call := Fatal "Usage: lockc -l|-u primaryport backupport lockname".
Definition lockc_main (argv : list string) : outcome call :=
  match argv with
  | [_; a1; a2; a3; a4] =>
      if decide (a1 = "-l") then Return (Lock a2 a3 a4)
      else if decide (a1 = "-u") then Return (Unlock a2 a3 a4) else lockc_usage
  | _ => lockc_usage
  end.

Definition pbd_main (argv : list string) : outcome call :=
  match argv with [_; a1; a2] => Return (PbServer a1 a2) | _ => Fatal "Usage: pbd viewport myport" end.

Definition pbc_usage : outcome call := Fatal "Usage: pbc viewport key".
Definition pbc_main (argv : list string) : outcome call :=
  match argv with
  | [_; a1; a2] => Return (PbGet a1 a2)
  | [_; a1; a2; a3] => Return (PbPut a1 a2 a3)
  | _ => pbc_usage
  end.

Definition viewd_main (argv : list string) : outcome call :=
  match argv with [_; a1] => Return (ViewServer a1) | _ => Fatal "Usage: viewd port" end.

(** ** mrcoordinator.go *)

Definition mrcoordinator_start (listen_fails : bool) (argv : list string)
    : outcome Coordinator.Coordinator :=
  if decide (length argv < 2) then Fatal "Usage: mrcoordinator inputfiles..."
  else Coordinator.MakeCoordinator listen_fails (drop 1 argv) 10.

(** The polling loop: [polls] are the coordinator's states at the calls of [Done];
    the seconds slept before the program ends. *)
Fixpoint mrcoordinator_wait (polls : list Coordinator.Coordinator) : option nat :=
  match polls with
  | [] => None
  | c :: polls => if Coordinator.Done c then Some 1 else S <$> mrcoordinator_wait polls
  end.

(** ** mrworker.go *)

Section MrWorker.
Context {MapF ReduceF : Type}.
(** A loaded plugin: its symbols; [plugin.Open] is an argument. *)
Context (plugin_Open : string -> option (option MapF * option ReduceF)).

Definition loadPlugin (filename : string) : outcome (MapF * ReduceF) :=
  match plugin_Open filename with
  | None => Fatal ("cannot load plugin " +:+ filename)
  | Some (xmapf, xreducef) =>
      match xmapf with
      | None => Fatal ("cannot find Map in " +:+ filename)
      | Some mapf =>
          match xreducef with
          | None => Fatal ("cannot find Reduce in " +:+ filename)
          | Some reducef => Return (mapf, reducef)
          end
      end
  end.

(** The functions that [mr.Worker] is called with. *)
Definition mrworker_main (argv : list string) : outcome (MapF * ReduceF) :=
  match argv with
  | [_; so] => loadPlugin so
  | _ => Fatal "Usage: mrworker xxx.so"
  end.
End MrWorker.

(** ** The options of diskvd *)

(** A command line for a server. *)
Definition format (o : opts) : list string :=
  ["-g"; Itoa (gid o)] ++ mjoin ((fun m => ["-m"; m]) <$> masters o)
  ++ mjoin ((fun s => ["-s"; s]) <$> replicas o) ++ ["-i"; Itoa (me o)]
  ++ ["-u"; if unreliable o then "true" else "false"] ++ ["-d"; dir o]
  ++ ["-r"; if restart o then "1" else "0"].

Lemma usable_spec o :
  usable o = true <-> (0 <= gid o)%Z /\ (0 <= me o < len (replicas o))%Z /\ masters o <> [] /\ dir o <> "".
Proof.
  unfold usable. rewrite negb_true_iff, !orb_false_iff, !bool_decide_eq_false.
  assert (masters o <> [] <-> ~ (len (masters o) < 1)%Z) as ->
    by (unfold len; destruct (masters o); simpl; split; [done|lia|lia|done]).
  intuition lia.
Qed.

Lemma ParseInt_Itoa z : (0 <= z <= int_max)%Z -> ParseInt (Itoa z) = z.
Proof.
  intros Hz. unfold ParseInt. destruct (Itoa_reads z) as (H1 & H2 & H3 & ->); [lia|].
  rewrite H1, H2, H3. cbn [andb]. unfold clamp, int_min in *. lia.
Qed.

Lemma setOpts_app args args' o o' :
  setOpts args o = Some o' -> Nat.even (length args) = true -> setOpts (args ++ args') o = setOpts args' o'.
Proof.
  revert o. induction args as [args IH] using (induction_ltof1 _ (@length _)).
  intros o. destruct args as [|a0 [|a1 args]]; simpl; [by intros [= ->]|done|].
  destruct (setOpt a0 a1 o) as [o1|]; simpl; [|done]. apply IH. unfold ltof. simpl. lia.
Qed.

Lemma setOpts_masters ms rest o :
  setOpts (mjoin ((fun m => ["-m"; m]) <$> ms) ++ rest) o
  = setOpts rest {| gid := gid o; masters := masters o ++ ms; replicas := replicas o; me := me o;
                    unreliable := unreliable o; dir := dir o; restart := restart o |}.
Proof.
  revert o. induction ms as [|m ms IH]; intros o; simpl; [rewrite app_nil_r; by destruct o|].
  rewrite IH. simpl. by rewrite <-app_assoc.
Qed.

Lemma setOpts_replicas ss rest o :
  setOpts (mjoin ((fun s => ["-s"; s]) <$> ss) ++ rest) o
  = setOpts rest {| gid := gid o; masters := masters o; replicas := replicas o ++ ss; me := me o;
                    unreliable := unreliable o; dir := dir o; restart := restart o |}.
Proof.
  revert o. induction ss as [|s ss IH]; intros o; simpl; [rewrite app_nil_r; by destruct o|].
  rewrite IH. simpl. by rewrite <-app_assoc.
Qed.

(** [diskvd] starts the server that it is told to start.  Whatever the
    arguments, a server is only started with a group number that is not
    negative, an index into its replicas, a master and a directory; and for
    any such server the command line with its options starts exactly it. *)
Theorem diskvd_reads_options name :
  (forall argv o, diskvd_main argv = Return o ->
     (0 <= gid o)%Z /\ (0 <= me o < len (replicas o))%Z /\ masters o <> [] /\ dir o <> "") /\
  (forall o, (0 <= gid o <= int_max)%Z -> (0 <= me o < len (replicas o))%Z -> (me o <= int_max)%Z ->
     masters o <> [] -> dir o <> "" -> diskvd_main (name :: format o) = Return o).
Proof.
  split.
  - intros argv o. unfold diskvd_main. destruct (setOpts _ _) as [o1|]; [|done].
    destruct (usable o1) eqn:Hu; [|done]. intros [= ->]. by apply usable_spec.
  - intros o Hg Hm Hm' H1 H2. unfold diskvd_main, format. cbn [drop app setOpts].
    unfold setOpt at 1. simpl. rewrite ParseInt_Itoa by done. rewrite setOpts_masters. simpl.
    rewrite setOpts_replicas. simpl. unfold Atoi. rewrite ParseInt_Itoa by lia.
    assert (ParseBool (if unreliable o then "true" else "false") = unreliable o) as ->
      by (by destruct (unreliable o)).
    assert (ParseBool (if restart o then "1" else "0") = restart o) as -> by (by destruct (restart o)).
    destruct o as [g ms rs m u d r]. simpl in *. rewrite (proj2 (usable_spec _)); [done|]. simpl. by repeat split; try lia.
Qed.

(** Numbers that do not parse count as 0: a server is started as member 0 of
    group 0 when both numbers are unreadable. *)
Theorem diskvd_bad_numbers :
  diskvd_main ["diskvd"; "-g"; "one"; "-m"; "m"; "-s"; "a"; "-i"; "first"; "-d"; "d"]
  = Return {| gid := 0; masters := ["m"]; replicas := ["a"]; me := 0; unreliable := false; dir := "d";
              restart := false |}.
Proof. reflexivity. Qed.

(** An option without its value at the end of the line is ignored. *)
Theorem diskvd_last_ignored name args a :
  Nat.even (length args) = true -> is_Some (setOpts args opts0) ->
  diskvd_main (name :: args ++ [a]) = diskvd_main (name :: args).
Proof.
  intros He [o Ho]. unfold diskvd_main. cbn [drop app]. rewrite !drop_0, (setOpts_app _ _ _ _ Ho He). by rewrite Ho.
Qed.


End Programs.
