(* ===== verification/MrExamples.v ===== *)
(** * MapReduce: a concrete job

    A word count over two files with two reduce tasks, run by one worker, with
    the ASCII JSON codec and merge sort: it instantiates the hypotheses of the
    system theorems.  A second run, in which [os.Rename] fails, shows why those
    theorems exclude that failure. *)

From S2P Require Import Prelude MrRpc GoLib Json MrCoordinator MrWorker MrSequential MrLogic.
From S2P Require Import MrSystem MrProgress MrApps.

Module Examples.

#[local] Existing Instance Json.JsonKV_ascii.

Definition mapf : string -> string -> list KeyValue := Wc.Map (fun _ => false).
Definition sortKV : list KeyValue -> list KeyValue := merge_sort key_le.
Definition files : list string := ["pg-a"; "pg-b"].
Definition content (f : string) : string :=
  if decide (f = "pg-a") then "the cat, the hat" else "a hat".
Definition s0 : gmap string string := list_to_map ((fun f => (f, content f)) <$> files).

(** Four tasks: an assignment, a report and a loop step each; [ok] says whether
    the renames of the last task work. *)
Definition sched (ok : bool) : list (Z * bool) := replicate 9 (1, true)%Z ++ [(1, ok); (1, ok)]%Z.

Definition run (ok : bool) : option Progress.cfg :=
  Progress.execJob mapf Wc.Reduce sortKV files 2 s0 (sched ok).

Definition finalCoord (ok : bool) : option bool :=
  (fun x => Coordinator.Done x.1.2) <$> run ok.
Definition finalFile (ok : bool) (f : string) : option (option string) :=
  (fun x => x.2 !! f) <$> run ok.

(** ** The hypotheses of the theorems hold *)

Lemma files_names_ok : Logic.names_ok files.
Proof.
  intros f Hf. unfold files in Hf. rewrite !elem_of_cons, elem_of_nil in Hf.
  destruct Hf as [-> | [-> | []]]; split; intros; unfold Logic.midName, Logic.outName,
    Worker.outputFileName, Worker.outFileName; by intros [=].
Qed.

Lemma files_present f : f ∈ files -> s0 !! f = Some (content f).
Proof.
  unfold files. rewrite !elem_of_cons, elem_of_nil. by intros [-> | [-> | []]].
Qed.

Lemma pairs_json_ok : Forall json_ok (Logic.allPairs mapf files content).
Proof.
  assert (forallb (fun kv => Json.ascii_only (Key kv) && Json.ascii_only (Value kv))
            (Logic.allPairs mapf files content) = true) as Hb by (vm_compute; reflexivity).
  rewrite forallb_forall in Hb. apply Forall_forall. intros kv Hkv. by apply Hb, list_elem_of_In.
Qed.

Lemma run_reachable ok rf :
  (ok = false -> rf = true) ->
  exists w, System.reachable mapf Wc.Reduce sortKV rf files 2 s0 w /\
    Coordinator.Done (System.coord w) = true /\
    Some (System.fs w !! "mr-out-1") = finalFile ok "mr-out-1".
Proof.
  intros Hok. unfold finalFile.
  assert (finalCoord ok = Some true) as Hd by (destruct ok; vm_compute; reflexivity).
  unfold finalCoord in Hd. destruct (run ok) as [x|] eqn:Hx; [|done].
  eexists. split; [|split].
  - eapply Progress.execJob_reachable; [|exact Hx].
    unfold sched. apply Forall_app. split; [by apply Forall_replicate|by repeat constructor].
  - simpl in *. congruence.
  - done.
Qed.

(** The coordinator of the job, when it starts and when the map tasks are done. *)
Definition coord0 : Coordinator.Coordinator :=
  {| Coordinator.nReduce := 2;
     Coordinator.mapTasks := Coordinator.newMapTask files;
     Coordinator.reduceTasks := Coordinator.newReduceTask 2 <$> seq 0 2;
     Coordinator.inputfiles := files;
     Coordinator.mapTasksDone := false; Coordinator.mapTaskDoneNum := 0;
     Coordinator.reduceTaskDoneNum := 0; Coordinator.reduceTasksDone := false;
     Coordinator.allDone := false |}.

Definition mapReport (i : Z) : WorkerArgs :=
  {| WorkerArgs_TaskStatus := Success; WorkerArgs_WorkID := i; WorkerArgs_TaskType := MapTask |}.

Definition coord2 : Coordinator.Coordinator :=
  match Coordinator.NotifyComplete (mapReport 0) coord0 ≫= Coordinator.NotifyComplete (mapReport 1) with
  | Return c => c
  | _ => coord0
  end.

Lemma coord0_made : Coordinator.MakeCoordinator false files 2 = Return coord0.
Proof. reflexivity. Qed.

Lemma coord0_reachable : Coordinator.creachable files 2 coord0.
Proof. exists coord0. split; [reflexivity|apply rtc_refl]. Qed.

Lemma coord2_reachable : Coordinator.creachable files 2 coord2.
Proof.
  exists coord0. split; [reflexivity|].
  eapply rtc_l; [by apply (Coordinator.cstep_notify (mapReport 0))|].
  eapply rtc_l; [by apply (Coordinator.cstep_notify (mapReport 1))|]. apply rtc_refl.
Qed.

Definition pluginOpen (f : string) : option Sequential.plugin :=
  if decide (f = "wc.so") then
    Some {| Sequential.plugin_Map := Some mapf; Sequential.plugin_Reduce := Some Wc.Reduce |}
  else None.

Lemma mapreduce_correct_witness :
  exists w outs lines,
    (forall r, r < 2 -> exists ls, outs !! r = Some ls /\
       System.fs w !! Worker.outFileName (Z.of_nat r) = Some (str_concat ls)) /\
    length outs = 2 /\ mjoin outs ≡ₚ lines /\
    Sequential.main pluginOpen Some sortKV ("mrsequential" :: "wc.so" :: files) s0
    = Return (<["mr-out-0" := str_concat lines]> s0).
Proof.
  destruct (run_reachable true false ltac:(done)) as (w & Hr & Hd & _).
  exists w. apply (System.mapreduce_correct mapf Wc.Reduce sortKV sortKV pluginOpen Some
    "mrsequential" "wc.so" files content 2 s0 w); try apply _; try done.
  - lia.
  - apply files_names_ok.
  - apply files_present.
  - apply pairs_json_ok.
Defined.

Lemma job_can_always_finish_witness :
  exists c' s', rtc (System.wstep mapf Wc.Reduce sortKV false)
      {| System.coord := coord0; System.fs := s0; System.workers := [] |}
      {| System.coord := c'; System.fs := s';
         System.workers := [System.Worker mapf Wc.Reduce sortKV] |} /\
    Coordinator.Done c' = true.
Proof.
  assert (System.reachable mapf Wc.Reduce sortKV false files 2 s0
            {| System.coord := coord0; System.fs := s0; System.workers := [] |}) as Hr.
  { exists coord0. split; [apply coord0_made|apply rtc_refl]. }
  destruct (Progress.job_can_always_finish mapf Wc.Reduce sortKV files content 2 s0 _
    ltac:(lia) ltac:(done) files_names_ok files_present pairs_json_ok Hr) as (c' & s' & _ & Hw & Hd).
  by exists c', s'.
Defined.

(** A worker about to report its first task. *)
Lemma report_accepted_witness :
  exists w args k c', System.workers w !! 0 = Some (CallNotifyComplete args k) /\
    Coordinator.NotifyComplete args (System.coord w) = Return c'.
Proof.
  destruct (Progress.execJob mapf Wc.Reduce sortKV files 2 s0 [(1%Z, true)])
    as [[[p c] s]|] eqn:Hx; [|by vm_compute in Hx].
  assert (exists args k, p = CallNotifyComplete args k) as (args & k & ->).
  { assert (Some p = (fun x => x.1.1) <$>
      Progress.execJob mapf Wc.Reduce sortKV files 2 s0 [(1%Z, true)]) as Hp by by rewrite Hx.
    vm_compute in Hp. injection Hp as ->. eauto. }
  apply (Progress.execJob_reachable _ _ _ false) in Hx; [|by repeat constructor].
  destruct (System.report_accepted mapf Wc.Reduce sortKV files content 2 s0 _ 0 args k
    ltac:(lia) files_names_ok files_present pairs_json_ok Hx ltac:(done)) as (c' & Hc).
  exists {| System.coord := c; System.fs := s; System.workers := [CallNotifyComplete args k] |}.
  by exists args, k, c'.
Defined.

Lemma coordinator_invariant_witness :
  Coordinator.inv coord0 /\ Coordinator.nReduce coord0 = 2%Z /\
  Coordinator.inputfiles coord0 = files /\ length (Coordinator.mapTasks coord0) = length files.
Proof. apply (Coordinator.coordinator_invariant files 2 coord0), coord0_reachable. Defined.

Lemma reduce_only_after_maps_witness :
  Forall Coordinator.mapSuccess (Coordinator.mapTasks coord2) /\
  exists i, WorkId (Coordinator.AssignTask (fun _ => 9%Z) 9 zeroArgs zeroReply coord2).1 = Z.of_nat i
    /\ (Z.of_nat i < 2)%Z /\
    InputFiles (Coordinator.AssignTask (fun _ => 9%Z) 9 zeroArgs zeroReply coord2).1
    = (fun j => Coordinator.intermediateName (Z.of_nat j) (Z.of_nat i)) <$> seq 0 (length files).
Proof.
  apply (Coordinator.reduce_only_after_maps files 2 coord2 (fun _ => 9%Z) 9 zeroArgs zeroReply _
    (Coordinator.AssignTask (fun _ => 9%Z) 9 zeroArgs zeroReply coord2).2);
    [apply coord2_reachable|reflexivity|reflexivity].
Defined.

Lemma done_iff_all_reduced_witness :
  (Coordinator.Done coord2 = true <->
    (0 < 2)%Z /\ Forall Coordinator.reduceSuccess (Coordinator.reduceTasks coord2)) /\
  forall c', Coordinator.cstep coord2 c' -> Coordinator.Done coord2 = true -> Coordinator.Done c' = true.
Proof. apply (Coordinator.done_iff_all_reduced files 2 coord2), coord2_reachable. Defined.

(** Task 0 is out; ten seconds later the coordinator hands out task 1. *)
Lemma assignment_lease_witness :
  WorkId (Coordinator.AssignTask (fun _ => 10000000005%Z) 10000000005 zeroArgs zeroReply
    (Coordinator.AssignTask (fun _ => 5%Z) 5 zeroArgs zeroReply coord0).2).1
  <> WorkId (Coordinator.AssignTask (fun _ => 5%Z) 5 zeroArgs zeroReply coord0).1.
Proof.
  set (c1 := (Coordinator.AssignTask (fun _ => 5%Z) 5 zeroArgs zeroReply coord0).2).
  apply (Coordinator.assignment_lease (fun _ => 5%Z) 5 zeroArgs zeroReply coord0 _ c1 c1
    (fun _ => 10000000005%Z) 10000000005 zeroArgs zeroReply _
    (Coordinator.AssignTask (fun _ => 10000000005%Z) 10000000005 zeroArgs zeroReply c1).2).
  - reflexivity.
  - by left.
  - apply rtc_refl.
  - intros _. unfold Coordinator.tenSeconds. lia.
  - reflexivity.
  - reflexivity.
Defined.

Lemma wc_counts_words_witness :
  exists keys,
    Sequential.sequentialOutput sortKV Wc.Reduce
      (Sequential.mapAll (Wc.Map (fun _ => false)) [("pg-a", content "pg-a")])
    = (fun w => Worker.outputLine w
        (Itoa (Z.of_nat (count (fun x => x = w) ["the"; "cat"; "the"; "hat"])))) <$> keys.
Proof.
  destruct (wc_counts_words (fun _ => false) sortKV [("pg-a", content "pg-a")])
    as (keys & _ & _ & _ & ->).
  exists keys. reflexivity.
Defined.

(** C37: a failing [os.Rename] loses output silently.  The worker drops the error
    of [os.Rename] and reports the task as successful: there is an execution
    in which the coordinator's [Done] returns true while the output file of a
    reduce task does not exist. *)
Theorem rename_failure_loses_output :
  exists w, System.reachable mapf Wc.Reduce sortKV true files 2 s0 w /\
    Coordinator.Done (System.coord w) = true /\
    System.fs w !! Worker.outFileName 1 = None.
Proof.
  destruct (run_reachable false true ltac:(done)) as (w & Hr & Hd & Hf).
  exists w. split_and!; [done|done|]. vm_compute in Hf. by injection Hf.
Qed.

End Examples.
