(* ===== verification/ShardCfg.v ===== *)
(** * Shard configurations

    Models [src/src/shardkv1/shardcfg/shardcfg.go]: the assignment of shards to
    replica groups and its rebalancing.  Go iterates over a map in an
    unspecified order; each such iteration is given its order as an argument,
    a list of the map's keys, and [Rebalance] is given one order per iteration
    it performs. *)

From S2P Require Import Prelude GoLib.

Module ShardCfg.

Definition NShards : nat := 12.
Definition NumFirst : Z := 1.
Definition Gid1 : Z := 1.

(** [Tshid(h.Sum32()) % NShards] *)
Definition Key2Shard (key : string) : Z := Z.rem (fnv32a key) (Z.of_nat NShards).

(** [Shards] is the array shard -> gid, [Groups] the map gid -> servers. *)
Record ShardConfig := {
  Num : Z;
  Shards : list Z;
  Groups : gmap Z (list string)
}.

Definition set_Num (c : ShardConfig) (n : Z) : ShardConfig :=
  {| Num := n; Shards := Shards c; Groups := Groups c |}.
Definition set_Shards (c : ShardConfig) (l : list Z) : ShardConfig :=
  {| Num := Num c; Shards := l; Groups := Groups c |}.
Definition set_Groups (c : ShardConfig) (m : gmap Z (list string)) : ShardConfig :=
  {| Num := Num c; Shards := Shards c; Groups := m |}.

Definition MakeShardConfig : ShardConfig :=
  {| Num := 0; Shards := replicate NShards 0%Z; Groups := ∅ |}.

(** [order] is the iteration over [cfg.Groups]. *)
Definition Copy (order : list (Z * list string)) (cfg : ShardConfig) : ShardConfig :=
  set_Groups (set_Shards (set_Num MakeShardConfig (Num cfg)) (Shards cfg))
    (foldl (fun m '(k, srvs) => <[k := srvs]> m) ∅ order).

(** ** analyze *)

(** [for _, g := range c.Shards { counts[g] += 1 }] *)
Definition countShards (l : list Z) : gmap Z Z :=
  foldl (fun counts g => <[g := (default 0 (counts !! g) + 1)%Z]> counts) ∅ l.

(** The body of the second loop of [analyze], on [(mg, mn, lg, ln)]. *)
Definition analyzeStep (counts : gmap Z Z) (acc : Z * Z * Z * Z) (g : Z) : Z * Z * Z * Z :=
  let '(mg, mn, lg, ln) := acc in
  let n := default 0%Z (counts !! g) in
  let '(lg, ln) := if decide (n < ln)%Z then (g, n) else (lg, ln) in
  let '(mg, mn) := if decide (n > mn)%Z then (g, n) else (mg, mn) in
  (mg, mn, lg, ln).

(** [slices.Sort] *)
Definition sortGids : list Z -> list Z := merge_sort Z.le.

(** Returns mostgroup, mostn, leastgroup, leastn; [order] is the iteration over
    [c.Groups]. *)
Definition analyze (order : list Z) (c : ShardConfig) : Z * Z * Z * Z :=
  foldl (analyzeStep (countShards (Shards c))) (-1, -1, -1, 257)%Z (sortGids order).

Definition least (order : list Z) (c : ShardConfig) : Z :=
  let '(_, _, lg, _) := analyze order c in lg.

(** ** Rebalance *)

(** [for s, g := range c.Shards]: assign the shards of dead groups.  [s] is the
    index, [gs] the rest of the array ranged over, [k] counts the iterations
    over [c.Groups]. *)
Fixpoint assignLoop (ord : nat -> list Z) (k s : nat) (gs : list Z) (c : ShardConfig)
    : nat * ShardConfig :=
  match gs with
  | [] => (k, c)
  | g :: gs =>
      match Groups c !! g with
      | Some _ => assignLoop ord k (S s) gs c
      | None =>
          let lg := least (ord k) c in
          assignLoop ord (S k) (S s) gs (set_Shards c (<[s := lg]> (Shards c)))
      end
  end.

(** The inner loop: the first shard of [mg] goes to [lg]. *)
Fixpoint moveOne (mg lg : Z) (l : list Z) : list Z :=
  match l with
  | [] => []
  | g :: l => if decide (g = mg) then lg :: l else g :: moveOne mg lg l
  end.

(** The outer loop; [None] when the fuel runs out. *)
Fixpoint moveLoop (fuel : nat) (ord : nat -> list Z) (k : nat) (c : ShardConfig)
    : option ShardConfig :=
  match fuel with
  | 0 => None
  | S fuel =>
      let '(mg, mn, lg, ln) := analyze (ord k) c in
      if decide (mn < ln + 2)%Z then Some c
      else moveLoop fuel ord (S k) (set_Shards c (moveOne mg lg (Shards c)))
  end.

(** Enough for [NShards] shards: see [moveLoop_terminates]. *)
Definition rebalanceFuel : nat := 67.

Definition Rebalance (ord : nat -> list Z) (c : ShardConfig) : option ShardConfig :=
  if decide (size (Groups c) < 1) then Some (set_Shards c ((fun _ => 0%Z) <$> Shards c))
  else
    let '(k, c1) := assignLoop ord 0 0 (Shards c) c in
    moveLoop rebalanceFuel ord k c1.

(** ** Join and Leave *)

(** Does some group already have one of [servers]? *)
Definition sharesServer (cfg : ShardConfig) (servers : list string) : bool :=
  existsb (fun '(_, xservers) => existsb (fun s1 => existsb (String.eqb s1) servers) xservers)
    (map_to_list (Groups cfg)).

(** [order] is the iteration over the argument map. *)
Fixpoint joinLoop (order : list (Z * list string)) (changed : bool) (cfg : ShardConfig)
    : outcome (bool * ShardConfig) :=
  match order with
  | [] => if changed then Return (true, set_Num cfg (wrap64 (Num cfg + 1)))
          else Fatal "Join but no change"
  | (gid, servers) :: order =>
      match Groups cfg !! gid with
      | Some _ => Return (false, cfg)
      | None =>
          if sharesServer cfg servers then Fatal "Join puts server in two groups"
          else joinLoop order true (set_Groups cfg (<[gid := servers]> (Groups cfg)))
      end
  end.
Definition Join (order : list (Z * list string)) (cfg : ShardConfig) : outcome (bool * ShardConfig) :=
  joinLoop order false cfg.

Fixpoint leaveLoop (gids : list Z) (changed : bool) (cfg : ShardConfig)
    : outcome (bool * ShardConfig) :=
  match gids with
  | [] => if changed then Return (true, set_Num cfg (wrap64 (Num cfg + 1)))
          else Fatal "Leave but no change"
  | gid :: gids =>
      match Groups cfg !! gid with
      | None => Return (false, cfg)
      | Some _ => leaveLoop gids true (set_Groups cfg (delete gid (Groups cfg)))
      end
  end.
Definition Leave (gids : list Z) (cfg : ShardConfig) : outcome (bool * ShardConfig) :=
  leaveLoop gids false cfg.

(** [None]: [Rebalance] ran out of fuel. *)
Definition thenRebalance (ord : nat -> list Z) (r : bool * ShardConfig)
    : option (bool * ShardConfig) :=
  let '(ok, cfg) := r in
  if negb ok then Some (false, cfg) else (fun c => (true, c)) <$> Rebalance ord cfg.

Definition JoinBalance (order : list (Z * list string)) (ord : nat -> list Z) (cfg : ShardConfig)
    : outcome (option (bool * ShardConfig)) :=
  r ← Join order cfg; mret (thenRebalance ord r).

Definition LeaveBalance (gids : list Z) (ord : nat -> list Z) (cfg : ShardConfig)
    : outcome (option (bool * ShardConfig)) :=
  r ← Leave gids cfg; mret (thenRebalance ord r).

(** ** Queries *)

Definition GidServers (cfg : ShardConfig) (sh : Z) : outcome (Z * list string * bool) :=
  gid ← slice_get (Shards cfg) sh;
  mret (gid, default [] (Groups cfg !! gid), bool_decide (is_Some (Groups cfg !! gid))).

Definition IsMember (cfg : ShardConfig) (gid : Z) : bool := existsb (Z.eqb gid) (Shards cfg).

(** [order] is the iteration over [cfg.Groups]; a failed check is [t.Fatalf]. *)
Definition CheckConfig (order : list Z) (groups : list Z) (cfg : ShardConfig) : outcome unit :=
  if decide (size (Groups cfg) <> length groups) then Fatal "wanted groups"
  else if negb (forallb (fun g => bool_decide (is_Some (Groups cfg !! g))) groups)
  then Fatal "missing group"
  else if bool_decide (0 < length groups)
          && negb (forallb (fun g => bool_decide (is_Some (Groups cfg !! g))) (Shards cfg))
  then Fatal "shard in invalid group"
  else
    let counts := countShards (Shards cfg) in
    let '(mx, mn) :=
      foldl (fun '(mx, mn) g =>
               let n := default 0%Z (counts !! g) in
               (if decide (n > mx)%Z then n else mx, if decide (n < mn)%Z then n else mn))
            (0, 257)%Z order in
    if decide (mx > mn + 1)%Z then Fatal "max too much larger than min" else Return tt.

(** ** Specification *)

(** Shards of group [g]. *)
Definition load (c : ShardConfig) (g : Z) : nat := count (fun x => x = g) (Shards c).

(** [order] is an iteration over the keys of [c.Groups]. *)
Definition iterates {A} (order : list Z) (m : gmap Z A) : Prop := order ≡ₚ (map_to_list m).*1.

Definition assigned (c : ShardConfig) : Prop :=
  Forall (fun g => is_Some (Groups c !! g)) (Shards c).

Definition balanced (c : ShardConfig) : Prop :=
  forall a b, is_Some (Groups c !! a) -> is_Some (Groups c !! b) -> load c a <= S (load c b).

Lemma countShards_load c g : default 0%Z (countShards (Shards c) !! g) = Z.of_nat (load c g).
Proof.
  unfold countShards, load. revert g.
  assert (forall l (m : gmap Z Z) g,
    default 0%Z (foldl (fun counts g => <[g := (default 0 (counts !! g) + 1)%Z]> counts) m l !! g)
    = (default 0%Z (m !! g) + Z.of_nat (count (fun x => x = g) l))%Z) as Hgen.
  { induction l as [|x l IH]; intros m g; simpl; [rewrite Z.add_0_r; done|].
    rewrite IH, count_cons. destruct (decide (x = g)) as [->|Hne].
    - rewrite lookup_insert_eq. simpl. lia.
    - rewrite lookup_insert_ne by done. lia. }
  intros g. rewrite Hgen. by rewrite lookup_empty.
Qed.

Lemma load_le c g : load c g <= length (Shards c).
Proof. apply count_le. Qed.

(** ** analyze finds a most and a least loaded group *)

Lemma sortGids_perm l : sortGids l ≡ₚ l.
Proof. apply merge_sort_Permutation. Qed.

#[export] Instance sortGids_Proper : Proper ((≡ₚ) ==> (=)) sortGids.
Proof.
  intros l l' Hp. unfold sortGids.
  apply (StronglySorted_unique Z.le); [apply StronglySorted_merge_sort; apply _..|].
  by rewrite !merge_sort_Permutation.
Qed.

(** The iteration order does not matter. *)
#[export] Instance analyze_Proper : Proper ((≡ₚ) ==> (=) ==> (=)) analyze.
Proof. intros l l' Hp c _ <-. unfold analyze. by rewrite Hp. Qed.

Definition extremes (c : ShardConfig) (l : list Z) (acc : Z * Z * Z * Z) : Prop :=
  let '(mg, mn, lg, ln) := acc in
  mg ∈ l /\ mn = Z.of_nat (load c mg) /\ lg ∈ l /\ ln = Z.of_nat (load c lg) /\
  forall g, g ∈ l -> load c lg <= load c g <= load c mg.

Lemma analyzeStep_extremes c l acc g :
  extremes c l acc ->
  extremes c (l ++ [g]) (analyzeStep (countShards (Shards c)) acc g).
Proof.
  destruct acc as [[[mg mn] lg] ln]. intros (Hm & -> & Hl & -> & Hall).
  unfold analyzeStep. rewrite countShards_load.
  assert (forall x, x ∈ l ++ [g] <-> x ∈ l \/ x = g) as Hin
    by (intros x; rewrite elem_of_app, list_elem_of_singleton; done).
  case_decide; case_decide; unfold extremes; rewrite !Hin; split_and!; auto;
    intros x [Hx | ->]%Hin; try (specialize (Hall x Hx)); try lia; specialize (Hall _ Hm); lia.
Qed.

Lemma analyze_extremes c order :
  length (Shards c) <= 256 -> order <> [] -> extremes c order (analyze order c).
Proof.
  intros Hs Hne. unfold analyze.
  assert (sortGids order <> []) as Hne'.
  { intros E. apply Hne. apply Permutation_nil. by rewrite <-E, sortGids_perm. }
  enough (extremes c (sortGids order)
    (foldl (analyzeStep (countShards (Shards c))) (-1, -1, -1, 257)%Z (sortGids order))) as He.
  { destruct (foldl _ _ _) as [[[mg mn] lg] ln]. destruct He as (? & ? & ? & ? & Hall).
    unfold extremes. setoid_rewrite <-sortGids_perm. done. }
  clear Hne. induction (sortGids order) as [|g l IH] using rev_ind; [done|].
  rewrite foldl_snoc. destruct (decide (l = [])) as [->|Hl].
  - simpl. unfold analyzeStep. rewrite countShards_load. pose proof (load_le c g).
    rewrite decide_True, decide_True by lia.
    split_and!; try done; try by apply list_elem_of_singleton.
    by intros x ->%list_elem_of_singleton.
  - by apply analyzeStep_extremes, IH.
Qed.

Lemma iterates_elem {A} order (m : gmap Z A) g : iterates order m -> g ∈ order <-> is_Some (m !! g).
Proof.
  intros ->. rewrite list_elem_of_fmap. split.
  - intros ([k x] & -> & Hx%elem_of_map_to_list). by eexists.
  - intros [x Hx]. exists (g, x). split; [done|]. by apply elem_of_map_to_list.
Qed.

Lemma iterates_not_nil {A} order (m : gmap Z A) : iterates order m -> m <> ∅ -> order <> [].
Proof.
  intros Ho Hm ->. apply Permutation_nil in Ho. by apply fmap_nil_inv, map_to_list_empty_iff in Ho.
Qed.

(** What [analyze] returns on a configuration with groups. *)
Lemma analyze_spec c order :
  length (Shards c) = NShards -> Groups c <> ∅ -> iterates order (Groups c) ->
  exists mg lg,
    analyze order c = (mg, Z.of_nat (load c mg), lg, Z.of_nat (load c lg)) /\
    is_Some (Groups c !! mg) /\ is_Some (Groups c !! lg) /\
    forall g, is_Some (Groups c !! g) -> load c lg <= load c g <= load c mg.
Proof.
  intros Hl Hg Ho. pose proof (analyze_extremes c order) as He.
  destruct (analyze order c) as [[[mg mn] lg] ln].
  destruct He as (Hm & -> & Hlg & -> & Hall); [rewrite Hl; unfold NShards; lia
    |by eapply iterates_not_nil|].
  exists mg, lg. split_and!; [done|by eapply iterates_elem..|].
  intros g Hgr. apply Hall. by eapply iterates_elem.
Qed.

(** ** Potential: pairs of shards in the same group *)

Fixpoint pairs (l : list Z) : nat :=
  match l with
  | [] => 0
  | g :: l => count (fun x => x = g) l + pairs l
  end.

Lemma pairs_middle l1 g l2 :
  pairs (l1 ++ g :: l2) = count (fun x => x = g) (l1 ++ l2) + pairs (l1 ++ l2).
Proof.
  induction l1 as [|x l1 IH]; [done|]. simpl. rewrite IH.
  rewrite !count_app, !count_cons, !count_app.
  destruct (decide (g = x)), (decide (x = g)); try congruence; lia.
Qed.

Lemma pairs_bound l : 2 * pairs l + length l <= length l * length l.
Proof.
  induction l as [|g l IH]; simpl; [lia|]. pose proof (count_le (fun x => x = g) l). nia.
Qed.

Lemma moveOne_split mg lg l :
  mg ∈ l -> exists l1 l2, l = l1 ++ mg :: l2 /\ moveOne mg lg l = l1 ++ lg :: l2.
Proof.
  induction l as [|g l IH]; [by rewrite elem_of_nil|]. simpl. intros Hin.
  destruct (decide (g = mg)) as [->|Hne].
  - by exists [], l.
  - apply elem_of_cons in Hin as [->|Hin]; [done|].
    destruct (IH Hin) as (l1 & l2 & -> & ->). by exists (g :: l1), l2.
Qed.

Lemma load_elem c g : 0 < load c g -> g ∈ Shards c.
Proof.
  unfold load, count. intros Hc. destruct (filter _ _) as [|x l] eqn:E; simpl in Hc; [lia|].
  assert (x ∈ filter (fun x => x = g) (Shards c)) as [-> ?]%list_elem_of_filter
    by (rewrite E; left). done.
Qed.

(** Moving one shard from [mg] to another group [lg]. *)
Lemma move_load c mg lg g :
  mg ∈ Shards c -> mg <> lg ->
  let c' := set_Shards c (moveOne mg lg (Shards c)) in
  load c' g + (if decide (g = mg) then 1 else 0) = load c g + (if decide (g = lg) then 1 else 0).
Proof.
  intros Hin Hne. destruct (moveOne_split mg lg _ Hin) as (l1 & l2 & Hs & Hm).
  unfold load. simpl. rewrite Hm, Hs, !count_app, !count_cons.
  destruct (decide (mg = g)), (decide (lg = g)), (decide (g = mg)), (decide (g = lg));
    try congruence; lia.
Qed.

Lemma move_pairs c mg lg :
  mg ∈ Shards c -> load c lg + 2 <= load c mg ->
  pairs (moveOne mg lg (Shards c)) < pairs (Shards c).
Proof.
  intros Hin Hl. destruct (moveOne_split mg lg _ Hin) as (l1 & l2 & Hs & Hm).
  unfold load in Hl. rewrite Hm, Hs, !pairs_middle. rewrite Hs in Hl.
  rewrite !count_app, !count_cons in Hl. rewrite !count_app.
  destruct (decide (mg = mg)), (decide (mg = lg)); try congruence; subst; lia.
Qed.

Lemma moveOne_length mg lg l : length (moveOne mg lg l) = length l.
Proof. induction l; simpl; [done|]. case_decide; simpl; auto. Qed.

(** ** The loops of Rebalance *)

Section Loops.
Context (ord : nat -> list Z) (G : gmap Z (list string)).
Context (Hord : forall k, iterates (ord k) G) (HG : G <> ∅).

(** A configuration with the groups [G]. *)
Definition over (c : ShardConfig) : Prop := Groups c = G /\ length (Shards c) = NShards.

Definition least_loaded (c : ShardConfig) (lg : Z) : Prop :=
  is_Some (G !! lg) /\ forall g, is_Some (G !! g) -> load c lg <= load c g.
Definition most_loaded (c : ShardConfig) (mg : Z) : Prop :=
  is_Some (G !! mg) /\ forall g, is_Some (G !! g) -> load c g <= load c mg.

Lemma analyze_over c k :
  over c -> exists mg lg,
    analyze (ord k) c = (mg, Z.of_nat (load c mg), lg, Z.of_nat (load c lg)) /\
    most_loaded c mg /\ least_loaded c lg.
Proof.
  intros [HGc Hl]. destruct (analyze_spec c (ord k)) as (mg & lg & He & Hm & Hlg & Hall);
    rewrite ?HGc in *; auto.
  exists mg, lg. split_and!; [done|split; [done|apply Hall]..].
Qed.

(** What holds of the configuration at every turn of the loop holds of the
    result, and the result is balanced; [fuel] bounds the turns. *)
Lemma moveLoop_spec (I : ShardConfig -> Prop) fuel k c :
  (forall c mg lg, over c -> I c -> most_loaded c mg -> least_loaded c lg ->
     load c lg + 2 <= load c mg -> mg ∈ Shards c ->
     I (set_Shards c (moveOne mg lg (Shards c)))) ->
  over c -> pairs (Shards c) < fuel -> I c ->
  exists c', moveLoop fuel ord k c = Some c' /\ I c' /\ over c' /\ Num c' = Num c /\ balanced c'.
Proof.
  intros Hstep. revert k c. induction fuel as [|fuel IH]; intros k c Hc Hp HI; [lia|]. simpl.
  destruct (analyze_over c k Hc) as (mg & lg & -> & Hm & Hl). case_decide as Hd.
  - exists c. split_and!; try done. intros a b Ha Hb. destruct Hc as [HGc _].
    rewrite HGc in Ha, Hb. destruct Hm as [_ Hm], Hl as [_ Hl].
    specialize (Hm a Ha). specialize (Hl b Hb). lia.
  - assert (mg ∈ Shards c) as Hin by (apply load_elem; lia).
    destruct (IH (S k) (set_Shards c (moveOne mg lg (Shards c)))) as (c' & He & HI' & Hc' & Hn & Hb).
    + destruct Hc. split; [done|]. simpl. by rewrite moveOne_length.
    + simpl. pose proof (move_pairs c mg lg Hin). lia.
    + apply Hstep; try done. lia.
    + by exists c'.
Qed.

Lemma insert_app_middle {A} (l1 l2 : list A) x y s :
  s = length l1 -> <[s := y]> (l1 ++ x :: l2) = l1 ++ y :: l2.
Proof. intros ->. rewrite insert_app_r_alt by lia. by rewrite Nat.sub_diag. Qed.

Lemma assignLoop_spec (I : ShardConfig -> Prop) gs : forall pre k c,
  (forall c s g lg, over c -> I c -> Shards c !! s = Some g -> G !! g = None ->
     least_loaded c lg -> I (set_Shards c (<[s := lg]> (Shards c)))) ->
  over c -> Shards c = pre ++ gs -> Forall (fun g => is_Some (G !! g)) pre -> I c ->
  exists k' c', assignLoop ord k (length pre) gs c = (k', c') /\
    I c' /\ over c' /\ Num c' = Num c /\ assigned c'.
Proof.
  induction gs as [|g gs IH]; intros pre k c Hstep Hc Hs Hpre HI; simpl.
  - exists k, c. split_and!; try done. unfold assigned. destruct Hc as [-> _].
    by rewrite Hs, app_nil_r.
  - assert (S (length pre) = length (pre ++ [g])) as HS by (rewrite length_app; simpl; lia).
    destruct (Groups c !! g) as [srvs|] eqn:Hg.
    + rewrite HS. apply IH; auto.
      * by rewrite Hs, <-app_assoc.
      * apply Forall_app. split; [done|]. constructor; [|done].
        destruct Hc as [<- _]. by eexists.
    + unfold least. destruct (analyze_over c k Hc) as (mg & lg & -> & Hm & Hl).
      rewrite HS. replace (length (pre ++ [g])) with (length (pre ++ [lg]))
        by (by rewrite !length_app).
      edestruct (IH (pre ++ [lg]) (S k)) as (k' & c' & He & HI' & Hc' & Hn & Ha);
        [exact Hstep|..|by exists k', c'].
      * destruct Hc. split; [done|]. simpl. by rewrite length_insert.
      * simpl. rewrite Hs, insert_app_middle by done. by rewrite <-app_assoc.
      * apply Forall_app. split; [done|]. constructor; [apply Hl|done].
      * eapply (Hstep _ _ g); try done; [|by destruct Hc as [<- _]].
        rewrite Hs. by apply list_lookup_middle.
Qed.

Lemma assigned_move c mg lg :
  Groups c = G -> mg ∈ Shards c -> is_Some (G !! lg) -> assigned c ->
  assigned (set_Shards c (moveOne mg lg (Shards c))).
Proof.
  intros HGc Hin Hl Ha. unfold assigned in *. simpl. rewrite HGc in *.
  destruct (moveOne_split mg lg _ Hin) as (l1 & l2 & Hs & ->). rewrite Hs in Ha.
  rewrite Forall_app, Forall_cons in *. tauto.
Qed.

(** The composition, with an invariant for each loop. *)
Lemma Rebalance_spec (I J : ShardConfig -> Prop) c :
  (forall c s g lg, over c -> I c -> Shards c !! s = Some g -> G !! g = None ->
     least_loaded c lg -> I (set_Shards c (<[s := lg]> (Shards c)))) ->
  (forall c, over c -> assigned c -> I c -> J c) ->
  (forall c mg lg, over c -> assigned c -> J c -> most_loaded c mg -> least_loaded c lg ->
     load c lg + 2 <= load c mg -> mg ∈ Shards c ->
     J (set_Shards c (moveOne mg lg (Shards c)))) ->
  over c -> I c ->
  exists c', Rebalance ord c = Some c' /\
    J c' /\ over c' /\ Num c' = Num c /\ assigned c' /\ balanced c'.
Proof.
  intros HI HIJ HJ Hc Hi. unfold Rebalance. rewrite decide_False.
  2: { destruct Hc as [-> _]. intros Hsz. apply HG, map_size_empty_iff. lia. }
  destruct (assignLoop_spec I (Shards c) [] 0 c) as (k & c1 & He & Hi1 & Hc1 & Hn1 & Ha1); auto.
  simpl in He. rewrite He.
  destruct (moveLoop_spec (fun c => assigned c /\ J c) rebalanceFuel k c1)
    as (c' & Hm & [Ha' HJ'] & Hc' & Hn' & Hb'); auto.
  - intros c2 mg lg Hc2 [Ha2 HJ2] Hmg Hlg Hd Hin. split; [|by apply HJ].
    apply assigned_move; [by destruct Hc2|done|by destruct Hlg|done].
  - destruct Hc1 as [_ Hl1]. pose proof (pairs_bound (Shards c1)) as Hp. rewrite Hl1 in Hp.
    unfold rebalanceFuel, NShards in *. lia.
  - exists c'. split_and!; auto. congruence.
Qed.

End Loops.

(** ** Join and Leave *)

Lemma joinLoop_true order : forall changed c c1,
  joinLoop order changed c = Return (true, c1) ->
  Shards c1 = Shards c /\ Num c1 = wrap64 (Num c + 1) /\
  Groups c1 = foldl (fun m '(k, srvs) => <[k := srvs]> m) (Groups c) order /\
  Groups c ⊆ Groups c1 /\ (changed = true \/ order <> []) /\
  Forall (fun '(g, _) => Groups c !! g = None) order.
Proof.
  induction order as [|[gid srvs] order IH]; intros changed c c1; simpl.
  - destruct changed; [|done]. intros [= <-]. by split_and!; auto.
  - destruct (Groups c !! gid) eqn:Hg; [done|]. destruct (sharesServer c srvs); [done|].
    intros (E1 & E2 & E3 & E4 & _ & Hf)%IH. simpl in *. split_and!; auto.
    + etrans; [|exact E4]. by apply insert_subseteq.
    + constructor; [done|]. eapply Forall_impl; [exact Hf|]. intros [g srvs'] Hn.
      by apply lookup_insert_None in Hn as [? _].
Qed.

Lemma leaveLoop_true gids : forall changed c c1,
  leaveLoop gids changed c = Return (true, c1) ->
  Shards c1 = Shards c /\ Num c1 = wrap64 (Num c + 1) /\
  Groups c1 = foldl (fun m k => delete k m) (Groups c) gids /\ Groups c1 ⊆ Groups c.
Proof.
  induction gids as [|gid gids IH]; intros changed c c1; simpl.
  - destruct changed; [|done]. by intros [= <-].
  - destruct (Groups c !! gid) eqn:Hg; [|done].
    intros (E1 & E2 & E3 & E4)%IH. simpl in *. split_and!; auto.
    etrans; [exact E4|]. apply delete_subseteq.
Qed.

Lemma foldl_insert_not_empty (order : list (Z * list string)) : forall m : gmap Z (list string),
  m <> ∅ \/ order <> [] -> foldl (fun m '(k, srvs) => <[k := srvs]> m) m order <> ∅.
Proof.
  induction order as [|[k srvs] order IH]; intros m; simpl; [by intros [?|?]|].
  intros _. apply IH. left. apply insert_non_empty.
Qed.

(** ** Well-formed configurations *)

Definition good (c : ShardConfig) : Prop :=
  length (Shards c) = NShards /\
  (Groups c = ∅ -> Forall (fun g => g = 0%Z) (Shards c)) /\
  (Groups c <> ∅ -> assigned c /\ balanced c).

Lemma Rebalance_good ord c :
  length (Shards c) = NShards -> (forall k, iterates (ord k) (Groups c)) ->
  exists c', Rebalance ord c = Some c' /\
    Groups c' = Groups c /\ Num c' = Num c /\ good c'.
Proof.
  intros Hl Ho. destruct (decide (Groups c = ∅)) as [He|Hne].
  - unfold Rebalance. rewrite decide_True by (rewrite He, map_size_empty; lia).
    eexists. split; [done|]. split_and!; [done|done|]. split_and!; simpl; [by rewrite length_fmap| |done].
    intros _. apply Forall_fmap, Forall_true. done.
  - destruct (Rebalance_spec ord (Groups c) Ho Hne (fun _ => True) (fun _ => True) c)
      as (c' & Hr & _ & [HG Hl'] & Hn & Ha & Hb); try done.
    exists c'. split_and!; try done. split_and!; [done|congruence|done].
Qed.

Lemma set_Shards_lookup c s l : Shards (set_Shards c l) !! s = l !! s.
Proof. done. Qed.

(** Loads when an orphan shard is given to [lg]. *)
Lemma insert_load c s g lg x :
  Shards c !! s = Some g ->
  load (set_Shards c (<[s := lg]> (Shards c))) x + (if decide (g = x) then 1 else 0)
  = load c x + (if decide (lg = x) then 1 else 0).
Proof. intros Hs. exact (count_insert (fun y => y = x) _ _ _ lg Hs). Qed.

(** ** Minimal movement *)

Lemma load_not_assigned c g : assigned c -> Groups c !! g = None -> load c g = 0.
Proof.
  intros Ha Hg. destruct (load c g) as [|k] eqn:E; [done|].
  assert (g ∈ Shards c) as Hin by (apply load_elem; lia).
  unfold assigned in Ha. rewrite Forall_forall in Ha. destruct (Ha _ Hin). congruence.
Qed.

Lemma moveOne_lookup mg lg l s g :
  moveOne mg lg l !! s = Some g -> l !! s = Some g \/ g = lg.
Proof.
  revert s. induction l as [|x l IH]; intros s; simpl; [done|].
  case_decide; destruct s; simpl; intros; simplify_eq; auto.
Qed.

(** After a new group joined, the loop moves shards only to it. *)
Lemma join_one_moves ord c c1 gid srvs :
  good c -> Shards c1 = Shards c -> Groups c1 = <[gid := srvs]> (Groups c) ->
  Groups c !! gid = None -> (forall k, iterates (ord k) (Groups c1)) ->
  exists c', Rebalance ord c1 = Some c' /\
    forall s g, Shards c' !! s = Some g -> Shards c !! s = Some g \/ g = gid.
Proof.
  intros (Hl & _ & Hne) Hs1 HG1 Hg Ho. set (G := <[gid := srvs]> (Groups c)) in *.
  assert (G <> ∅) as HG by apply insert_non_empty.
  destruct (decide (Groups c = ∅)) as [He|Hgs].
  - destruct (Rebalance_good ord c1) as (c' & Hr & HGc' & _ & Hgood'); [by rewrite Hs1|done|].
    exists c'. split; [done|]. intros s g Hs. right.
    destruct Hgood' as (_ & _ & Ha). destruct Ha as [Ha _]; [by rewrite HGc', HG1|].
    unfold assigned in Ha. rewrite Forall_lookup in Ha. destruct (Ha _ _ Hs) as [x Hx].
    rewrite HGc', HG1 in Hx. unfold G in Hx. rewrite He in Hx.
    by apply lookup_singleton_Some in Hx as [<- _].
  - destruct (Hne Hgs) as [Ha Hb].
    set (J := fun c2 : ShardConfig =>
      (forall s g, Shards c2 !! s = Some g -> Shards c !! s = Some g \/ g = gid) /\
      forall a b, is_Some (G !! a) -> is_Some (G !! b) -> b <> gid -> load c2 a <= S (load c2 b)).
    rewrite HG1 in Ho.
    destruct (Rebalance_spec ord G Ho HG (fun c2 => Shards c2 = Shards c) J c1)
      as (c' & Hr & [HJ _] & _); [..|by exists c'].
    + intros c2 s g lg _ Hs2 Hsg Hgn _. exfalso. rewrite Hs2 in Hsg.
      unfold assigned in Ha. rewrite Forall_lookup in Ha. destruct (Ha _ _ Hsg) as [x Hx].
      unfold G in Hgn. apply lookup_insert_None in Hgn as [Hgn _]. congruence.
    + intros c2 _ _ Hs2. split; [by rewrite Hs2; auto|]. intros a b Ha' Hb' Hbg.
      assert (forall x, load c2 x = load c x) as Hload by (intros x; unfold load; by rewrite Hs2).
      rewrite !Hload. unfold G in Ha', Hb'. rewrite lookup_insert_ne in Hb' by done.
      destruct (decide (a = gid)) as [->|Hag].
      * rewrite (load_not_assigned c gid Ha Hg). lia.
      * rewrite lookup_insert_ne in Ha' by done. by apply Hb.
    + intros c2 mg lg _ _ [Hmv Hbal] [Hmg Hmost] [Hlg Hleast] Hd Hin.
      destruct (decide (lg = gid)) as [->|Hlgne]; [|specialize (Hbal mg lg Hmg Hlg Hlgne); lia].
      assert (mg <> gid) as Hmgne by (intros ->; lia). split.
      * intros s g Hs. apply moveOne_lookup in Hs as [Hs| ->]; auto.
      * intros a b Ha' Hb' Hbg.
        pose proof (move_load c2 mg gid a Hin Hmgne) as La.
        pose proof (move_load c2 mg gid b Hin Hmgne) as Lb. simpl in La, Lb.
        pose proof (Hmost a Ha'). pose proof (Hleast b Hb'). pose proof (Hbal a b Ha' Hb' Hbg).
        destruct (decide (a = mg)), (decide (a = gid)), (decide (b = mg)), (decide (b = gid));
          subst; try congruence; lia.
    + split; [done|]. by rewrite Hs1.
    + done.
Qed.

(** After groups left, shards of the remaining groups stay where they are. *)
Lemma leave_moves_orphans ord c c1 :
  good c -> Shards c1 = Shards c -> Groups c1 ⊆ Groups c ->
  (forall k, iterates (ord k) (Groups c1)) ->
  exists c', Rebalance ord c1 = Some c' /\
    forall s g, Shards c !! s = Some g -> is_Some (Groups c1 !! g) -> Shards c' !! s = Some g.
Proof.
  intros (Hl & _ & Hne) Hs1 Hsub Ho. set (G := Groups c1) in *.
  destruct (decide (G = ∅)) as [HG|HG].
  - destruct (Rebalance_good ord c1) as (c' & Hr & _); [by rewrite Hs1|done|].
    exists c'. split; [done|]. intros s g _ [x Hx]. rewrite HG in Hx. by rewrite lookup_empty in Hx.
  - destruct Hne as [_ Hb].
    { intros E. apply HG, map_empty. intros i. apply (lookup_weaken_None _ (Groups c)); [|done]. by rewrite E. }
    set (I := fun c2 : ShardConfig =>
      (forall s g, Shards c !! s = Some g -> is_Some (G !! g) -> Shards c2 !! s = Some g) /\
      forall a b, is_Some (G !! a) -> is_Some (G !! b) -> load c2 a <= S (load c2 b)).
    destruct (Rebalance_spec ord G Ho HG I I c1) as (c' & Hr & [HJ _] & _); [..|by exists c'].
    + intros c2 s g lg _ [Hst Hbal] Hsg Hgn [Hlg Hleast]. split.
      * intros s' g' Hs' Hg'. rewrite set_Shards_lookup, list_lookup_insert_ne; [auto|].
        intros ->. specialize (Hst s' g' Hs' Hg'). destruct Hg'. congruence.
      * intros a b Ha Hb'.
        pose proof (insert_load c2 s g lg a Hsg) as La. pose proof (insert_load c2 s g lg b Hsg) as Lb.
        pose proof (Hleast b Hb'). pose proof (Hbal a b Ha Hb').
        assert (g <> a) by (intros ->; destruct Ha; congruence).
        assert (g <> b) by (intros ->; destruct Hb'; congruence).
        destruct (decide (g = a)), (decide (g = b)), (decide (lg = a)), (decide (lg = b));
          subst; try congruence; lia.
    + done.
    + intros c2 mg lg _ _ [_ Hbal] [Hmg _] [Hlg _] Hd. specialize (Hbal mg lg Hmg Hlg). lia.
    + split; [done|]. by rewrite Hs1.
    + split; [by rewrite Hs1|]. intros a b Ha Hb'.
      assert (forall x, load c1 x = load c x) as Hload by (intros x; unfold load; by rewrite Hs1).
      rewrite !Hload. apply Hb; by eapply lookup_weaken_is_Some.
Qed.

(** ** Iteration order is irrelevant *)

Lemma assignLoop_det ord ord' gs : forall k k' s c,
  (forall i j, ord i ≡ₚ ord' j) ->
  (assignLoop ord k s gs c).2 = (assignLoop ord' k' s gs c).2.
Proof.
  induction gs as [|g gs IH]; intros k k' s c Ho; simpl; [done|].
  destruct (Groups c !! g); [by apply IH|]. unfold least. rewrite (Ho k k'). by apply IH.
Qed.

Lemma moveLoop_det ord ord' fuel : forall k k' c,
  (forall i j, ord i ≡ₚ ord' j) -> moveLoop fuel ord k c = moveLoop fuel ord' k' c.
Proof.
  induction fuel as [|fuel IH]; intros k k' c Ho; simpl; [done|].
  rewrite (Ho k k'). destruct (analyze (ord' k') c) as [[[mg mn] lg] ln].
  case_decide; [done|]. by apply IH.
Qed.

Lemma Copy_id order cfg : order ≡ₚ map_to_list (Groups cfg) -> Copy order cfg = cfg.
Proof.
  intros Ho. destruct cfg as [nm sh gr]. unfold Copy, set_Groups, set_Shards, set_Num. simpl in *.
  f_equal. assert (NoDup order.*1) as Hnd by (rewrite Ho; apply NoDup_fst_map_to_list).
  rewrite <-(list_to_map_to_list gr), <-(list_to_map_proper _ _ Hnd Ho). clear Ho.
  rewrite <-(map_union_empty (list_to_map order)).
  generalize (∅ : gmap Z (list string)) as m. revert Hnd.
  induction order as [|[k srvs] order IH]; intros Hnd m; simpl.
  { by rewrite map_empty_union. }
  apply NoDup_cons in Hnd as [Hk Hnd]. rewrite IH by done.
  rewrite <-insert_union_l, insert_union_r; [done|]. by apply not_elem_of_list_to_map.
Qed.

(** ** Checks *)

Lemma CheckConfig_good c order groups :
  good c -> iterates order (Groups c) -> groups ≡ₚ (map_to_list (Groups c)).*1 ->
  CheckConfig order groups c = Return tt.
Proof.
  intros (Hl & _ & Hne) Ho Hg. unfold CheckConfig.
  assert (size (Groups c) = length groups) as Hsz
    by (by rewrite Hg, length_fmap, length_map_to_list).
  rewrite decide_False by (by intros []). 
  assert (forallb (fun g => bool_decide (is_Some (Groups c !! g))) groups = true) as ->.
  { apply forallb_forall. intros g Hin. apply bool_decide_eq_true, (iterates_elem groups); [done|].
    by apply list_elem_of_In. }
  simpl. destruct (decide (Groups c = ∅)) as [He|Hgs].
  - assert (groups = []) as -> by (apply length_zero_iff_nil; by rewrite <-Hsz, He).
    assert (order = []) as ->; [|done]. apply Permutation_nil. unfold iterates in Ho.
    by rewrite Ho, He, map_to_list_empty.
  - destruct (Hne Hgs) as [Ha Hb].
    assert (forallb (fun g => bool_decide (is_Some (Groups c !! g))) (Shards c) = true) as ->.
    { apply forallb_forall. intros g Hin. apply bool_decide_eq_true.
      unfold assigned in Ha. rewrite Forall_forall in Ha. by apply Ha, list_elem_of_In. }
    rewrite andb_false_r.
    assert (forall l mx mn, (forall g, g ∈ l -> is_Some (Groups c !! g)) ->
      (mx <= mn + 1 /\ forall g, is_Some (Groups c !! g) ->
        mx <= Z.of_nat (load c g) + 1 /\ Z.of_nat (load c g) <= mn + 1)%Z ->
      let '(mx', mn') := foldl (fun '(mx, mn) g =>
         let n := default 0%Z (countShards (Shards c) !! g) in
         (if decide (n > mx)%Z then n else mx, if decide (n < mn)%Z then n else mn)) (mx, mn) l in
      (mx' <= mn' + 1)%Z) as Hfold.
    { induction l as [|g l IH]; intros mx mn Hin [Hm Hall]; [done|]. simpl.
      rewrite countShards_load. assert (is_Some (Groups c !! g)) as Hgg by (apply Hin; left).
      apply IH; [intros; apply Hin; by right|].
      pose proof (Hall g Hgg). split; [repeat case_decide; lia|]. intros g' Hg'.
      pose proof (Hall g' Hg'). pose proof (Hb g g' Hgg Hg'). pose proof (Hb g' g Hg' Hgg).
      repeat case_decide; lia. }
    specialize (Hfold order 0%Z 257%Z). destruct (foldl _ _ order) as [mx' mn'].
    rewrite decide_False; [done|]. intros Hgt. enough (mx' <= mn' + 1)%Z by lia. apply Hfold.
    + intros g Hin. by apply (iterates_elem order).
    + split; [lia|]. intros g _. pose proof (load_le c g). rewrite Hl in *. unfold NShards in *. lia.
Qed.

(** ** Histories of configurations *)

Inductive creachable : ShardConfig -> Prop :=
| creach_make : creachable MakeShardConfig
| creach_join order ord c c' :
    creachable c -> (forall k, iterates (ord k) (Groups c')) ->
    JoinBalance order ord c = Return (Some (true, c')) -> creachable c'
| creach_leave gids ord c c' :
    creachable c -> (forall k, iterates (ord k) (Groups c')) ->
    LeaveBalance gids ord c = Return (Some (true, c')) -> creachable c'.

Lemma thenRebalance_true ord r c' :
  thenRebalance ord r = Some (true, c') -> exists c1, r = (true, c1) /\ Rebalance ord c1 = Some c'.
Proof.
  destruct r as [[|] c1]; simpl; [|done]. destruct (Rebalance ord c1) eqn:E; [|done].
  intros [= <-]. by exists c1.
Qed.

Lemma JoinBalance_true order ord c c' :
  JoinBalance order ord c = Return (Some (true, c')) ->
  exists c1, Join order c = Return (true, c1) /\ Rebalance ord c1 = Some c'.
Proof.
  unfold JoinBalance. destruct (Join order c) as [r| |]; try done. simpl. intros [= Hr].
  apply thenRebalance_true in Hr as (c1 & -> & Hr). by exists c1.
Qed.

Lemma LeaveBalance_true gids ord c c' :
  LeaveBalance gids ord c = Return (Some (true, c')) ->
  exists c1, Leave gids c = Return (true, c1) /\ Rebalance ord c1 = Some c'.
Proof.
  unfold LeaveBalance. destruct (Leave gids c) as [r| |]; try done. simpl. intros [= Hr].
  apply thenRebalance_true in Hr as (c1 & -> & Hr). by exists c1.
Qed.

Lemma assignLoop_Groups ord gs : forall k s c, Groups (assignLoop ord k s gs c).2 = Groups c.
Proof.
  induction gs as [|g gs IH]; intros k s c; simpl; [done|].
  destruct (Groups c !! g); by rewrite IH.
Qed.

Lemma moveLoop_Groups ord fuel : forall k c c',
  moveLoop fuel ord k c = Some c' -> Groups c' = Groups c.
Proof.
  induction fuel as [|fuel IH]; intros k c c'; simpl; [done|].
  destruct (analyze (ord k) c) as [[[mg mn] lg] ln]. case_decide; [by intros [= ->]|].
  intros Hm%IH. done.
Qed.

Lemma Rebalance_Groups ord c c' : Rebalance ord c = Some c' -> Groups c' = Groups c.
Proof.
  unfold Rebalance. case_decide; [by intros [= <-]|].
  pose proof (assignLoop_Groups ord (Shards c) 0 0 c) as HG.
  destruct (assignLoop ord 0 0 (Shards c) c) as [k c1]. simpl in HG.
  intros Hm%moveLoop_Groups. congruence.
Qed.

Lemma creachable_good c : creachable c -> good c.
Proof.
  induction 1 as [|order ord c c' _ (Hl & _) Ho Hj|gids ord c c' _ (Hl & _) Ho Hj].
  - split_and!; [done|intros _; by repeat constructor|done].
  - apply JoinBalance_true in Hj as (c1 & Hj & Hr).
    pose proof (Rebalance_Groups _ _ _ Hr) as HG. rewrite HG in Ho.
    apply joinLoop_true in Hj as (Hs & _). rewrite <-Hs in Hl.
    destruct (Rebalance_good ord c1 Hl Ho) as (c2 & Hr' & _ & _ & Hg). congruence.
  - apply LeaveBalance_true in Hj as (c1 & Hj & Hr).
    pose proof (Rebalance_Groups _ _ _ Hr) as HG. rewrite HG in Ho.
    apply leaveLoop_true in Hj as (Hs & _). rewrite <-Hs in Hl.
    destruct (Rebalance_good ord c1 Hl Ho) as (c2 & Hr' & _ & _ & Hg). congruence.
Qed.

(** ** Properties *)

(** C7: [Rebalance] terminates and balances.  On any configuration of the 12
    shards, whatever the iteration orders over [Groups], it returns; it changes
    only the shard array; with no groups every shard is unassigned (0);
    otherwise every shard is assigned to an existing group and the loads of
    any two groups differ by at most one. *)
Theorem rebalance_balances ord c :
  length (Shards c) = NShards -> (forall k, iterates (ord k) (Groups c)) ->
  exists c', Rebalance ord c = Some c' /\
    Groups c' = Groups c /\ Num c' = Num c /\ length (Shards c') = NShards /\
    (Groups c = ∅ -> Forall (fun g => g = 0%Z) (Shards c')) /\
    (Groups c <> ∅ -> assigned c' /\ balanced c').
Proof.
  intros Hl Ho. destruct (Rebalance_good ord c Hl Ho) as (c' & ? & HG & ? & (? & ? & ?)).
  rewrite HG in *. by exists c'.
Qed.

(** [Rebalance] is deterministic.  Its result does not depend on the order in
    which Go iterates over the map of groups, as replicated controllers need. *)
Theorem rebalance_deterministic ord ord' c :
  (forall k, iterates (ord k) (Groups c)) -> (forall k, iterates (ord' k) (Groups c)) ->
  Rebalance ord c = Rebalance ord' c.
Proof.
  intros Ho Ho'. assert (forall i j, ord i ≡ₚ ord' j) as Hp
    by (intros i j; unfold iterates in *; by rewrite (Ho i), (Ho' j)).
  unfold Rebalance. case_decide; [done|].
  pose proof (assignLoop_det ord ord' (Shards c) 0 0 0 c Hp) as Hd.
  destruct (assignLoop ord 0 0 (Shards c) c) as [k c1], (assignLoop ord' 0 0 (Shards c) c) as [k' c1'].
  simpl in Hd. subst c1'. by apply moveLoop_det.
Qed.

(** C27: a join moves as little as possible.  When a group joins a configuration
    reached through joins and leaves, every shard either stays where it is or
    moves to the new group. *)
Theorem join_moves_only_to_new c gid srvs ord c' :
  creachable c -> (forall k, iterates (ord k) (Groups c')) ->
  JoinBalance [(gid, srvs)] ord c = Return (Some (true, c')) ->
  Groups c' = <[gid := srvs]> (Groups c) /\
  forall s g, Shards c' !! s = Some g -> Shards c !! s = Some g \/ g = gid.
Proof.
  intros Hc Ho (c1 & Hj & Hr)%JoinBalance_true. apply creachable_good in Hc as Hgood.
  pose proof (Rebalance_Groups _ _ _ Hr) as HG. rewrite HG in *.
  apply joinLoop_true in Hj as (Hs & Hn & Hg1 & _ & _ & Hf). simpl in Hg1. split; [done|].
  apply Forall_cons in Hf as [Hnew _].
  destruct (join_one_moves ord c c1 gid srvs Hgood Hs Hg1 Hnew Ho) as (c2 & Hr2 & Hmv).
  assert (c2 = c') as -> by congruence. done.
Qed.

(** A leave moves as little as possible.  When groups leave a configuration
    reached through joins and leaves, every shard of a group that stays keeps
    its group. *)
Theorem leave_keeps_survivors c gids ord c' :
  creachable c -> (forall k, iterates (ord k) (Groups c')) ->
  LeaveBalance gids ord c = Return (Some (true, c')) ->
  Groups c' = foldl (fun m k => delete k m) (Groups c) gids /\
  forall s g, Shards c !! s = Some g -> is_Some (Groups c' !! g) -> Shards c' !! s = Some g.
Proof.
  intros Hc Ho (c1 & Hj & Hr)%LeaveBalance_true. apply creachable_good in Hc as Hgood.
  pose proof (Rebalance_Groups _ _ _ Hr) as HG. rewrite HG in *.
  apply leaveLoop_true in Hj as (Hs & _ & Hg & Hsub). split; [done|].
  destruct (leave_moves_orphans ord c c1 Hgood Hs Hsub Ho) as (c2 & Hr2 & Hmv).
  assert (c2 = c') as -> by congruence. done.
Qed.

(** Every configuration reached by successful joins and leaves passes the
    repository's own [CheckConfig] for its list of groups, whatever the
    iteration order. *)
Theorem reachable_configs_check c order groups :
  creachable c -> iterates order (Groups c) -> groups ≡ₚ (map_to_list (Groups c)).*1 ->
  CheckConfig order groups c = Return tt.
Proof. intros Hc. by apply CheckConfig_good, creachable_good. Qed.

Lemma good_key_servers c key :
  good c -> Groups c <> ∅ ->
  exists gid srvs, GidServers c (Key2Shard key) = Return (gid, srvs, true) /\
    Groups c !! gid = Some srvs /\ IsMember c gid = true.
Proof.
  intros (Hl & _ & Hne) HG. destruct (Hne HG) as [Ha _].
  assert (0 <= Key2Shard key < len (Shards c))%Z as Hrange.
  { unfold Key2Shard, len. rewrite Hl. pose proof (fnv32a_range key).
    pose proof (Z.rem_bound_pos (fnv32a key) (Z.of_nat NShards)). unfold NShards in *. lia. }
  destruct (slice_get_bound _ _ Hrange) as [gid Hg]. unfold GidServers. rewrite Hg. simpl.
  apply slice_get_inv in Hg as [_ Hg]. unfold assigned in Ha. rewrite Forall_lookup in Ha.
  destruct (Ha _ _ Hg) as [srvs Hs]. exists gid, srvs. rewrite Hs. simpl.
  split_and!; [done|done|]. unfold IsMember. apply existsb_exists. exists gid.
  split; [|apply Z.eqb_refl]. by eapply list_elem_of_In, list_elem_of_lookup_2.
Qed.

(** In a configuration that has groups, every key can be served: its shard is
    in range and [GidServers] finds the group that owns it. *)
Theorem every_key_has_servers c key :
  creachable c -> Groups c <> ∅ ->
  exists gid srvs, GidServers c (Key2Shard key) = Return (gid, srvs, true) /\
    Groups c !! gid = Some srvs /\ IsMember c gid = true.
Proof. intros Hc. by apply good_key_servers, creachable_good. Qed.

(** ** A failed join is not atomic *)

Definition exampleCfg : ShardConfig :=
  {| Num := 1; Shards := replicate NShards 1%Z; Groups := {[ 1%Z := ["x"] ]} |}.
Definition exampleJoin : list (Z * list string) := [(2%Z, ["y"]); (1%Z, ["z"])].

(** A [Join] that returns false may have changed the configuration.  Joining a
    known and a new group returns false, and depending on the iteration order
    of the argument map the new group has been added or not. *)
Theorem join_false_not_atomic :
  (exists c', Join exampleJoin exampleCfg = Return (false, c') /\ Groups c' <> Groups exampleCfg) /\
  Join (rev exampleJoin) exampleCfg = Return (false, exampleCfg).
Proof.
  split; [|reflexivity]. eexists. split; [reflexivity|]. simpl. intros E.
  by apply (f_equal (fun m => m !! 2%Z)) in E.
Qed.

(** ** Witnesses *)

Definition after (r : outcome (option (bool * ShardConfig))) : ShardConfig :=
  match r with Return (Some (_, c)) => c | _ => MakeShardConfig end.

(** Three groups join, one leaves. *)
Definition cfg1 := after (JoinBalance [(1%Z, ["a"])] (fun _ => [1%Z]) MakeShardConfig).
Definition cfg2 := after (JoinBalance [(2%Z, ["b"])] (fun _ => [2; 1]%Z) cfg1).
Definition cfg3 := after (JoinBalance [(3%Z, ["c"])] (fun _ => [2; 3; 1]%Z) cfg2).
Definition cfg4 := after (LeaveBalance [1%Z] (fun _ => [3; 2]%Z) cfg3).

(** [order] lists the keys of [m]. *)
Lemma iterates_dec_ok {A} (order : list Z) (m : gmap Z A) :
  bool_decide (NoDup order) && bool_decide (dom m = list_to_set order) = true -> iterates order m.
Proof.
  rewrite andb_true_iff, !bool_decide_eq_true. intros [Hnd Hd]. unfold iterates.
  apply NoDup_Permutation; [done|apply NoDup_fst_map_to_list|]. intros g.
  rewrite (iterates_elem (map_to_list m).*1 m g) by (unfold iterates; reflexivity).
  rewrite <-elem_of_dom, Hd. by rewrite elem_of_list_to_set.
Qed.

Lemma cfg2_reachable : creachable cfg2.
Proof.
  eapply (creach_join [(2%Z, ["b"])] (fun _ => [2; 1]%Z) cfg1);
    [|intros k; apply iterates_dec_ok; vm_compute; reflexivity|vm_compute; reflexivity].
  eapply (creach_join [(1%Z, ["a"])] (fun _ => [1%Z]) MakeShardConfig);
    [constructor|intros k; apply iterates_dec_ok; vm_compute; reflexivity|vm_compute; reflexivity].
Qed.

Lemma cfg3_reachable : creachable cfg3.
Proof.
  eapply (creach_join [(3%Z, ["c"])] (fun _ => [2; 3; 1]%Z) cfg2); [apply cfg2_reachable|..].
  - intros k. apply iterates_dec_ok. vm_compute. reflexivity.
  - vm_compute. reflexivity.
Qed.

Example cfg3_shards : Shards cfg3 = [3; 3; 2; 2; 2; 2; 3; 3; 1; 1; 1; 1]%Z.
Proof. vm_compute. reflexivity. Qed.

Lemma rebalance_balances_witness :
  exists c', Rebalance (fun _ => [2; 3]%Z) (set_Groups cfg3 (delete 1%Z (Groups cfg3))) = Some c' /\
    assigned c' /\ balanced c'.
Proof.
  destruct (rebalance_balances (fun _ => [2; 3]%Z) (set_Groups cfg3 (delete 1%Z (Groups cfg3))))
    as (c' & Hr & _ & _ & _ & _ & Hb).
  - vm_compute. reflexivity.
  - intros k. apply iterates_dec_ok. vm_compute. reflexivity.
  - exists c'. split; [exact Hr|]. apply Hb. intros E.
    apply (f_equal (fun m => m !! 2%Z)) in E. vm_compute in E. discriminate E.
Defined.

Lemma rebalance_deterministic_witness :
  Rebalance (fun _ => [1; 2; 3]%Z) cfg3 = Rebalance (fun k => match k with 0 => [3; 1; 2]%Z | _ => [2; 1; 3]%Z end) cfg3.
Proof.
  apply rebalance_deterministic; intros k; apply iterates_dec_ok;
    [|destruct k]; vm_compute; reflexivity.
Defined.

Lemma join_moves_only_to_new_witness :
  Groups cfg3 = <[3%Z := ["c"]]> (Groups cfg2) /\
  forall s g, Shards cfg3 !! s = Some g -> Shards cfg2 !! s = Some g \/ g = 3%Z.
Proof.
  apply (join_moves_only_to_new cfg2 3 ["c"] (fun _ => [2; 3; 1]%Z) cfg3 cfg2_reachable).
  - intros k. apply iterates_dec_ok. vm_compute. reflexivity.
  - vm_compute. reflexivity.
Defined.

Lemma leave_keeps_survivors_witness :
  Groups cfg4 = delete 1%Z (Groups cfg3) /\
  forall s g, Shards cfg3 !! s = Some g -> is_Some (Groups cfg4 !! g) -> Shards cfg4 !! s = Some g.
Proof.
  apply (leave_keeps_survivors cfg3 [1%Z] (fun _ => [3; 2]%Z) cfg4 cfg3_reachable).
  - intros k. apply iterates_dec_ok. vm_compute. reflexivity.
  - vm_compute. reflexivity.
Defined.

Lemma reachable_configs_check_witness : CheckConfig [3; 1; 2]%Z [1; 2; 3]%Z cfg3 = Return tt.
Proof.
  apply (reachable_configs_check cfg3 _ _ cfg3_reachable).
  - apply iterates_dec_ok. vm_compute. reflexivity.
  - apply (iterates_dec_ok [1; 2; 3]%Z (Groups cfg3)). vm_compute. reflexivity.
Defined.

Lemma every_key_has_servers_witness :
  exists gid srvs, GidServers cfg3 (Key2Shard "k") = Return (gid, srvs, true).
Proof.
  destruct (every_key_has_servers cfg3 "k" cfg3_reachable) as (gid & srvs & Hs & _).
  - intros E. apply (f_equal (fun m => m !! 2%Z)) in E. vm_compute in E. discriminate E.
  - by exists gid, srvs.
Defined.

End ShardCfg.
