(* ===== verification/ShardJson.v ===== *)
(** * Shard configurations as text

    Models [String] and [FromString] of [src/src/shardkv1/shardcfg/shardcfg.go]
    with what they use of [encoding/json]: the writer, a reader for JSON texts
    and the rules by which a text is decoded into a [ShardConfig].  A number is
    kept as its literal, as in Go.  Strings are read as ASCII; a nil map or slice
    is not told from an empty one. *)

From S2P Require Import Prelude MrRpc GoLib Json ShardCfg.

Module ShardJson.
Import Json.

Set Default Proof Using "Type".

(** ** JSON *)

#[warnings="-register-all"] Inductive json :=
| JNull
| JBool (b : bool)
| JNum (lit : string)
| JStr (s : string)
| JArr (l : list json)
| JObj (l : list (string * json)).

(** ** Writing *)

Definition quote (s : string) : string := String dquote "" +:+ escape s +:+ String dquote "".

Fixpoint commas (l : list string) : string :=
  match l with
  | [] => ""
  | [s] => s
  | s :: l => s +:+ "," +:+ commas l
  end.

Fixpoint print (v : json) : string :=
  match v with
  | JNull => "null"
  | JBool b => if b then "true" else "false"
  | JNum lit => lit
  | JStr s => quote s
  | JArr l => "[" +:+ commas (map print l) +:+ "]"
  | JObj l => "{" +:+ commas (map (fun p => quote p.1 +:+ ":" +:+ print p.2) l) +:+ "}"
  end.

(** ** Reading *)

Definition isSpace (c : ascii) : bool :=
  bool_decide (c = " "%char) || bool_decide (c = "009"%char) || bool_decide (c = "010"%char)
  || bool_decide (c = "013"%char).

Fixpoint skipWs (s : string) : string :=
  match s with
  | String c s' => if isSpace c then skipWs s' else s
  | EmptyString => s
  end.

(** The next character that is not a space has to be [c]. *)
Definition expect (c : ascii) (s : string) : option string :=
  match skipWs s with
  | String c' r => if decide (c' = c) then Some r else None
  | EmptyString => None
  end.

(** Number literals: the characters that can be part of one, and the grammar. *)
Definition numChar (c : ascii) : bool :=
  bool_decide (is_Some (Ascii.is_nat c)) || bool_decide (c ∈ ["+"; "-"; "."; "e"; "E"]%char).

Fixpoint spanNum (s : string) : string * string :=
  match s with
  | String c s' => if numChar c then let '(a, b) := spanNum s' in (String c a, b) else ("", s)
  | EmptyString => ("", s)
  end.

Fixpoint dropDigits (s : string) : string :=
  match s with
  | String c s' => match Ascii.is_nat c with Some _ => dropDigits s' | None => s end
  | EmptyString => s
  end.

Definition validExp (s : string) : bool :=
  match s with
  | EmptyString => true
  | String c s =>
      bool_decide (c = "e"%char \/ c = "E"%char) &&
      let '(_, ds) := splitSign s in startsWithDigit ds && bool_decide (dropDigits ds = "")
  end.
Definition validFrac (s : string) : bool :=
  match s with
  | String c s' => if decide (c = "."%char) then startsWithDigit s' && validExp (dropDigits s') else validExp s
  | EmptyString => true
  end.
Definition validInt (s : string) : bool :=
  match s with
  | String c s' =>
      if decide (c = "0"%char) then validFrac s'
      else bool_decide (is_Some (Ascii.is_nat c)) && validFrac (dropDigits s')
  | EmptyString => false
  end.
Definition validNumber (s : string) : bool :=
  match s with
  | String c s' => if decide (c = "-"%char) then validInt s' else validInt s
  | EmptyString => false
  end.

Definition pword (s : string) : option (json * string) :=
  match strip_prefix "null" s with
  | Some r => Some (JNull, r)
  | None =>
      match strip_prefix "true" s with
      | Some r => Some (JBool true, r)
      | None =>
          match strip_prefix "false" s with
          | Some r => Some (JBool false, r)
          | None => let '(lit, r) := spanNum s in if validNumber lit then Some (JNum lit, r) else None
          end
      end
  end.

Fixpoint pvalue (fuel : nat) (s : string) : option (json * string) :=
  match fuel with
  | 0 => None
  | S fuel =>
      match skipWs s with
      | EmptyString => None
      | String c r =>
          if decide (c = dquote) then '(x, r) ← unquote r; Some (JStr x, r)
          else if decide (c = "["%char) then
            match expect "]" r with
            | Some r => Some (JArr [], r)
            | None => '(l, r) ← pelems fuel r; Some (JArr l, r)
            end
          else if decide (c = "{"%char) then
            match expect "}" r with
            | Some r => Some (JObj [], r)
            | None => '(l, r) ← pmembers fuel r; Some (JObj l, r)
            end
          else pword (String c r)
      end
  end
with pelems (fuel : nat) (s : string) : option (list json * string) :=
  match fuel with
  | 0 => None
  | S fuel =>
      '(v, r) ← pvalue fuel s;
      match expect "," r with
      | Some r => '(l, r) ← pelems fuel r; Some (v :: l, r)
      | None => r ← expect "]" r; Some ([v], r)
      end
  end
with pmembers (fuel : nat) (s : string) : option (list (string * json) * string) :=
  match fuel with
  | 0 => None
  | S fuel =>
      r ← expect dquote s;
      '(k, r) ← unquote r;
      r ← expect ":" r;
      '(v, r) ← pvalue fuel r;
      match expect "," r with
      | Some r => '(l, r) ← pmembers fuel r; Some ((k, v) :: l, r)
      | None => r ← expect "}" r; Some ([(k, v)], r)
      end
  end.

(** Every value takes a character; lists of elements take a comma or a bracket. *)
Definition parse (s : string) : option json :=
  '(v, r) ← pvalue (2 * String.length s) s;
  if decide (skipWs r = "") then Some v else None.

(** ** Decoding into a configuration *)

(** A null leaves the variable as it is; other types are errors. *)
Definition decodeInt (v : json) (old : Z) : option Z :=
  match v with
  | JNum lit => parseInt64 lit
  | JNull => Some old
  | _ => None
  end.

Definition decodeStr (v : json) : option string :=
  match v with JStr s => Some s | JNull => Some "" | _ => None end.

(** An array: further elements are ignored, missing ones become zero. *)
Fixpoint decodeInts (l : list json) (old : list Z) : option (list Z) :=
  match old with
  | [] => Some []
  | x :: old =>
      match l with
      | [] => Some (replicate (S (length old)) 0%Z)
      | v :: l => x ← decodeInt v x; xs ← decodeInts l old; Some (x :: xs)
      end
  end.

Definition decodeServers (v : json) : option (list string) :=
  match v with
  | JArr l => mapM decodeStr l
  | JNull => Some []
  | _ => None
  end.

Fixpoint decodeGroups (l : list (string * json)) (m : gmap Z (list string)) : option (gmap Z (list string)) :=
  match l with
  | [] => Some m
  | (k, v) :: l => g ← parseInt64 k; srvs ← decodeServers v; decodeGroups l (<[g := srvs]> m)
  end.

(** Field names match without regard to case; other members are ignored. *)
Definition lower (c : ascii) : ascii :=
  if (65 <=? code c) && (code c <=? 90) then chr (code c + 32) else c.
Fixpoint toLower (s : string) : string :=
  match s with EmptyString => "" | String c s => String (lower c) (toLower s) end.

Definition decodeField (p : string * json) (cfg : ShardCfg.ShardConfig) : option ShardCfg.ShardConfig :=
  let '(k, v) := p in
  if decide (toLower k = "num") then
    n ← decodeInt v (ShardCfg.Num cfg);
    Some {| ShardCfg.Num := n; ShardCfg.Shards := ShardCfg.Shards cfg; ShardCfg.Groups := ShardCfg.Groups cfg |}
  else if decide (toLower k = "shards") then
    match v with
    | JNull => Some cfg
    | JArr l =>
        s ← decodeInts l (ShardCfg.Shards cfg);
        Some {| ShardCfg.Num := ShardCfg.Num cfg; ShardCfg.Shards := s; ShardCfg.Groups := ShardCfg.Groups cfg |}
    | _ => None
    end
  else if decide (toLower k = "groups") then
    match v with
    | JNull => Some {| ShardCfg.Num := ShardCfg.Num cfg; ShardCfg.Shards := ShardCfg.Shards cfg;
                       ShardCfg.Groups := ∅ |}
    | JObj l =>
        m ← decodeGroups l (ShardCfg.Groups cfg);
        Some {| ShardCfg.Num := ShardCfg.Num cfg; ShardCfg.Shards := ShardCfg.Shards cfg; ShardCfg.Groups := m |}
    | _ => None
    end
  else Some cfg.

Fixpoint decodeFields (l : list (string * json)) (cfg : ShardCfg.ShardConfig) : option ShardCfg.ShardConfig :=
  match l with
  | [] => Some cfg
  | p :: l => cfg ← decodeField p cfg; decodeFields l cfg
  end.

Definition zeroConfig : ShardCfg.ShardConfig :=
  {| ShardCfg.Num := 0; ShardCfg.Shards := replicate ShardCfg.NShards 0%Z; ShardCfg.Groups := ∅ |}.

Definition Unmarshal (s : string) : option ShardCfg.ShardConfig :=
  v ← parse s;
  match v with
  | JNull => Some zeroConfig
  | JObj l => decodeFields l zeroConfig
  | _ => None
  end.

(** ** String and FromString *)

(** The members of a map are written in the order of their keys as strings. *)
Definition keyBefore (p q : string * list string) : Prop := (p.1 ≤ q.1)%string.
#[local] Instance keyBefore_dec : RelDecision keyBefore.
Proof. intros p q. unfold keyBefore. apply _. Defined.

Definition groupMembers (m : gmap Z (list string)) : list (string * json) :=
  (fun p => (p.1, JArr (map JStr p.2)))
    <$> merge_sort keyBefore ((fun p => (Itoa p.1, p.2)) <$> map_to_list m).

Definition toJson (cfg : ShardCfg.ShardConfig) : json :=
  JObj [("Num", JNum (Itoa (ShardCfg.Num cfg)));
        ("Shards", JArr (map (fun g => JNum (Itoa g)) (ShardCfg.Shards cfg)));
        ("Groups", JObj (groupMembers (ShardCfg.Groups cfg)))].

Definition String_ (cfg : ShardCfg.ShardConfig) : string := print (toJson cfg).

Definition FromString (s : string) : outcome ShardCfg.ShardConfig :=
  match Unmarshal s with Some cfg => Return cfg | None => Fatal "Unmarshall err" end.

(** ** Reading back what was written *)

Section JsonInd.
Context (P : json -> Prop).
Context (HNull : P JNull) (HBool : forall b, P (JBool b)) (HNum : forall l, P (JNum l)).
Context (HStr : forall s, P (JStr s)) (HArr : forall l, Forall P l -> P (JArr l)).
Context (HObj : forall l, Forall (fun p => P p.2) l -> P (JObj l)).

Fixpoint json_tree_ind (v : json) : P v :=
  match v with
  | JNull => HNull
  | JBool b => HBool b
  | JNum l => HNum l
  | JStr s => HStr s
  | JArr l =>
      HArr l ((fix go l := match l return Forall P l with
                           | [] => Forall_nil_2 _
                           | v :: l => Forall_cons_2 _ _ _ (json_tree_ind v) (go l)
                           end) l)
  | JObj l =>
      HObj l ((fix go l := match l return Forall (fun p => P p.2) l with
                           | [] => Forall_nil_2 _
                           | p :: l => Forall_cons_2 _ _ _ (json_tree_ind p.2) (go l)
                           end) l)
  end.
End JsonInd.

Fixpoint allNum (s : string) : bool :=
  match s with EmptyString => true | String c s => numChar c && allNum s end.

(** Trees that the writer can write: number literals and ASCII strings. *)
Fixpoint writable (v : json) : bool :=
  match v with
  | JNum lit => validNumber lit && allNum lit
  | JStr s => ascii_only s
  | JArr l => forallb writable l
  | JObj l => forallb (fun p => ascii_only p.1 && writable p.2) l
  | _ => true
  end.

(** What can follow a number. *)
Definition stops (s : string) : Prop :=
  match s with EmptyString => True | String c _ => numChar c = false end.

Lemma spanNum_app lit rest : allNum lit = true -> stops rest -> spanNum (lit +:+ rest) = (lit, rest).
Proof.
  induction lit as [|c lit IH]; cbn [allNum].
  - intros _ Hs. rewrite str_nil_app. destruct rest as [|c rest]; [done|]. simpl in *. by rewrite Hs.
  - intros [Hc Hl]%andb_true_iff Hs. rewrite str_cons_app. cbn [spanNum]. by rewrite Hc, IH.
Qed.

(** The first character of a number. *)
Definition numHead (c : ascii) : Prop := c = "-"%char \/ is_Some (Ascii.is_nat c).

Lemma numHead_not c : numHead c ->
  isSpace c = false /\ c <> dquote /\ c <> "["%char /\ c <> "{"%char /\ c <> "]"%char /\ c <> "n"%char /\
  c <> "t"%char /\ c <> "f"%char.
Proof.
  intros [->|[d Hd]]; [by vm_compute|].
  destruct c as [[] [] [] [] [] [] [] []]; try discriminate Hd; by vm_compute.
Qed.

Lemma validNumber_head lit : validNumber lit = true -> exists c s, lit = String c s /\ numHead c.
Proof.
  destruct lit as [|c s]; [done|]. cbn [validNumber]. case_decide as Hc; [exists c, s; split; [done|by left]|].
  cbn [validInt]. case_decide as H0.
  - intros _. exists c, s. split; [done|]. right. subst c. by eexists.
  - intros [H%bool_decide_eq_true_1 _]%andb_true_iff. exists c, s. split; [done|by right].
Qed.

Lemma skipWs_head c s : isSpace c = false -> skipWs (String c s) = String c s.
Proof. simpl. by intros ->. Qed.

Lemma pword_num lit rest :
  validNumber lit = true -> allNum lit = true -> stops rest -> pword (lit +:+ rest) = Some (JNum lit, rest).
Proof.
  intros Hv Hn Hs. destruct (validNumber_head lit Hv) as (c & s & E & Hc).
  destruct (numHead_not c Hc) as (_ & _ & _ & _ & _ & N1 & N2 & N3).
  unfold pword. rewrite spanNum_app, Hv by done. rewrite E, str_cons_app. cbn [strip_prefix].
  by rewrite !decide_False.
Qed.

(** The first character of a value that is written. *)
Lemma print_head v : writable v = true ->
  exists c s, print v = String c s /\ isSpace c = false /\ c <> "]"%char.
Proof.
  destruct v as [|[]|lit|s|l|l]; simpl; intros Hw;
    try (by do 2 eexists; split; [reflexivity|]; by vm_compute).
  apply andb_true_iff in Hw as [Hv _]. destruct (validNumber_head lit Hv) as (c & s & -> & Hc).
  exists c, s. by destruct (numHead_not c Hc) as (? & _ & _ & _ & ? & _).
Qed.

(** A value is read back in front of anything that does not continue it. *)
Definition readsBack (v : json) : Prop :=
  forall fuel rest, 2 * String.length (print v) <= fuel -> stops rest ->
    pvalue fuel (print v +:+ rest) = Some (v, rest).

Lemma expect_same c s : isSpace c = false -> expect c (String c s) = Some s.
Proof. intros Hc. unfold expect. rewrite skipWs_head by done. by rewrite decide_True. Qed.

Lemma expect_other c c' s : isSpace c' = false -> c' <> c -> expect c (String c' s) = None.
Proof. intros Hc Hn. unfold expect. rewrite skipWs_head by done. by rewrite decide_False. Qed.

Lemma quote_app s rest : quote s +:+ rest = String dquote (escape s +:+ String dquote "" +:+ rest).
Proof. unfold quote. by rewrite !str_app_assoc. Qed.

Lemma pelems_reads l : Forall readsBack l -> l <> [] -> forall fuel rest,
  2 * String.length (commas (map print l)) + 1 <= fuel ->
  pelems fuel (commas (map print l) +:+ "]" +:+ rest) = Some (l, rest).
Proof.
  induction 1 as [|v l Hv Hl IH]; [done|]. intros _ [|fuel] rest Hf; [lia|]. cbn [pelems].
  destruct l as [|w l].
  - cbn [map commas] in *. rewrite Hv; [|lia|done]. by cbn.
  - cbn [map commas] in Hf |- *. rewrite !str_length_app in Hf. cbn [String.length] in Hf.
    rewrite !str_app_assoc, Hv; [|lia|done]. cbn [mbind option_bind].
    change ("," +:+ ?x) with (String "," x). rewrite expect_same by done.
    cbn [map commas] in IH. rewrite IH; [done|done|]. lia.
Qed.

Definition member (p : string * json) : string := quote p.1 +:+ ":" +:+ print p.2.

Lemma pmembers_step fuel k v r :
  readsBack v -> ascii_only k = true -> 2 * String.length (print v) <= fuel -> stops r ->
  pmembers (S fuel) (member (k, v) +:+ r)
  = match expect "," r with
    | Some r => '(l, r) ← pmembers fuel r; Some ((k, v) :: l, r)
    | None => r ← expect "}" r; Some ([(k, v)], r)
    end.
Proof.
  intros Hv Hk Hf Hr. cbn [pmembers]. unfold member. cbn [fst snd].
  rewrite !str_app_assoc, quote_app, expect_same by done. cbn [mbind option_bind].
  rewrite unquote_escape by done. cbn [mbind option_bind].
  change (":" +:+ ?x) with (String ":" x). rewrite expect_same by done. cbn [mbind option_bind].
  by rewrite Hv.
Qed.

Lemma member_length p : String.length (print p.2) < String.length (member p).
Proof. unfold member. rewrite !str_length_app. cbn [String.length]. lia. Qed.

Lemma pmembers_reads l :
  Forall (fun p => readsBack p.2) l -> Forall (fun p => ascii_only p.1 = true) l -> l <> [] -> forall fuel rest,
  2 * String.length (commas (map member l)) + 1 <= fuel ->
  pmembers fuel (commas (map member l) +:+ "}" +:+ rest) = Some (l, rest).
Proof.
  induction 1 as [|[k v] l Hv Hl IH]; [done|]. intros [Hk Hks]%Forall_cons _ [|fuel] rest Hf; [lia|].
  simpl in Hk, Hv. pose proof (member_length (k, v)) as Hlen. cbn [snd] in Hlen.
  destruct l as [|w l]; cbn [map commas] in Hf |- *.
  - by rewrite pmembers_step; [|done|done|lia|done].
  - rewrite !str_length_app in Hf. cbn [String.length] in Hf.
    rewrite !str_app_assoc, pmembers_step; [|done|done|lia|done].
    change ("," +:+ ?x) with (String "," x). rewrite expect_same by done.
    cbn [map commas] in IH. rewrite IH; [done|done|done|]. lia.
Qed.

Lemma commas_head x l : exists s, commas (x :: l) = x +:+ s.
Proof. destruct l; cbn [commas]; [exists ""; by rewrite str_app_nil_r|by eexists]. Qed.

Lemma forallb_Forall {A} (f : A -> bool) l : forallb f l = true -> Forall (fun x => f x = true) l.
Proof. rewrite forallb_forall. intros H. by apply List.Forall_forall. Qed.

Lemma Forall_impl_mp {A} (P Q : A -> Prop) l : Forall (fun x => P x -> Q x) l -> Forall P l -> Forall Q l.
Proof. induction 1; [done|]. intros [? ?]%Forall_cons. constructor; auto. Qed.

(** An object is read back in front of anything. *)
Lemma print_reads_obj l fuel rest :
  Forall (fun p => readsBack p.2) l -> writable (JObj l) = true -> 2 * String.length (print (JObj l)) <= fuel ->
  pvalue fuel (print (JObj l) +:+ rest) = Some (JObj l, rest).
Proof.
  intros IH Hw Hf. apply forallb_Forall in Hw. cbn [print] in Hf |- *. rewrite !str_length_app in Hf.
  cbn [String.length] in Hf. destruct fuel as [|fuel]; [lia|].
  rewrite !str_app_assoc. change ("{" +:+ ?x) with (String "{" x). cbn [pvalue].
  rewrite skipWs_head, decide_False, decide_False, decide_True by done.
  fold member in Hf |- *. destruct l as [|[k v] l]; [by cbn|].
  assert (expect "}" (commas (map member ((k, v) :: l)) +:+ "}" +:+ rest) = None) as ->.
  { destruct (commas_head (member (k, v)) (map member l)) as [s' E]. cbn [map]. rewrite E.
    unfold member. rewrite !str_app_assoc, quote_app. by apply expect_other. }
  rewrite pmembers_reads; [done|done| |done|lia].
  eapply Forall_impl; [exact Hw|]. by intros p [? _]%andb_true_iff.
Qed.

Lemma print_reads v : writable v = true -> readsBack v.
Proof.
  induction v as [|b|lit|s|l IH|l IH] using json_tree_ind; intros Hw [|fuel] rest Hf Hs;
    try (pose proof (print_head _ Hw) as (? & ? & E & _); rewrite E in Hf; simpl in Hf; lia).
  - by cbn.
  - by destruct b; cbn.
  - cbn [writable] in Hw. apply andb_true_iff in Hw as [Hv Hn].
    destruct (validNumber_head lit Hv) as (c & s & E & Hc).
    destruct (numHead_not c Hc) as (Hsp & N1 & N2 & N3 & _). cbn [pvalue print].
    rewrite <-(pword_num lit rest) by done. rewrite E, str_cons_app, skipWs_head by done.
    by rewrite !decide_False.
  - cbn [pvalue print]. rewrite quote_app, skipWs_head by done. rewrite decide_True by done.
    cbn [writable] in Hw. by rewrite unquote_escape.
  - apply forallb_Forall in Hw. cbn [print] in Hf |- *. rewrite !str_length_app in Hf. cbn [String.length] in Hf.
    rewrite !str_app_assoc. change ("[" +:+ ?x) with (String "[" x). cbn [pvalue].
    rewrite skipWs_head, decide_False, decide_True by done. destruct l as [|v l]; [by cbn|].
    assert (expect "]" (commas (map print (v :: l)) +:+ "]" +:+ rest) = None) as ->.
    { destruct (commas_head (print v) (map print l)) as [s' E]. cbn [map]. rewrite E, str_app_assoc.
      apply Forall_cons in Hw as [Hw _]. destruct (print_head v Hw) as (c & t & -> & Hc & Hn).
      rewrite str_cons_app. by apply expect_other. }
    rewrite pelems_reads; [done| |done|lia]. exact (Forall_impl_mp _ _ _ IH Hw).
  - apply print_reads_obj; [|done|done]. apply forallb_Forall in Hw. exact (Forall_impl_mp _ _ _ IH (Forall_impl _ _ _ Hw (fun p H => proj2 (proj1 (andb_true_iff _ _) H)))).
Qed.


(** What follows an object has to be white space. *)
Lemma parse_print l rest :
  writable (JObj l) = true ->
  parse (print (JObj l) +:+ rest) = if decide (skipWs rest = "") then Some (JObj l) else None.
Proof.
  intros Hw. unfold parse. rewrite print_reads_obj; [done| |done|rewrite str_length_app; lia].
  apply forallb_Forall in Hw. eapply Forall_impl; [exact Hw|]. intros p [_ Hp]%andb_true_iff. by apply print_reads.
Qed.

(** ** Numbers *)

Lemma pretty_N_go_head x s : (0 < x)%N -> exists c t, pretty_N_go x s = String c t /\ c <> "0"%char.
Proof.
  revert s. induction (N.lt_wf_0 x) as [x _ IH]; intros s Hx. rewrite pretty_N_go_step by lia.
  destruct (decide (x < 10)%N) as [Hlt|Hge].
  - rewrite N.div_small, N.mod_small by done. exists (pretty_N_char x), s. split; [done|].
    assert (x = 1 \/ x = 2 \/ x = 3 \/ x = 4 \/ x = 5 \/ x = 6 \/ x = 7 \/ x = 8 \/ x = 9)%N as H by lia.
    by repeat (destruct H as [->|H]; [by vm_compute|]); subst.
  - apply IH; [apply N.div_lt; lia|]. apply N.div_str_pos. lia.
Qed.

Lemma Itoa_head z : (0 < z)%Z -> exists c t, Itoa z = String c t /\ c <> "0"%char.
Proof.
  destruct z as [|p|p]; [lia| |lia]. intros _. unfold Itoa, pretty, pretty_Z, pretty, pretty_positive, pretty, pretty_N.
  rewrite decide_False by done. by apply pretty_N_go_head.
Qed.

Lemma dropDigits_digits s : digits s -> dropDigits s = "".
Proof. induction s as [|c s IH]; [done|]. intros [[d Hd] Hs]. simpl. rewrite Hd. auto. Qed.

Lemma allNum_digits s : digits s -> allNum s = true.
Proof.
  induction s as [|c s IH]; [done|]. intros [Hd Hs]. cbn [allNum]. unfold numChar.
  by rewrite bool_decide_eq_true_2, IH.
Qed.

Lemma validInt_Itoa z : (0 <= z)%Z -> validInt (Itoa z) = true.
Proof.
  intros Hz. destruct (decide (z = 0)%Z) as [->|Hn]; [by vm_compute|].
  destruct (Itoa_head z) as (c & t & E & Hc); [lia|]. pose proof (Itoa_digits z Hz) as Hd.
  rewrite E in *. destruct Hd as [Hd Hs]. cbn [validInt]. rewrite decide_False by done.
  by rewrite bool_decide_eq_true_2, dropDigits_digits.
Qed.

Lemma writable_Itoa z : writable (JNum (Itoa z)) = true.
Proof.
  cbn [writable]. destruct (decide (0 <= z)%Z) as [Hz|Hz].
  - rewrite (allNum_digits _ (Itoa_digits z Hz)), andb_true_r.
    destruct (Itoa_nonneg z Hz) as (c & s & E & Hc & _). pose proof (validInt_Itoa z Hz) as Hv.
    rewrite E in *. cbn [validNumber]. destruct (digit_not c Hc) as (N & _). by rewrite decide_False.
  - rewrite Itoa_neg by lia. rewrite str_cons_app, str_nil_app. cbn [validNumber allNum].
    rewrite decide_True, validInt_Itoa, allNum_digits by (done || lia || (apply Itoa_digits; lia)). done.
Qed.

Lemma ascii_digits s : digits s -> ascii_only s = true.
Proof.
  induction s as [|c s IH]; [done|]. intros [[d Hd] Hs]. cbn [ascii_only]. rewrite IH by done.
  rewrite andb_true_r. destruct c as [[] [] [] [] [] [] [] []]; try discriminate Hd; by vm_compute.
Qed.

Lemma ascii_Itoa z : ascii_only (Itoa z) = true.
Proof.
  destruct (decide (0 <= z)%Z) as [Hz|Hz]; [by apply ascii_digits, Itoa_digits|].
  rewrite Itoa_neg by lia. rewrite str_cons_app, str_nil_app. cbn [ascii_only].
  rewrite ascii_digits by (apply Itoa_digits; lia). done.
Qed.

(** ** Configurations *)

(** The numbers of a configuration are Go integers and its server names are
    ASCII. *)
Record encodable (cfg : ShardCfg.ShardConfig) : Prop := {
  en_num : (int_min <= ShardCfg.Num cfg <= int_max)%Z;
  en_shards : Forall (fun g => int_min <= g <= int_max)%Z (ShardCfg.Shards cfg);
  en_len : length (ShardCfg.Shards cfg) = ShardCfg.NShards;
  en_groups g srvs : ShardCfg.Groups cfg !! g = Some srvs ->
    (int_min <= g <= int_max)%Z /\ Forall (fun s => ascii_only s = true) srvs
}.

Lemma groupMembers_list m : exists l, l ≡ₚ map_to_list m /\
  groupMembers m = (fun p => (Itoa p.1, JArr (map JStr p.2))) <$> l.
Proof.
  unfold groupMembers. set (l0 := (fun p => (Itoa p.1, p.2)) <$> map_to_list m).
  pose proof (merge_sort_Permutation keyBefore l0) as Hp. unfold l0 in Hp at 2.
  apply Permutation_map_inv in Hp as (l & E & Hl). exists l. split; [done|]. rewrite E.
  change (List.map ?f l) with (f <$> l). by rewrite <-list_fmap_compose.
Qed.

Lemma decodeServers_print srvs : decodeServers (JArr (map JStr srvs)) = Some srvs.
Proof. cbn [decodeServers]. induction srvs as [|s srvs IH]; [done|]. cbn. cbn in IH. by rewrite IH. Qed.

Lemma decodeGroups_print l : forall m, NoDup l.*1 -> Forall (fun p => int_min <= p.1 <= int_max)%Z l ->
  decodeGroups ((fun p => (Itoa p.1, JArr (map JStr p.2))) <$> l) m = Some (list_to_map l ∪ m).
Proof.
  induction l as [|[g srvs] l IH]; intros m Hnd Hr; cbn [fmap list_fmap decodeGroups fst snd];
    [by rewrite list_to_map_nil, map_empty_union|].
  apply NoDup_cons in Hnd as [Hg Hnd]. apply Forall_cons in Hr as [Hg0 Hr]. simpl in Hg0.
  rewrite parseInt64_Itoa by done. cbn [mbind option_bind]. rewrite decodeServers_print. cbn [mbind option_bind].
  rewrite IH by done. f_equal. rewrite list_to_map_cons, <-insert_union_l, insert_union_r; [done|].
  by apply not_elem_of_list_to_map_1.
Qed.

Lemma decodeInts_print l : forall old, length old = length l -> Forall (fun g => int_min <= g <= int_max)%Z l ->
  decodeInts (map (fun g => JNum (Itoa g)) l) old = Some l.
Proof.
  induction l as [|g l IH]; intros [|x old] Hl Hr; try done. apply Forall_cons in Hr as [Hg Hr].
  cbn [map decodeInts decodeInt]. rewrite parseInt64_Itoa by done. cbn [mbind option_bind].
  rewrite IH; [done|by injection Hl|done].
Qed.


Lemma toJson_writable cfg : encodable cfg -> writable (toJson cfg) = true.
Proof.
  intros [_ _ _ Hg]. unfold toJson. cbn [writable forallb fst snd].
  assert (forallb writable (map (fun g => JNum (Itoa g)) (ShardCfg.Shards cfg)) = true) as ->.
  { apply forallb_forall. intros v (g & <- & _)%in_map_iff. apply writable_Itoa. }
  pose proof (writable_Itoa (ShardCfg.Num cfg)) as En. cbn [writable] in En. rewrite En.
  assert (forallb (fun p => ascii_only p.1 && writable p.2) (groupMembers (ShardCfg.Groups cfg)) = true) as ->.
  { destruct (groupMembers_list (ShardCfg.Groups cfg)) as (l & Hl & ->). apply forallb_forall.
    intros p Hp. apply list_elem_of_In, list_elem_of_fmap in Hp as ([g srvs] & -> & Hp).
    rewrite Hl in Hp. apply elem_of_map_to_list in Hp. destruct (Hg g srvs Hp) as [_ Hs].
    cbn [fst snd writable]. rewrite ascii_Itoa. apply forallb_forall. intros v (s & <- & Hin)%in_map_iff.
    cbn [writable]. rewrite Forall_forall in Hs. apply Hs. by apply list_elem_of_In. }
  done.
Qed.

Lemma decodeField_Num v cfg :
  decodeField ("Num", v) cfg
  = (n ← decodeInt v (ShardCfg.Num cfg);
     Some {| ShardCfg.Num := n; ShardCfg.Shards := ShardCfg.Shards cfg; ShardCfg.Groups := ShardCfg.Groups cfg |}).
Proof. reflexivity. Qed.

Lemma decodeField_Shards l cfg :
  decodeField ("Shards", JArr l) cfg
  = (s ← decodeInts l (ShardCfg.Shards cfg);
     Some {| ShardCfg.Num := ShardCfg.Num cfg; ShardCfg.Shards := s; ShardCfg.Groups := ShardCfg.Groups cfg |}).
Proof. reflexivity. Qed.

Lemma decodeField_Groups l cfg :
  decodeField ("Groups", JObj l) cfg
  = (m ← decodeGroups l (ShardCfg.Groups cfg);
     Some {| ShardCfg.Num := ShardCfg.Num cfg; ShardCfg.Shards := ShardCfg.Shards cfg; ShardCfg.Groups := m |}).
Proof. reflexivity. Qed.

Lemma decode_toJson cfg :
  encodable cfg ->
  decodeFields [("Num", JNum (Itoa (ShardCfg.Num cfg)));
    ("Shards", JArr (map (fun g => JNum (Itoa g)) (ShardCfg.Shards cfg)));
    ("Groups", JObj (groupMembers (ShardCfg.Groups cfg)))] zeroConfig = Some cfg.
Proof.
  intros [Hn Hs Hl Hg]. cbn [decodeFields]. rewrite decodeField_Num. cbn [decodeInt].
  rewrite parseInt64_Itoa by done. cbn [mbind option_bind]. rewrite decodeField_Shards.
  cbn [ShardCfg.Shards ShardCfg.Num ShardCfg.Groups zeroConfig].
  rewrite decodeInts_print; [|by rewrite length_replicate, Hl|done]. cbn [mbind option_bind].
  rewrite decodeField_Groups. cbn [ShardCfg.Shards ShardCfg.Num ShardCfg.Groups].
  destruct (groupMembers_list (ShardCfg.Groups cfg)) as (l & Hp & ->). rewrite decodeGroups_print.
  - cbn [mbind option_bind]. rewrite map_union_empty. destruct cfg as [n sh gs]. cbn in *. do 2 f_equal.
    rewrite <-(list_to_map_to_list gs). apply list_to_map_proper; [|done].
    rewrite Hp. apply NoDup_fst_map_to_list.
  - rewrite Hp. apply NoDup_fst_map_to_list.
  - rewrite Hp. apply Forall_forall. intros [g srvs] Hin%elem_of_map_to_list. by apply Hg in Hin as [? _].
Qed.

(** C30: a shard configuration survives its text.  For every configuration whose
    numbers fit Go's integers and whose server names are ASCII, [FromString]
    of [String] returns the configuration, whatever the order of the map, also
    with white space after it; if anything else follows, the process ends, as it
    does on text of white space only. *)
Theorem shard_config_roundtrip cfg rest :
  encodable cfg ->
  FromString (String_ cfg) = Return cfg /\
  (skipWs rest = "" -> FromString (String_ cfg +:+ rest) = Return cfg /\ exists m, FromString rest = Fatal m) /\
  (skipWs rest <> "" -> exists m, FromString (String_ cfg +:+ rest) = Fatal m).
Proof.
  intros He.
  assert (forall rest, skipWs rest = "" -> FromString (String_ cfg +:+ rest) = Return cfg) as Hok.
  { intros r Hr. unfold FromString, Unmarshal, String_, toJson. rewrite parse_print by exact (toJson_writable cfg He).
    rewrite decide_True by done. cbn [mbind option_bind]. by rewrite decode_toJson. }
  split; [rewrite <-(str_app_nil_r (String_ cfg)) at 1; by apply Hok|]. split; intros Hr.
  - split; [by apply Hok|]. unfold FromString, Unmarshal, parse. destruct (2 * String.length rest); cbn [pvalue]; [by eexists|].
    rewrite Hr. by eexists.
  - unfold FromString, Unmarshal, String_, toJson. rewrite parse_print by exact (toJson_writable cfg He).
    rewrite decide_False by done. by eexists.
Qed.

(** ** Witnesses *)

Definition exCfg : ShardCfg.ShardConfig :=
  {| ShardCfg.Num := 3; ShardCfg.Shards := [1; 1; 2; -7; 0; 0; 0; 0; 0; 0; 0; 0]%Z;
     ShardCfg.Groups := {[ 1%Z := ["server-1-0"; "a<b"]; 2%Z := [] ]} |}.

Lemma shard_config_roundtrip_witness :
  String.length (String_ exCfg) = 93 /\ FromString (String_ exCfg) = Return exCfg /\
  FromString (String_ exCfg +:+ "  ") = Return exCfg.
Proof.
  split; [vm_compute; reflexivity|]. destruct (shard_config_roundtrip exCfg "  ") as (H1 & H2 & _).
  2: { split; [exact H1|]. by apply H2. }
  constructor.
  - vm_compute. by split.
  - repeat constructor; by vm_compute.
  - reflexivity.
  - intros g srvs Hg. cbn [exCfg ShardCfg.Groups] in Hg.
    apply lookup_insert_Some in Hg as [[<- <-]|[_ [<- <-]%lookup_singleton_Some]].
    + split; [by vm_compute|]. repeat constructor.
    + split; [by vm_compute|]. constructor.
Defined.

End ShardJson.
