(* ===== verification/LabRpc.v ===== *)
(** * labrpc: the simulated network

    Models [src/src/labrpc/labrpc.go].  A network routes the calls of client
    ends to servers; it may lose requests and replies, delay them, and have
    its ends and servers reconfigured at any time.  Every [Call] is served by
    its own goroutine ([processReq]), and the handler runs in yet another one;
    a request is therefore a small state machine ([request]), and an execution
    interleaves the steps of all requests with reconfigurations.  Random
    numbers are arguments.  A handler call is one step: the model's receivers
    process a method atomically. *)

From Stdlib Require Import Ascii.
From S2P Require Import Prelude.

Module LabRpc.

Definition SHORTDELAY : Z := 27.
Definition LONGDELAY : Z := 7000.
Definition MAXDELAY : Z := LONGDELAY + 100.

Section LabRpc.
(** The state of the objects that receive calls. *)
Context {state : Type}.

(** ** Messages *)

(** [args] and [reply] are labgob encodings. *)
Record reqMsg := { endname : string; svcMeth : string; req_args : string }.
Record replyMsg := { ok : bool; reply : string }.
Definition failed : replyMsg := {| ok := false; reply := "" |}.

(** ** Services *)

(** What [reflect] says about a method: whether it is exported, the kinds of
    its parameters (receiver first; [true] for a pointer), the number of its
    results, and its behaviour on encoded arguments: decode the arguments, run
    the method on the receiver, encode the reply. *)
Record method := {
  m_name : string;
  m_exported : bool;
  m_in : list bool;
  m_numOut : Z;
  m_call : state -> string -> state * string
}.

Record Service := {
  svc_name : string;
  svc_rcvr : nat;
  svc_methods : gmap string method
}.

(** The test of [MakeService]; [mtype.In(2)] panics when there is no such
    parameter, and is evaluated only after [NumIn() != 3] failed. *)
Definition suitable (m : method) : outcome bool :=
  if negb (m_exported m) then Return false
  else if negb (bool_decide (len (m_in m) = 3)%Z) then Return false
  else
    isPtr ← slice_get (m_in m) 2;
    if negb isPtr then Return false
    else Return (bool_decide (m_numOut m = 0)%Z).

Fixpoint addMethods (ms : list method) (methods : gmap string method) : outcome (gmap string method) :=
  match ms with
  | [] => Return methods
  | m :: ms =>
      s ← suitable m;
      addMethods ms (if (s : bool) then <[m_name m := m]> methods else methods)
  end.

(** [rcvr] is the receiver's address, [name] the name of its type, [ms] the
    methods of the type. *)
Definition MakeService (name : string) (rcvr : nat) (ms : list method) : outcome Service :=
  methods ← addMethods ms ∅;
  mret {| svc_name := name; svc_rcvr := rcvr; svc_methods := methods |}.

(** The receivers' states, by address. *)
Definition objects : Type := gmap nat state.

Definition Service_dispatch (svc : Service) (methname : string) (req : reqMsg) (objs : objects)
    : outcome (replyMsg * objects) :=
  match svc_methods svc !! methname with
  | Some m =>
      match objs !! svc_rcvr svc with
      | Some st =>
          let '(st', rep) := m_call m st (req_args req) in
          Return ({| ok := true; reply := rep |}, <[svc_rcvr svc := st']> objs)
      | None => Panic "nil receiver"
      end
  | None => Fatal "labrpc.Service.dispatch(): unknown method"
  end.

(** ** Servers *)

Record Server := { services : gmap string Service; srv_count : Z }.

Definition MakeServer : Server := {| services := ∅; srv_count := 0 |}.

Definition AddService (svc : Service) (rs : Server) : Server :=
  {| services := <[svc_name svc := svc]> (services rs); srv_count := srv_count rs |}.

(** [strings.LastIndex(s, ".")] and the two slices around it: [None] when there
    is no dot (the slice bounds are then out of range). *)
Fixpoint splitLastDot (s : string) : option (string * string) :=
  match s with
  | EmptyString => None
  | String c s' =>
      match splitLastDot s' with
      | Some (a, b) => Some (String c a, b)
      | None => if decide (c = "."%char) then Some ("", s') else None
      end
  end.

Definition Server_dispatch (rs : Server) (req : reqMsg) (objs : objects)
    : outcome (replyMsg * Server * objects) :=
  let rs' := {| services := services rs; srv_count := wrap64 (srv_count rs + 1) |} in
  match splitLastDot (svcMeth req) with
  | None => Panic "slice bounds out of range"
  | Some (serviceName, methodName) =>
      match services rs !! serviceName with
      | Some service =>
          '(rep, objs') ← Service_dispatch service methodName req objs;
          mret (rep, rs', objs')
      | None => Fatal "labrpc.Server.dispatch(): unknown service"
      end
  end.

(** ** The network *)

(** A server is known by its address; a deleted server's entry is nil.
    [done_closed] says that the channel [done] is closed, [loop_done] that the
    goroutine of [MakeNetwork] has returned. *)
Record Network := {
  reliable : bool;
  longDelays : bool;
  longReordering : bool;
  ends : gset string;
  enabled : gmap string bool;
  servers : gmap string (option nat);
  connections : gmap string (option string);
  net_count : Z;
  net_bytes : Z;
  done_closed : bool;
  loop_done : bool
}.

Definition MakeNetwork : Network :=
  {| reliable := true; longDelays := false; longReordering := false; ends := ∅; enabled := ∅;
     servers := ∅; connections := ∅; net_count := 0; net_bytes := 0; done_closed := false;
     loop_done := false |}.

(** Field updates. *)
Definition with_flags (rn : Network) (r ld lr : bool) : Network :=
  {| reliable := r; longDelays := ld; longReordering := lr; ends := ends rn;
     enabled := enabled rn; servers := servers rn; connections := connections rn;
     net_count := net_count rn; net_bytes := net_bytes rn; done_closed := done_closed rn;
     loop_done := loop_done rn |}.
Definition with_ends (rn : Network) (e : gset string) (en : gmap string bool)
    (co : gmap string (option string)) : Network :=
  {| reliable := reliable rn; longDelays := longDelays rn; longReordering := longReordering rn;
     ends := e; enabled := en; servers := servers rn; connections := co;
     net_count := net_count rn; net_bytes := net_bytes rn; done_closed := done_closed rn;
     loop_done := loop_done rn |}.
Definition with_servers (rn : Network) (sv : gmap string (option nat)) : Network :=
  {| reliable := reliable rn; longDelays := longDelays rn; longReordering := longReordering rn;
     ends := ends rn; enabled := enabled rn; servers := sv; connections := connections rn;
     net_count := net_count rn; net_bytes := net_bytes rn; done_closed := done_closed rn;
     loop_done := loop_done rn |}.
Definition with_stats (rn : Network) (cnt bts : Z) (d : bool) : Network :=
  {| reliable := reliable rn; longDelays := longDelays rn; longReordering := longReordering rn;
     ends := ends rn; enabled := enabled rn; servers := servers rn; connections := connections rn;
     net_count := cnt; net_bytes := bts; done_closed := d; loop_done := loop_done rn |}.
Definition with_loop_done (rn : Network) : Network :=
  {| reliable := reliable rn; longDelays := longDelays rn; longReordering := longReordering rn;
     ends := ends rn; enabled := enabled rn; servers := servers rn; connections := connections rn;
     net_count := net_count rn; net_bytes := net_bytes rn; done_closed := done_closed rn;
     loop_done := true |}.

Definition Reliable (yes : bool) (rn : Network) : Network :=
  with_flags rn yes (longDelays rn) (longReordering rn).
Definition IsReliable (rn : Network) : bool := reliable rn.
Definition LongReordering (yes : bool) (rn : Network) : Network :=
  with_flags rn (reliable rn) (longDelays rn) yes.
Definition LongDelays (yes : bool) (rn : Network) : Network :=
  with_flags rn (reliable rn) yes (longReordering rn).
Definition IsLongDelays (rn : Network) : bool := longDelays rn.

(** [close(rn.done)]: closing twice panics. *)
Definition Cleanup (rn : Network) : outcome Network :=
  if done_closed rn then Panic "close of closed channel"
  else Return (with_stats rn (net_count rn) (net_bytes rn) true).

Definition MakeEnd (e : string) (rn : Network) : outcome Network :=
  if decide (e ∈ ends rn) then Fatal "MakeEnd: already exists"
  else Return (with_ends rn ({[e]} ∪ ends rn) (<[e := false]> (enabled rn))
                 (<[e := None]> (connections rn))).

Definition DeleteEnd (e : string) (rn : Network) : outcome Network :=
  if decide (e ∉ ends rn) then Fatal "MakeEnd: doesn't exists"
  else Return (with_ends rn (ends rn ∖ {[e]}) (delete e (enabled rn)) (delete e (connections rn))).

Definition AddServer (name : string) (rs : nat) (rn : Network) : Network :=
  with_servers rn (<[name := Some rs]> (servers rn)).
Definition DeleteServer (name : string) (rn : Network) : Network :=
  with_servers rn (<[name := None]> (servers rn)).
Definition Connect (e name : string) (rn : Network) : Network :=
  with_ends rn (ends rn) (enabled rn) (<[e := Some name]> (connections rn)).
Definition Enable (e : string) (on : bool) (rn : Network) : Network :=
  with_ends rn (ends rn) (<[e := on]> (enabled rn)) (connections rn).

(** Lookups of a missing key yield the zero value. *)
Definition endEnabled (rn : Network) (e : string) : bool := default false (enabled rn !! e).
Definition serverOf (rn : Network) (name : string) : option nat := mjoin (servers rn !! name).

Definition Server_GetCount (rs : Server) : Z := srv_count rs.

(** [rn.servers[servername].GetCount()]: a nil server panics. *)
Definition GetCount (heap : gmap nat Server) (name : string) (rn : Network) : outcome Z :=
  match serverOf rn name with
  | None => Panic "nil pointer dereference"
  | Some sid => match heap !! sid with
                | Some rs => Return (Server_GetCount rs)
                | None => Panic "nil pointer dereference"
                end
  end.
Definition GetTotalCount (rn : Network) : Z := net_count rn.
Definition GetTotalBytes (rn : Network) : Z := net_bytes rn.

Definition readEndnameInfo (rn : Network) (e : string)
    : bool * option string * option nat * bool * bool :=
  let servername := mjoin (connections rn !! e) in
  let server := servername ≫= serverOf rn in
  (endEnabled rn e, servername, server, reliable rn, longReordering rn).

Definition isServerDead (rn : Network) (e : string) (servername : string) (server : nat) : bool :=
  negb (endEnabled rn e) || negb (bool_decide (serverOf rn servername = Some server)).

(** ** One request *)

(** What [processReq] read when it started. *)
Record route := {
  rt_servername : string;
  rt_server : nat;
  rt_reliable : bool;
  rt_longreordering : bool
}.

(** Where [processReq] is: about to read the network; waiting for the handler;
    about to deliver a reply, the server having been found alive; answered. *)
Inductive stage :=
| Start
| Waiting (rt : route)
| Replying (rt : route) (rep : replyMsg)
| Answered (rep : replyMsg).

(** Where the handler's goroutine is. *)
Inductive handler :=
| NotStarted
| Running (server : nat)
| Returned (rep : replyMsg).

#[export] Instance replyMsg_eq_dec : EqDecision replyMsg.
Proof. solve_decision. Defined.
#[export] Instance handler_eq_dec : EqDecision handler.
Proof. solve_decision. Defined.

Record request := { rq_msg : reqMsg; rq_stage : stage; rq_handler : handler }.

(** The drop test: [rand.Int()%1000 < 100]. *)
Definition dropped (rnd : Z) : bool := bool_decide (rnd mod 1000 < 100)%Z.

(** The delays of [processReq] in milliseconds: before the handler is called when
    the network is not reliable, before a reply that is reordered, and before
    the failure when no server can be reached. *)
Definition requestDelay (r : Z) (rn : Network) : Z := if reliable rn then 0 else r mod SHORTDELAY.
Definition reorderDelay (r r' : Z) : Z := 200 + r mod (1 + r' mod 2000).
Definition unreachableDelay (r : Z) (rn : Network) : Z :=
  if IsLongDelays rn then r mod LONGDELAY else r mod 100.

(** None of them reaches [MAXDELAY]; a clerk that tries an unreachable server is
    held up for less than a tenth of a second unless long delays are on. *)
Lemma delays_bounded r r' rn :
  (0 <= requestDelay r rn < SHORTDELAY)%Z /\ (200 <= reorderDelay r r' < 2200)%Z /\
  (0 <= unreachableDelay r rn < if IsLongDelays rn then LONGDELAY else 100)%Z /\
  (requestDelay r rn + reorderDelay r r' < MAXDELAY)%Z /\ (unreachableDelay r rn < MAXDELAY)%Z.
Proof.
  unfold requestDelay, reorderDelay, unreachableDelay, MAXDELAY, LONGDELAY, SHORTDELAY.
  pose proof (Z.mod_pos_bound r' 2000). pose proof (Z.mod_pos_bound r 27).
  pose proof (Z.mod_pos_bound r 7000). pose proof (Z.mod_pos_bound r 100).
  pose proof (Z.mod_pos_bound r (1 + r' mod 2000)). destruct (reliable rn), (IsLongDelays rn); lia.
Qed.

(** The first part of [processReq], up to launching the handler. *)
Definition processStart (rnd : Z) (rn : Network) (req : reqMsg) : stage * handler :=
  match readEndnameInfo rn (endname req) with
  | (true, Some servername, Some server, rel, longreordering) =>
      if negb rel && dropped rnd then (Answered failed, NotStarted)
      else (Waiting {| rt_servername := servername; rt_server := server;
                       rt_reliable := rel; rt_longreordering := longreordering |},
            Running server)
  | _ => (Answered failed, NotStarted)
  end.

(** The timer branch of the waiting loop: give up when the server is dead. *)
Definition processTimeout (rn : Network) (req : reqMsg) (rt : route) : stage :=
  if isServerDead rn (endname req) (rt_servername rt) (rt_server rt)
  then Answered failed else Waiting rt.

(** The handler's reply arrived: the second liveness check and the choice
    between dropping and delivering. *)
Definition processReply (rnd : Z) (rn : Network) (req : reqMsg) (rt : route) (rep : replyMsg) : stage :=
  if isServerDead rn (endname req) (rt_servername rt) (rt_server rt) then Answered failed
  else if negb (rt_reliable rt) && dropped rnd then Answered failed
  else Replying rt rep.

(** ** Executions *)

(** One entry per handler execution: request, server, call and reply. *)
Record execution := {
  ex_req : nat;
  ex_server : nat;
  ex_msg : reqMsg;
  ex_reply : replyMsg
}.

Record world := {
  net : Network;
  heap : gmap nat Server;
  objs : objects;
  reqs : list request;
  log : list execution
}.

(** Reconfigurations of the network. *)
Inductive netop :=
| OpReliable (yes : bool) | OpLongReordering (yes : bool) | OpLongDelays (yes : bool)
| OpCleanup
| OpMakeEnd (e : string) | OpDeleteEnd (e : string)
| OpAddServer (name : string) (rs : nat) | OpDeleteServer (name : string)
| OpConnect (e name : string) | OpEnable (e : string) (on : bool).

Definition applyOp (op : netop) (rn : Network) : outcome Network :=
  match op with
  | OpReliable yes => Return (Reliable yes rn)
  | OpLongReordering yes => Return (LongReordering yes rn)
  | OpLongDelays yes => Return (LongDelays yes rn)
  | OpCleanup => Cleanup rn
  | OpMakeEnd e => MakeEnd e rn
  | OpDeleteEnd e => DeleteEnd e rn
  | OpAddServer name rs => Return (AddServer name rs rn)
  | OpDeleteServer name => Return (DeleteServer name rn)
  | OpConnect e name => Return (Connect e name rn)
  | OpEnable e on => Return (Enable e on rn)
  end.

Definition set_reqs (w : world) (i : nat) (r : request) : world :=
  {| net := net w; heap := heap w; objs := objs w; reqs := <[i := r]> (reqs w); log := log w |}.

(** The network's goroutine counts the request and starts [processReq]; the
    counters are an [int32] and an [int64]. *)
Definition accept (msg : reqMsg) (w : world) : world :=
  {| net := with_stats (net w) (wrap32 (net_count (net w) + 1))
       (wrap64 (net_bytes (net w) + Z.of_nat (String.length (req_args msg)))) (done_closed (net w));
     heap := heap w; objs := objs w;
     reqs := reqs w ++ [{| rq_msg := msg; rq_stage := Start; rq_handler := NotStarted |}];
     log := log w |}.

Inductive step : world -> world -> Prop :=
(** reconfiguration, and new servers *)
| step_op op w rn :
    applyOp op (net w) = Return rn ->
    step w {| net := rn; heap := heap w; objs := objs w; reqs := reqs w; log := log w |}
| step_server sid rs w :
    heap w !! sid = None -> srv_count rs = 0%Z ->
    step w {| net := net w; heap := <[sid := rs]> (heap w); objs := objs w;
              reqs := reqs w; log := log w |}
(** [Call]: the request reaches the network's goroutine, which may still take
    requests after [Cleanup] *)
| step_call msg w :
    loop_done (net w) = false -> step w (accept msg w)
(** [Call]: the network has been cleaned up *)
| step_call_done msg w :
    done_closed (net w) = true ->
    step w {| net := net w; heap := heap w; objs := objs w;
              reqs := reqs w ++ [{| rq_msg := msg; rq_stage := Answered failed;
                                    rq_handler := NotStarted |}];
              log := log w |}
(** [processReq] starts *)
| step_start rnd w i msg st h :
    reqs w !! i = Some {| rq_msg := msg; rq_stage := Start; rq_handler := NotStarted |} ->
    processStart rnd (net w) msg = (st, h) ->
    step w (set_reqs w i {| rq_msg := msg; rq_stage := st; rq_handler := h |})
(** the handler's goroutine runs *)
| step_handler w i msg st sid rs rep rs' objs' :
    reqs w !! i = Some {| rq_msg := msg; rq_stage := st; rq_handler := Running sid |} ->
    heap w !! sid = Some rs ->
    Server_dispatch rs msg (objs w) = Return (rep, rs', objs') ->
    step w {| net := net w; heap := <[sid := rs']> (heap w); objs := objs';
              reqs := <[i := {| rq_msg := msg; rq_stage := st; rq_handler := Returned rep |}]> (reqs w);
              log := log w ++ [{| ex_req := i; ex_server := sid; ex_msg := msg; ex_reply := rep |}] |}
(** the waiting loop's timer *)
| step_timeout w i msg rt h :
    reqs w !! i = Some {| rq_msg := msg; rq_stage := Waiting rt; rq_handler := h |} ->
    step w (set_reqs w i {| rq_msg := msg; rq_stage := processTimeout (net w) msg rt;
                            rq_handler := h |})
(** the waiting loop receives the handler's reply *)
| step_reply rnd w i msg rt rep :
    reqs w !! i = Some {| rq_msg := msg; rq_stage := Waiting rt; rq_handler := Returned rep |} ->
    step w (set_reqs w i {| rq_msg := msg; rq_stage := processReply rnd (net w) msg rt rep;
                            rq_handler := Returned rep |})
(** the reply is delivered, at once or after a delay *)
| step_deliver w i msg rt rep h :
    reqs w !! i = Some {| rq_msg := msg; rq_stage := Replying rt rep; rq_handler := h |} ->
    step w {| net := with_stats (net w) (net_count (net w))
                (wrap64 (net_bytes (net w) + Z.of_nat (String.length (reply rep)))) (done_closed (net w));
              heap := heap w; objs := objs w;
              reqs := <[i := {| rq_msg := msg; rq_stage := Answered rep; rq_handler := h |}]> (reqs w);
              log := log w |}
(** the network's goroutine returns *)
| step_loop_done w :
    done_closed (net w) = true ->
    step w {| net := with_loop_done (net w); heap := heap w; objs := objs w; reqs := reqs w;
              log := log w |}.

Definition init (o : objects) : world :=
  {| net := MakeNetwork; heap := ∅; objs := o; reqs := []; log := [] |}.

Definition reachable (w : world) : Prop := exists o, rtc step (init o) w.

(** ** Invariant *)

(** The handler of a request has run exactly as often as its state says. *)
Definition handler_ok (w : world) (i : nat) (r : request) : Prop :=
  match rq_handler r with
  | Returned rep =>
      ok rep = true /\
      exists sid, filter (fun e => ex_req e = i) (log w)
        = [{| ex_req := i; ex_server := sid; ex_msg := rq_msg r; ex_reply := rep |}]
  | _ => filter (fun e => ex_req e = i) (log w) = []
  end.

(** A reply on its way is the handler's reply. *)
Definition stage_ok (r : request) : Prop :=
  match rq_stage r with
  | Start => rq_handler r = NotStarted
  | Waiting rt => rq_handler r <> NotStarted
  | Replying rt rep => rq_handler r = Returned rep
  | Answered rep => ok rep = true -> rq_handler r = Returned rep
  end.

Record Inv (w : world) : Prop := {
  Inv_handler i r : reqs w !! i = Some r -> handler_ok w i r;
  Inv_stage i r : reqs w !! i = Some r -> stage_ok r;
  Inv_log e : e ∈ log w -> ex_req e < length (reqs w)
}.

Lemma filter_log_fresh w : Inv w -> filter (fun e => ex_req e = length (reqs w)) (log w) = [].
Proof.
  intros []. apply filter_none_nil, Forall_forall. intros e He E.
  specialize (Inv_log0 e He). lia.
Qed.

Lemma Inv_same_reqs w w' : reqs w' = reqs w -> log w' = log w -> Inv w -> Inv w'.
Proof. intros Hr Hl []. constructor; unfold handler_ok; rewrite ?Hr, ?Hl; auto. Qed.

Lemma Inv_new_request w w' r :
  reqs w' = reqs w ++ [r] -> log w' = log w -> rq_handler r = NotStarted -> stage_ok r ->
  Inv w -> Inv w'.
Proof.
  intros Hr Hl Hh Hs HI. pose proof (filter_log_fresh w HI) as Hf. destruct HI.
  constructor; unfold handler_ok; rewrite ?Hr, ?Hl.
  - intros i q [Hq|[Hi Hq]]%lookup_app_Some; [by apply Inv_handler0|].
    apply list_lookup_singleton_Some in Hq as [Hz <-]. rewrite Hh.
    replace i with (length (reqs w)) by lia. done.
  - intros i q [Hq|[Hi Hq]]%lookup_app_Some; [by eapply Inv_stage0|].
    by apply list_lookup_singleton_Some in Hq as [_ <-].
  - intros e He. rewrite length_app. specialize (Inv_log0 e He). lia.
Qed.

(** A step of request [i] that does not run its handler. *)
Lemma Inv_update w w' i r r' :
  reqs w !! i = Some r -> reqs w' = <[i := r']> (reqs w) -> log w' = log w ->
  rq_msg r' = rq_msg r ->
  rq_handler r' = rq_handler r \/ (rq_handler r = NotStarted /\ exists sid, rq_handler r' = Running sid) ->
  stage_ok r' -> Inv w -> Inv w'.
Proof.
  intros Hi Hr Hl Hm Hh Hs []. constructor; unfold handler_ok; rewrite ?Hr, ?Hl.
  - intros j q. rewrite list_lookup_insert. case_decide as Hj; [|apply Inv_handler0].
    destruct Hj as [<- _]. intros [= <-]. specialize (Inv_handler0 i r Hi).
    unfold handler_ok in Inv_handler0. rewrite Hm.
    destruct Hh as [-> |[Hn [sid ->]]]; [done|]. by rewrite Hn in Inv_handler0.
  - intros j q. rewrite list_lookup_insert. case_decide as Hj; [|apply Inv_stage0].
    by intros [= <-].
  - intros e He. rewrite length_insert. by apply Inv_log0.
Qed.

Lemma dispatch_ok rs msg o rep rs' o' :
  Server_dispatch rs msg o = Return (rep, rs', o') -> ok rep = true.
Proof.
  unfold Server_dispatch, Service_dispatch. repeat case_match; simpl; try done.
  all: by intros [= <- _ _].
Qed.

(** The step that runs the handler of request [i]. *)
Lemma Inv_handler_step w w' i msg st sid rep :
  reqs w !! i = Some {| rq_msg := msg; rq_stage := st; rq_handler := Running sid |} ->
  reqs w' = <[i := {| rq_msg := msg; rq_stage := st; rq_handler := Returned rep |}]> (reqs w) ->
  log w' = log w ++ [{| ex_req := i; ex_server := sid; ex_msg := msg; ex_reply := rep |}] ->
  ok rep = true -> Inv w -> Inv w'.
Proof.
  intros Hi Hr Hl Hok []. constructor; unfold handler_ok; rewrite ?Hr, ?Hl.
  - intros j q. rewrite list_lookup_insert, filter_app, filter_cons, filter_nil.
    case_decide as Hj; simpl.
    + destruct Hj as [<- _]. intros [= <-]. simpl. split; [done|]. exists sid.
      specialize (Inv_handler0 i _ Hi). unfold handler_ok in Inv_handler0. simpl in Inv_handler0.
      by rewrite Inv_handler0, decide_True.
    + intros Hq. rewrite decide_False; [rewrite app_nil_r; by apply Inv_handler0|].
      intros ->. apply Hj. split; [done|]. by eapply lookup_lt_Some.
  - intros j q. rewrite list_lookup_insert. case_decide as Hj; [|apply Inv_stage0].
    intros [= <-]. specialize (Inv_stage0 i _ Hi). unfold stage_ok in *. simpl in *.
    destruct st; try done. intros Hr'. by specialize (Inv_stage0 Hr').
  - intros e He. rewrite length_insert. apply elem_of_app in He as [He|He]; [by apply Inv_log0|].
    apply list_elem_of_singleton in He as ->. simpl. by eapply lookup_lt_Some.
Qed.

Lemma processStart_stage rnd rn msg st h :
  processStart rnd rn msg = (st, h) ->
  (st = Answered failed /\ h = NotStarted) \/ (exists rt, st = Waiting rt /\ h = Running (rt_server rt)).
Proof. unfold processStart. repeat case_match; intros [= <- <-]; eauto. Qed.

Lemma rpc_inv_step w w' : step w w' -> Inv w -> Inv w'.
Proof.
  destruct 1 as [op w rn _|sid rs w _ _|msg w _|msg w _|rnd w i msg st h Hi Hst
    |w i msg st sid rs rep rs' objs' Hi Hh Hd|w i msg rt h Hi|rnd w i msg rt rep Hi
    |w i msg rt rep h Hi|w _]; intros HI.
  - by eapply (Inv_same_reqs w).
  - by eapply (Inv_same_reqs w).
  - by eapply (Inv_new_request w).
  - by eapply (Inv_new_request w).
  - apply processStart_stage in Hst as [[-> ->]|(rt & -> & ->)];
      (eapply (Inv_update w); [exact Hi|done|done|done| |done|done]); simpl; eauto.
  - eapply (Inv_handler_step w); eauto using dispatch_ok.
  - eapply (Inv_update w); [exact Hi|done|done|done|by left| |done].
    pose proof (Inv_stage _ HI i _ Hi) as Hs. unfold stage_ok, processTimeout in *. simpl in *.
    destruct (isServerDead _ _ _ _); [discriminate|done].
  - eapply (Inv_update w); [exact Hi|done|done|done|by left| |done].
    unfold stage_ok, processReply. simpl. repeat case_match; simplify_eq; (discriminate || done).
  - eapply (Inv_update w); [exact Hi|done|done|done|by left| |done].
    pose proof (Inv_stage _ HI i _ Hi) as Hs. unfold stage_ok in *. simpl in *. by intros _.
  - by eapply (Inv_same_reqs w).
Qed.

Lemma rpc_inv_reachable w : reachable w -> Inv w.
Proof.
  intros [o Hr]. assert (Inv (init o)) as HI by (by constructor; simpl; intros; inv H).
  induction Hr; eauto using rpc_inv_step.
Qed.

(** ** What one step does to one request *)

(** The part of a step that concerns request [i]. *)
Inductive req_step (rn : Network) : request -> request -> Prop :=
| rs_same r : req_step rn r r
| rs_start rnd msg st h :
    processStart rnd rn msg = (st, h) ->
    req_step rn {| rq_msg := msg; rq_stage := Start; rq_handler := NotStarted |}
                {| rq_msg := msg; rq_stage := st; rq_handler := h |}
| rs_handler msg st sid rep :
    ok rep = true ->
    req_step rn {| rq_msg := msg; rq_stage := st; rq_handler := Running sid |}
                {| rq_msg := msg; rq_stage := st; rq_handler := Returned rep |}
| rs_timeout msg rt h :
    req_step rn {| rq_msg := msg; rq_stage := Waiting rt; rq_handler := h |}
                {| rq_msg := msg; rq_stage := processTimeout rn msg rt; rq_handler := h |}
| rs_reply rnd msg rt rep :
    req_step rn {| rq_msg := msg; rq_stage := Waiting rt; rq_handler := Returned rep |}
                {| rq_msg := msg; rq_stage := processReply rnd rn msg rt rep;
                   rq_handler := Returned rep |}
| rs_deliver msg rt rep h :
    req_step rn {| rq_msg := msg; rq_stage := Replying rt rep; rq_handler := h |}
                {| rq_msg := msg; rq_stage := Answered rep; rq_handler := h |}.

Lemma step_req w w' i r :
  step w w' -> reqs w !! i = Some r -> exists r', reqs w' !! i = Some r' /\ req_step (net w) r r'.
Proof.
  assert (forall j x y, reqs w !! j = Some x -> reqs w !! i = Some r -> req_step (net w) x y ->
    exists r', <[j := y]> (reqs w) !! i = Some r' /\ req_step (net w) r r') as Hins.
  { intros j x y Hj Hi Hs. rewrite list_lookup_insert. case_decide as Hd.
    - destruct Hd as [<- _]. simplify_eq. eauto.
    - exists r. split; [done|constructor]. }
  destruct 1; simpl; intros Hi;
    try (eapply Hins; [eassumption|done|by econstructor; eauto using dispatch_ok]);
    exists r; (split; [|constructor]); try done; by apply lookup_app_l_Some.
Qed.

(** The server that request [i] was sent to has been deleted or replaced, and is
    not registered again. *)
Definition stays_gone (name : string) (sid : nat) (w w' : world) : Prop :=
  step w w' /\ serverOf (net w') name <> Some sid.

Definition unanswered (name : string) (sid : nat) (r : request) : Prop :=
  match rq_stage r with
  | Waiting rt => rt_servername rt = name /\ rt_server rt = sid
  | Answered rep => ok rep = false
  | _ => False
  end.

Lemma isServerDead_gone rn e name sid : serverOf rn name <> Some sid -> isServerDead rn e name sid = true.
Proof.
  intros Hn. unfold isServerDead. rewrite (bool_decide_eq_false_2 _ Hn). apply orb_true_r.
Qed.

Lemma unanswered_step rn name sid r r' :
  serverOf rn name <> Some sid -> req_step rn r r' -> unanswered name sid r -> unanswered name sid r'.
Proof.
  intros Hg Hs. destruct Hs as [|? ? ? ? Hst|msg st|msg rt h|rnd msg rt rep| ]; unfold unanswered; simpl;
    try done.
  - intros [<- <-]. unfold processTimeout. by rewrite isServerDead_gone.
  - intros [<- <-]. unfold processReply. by rewrite isServerDead_gone.
Qed.

Lemma gone_steps name sid w w' i r :
  rtc (stays_gone name sid) w w' -> serverOf (net w) name <> Some sid ->
  reqs w !! i = Some r -> unanswered name sid r ->
  exists r', reqs w' !! i = Some r' /\ unanswered name sid r'.
Proof.
  intros Hr. revert r. induction Hr as [|w w1 w' [Hs Hg1] _ IH]; intros r Hg Hi Hu; [by exists r|].
  destruct (step_req _ _ _ _ Hs Hi) as (r1 & Hi1 & Hs1). eapply IH; [done|done|].
  by eapply unanswered_step.
Qed.

(** ** A reliable network *)

(** The end [e] is enabled and leads to the live server [sid]. *)
Definition up (e name : string) (sid : nat) (w : world) : Prop :=
  reliable (net w) = true /\ endEnabled (net w) e = true /\
  mjoin (connections (net w) !! e) = Some name /\ serverOf (net w) name = Some sid.

Definition stays_up (e name : string) (sid : nat) (w w' : world) : Prop :=
  step w w' /\ up e name sid w'.

Definition on_course (e name : string) (sid : nat) (r : request) : Prop :=
  endname (rq_msg r) = e /\
  (forall rep, rq_handler r = Returned rep -> ok rep = true) /\
  match rq_stage r with
  | Start => True
  | Waiting rt => rt_servername rt = name /\ rt_server rt = sid /\ rt_reliable rt = true
  | Replying _ rep => ok rep = true
  | Answered rep => ok rep = true
  end.

Lemma isServerDead_up e name sid w : up e name sid w -> isServerDead (net w) e name sid = false.
Proof.
  intros (_ & He & _ & Hs). unfold isServerDead. rewrite He, Hs. by rewrite bool_decide_eq_true_2.
Qed.

Lemma on_course_step e name sid w r r' :
  up e name sid w -> req_step (net w) r r' -> on_course e name sid r -> on_course e name sid r'.
Proof.
  intros Hup Hs (He & Hh & Hst). unfold on_course.
  destruct Hs as [r|rnd msg st h Hst'|msg st sd rep Hok|msg rt h|rnd msg rt rep|msg rt rep h];
    simpl in *; try by split_and!.
  - destruct Hup as (Hrel & Hen & Hco & Hsv). unfold processStart, readEndnameInfo in Hst'.
    rewrite He, Hen, Hco in Hst'. simpl in Hst'. rewrite Hsv, Hrel in Hst'. simpl in Hst'.
    injection Hst' as <- <-. by split_and!.
  - split_and!; [done| |by destruct st]. by intros ? [= <-].
  - destruct Hst as (<- & <- & Hrel). unfold processTimeout. rewrite He.
    rewrite (isServerDead_up _ _ _ _ Hup). by split_and!.
  - destruct Hst as (<- & <- & Hrel). unfold processReply. rewrite He, Hrel. simpl.
    rewrite (isServerDead_up _ _ _ _ Hup). split_and!; auto.
Qed.

Lemma up_steps e name sid w w' i r :
  rtc (stays_up e name sid) w w' -> up e name sid w ->
  reqs w !! i = Some r -> on_course e name sid r ->
  exists r', reqs w' !! i = Some r' /\ on_course e name sid r'.
Proof.
  intros Hr. revert r. induction Hr as [|w w1 w' [Hs Hg1] _ IH]; intros r Hg Hi Hu; [by exists r|].
  destruct (step_req _ _ _ _ Hs Hi) as (r1 & Hi1 & Hs1). eapply IH; [done|done|].
  by eapply on_course_step.
Qed.

(** ** Counting executions *)

Record Counts (w : world) : Prop := {
  Counts_heap sid rs : heap w !! sid = Some rs ->
    srv_count rs = wrap64 (Z.of_nat (count (fun e => ex_server e = sid) (log w)));
  Counts_log e : e ∈ log w -> is_Some (heap w !! ex_server e)
}.

Lemma dispatch_count rs msg o rep rs' o' :
  Server_dispatch rs msg o = Return (rep, rs', o') -> srv_count rs' = wrap64 (srv_count rs + 1).
Proof.
  unfold Server_dispatch, Service_dispatch. repeat case_match; simpl; try done.
  all: by intros [= _ <- _].
Qed.

Lemma Counts_step w w' : step w w' -> Counts w -> Counts w'.
Proof.
  intros Hs [Hh Hl].
  destruct Hs as [ |sid rs w Hf H0| | | |w i msg st sid rs rep rs' objs' Hi Hsid Hd| | | |];
    try by constructor.
  - constructor; simpl.
    + intros s r. rewrite lookup_insert. case_decide as Hs; [|apply Hh].
      subst s. intros [= <-]. rewrite H0, count_none; [done|].
      apply Forall_forall. intros e He E. destruct (Hl e He) as [x Hx]. congruence.
    + intros e He. rewrite lookup_insert. case_decide; [by eexists|auto].
  - constructor; simpl.
    + intros s r. rewrite count_app, count_cons. simpl. destruct (decide (sid = s)) as [<-|Hs].
      * rewrite lookup_insert_eq. intros [= <-].
        rewrite (dispatch_count _ _ _ _ _ _ Hd), (Hh _ _ Hsid), wrap64_add.
        f_equal. unfold count at 3. simpl. lia.
      * rewrite lookup_insert_ne, Nat.add_0_r by done. apply Hh.
    + intros e [He| ->%list_elem_of_singleton]%elem_of_app; rewrite lookup_insert; case_decide;
        try (by eexists); auto.
Qed.

(** ** Counting requests *)

(** [sends n w w']: an execution in which the network accepts [n] requests. *)
Inductive sends : nat -> world -> world -> Prop :=
| sends_refl w : sends 0 w w
| sends_call n msg w w' :
    loop_done (net w) = false -> sends n (accept msg w) w' -> sends (S n) w w'
| sends_other n w w1 w' :
    step w w1 -> (forall msg, w1 <> accept msg w) -> sends n w1 w' -> sends n w w'.

Lemma not_accept w w1 msg : length (reqs w1) = length (reqs w) -> w1 <> accept msg w.
Proof. intros Hl ->. simpl in Hl. rewrite length_app in Hl. simpl in Hl. lia. Qed.

(** A step either accepts a request or leaves the count alone. *)
Lemma step_accepts w w1 :
  step w w1 -> (exists msg, loop_done (net w) = false /\ w1 = accept msg w) \/
    ((forall msg, w1 <> accept msg w) /\ net_count (net w1) = net_count (net w)).
Proof.
  destruct 1 as [op w rn Ho|sid rs w _ _|msg w Hl|msg w _|rnd w i msg st h Hi Hst
    |w i msg st sid rs rep rs' objs' Hi Hh Hd|w i msg rt h Hi|rnd w i msg rt rep Hi
    |w i msg rt rep h Hi|w _]; [right|right|left; by exists msg|right..].
  all: split; [|try done].
  all: try (intros m; apply not_accept; simpl; by rewrite ?length_insert).
  - destruct op; simpl in Ho; unfold Cleanup, MakeEnd, DeleteEnd in Ho; repeat case_match;
      simplify_eq; done.
  - intros m Heq. apply (f_equal reqs) in Heq. simpl in Heq.
    apply app_inj_2 in Heq as [_ Heq]; done.
Qed.

Lemma sends_total w w' : rtc step w w' -> exists n, sends n w w'.
Proof.
  induction 1 as [w|w w1 w' Hs _ [n Hn]]; [exists 0; constructor|].
  destruct (step_accepts _ _ Hs) as [(msg & Hl & ->)|[Hne _]].
  - exists (S n). by econstructor.
  - exists n. by econstructor.
Qed.

Lemma sends_steps n w w' : sends n w w' -> rtc step w w'.
Proof.
  induction 1 as [w|n msg w w' Hl _ IH|n w w1 w' Hs _ _ IH]; [done|..];
    (eapply rtc_l; [|exact IH]); [by constructor|done].
Qed.

(** The total is the number of requests accepted, at 32 bits. *)
Lemma sends_count n w w' : sends n w w' ->
  wrap32 (net_count (net w)) = net_count (net w) ->
  net_count (net w') = wrap32 (net_count (net w) + Z.of_nat n).
Proof.
  induction 1 as [w|n msg w w' Hl _ IH|n w w1 w' Hs Hne _ IH]; intros Hw.
  - by rewrite Z.add_0_r.
  - rewrite IH; simpl.
    + rewrite wrap32_add. f_equal. lia.
    + apply wrap32_idem.
  - destruct (step_accepts _ _ Hs) as [(msg & _ & ->)|[_ E]]; [by destruct (Hne msg)|].
    rewrite E in IH. by apply IH.
Qed.

(** ** A call that meets no obstacle *)

Definition call_rt (name : string) (sid : nat) (w : world) : route :=
  {| rt_servername := name; rt_server := sid; rt_reliable := true;
     rt_longreordering := longReordering (net w) |}.

(** ** Steps of the network itself *)

(** The two networks have the same ends, servers and switches. *)
Definition same_config (n n' : Network) : Prop :=
  ends n' = ends n /\ enabled n' = enabled n /\ servers n' = servers n /\ connections n' = connections n /\
  reliable n' = reliable n /\ longDelays n' = longDelays n /\ longReordering n' = longReordering n.

#[export] Instance same_config_preorder : PreOrder same_config.
Proof. split; [done|]. unfold same_config. intros x y z. intuition congruence. Qed.

(** A step that does not reconfigure the network. *)
Definition own (w w' : world) : Prop := step w w' /\ same_config (net w) (net w').

Lemma own_steps w w' : rtc own w w' -> rtc step w w'.
Proof. apply rtc_subrel. by intros ? ? []. Qed.

Lemma call_path w e name sid rs msg rep rs' o' :
  loop_done (net w) = false -> up e name sid w -> endname msg = e ->
  heap w !! sid = Some rs -> Server_dispatch rs msg (objs w) = Return (rep, rs', o') ->
  exists w', step w (accept msg w) /\ rtc own (accept msg w) w' /\ objs w' = o' /\
    reqs w' !! length (reqs w)
    = Some {| rq_msg := msg; rq_stage := Answered rep; rq_handler := Returned rep |}.
Proof.
  intros Hd Hup He Hh Hdisp. set (rt := call_rt name sid w).
  set (q := fun st h => {| rq_msg := msg; rq_stage := st; rq_handler := h |}).
  eassert (step w _) as S1 by (apply (step_call msg w Hd)).
  set (w1 := accept msg w) in S1.
  assert (up e name sid w1) as Hup1 by done.
  assert (reqs w1 !! length (reqs w) = Some (q Start NotStarted)) as Hq1
    by (by apply list_lookup_middle).
  assert (processStart 0 (net w1) msg = (Waiting rt, Running sid)) as Hst.
  { destruct Hup1 as (Hrel & Hen & Hco & Hsv). unfold processStart, readEndnameInfo.
    rewrite He, Hen, Hco. change (Some name ≫= serverOf (net w1)) with (serverOf (net w1) name).
    by rewrite Hsv, Hrel. }
  pose proof (step_start 0 w1 _ msg _ _ Hq1 Hst) as S2.
  set (w2 := set_reqs w1 _ _) in S2.
  assert (reqs w2 !! length (reqs w) = Some (q (Waiting rt) (Running sid))) as Hq2.
  { apply list_lookup_insert_eq. by eapply lookup_lt_Some. }
  pose proof (step_handler w2 _ _ _ _ _ _ _ _ Hq2 Hh Hdisp) as S3.
  set (w3 := {| heap := <[sid := rs']> (heap w2) |}) in S3.
  assert (reqs w3 !! length (reqs w) = Some (q (Waiting rt) (Returned rep))) as Hq3.
  { apply list_lookup_insert_eq. by eapply lookup_lt_Some. }
  pose proof (step_reply 0 w3 _ _ _ _ Hq3) as S4.
  assert (processReply 0 (net w3) msg rt rep = Replying rt rep) as Hrep.
  { unfold processReply. rewrite He.
    assert (isServerDead (net w3) e (rt_servername rt) (rt_server rt) = false) as ->
      by exact (isServerDead_up _ _ _ _ Hup1). done. }
  rewrite Hrep in S4. set (w4 := set_reqs w3 _ _) in S4.
  assert (reqs w4 !! length (reqs w) = Some (q (Replying rt rep) (Returned rep))) as Hq4.
  { apply list_lookup_insert_eq. by eapply lookup_lt_Some. }
  pose proof (step_deliver w4 _ _ _ _ _ Hq4) as S5.
  eexists. split; [exact S1|]. split.
  { eapply rtc_l; [split; [exact S2|done]|]. eapply rtc_l; [split; [exact S3|done]|].
    eapply rtc_l; [split; [exact S4|done]|]. eapply rtc_l; [split; [exact S5|done]|]. apply rtc_refl. }
  split; [done|]. apply list_lookup_insert_eq. by eapply lookup_lt_Some.
Qed.

(** ** Properties *)

Lemma executed_once w i r :
  Inv w -> reqs w !! i = Some r ->
  length (filter (fun e => ex_req e = i) (log w)) <= 1 /\
  forall rep, rq_stage r = Answered rep -> ok rep = true ->
    exists sid, filter (fun e => ex_req e = i) (log w)
      = [{| ex_req := i; ex_server := sid; ex_msg := rq_msg r; ex_reply := rep |}].
Proof.
  intros [] Hi.
  specialize (Inv_handler0 i r Hi). specialize (Inv_stage0 i r Hi). unfold handler_ok, stage_ok in *.
  split.
  - destruct (rq_handler r); [rewrite Inv_handler0; simpl; lia..|].
    destruct Inv_handler0 as (_ & sid & ->). done.
  - intros rep Hs Hok. rewrite Hs in Inv_stage0. rewrite (Inv_stage0 Hok) in Inv_handler0.
    by destruct Inv_handler0.
Qed.

(** C3: [Call] returns true only for an executed request, executed once.  In
    every execution, whatever is lost, delayed, reconfigured or deleted, the
    handler of a request runs at most once; and a request answered with
    success was run exactly once, on the arguments it was sent with, and its
    answer is that run's reply. *)
Theorem call_executed_once w i r :
  reachable w -> reqs w !! i = Some r ->
  length (filter (fun e => ex_req e = i) (log w)) <= 1 /\
  forall rep, rq_stage r = Answered rep -> ok rep = true ->
    exists sid, filter (fun e => ex_req e = i) (log w)
      = [{| ex_req := i; ex_server := sid; ex_msg := rq_msg r; ex_reply := rep |}].
Proof. intros Hw. by apply executed_once, rpc_inv_reachable. Qed.

(** C4: no successful reply from a deleted server.  Once the server a waiting
    request was sent to has been deleted or replaced, and as long as it is not
    registered again, the request is never answered with success -- even if its
    handler has run or runs later. *)
Theorem deleted_server_never_replies name sid w w' i r rt r' rep :
  reqs w !! i = Some r -> rq_stage r = Waiting rt ->
  rt_servername rt = name -> rt_server rt = sid ->
  serverOf (net w) name <> Some sid ->
  rtc (stays_gone name sid) w w' ->
  reqs w' !! i = Some r' -> rq_stage r' = Answered rep -> ok rep = false.
Proof.
  intros Hi Hs Hn Hsid Hg Hr Hi' Hs'.
  destruct (gone_steps name sid w w' i r Hr Hg Hi) as (r1 & Hi1 & Hu).
  - unfold unanswered. by rewrite Hs.
  - simplify_eq. unfold unanswered in Hu. by rewrite Hs' in Hu.
Qed.

(** A reliable network does not lose calls.  A request sent over an enabled
    end to a server that stays registered, while the network stays reliable,
    is never answered with failure. *)
Theorem reliable_call_never_fails e name sid w w' i msg r' rep :
  up e name sid w -> endname msg = e ->
  reqs w !! i = Some {| rq_msg := msg; rq_stage := Start; rq_handler := NotStarted |} ->
  rtc (stays_up e name sid) w w' ->
  reqs w' !! i = Some r' -> rq_stage r' = Answered rep -> ok rep = true.
Proof.
  intros Hup He Hi Hr Hi' Hs'.
  destruct (up_steps e name sid w w' i _ Hr Hup Hi) as (r1 & Hi1 & _ & _ & Hc).
  - by split_and!.
  - simplify_eq. by rewrite Hs' in Hc.
Qed.

(** A server's RPC count is the number of handlers run on it (as a 64-bit
    [int]). *)
Theorem server_count_executions w sid rs :
  reachable w -> heap w !! sid = Some rs ->
  srv_count rs = wrap64 (Z.of_nat (count (fun e => ex_server e = sid) (log w))).
Proof.
  intros [o Hr] Hs. assert (Counts (init o)) as Hc.
  { constructor; simpl; [intros ? ?; by rewrite lookup_empty|intros ?; by rewrite elem_of_nil]. }
  revert Hs. apply Counts_heap. clear -Hr Hc. induction Hr; eauto using Counts_step.
Qed.

(** A call gets through.  Over an enabled end connected to a live server, on a
    reliable network, a call whose dispatch returns can be carried to the end:
    it is answered with the handler's reply, and the receivers are in the
    state the handler left them in. *)
Theorem call_gets_through w e name sid rs msg rep rs' o' :
  loop_done (net w) = false -> up e name sid w -> endname msg = e ->
  heap w !! sid = Some rs -> Server_dispatch rs msg (objs w) = Return (rep, rs', o') ->
  exists w', rtc step w w' /\ objs w' = o' /\ ok rep = true /\
    reqs w' !! length (reqs w)
    = Some {| rq_msg := msg; rq_stage := Answered rep; rq_handler := Returned rep |}.
Proof.
  intros Hd Hup He Hh Hdisp.
  destruct (call_path w e name sid rs msg rep rs' o') as (w' & H1 & H2 & ? & ?); auto.
  exists w'. split; [by eapply rtc_l, own_steps|]. eauto using dispatch_ok.
Qed.

(** ** Services *)

Lemma addMethods_spec ms : forall methods,
  exists methods', addMethods ms methods = Return methods' /\
    forall n m, methods' !! n = Some m ->
      methods !! n = Some m \/ (m ∈ ms /\ m_name m = n /\ suitable m = Return true).
Proof.
  induction ms as [|m ms IH]; intros methods; simpl; [eauto|].
  assert (exists b, suitable m = Return b) as [b Hb].
  { unfold suitable. destruct (m_exported m); simpl; [|eauto].
    destruct (bool_decide (len (m_in m) = 3)%Z) eqn:Hl; simpl; [|eauto].
    apply bool_decide_eq_true in Hl. destruct (slice_get_bound (m_in m) 2) as [p ->]; [lia|].
    simpl. destruct p; simpl; eauto. }
  rewrite Hb. simpl. destruct (IH (if b then <[m_name m:=m]> methods else methods)) as (ms' & -> & Hin).
  exists ms'. split; [done|]. intros n m' Hm'. destruct (Hin n m' Hm') as [Hl|(? & ? & ?)].
  - destruct b; [|by left]. apply lookup_insert_Some in Hl as [[<- <-]|[_ ?]]; [|by left].
    right. split_and!; [by left|done|done].
  - right. split_and!; [by right|done|done].
Qed.

(** [MakeService] never panics, whatever the methods of the receiver, and a
    service dispatches only to exported methods with three parameters, the
    last a pointer, and no result. *)
Theorem make_service_safe name rcvr ms :
  exists svc, MakeService name rcvr ms = Return svc /\
    svc_name svc = name /\ svc_rcvr svc = rcvr /\
    forall n m, svc_methods svc !! n = Some m ->
      m ∈ ms /\ m_name m = n /\ m_exported m = true /\ len (m_in m) = 3%Z /\
      m_in m !! 2 = Some true /\ m_numOut m = 0%Z.
Proof.
  unfold MakeService. destruct (addMethods_spec ms ∅) as (methods & -> & Hin). simpl.
  eexists. split_and!; [done..|]. simpl. intros n m [Hm|(Hm & Hn & Hs)]%Hin.
  { by rewrite lookup_empty in Hm. }
  unfold suitable in Hs. destruct (m_exported m) eqn:He; [|done]. simpl in Hs.
  destruct (bool_decide (len (m_in m) = 3)%Z) eqn:Hl; [|done]. simpl in Hs.
  destruct (slice_get (m_in m) 2) as [p| |] eqn:Hp; [|done..]. simpl in Hs.
  destruct p; [|done]. simpl in Hs. injection Hs as Ho%bool_decide_eq_true.
  apply bool_decide_eq_true in Hl. apply slice_get_inv in Hp as [_ Hp]. done.
Qed.

End LabRpc.
Arguments method : clear implicits.
Arguments Service : clear implicits.
Arguments Server : clear implicits.
Arguments objects : clear implicits.
Arguments world : clear implicits.

(** ** A concrete network

    One server with a counter: [Counter.Add] counts its calls and echoes its
    argument. *)

Definition addMethod : method Z :=
  {| m_name := "Add"; m_exported := true; m_in := [true; false; true]; m_numOut := 0;
     m_call := fun st args => ((st + 1)%Z, args) |}.
Definition counterService : Service Z :=
  {| svc_name := "Counter"; svc_rcvr := 7; svc_methods := {[ "Add" := addMethod ]} |}.
Definition counterServer : Server Z := AddService counterService MakeServer.

Definition exObjs : objects Z := {[ 7 := 0%Z ]}.
Definition exNet : Network :=
  Enable "end" true (Connect "end" "srv" (AddServer "srv" 3
    (with_ends MakeNetwork {["end"]} {[ "end" := false ]} {[ "end" := None ]}))).
Definition exWorld : world Z :=
  {| net := exNet; heap := {[ 3 := counterServer ]}; objs := exObjs; reqs := []; log := [] |}.
Definition exMsg : reqMsg := {| endname := "end"; svcMeth := "Counter.Add"; req_args := "x" |}.

Definition exReply : replyMsg := {| ok := true; reply := "x" |}.
Definition exServer' : Server Z := {| services := services counterServer; srv_count := 1 |}.

Example make_counter : MakeService "Counter" 7 [addMethod] = Return counterService.
Proof. reflexivity. Qed.

Lemma exDispatch :
  Server_dispatch counterServer exMsg exObjs = Return (exReply, exServer', {[ 7 := 1%Z ]}).
Proof. vm_compute. reflexivity. Qed.

Lemma exWorld_steps : rtc step (init exObjs) exWorld.
Proof.
  eapply rtc_l; [apply (step_server 3 counterServer); reflexivity|].
  eapply rtc_l; [by apply (step_op (OpMakeEnd "end"))|].
  eapply rtc_l; [by apply (step_op (OpAddServer "srv" 3))|].
  eapply rtc_l; [by apply (step_op (OpConnect "end" "srv"))|].
  eapply rtc_l; [by apply (step_op (OpEnable "end" true))|]. apply rtc_refl.
Qed.

Lemma exWorld_up : up "end" "srv" 3 exWorld.
Proof. split_and!; reflexivity. Qed.

Lemma exCall : exists w' : world Z, reachable w' /\
  reqs w' !! 0 = Some {| rq_msg := exMsg; rq_stage := Answered exReply; rq_handler := Returned exReply |}.
Proof.
  destruct (call_path exWorld "end" "srv" 3 counterServer exMsg exReply exServer' {[ 7 := 1%Z ]}
    eq_refl exWorld_up eq_refl eq_refl exDispatch) as (w' & H1 & Hs & _ & Hq).
  exists w'. split; [|exact Hq]. exists exObjs. etrans; [apply exWorld_steps|]. by eapply rtc_l, own_steps.
Qed.

Lemma call_executed_once_witness :
  exists (w : world Z) sid, filter (fun e => ex_req e = 0) (log w)
    = [{| ex_req := 0; ex_server := sid; ex_msg := exMsg; ex_reply := exReply |}].
Proof.
  destruct exCall as (w & Hw & Hq). exists w.
  destruct (call_executed_once w 0 _ Hw Hq) as [_ Hx]. by apply Hx.
Defined.

Lemma call_gets_through_witness :
  exists w', rtc step exWorld w' /\ objs w' = {[ 7 := 1%Z ]}.
Proof.
  destruct (call_gets_through exWorld "end" "srv" 3 counterServer exMsg exReply exServer'
    {[ 7 := 1%Z ]} eq_refl exWorld_up eq_refl eq_refl exDispatch) as (w' & Hs & Ho & _).
  by exists w'.
Defined.

(** A call is in flight when the server is deleted, and fails at the timer. *)
Definition exRoute : route :=
  {| rt_servername := "srv"; rt_server := 3; rt_reliable := true; rt_longreordering := false |}.
Definition exGone (st : stage) : world Z :=
  {| net := DeleteServer "srv" exNet; heap := {[ 3 := counterServer ]}; objs := exObjs;
     reqs := [{| rq_msg := exMsg; rq_stage := st; rq_handler := Running 3 |}]; log := [] |}.

Lemma deleted_server_never_replies_witness :
  rq_stage {| rq_msg := exMsg; rq_stage := Answered failed; rq_handler := Running 3 |}
    = Answered failed /\ ok failed = false.
Proof.
  split; [reflexivity|].
  apply (deleted_server_never_replies "srv" 3 (exGone (Waiting exRoute)) (exGone (Answered failed)) 0
    {| rq_msg := exMsg; rq_stage := Waiting exRoute; rq_handler := Running 3 |} exRoute
    {| rq_msg := exMsg; rq_stage := Answered failed; rq_handler := Running 3 |} failed);
    try reflexivity.
  - discriminate.
  - apply rtc_once. split; [|discriminate].
    exact (step_timeout (exGone (Waiting exRoute)) 0 exMsg exRoute (Running 3) eq_refl).
Defined.

(** The same call with the server up, step by step. *)
Definition exUp (st : stage) (h : handler) (bytes : Z) : world Z :=
  {| net := with_stats exNet 0 bytes false;
     heap := {[ 3 := if decide (h = Returned exReply) then exServer' else counterServer ]};
     objs := if decide (h = Returned exReply) then {[ 7 := 1%Z ]} else exObjs;
     reqs := [{| rq_msg := exMsg; rq_stage := st; rq_handler := h |}];
     log := if decide (h = Returned exReply)
            then [{| ex_req := 0; ex_server := 3; ex_msg := exMsg; ex_reply := exReply |}] else [] |}.

Lemma reliable_call_never_fails_witness :
  reqs (exUp (Answered exReply) (Returned exReply) 1) !! 0
  = Some {| rq_msg := exMsg; rq_stage := Answered exReply; rq_handler := Returned exReply |} /\
  ok exReply = true.
Proof.
  split; [reflexivity|].
  apply (reliable_call_never_fails "end" "srv" 3 (exUp Start NotStarted 0)
    (exUp (Answered exReply) (Returned exReply) 1) 0 exMsg
    {| rq_msg := exMsg; rq_stage := Answered exReply; rq_handler := Returned exReply |} exReply);
    try reflexivity; [split_and!; reflexivity|].
  eapply (rtc_l _ _ (exUp (Waiting exRoute) (Running 3) 0)).
  { split; [|split_and!; reflexivity].
    exact (step_start 0 (exUp Start NotStarted 0) 0 exMsg _ _ eq_refl eq_refl). }
  eapply (rtc_l _ _ (exUp (Waiting exRoute) (Returned exReply) 0)).
  { split; [|split_and!; reflexivity].
    exact (step_handler (exUp (Waiting exRoute) (Running 3) 0) 0 exMsg _ 3 counterServer
             exReply exServer' {[ 7 := 1%Z ]} eq_refl eq_refl exDispatch). }
  eapply (rtc_l _ _ (exUp (Replying exRoute exReply) (Returned exReply) 0)).
  { split; [|split_and!; reflexivity].
    exact (step_reply 0 (exUp (Waiting exRoute) (Returned exReply) 0) 0 exMsg exRoute exReply eq_refl). }
  apply rtc_once. split; [|split_and!; reflexivity].
  exact (step_deliver (exUp (Replying exRoute exReply) (Returned exReply) 0) 0 exMsg exRoute exReply
           _ eq_refl).
Defined.

Lemma server_count_executions_witness : srv_count counterServer = wrap64 0.
Proof.
  apply (server_count_executions exWorld 3); [exists exObjs; apply exWorld_steps|reflexivity].
Defined.

End LabRpc.
