(* ===== verification/RpcCalls.v ===== *)
(** * Calls return

    The promise at the head of [src/src/labrpc/labrpc.go]: [Call] is guaranteed
    to return, perhaps after a delay, except if the handler on the server does
    not return.  The steps are those of [LabRpc]; those of the network itself,
    which leave its configuration alone, are enough to answer a call. *)

From S2P Require Import Prelude LabRpc.

Set Default Proof Using "Type".

Module RpcCalls.
Import LabRpc.

Section RpcCalls.
Context {state : Type}.

(** ** Steps of the network itself *)

Lemma own_config (w w' : world state) : rtc own w w' -> same_config (net w) (net w').
Proof. induction 1 as [|w w1 w' [_ H] _ IH]; [done|]. by etrans. Qed.

(** ** How much of a request is left to do *)

Definition todo (r : request) : nat :=
  match rq_stage r, rq_handler r with
  | Start, _ => 4
  | Waiting _, Returned _ => 2
  | Waiting _, _ => 3
  | Replying _ _, _ => 1
  | Answered _, _ => 0
  end.

Lemma processStart_todo rnd rn msg st h :
  processStart rnd rn msg = (st, h) -> todo {| rq_msg := msg; rq_stage := st; rq_handler := h |} <= 3.
Proof.
  unfold processStart. destruct (readEndnameInfo rn (endname msg)) as [[[[[] [n|]] [sid|]] rel] lr];
    try destruct (negb rel && dropped rnd); intros [= <- <-]; cbn; lia.
Qed.

Lemma processReply_todo rnd rn msg rt rep h :
  todo {| rq_msg := msg; rq_stage := processReply rnd rn msg rt rep; rq_handler := h |} <= 1.
Proof. unfold processReply. destruct (isServerDead _ _ _ _), (negb (rt_reliable rt) && dropped rnd); cbn; lia. Qed.

Lemma todo_step rn r r' : req_step rn r r' -> todo r' <= todo r.
Proof.
  destruct 1 as [r|rnd msg st h H|msg st sid rep Hok|msg rt h|rnd msg rt rep|msg rt rep h]; try (cbn; lia).
  - apply processStart_todo in H. cbn in *. lia.
  - destruct st; cbn; lia.
  - unfold processTimeout. destruct (isServerDead _ _ _ _); cbn; [lia|done].
  - etrans; [apply processReply_todo|]. cbn. lia.
Qed.

(** The handler of server [sid] returns when it is called with [msg]. *)
Definition handlerReturns (w : world state) (sid : nat) (msg : reqMsg) : Prop :=
  exists rs rep rs' o', heap w !! sid = Some rs /\ Server_dispatch rs msg (objs w) = Return (rep, rs', o').

(** The server whose handler runs, or would be called first. *)
Definition target (w : world state) (r : request) (sid : nat) : Prop :=
  rq_handler r = Running sid \/
  rq_stage r = Start /\ exists name, mjoin (connections (net w) !! endname (rq_msg r)) = Some name /\
    serverOf (net w) name = Some sid.

(** The request [i] can be answered by the network's own steps. *)
Definition answerable (w : world state) (i : nat) : Prop :=
  exists w' r' rep, rtc own w w' /\ reqs w' !! i = Some r' /\ rq_stage r' = Answered rep.

Lemma answerable_own w w1 i : own w w1 -> answerable w1 i -> answerable w i.
Proof. intros Ho (w' & r' & rep & Hs & H). exists w', r', rep. split; [by eapply rtc_l|done]. Qed.

Lemma lookup_set_reqs (w : world state) i r r' : reqs w !! i = Some r -> reqs (set_reqs w i r') !! i = Some r'.
Proof. intros H. simpl. apply list_lookup_insert_eq. by eapply lookup_lt_Some. Qed.

Lemma answerable_replying w i msg rt rep h :
  reqs w !! i = Some {| rq_msg := msg; rq_stage := Replying rt rep; rq_handler := h |} -> answerable w i.
Proof.
  intros Hi. eexists _, _, rep. split; [apply rtc_once; split; [by eapply step_deliver|done]|].
  split; [apply list_lookup_insert_eq; by eapply lookup_lt_Some|reflexivity].
Qed.

Lemma answerable_returned w i msg rt rep :
  reqs w !! i = Some {| rq_msg := msg; rq_stage := Waiting rt; rq_handler := Returned rep |} -> answerable w i.
Proof.
  intros Hi. eapply answerable_own; [split; [by apply (step_reply 0)|done]|].
  pose proof (lookup_set_reqs w i _ {| rq_msg := msg; rq_stage := processReply 0 (net w) msg rt rep;
    rq_handler := Returned rep |} Hi) as Hl.
  destruct (processReply 0 (net w) msg rt rep) as [|?|rt' rep'|rep'] eqn:E.
  - unfold processReply in E. repeat case_match; discriminate.
  - unfold processReply in E. repeat case_match; discriminate.
  - by eapply answerable_replying.
  - eexists _, _, rep'. split; [apply rtc_refl|]. by split.
Qed.

Lemma answerable_running w i msg rt sid :
  reqs w !! i = Some {| rq_msg := msg; rq_stage := Waiting rt; rq_handler := Running sid |} ->
  handlerReturns w sid msg -> answerable w i.
Proof.
  intros Hi (rs & rep & rs' & o' & Hh & Hd).
  eapply answerable_own; [split; [by eapply step_handler|done]|]. eapply answerable_returned.
  apply list_lookup_insert_eq. by eapply lookup_lt_Some.
Qed.

Lemma answerable_start w i msg :
  reqs w !! i = Some {| rq_msg := msg; rq_stage := Start; rq_handler := NotStarted |} ->
  (forall name sid, mjoin (connections (net w) !! endname msg) = Some name -> serverOf (net w) name = Some sid ->
     handlerReturns w sid msg) -> answerable w i.
Proof.
  intros Hi Hr. destruct (processStart 0 (net w) msg) as [st h] eqn:E.
  eapply answerable_own; [split; [by eapply (step_start 0)|done]|].
  pose proof (lookup_set_reqs w i _ {| rq_msg := msg; rq_stage := st; rq_handler := h |} Hi) as Hl.
  assert ((exists rep, st = Answered rep) \/ exists rt sid, st = Waiting rt /\ h = Running sid /\
    handlerReturns w sid msg) as [[rep ->]|(rt & sid & -> & -> & Hret)].
  { unfold processStart, readEndnameInfo in E.
    destruct (endEnabled (net w) (endname msg)), (mjoin (connections (net w) !! endname msg)) as [name|] eqn:Ec;
      simpl in E; try (injection E as <- <-; eauto; fail).
    destruct (serverOf (net w) name) as [sid|] eqn:Es; [|injection E as <- <-; eauto].
    destruct (negb (reliable (net w)) && dropped 0); injection E as <- <-; [eauto|].
    right. eexists _, sid. split; [done|]. split; [done|]. by eapply Hr. }
  - eexists _, _, rep. split; [apply rtc_refl|]. by split.
  - by eapply answerable_running.
Qed.

(** The next step of a request that is not answered. *)
Lemma next_todo w i r :
  Inv w -> reqs w !! i = Some r -> 0 < todo r ->
  (forall sid, rq_handler r = Running sid -> handlerReturns w sid (rq_msg r)) ->
  exists w' r', own w w' /\ reqs w' !! i = Some r' /\ todo r' < todo r.
Proof.
  intros HI Hi Ht Hh. pose proof (Inv_stage _ HI i r Hi) as Hs. destruct r as [msg st h]. simpl in Hh.
  unfold stage_ok in Hs. simpl in Hs.
  destruct st as [|rt|rt rep|rep].
  - subst h. destruct (processStart 0 (net w) msg) as [st h] eqn:E. eexists _, _.
    split; [split; [by eapply (step_start 0)|done]|]. split; [by eapply lookup_set_reqs|].
    apply processStart_todo in E. cbn in *. lia.
  - destruct h as [|sid|rep]; [done| |].
    + destruct (Hh sid eq_refl) as (rs & rep & rs' & o' & Hrs & Hd). eexists _, _.
      split; [split; [by eapply step_handler|done]|].
      split; [apply list_lookup_insert_eq; by eapply lookup_lt_Some|]. cbn. lia.
    + eexists _, _. split; [split; [by apply (step_reply 0)|done]|]. split; [by eapply lookup_set_reqs|].
      pose proof (processReply_todo 0 (net w) msg rt rep (Returned rep)). cbn in *. lia.
  - eexists _, _. split; [split; [by eapply step_deliver|done]|].
    split; [apply list_lookup_insert_eq; by eapply lookup_lt_Some|]. cbn. lia.
  - cbn in Ht. lia.
Qed.

Lemma todo_answered r : todo r = 0 <-> exists rep, rq_stage r = Answered rep.
Proof.
  destruct r as [msg [|rt|rt rep|rep] h]; cbn; split; try (intros [? ?]; done); try done; [by destruct h|by eexists].
Qed.

(** The goroutine that takes requests returns only after [Cleanup]. *)
Lemma loop_done_closed (w : world state) : reachable w -> loop_done (net w) = true -> done_closed (net w) = true.
Proof.
  intros [o Hr]. pattern w. revert w Hr.
  refine (rtc_ind_r _ (init o) _ _); [done|]. intros w w' _ Hs.
  destruct Hs as [op w rn Hop| | | | | | | | |]; simpl; try done.
  destruct op; simpl in Hop; try (by injection Hop as <-).
  - unfold Cleanup in Hop. destruct (done_closed (net w)) eqn:E; [done|]. by injection Hop as <-.
  - unfold MakeEnd in Hop. case_decide; [done|]. by injection Hop as <-.
  - unfold DeleteEnd in Hop. case_decide; [done|]. by injection Hop as <-.
Qed.

(** C6: [Call] is guaranteed to return.  In every state that the network can reach a
    new call can be made; and for a call [i] that was made: no step of the
    network, of its users or of other calls takes it back; it is answered when
    nothing is left to do for it; as long as something is, and its handler, if
    it runs, returns, one step of the network does the next of at most four
    parts of the rest; when the server it waits for is dead it can be answered
    at once, whether the handler returns or not; and if the handlers it may meet
    return, the network alone can answer it. *)
Theorem call_returns w i r :
  reachable w -> reqs w !! i = Some r ->
  (forall msg, exists w' r', own w w' /\ reqs w' !! length (reqs w) = Some r' /\ rq_msg r' = msg) /\
  (forall w', step w w' -> exists r', reqs w' !! i = Some r' /\ todo r' <= todo r) /\
  todo r <= 4 /\ (todo r = 0 <-> exists rep, rq_stage r = Answered rep) /\
  (0 < todo r -> (forall sid, rq_handler r = Running sid -> handlerReturns w sid (rq_msg r)) ->
     exists w' r', own w w' /\ reqs w' !! i = Some r' /\ todo r' < todo r) /\
  (forall rt, rq_stage r = Waiting rt ->
     isServerDead (net w) (endname (rq_msg r)) (rt_servername rt) (rt_server rt) = true ->
     exists w' r', own w w' /\ reqs w' !! i = Some r' /\ rq_stage r' = Answered failed) /\
  ((forall sid, target w r sid -> handlerReturns w sid (rq_msg r)) -> answerable w i).
Proof.
  intros Hr Hi. pose proof (rpc_inv_reachable w Hr) as HI. split_and!.
  - intros msg. destruct (loop_done (net w)) eqn:El.
    + eexists _, _. split; [split; [apply (step_call_done msg), (loop_done_closed w Hr El)|done]|].
      split; [by apply list_lookup_middle|done].
    + eexists _, _. split; [split; [by apply (step_call msg)|done]|]. split; [by apply list_lookup_middle|done].
  - intros w' Hs. destruct (step_req w w' i r Hs Hi) as (r' & Hr' & Hq). exists r'. split; [done|]. by eapply todo_step.
  - destruct r as [msg [] []]; cbn; lia.
  - apply todo_answered.
  - intros Ht Hh. by apply next_todo.
  - destruct r as [msg st h]. simpl. intros rt -> Hd. eexists _, _.
    split; [split; [by eapply step_timeout|done]|]. split; [by eapply lookup_set_reqs|]. simpl.
    unfold processTimeout. by rewrite Hd.
  - intros Ht. pose proof (Inv_stage _ HI i r Hi) as Hs. destruct r as [msg [|rt|rt rep|rep] h]; unfold stage_ok in Hs; simpl in *.
    + subst h. eapply answerable_start; [exact Hi|]. intros name sid Hc Hsv. apply Ht. right. split; [done|]. by exists name.
    + destruct h as [|sid|rep]; [done| |by eapply answerable_returned].
      eapply answerable_running; [exact Hi|]. apply Ht. by left.
    + by eapply answerable_replying.
    + eexists w, _, rep. split; [apply rtc_refl|]. by split.
Qed.

End RpcCalls.

(** ** A concrete call *)

(** The request of [LabRpc.exMsg] has just been taken. *)
Lemma call_returns_witness :
  exists w', rtc step (accept exMsg exWorld) w' /\
    exists r' rep, reqs w' !! 0 = Some r' /\ rq_stage r' = Answered rep.
Proof.
  destruct (call_returns (accept exMsg exWorld) 0 {| rq_msg := exMsg; rq_stage := Start; rq_handler := NotStarted |})
    as (_ & _ & _ & _ & _ & _ & Ha).
  - exists exObjs. eapply rtc_r; [apply exWorld_steps|]. by apply step_call.
  - reflexivity.
  - destruct Ha as (w' & r' & rep & Hs & Hq & He).
    + intros sid [H|(_ & name & Hn & Hsv)]; [discriminate|].
      assert (name = "srv") as -> by (vm_compute in Hn; by injection Hn).
      assert (sid = 3) as -> by (vm_compute in Hsv; by injection Hsv).
      exists counterServer, exReply, exServer', {[ 7 := 1%Z ]}. split; [reflexivity|exact exDispatch].
    + exists w'. split; [by apply own_steps|]. by exists r', rep.
Defined.

End RpcCalls.
