(* ===== verification/Persister.v ===== *)
(** * The persister

    Models [src/src/tester1/persister.go].  What matters about a persister is
    which byte arrays it shares with whom: the tester hands a copy to a
    restarted server while the old instance may still be running.  The model
    therefore keeps a store of byte arrays and a store of persisters; a slice
    is [None] (nil) or the address of its array.  [public] is a ghost: the
    arrays that code outside the persister can write. *)

From S2P Require Import Prelude.

Module Persister.

Record Persister := { raftstate : option nat; snapshot : option nat }.

#[export] Instance Persister_eq_dec : EqDecision Persister.
Proof. solve_decision. Defined.

Record store := {
  arrays : gmap nat string;
  persisters : gmap nat Persister;
  public : gset nat
}.

(** The bytes of a slice. *)
Definition bytes (st : store) (s : option nat) : string :=
  match s with Some a => default "" (arrays st !! a) | None => "" end.

(** Allocation of an array and of a persister. *)
Definition alloc (st : store) (content : string) (pub : bool) : nat * store :=
  let a := fresh (dom (arrays st)) in
  (a, {| arrays := <[a := content]> (arrays st); persisters := persisters st;
         public := if pub then {[a]} ∪ public st else public st |}).

Definition setPersister (st : store) (p : nat) (ps : Persister) : store :=
  {| arrays := arrays st; persisters := <[p := ps]> (persisters st); public := public st |}.

(** ** Operations *)

Definition MakePersister (st : store) : nat * store :=
  let p := fresh (dom (persisters st)) in
  (p, setPersister st p {| raftstate := None; snapshot := None |}).

(** A fresh array with the same bytes; a clone of nil is empty, not nil.  It
    stays private to the persister unless [pub]. *)
Definition clone (pub : bool) (orig : option nat) (st : store) : option nat * store :=
  let r := alloc st (bytes st orig) pub in (Some r.1, r.2).

(** The new persister shares the old one's arrays. *)
Definition Copy (p : nat) (st : store) : outcome (nat * store) :=
  match persisters st !! p with
  | None => Panic "nil pointer dereference"
  | Some ps =>
      let '(np, st) := MakePersister st in
      Return (np, setPersister st np {| raftstate := raftstate ps; snapshot := snapshot ps |})
  end.

Definition ReadRaftState (p : nat) (st : store) : outcome (option nat * store) :=
  match persisters st !! p with
  | None => Panic "nil pointer dereference"
  | Some ps => Return (clone true (raftstate ps) st)
  end.

Definition ReadSnapshot (p : nat) (st : store) : outcome (option nat * store) :=
  match persisters st !! p with
  | None => Panic "nil pointer dereference"
  | Some ps => Return (clone true (snapshot ps) st)
  end.

Definition RaftStateSize (p : nat) (st : store) : outcome Z :=
  match persisters st !! p with
  | None => Panic "nil pointer dereference"
  | Some ps => Return (Z.of_nat (String.length (bytes st (raftstate ps))))
  end.

Definition SnapshotSize (p : nat) (st : store) : outcome Z :=
  match persisters st !! p with
  | None => Panic "nil pointer dereference"
  | Some ps => Return (Z.of_nat (String.length (bytes st (snapshot ps))))
  end.

Definition Save (p : nat) (rs sn : option nat) (st : store) : outcome store :=
  match persisters st !! p with
  | None => Panic "nil pointer dereference"
  | Some _ =>
      let r := clone false rs st in
      let s := clone false sn r.2 in
      Return (setPersister s.2 p {| raftstate := r.1; snapshot := s.1 |})
  end.

(** Unfolded by their lemmas only. *)
#[local] Arguments alloc : simpl never.
#[local] Arguments clone : simpl never.

(** ** Executions *)

(** Code outside the persister also allocates arrays and writes those it can
    reach. *)
Inductive op :=
| OpMake | OpCopy (p : nat) | OpReadRaftState (p : nat) | OpReadSnapshot (p : nat)
| OpSave (p : nat) (rs sn : option nat)
| OpAlloc (content : string) | OpWrite (a : nat) (content : string).

Definition visible (st : store) (s : option nat) : Prop :=
  match s with Some a => a ∈ public st | None => True end.

Inductive step : op -> store -> store -> Prop :=
| step_make st : step OpMake st (MakePersister st).2
| step_copy p st np st' : Copy p st = Return (np, st') -> step (OpCopy p) st st'
| step_readRaft p st s st' : ReadRaftState p st = Return (s, st') -> step (OpReadRaftState p) st st'
| step_readSnap p st s st' : ReadSnapshot p st = Return (s, st') -> step (OpReadSnapshot p) st st'
| step_save p rs sn st st' :
    visible st rs -> visible st sn -> Save p rs sn st = Return st' -> step (OpSave p rs sn) st st'
| step_alloc content st : step (OpAlloc content) st (alloc st content true).2
| step_write a content st :
    a ∈ public st ->
    step (OpWrite a content) st
      {| arrays := <[a := content]> (arrays st); persisters := persisters st; public := public st |}.

Inductive steps : list op -> store -> store -> Prop :=
| steps_nil st : steps [] st st
| steps_cons o os st st1 st2 : step o st st1 -> steps os st1 st2 -> steps (o :: os) st st2.

Definition empty_store : store := {| arrays := ∅; persisters := ∅; public := ∅ |}.

(** ** Invariant: persisters own their arrays *)

(** A slice is private: nil, or an allocated array nobody outside can write. *)
Definition private (st : store) (s : option nat) : Prop :=
  match s with Some a => a ∈ dom (arrays st) /\ a ∉ public st | None => True end.

Record Inv (st : store) : Prop := {
  Inv_public : public st ⊆ dom (arrays st);
  Inv_private p ps : persisters st !! p = Some ps -> private st (raftstate ps) /\ private st (snapshot ps)
}.

Lemma alloc_bytes st content pub s :
  private st s -> bytes (alloc st content pub).2 s = bytes st s.
Proof.
  destruct s as [a|]; [|done]. intros [Ha _]. unfold alloc; cbn. rewrite lookup_insert_ne; [done|].
  intros E. rewrite <-E in Ha. by apply is_fresh in Ha.
Qed.

Lemma alloc_private st content pub s : private st s -> private (alloc st content pub).2 s.
Proof.
  destruct s as [a|]; [|done]. intros [Ha Hp]. unfold alloc; cbn. split; [clear -Ha; set_solver|].
  destruct pub; [|done]. rewrite elem_of_union, elem_of_singleton. intros [->|?]; [|done].
  by apply is_fresh in Ha.
Qed.

Lemma alloc_private_new st content : Inv st ->
  private (alloc st content false).2 (Some (alloc st content false).1).
Proof.
  intros []. unfold alloc; cbn. split; [clear; set_solver|]. intros Hin%Inv_public0.
  by apply is_fresh in Hin.
Qed.

Lemma Inv_alloc st content pub : Inv st -> Inv (alloc st content pub).2.
Proof.
  intros []. constructor.
  - unfold alloc; cbn. rewrite dom_insert.
    destruct pub; [by apply union_mono_l|by apply union_subseteq_r'].
  - intros p ps Hp. destruct (Inv_private0 p ps Hp). auto using alloc_private.
Qed.

(** [clone] is an allocation. *)
Lemma clone_bytes pub orig st s :
  private st s -> bytes (clone pub orig st).2 s = bytes st s.
Proof. apply alloc_bytes. Qed.

Lemma clone_private pub orig st s : private st s -> private (clone pub orig st).2 s.
Proof. apply alloc_private. Qed.

Lemma clone_private_new orig st : Inv st ->
  private (clone false orig st).2 (clone false orig st).1.
Proof. apply alloc_private_new. Qed.

Lemma clone_new_bytes pub orig st :
  bytes (clone pub orig st).2 (clone pub orig st).1 = bytes st orig.
Proof. unfold clone, alloc; cbn. by rewrite lookup_insert_eq. Qed.

Lemma clone_persisters pub orig st : persisters (clone pub orig st).2 = persisters st.
Proof. done. Qed.

Lemma Inv_clone pub orig st : Inv st -> Inv (clone pub orig st).2.
Proof. apply Inv_alloc. Qed.

Lemma Inv_setPersister st p ps :
  Inv st -> private st (raftstate ps) -> private st (snapshot ps) -> Inv (setPersister st p ps).
Proof.
  intros [] Hr Hs. constructor; [done|]. simpl. intros q qs.
  rewrite lookup_insert. case_decide; [intros [= <-]; done|apply Inv_private0].
Qed.

Lemma ReadRaftState_inv p st s st' :
  ReadRaftState p st = Return (s, st') ->
  exists ps, persisters st !! p = Some ps /\ s = (clone true (raftstate ps) st).1 /\
    st' = (clone true (raftstate ps) st).2.
Proof.
  unfold ReadRaftState. destruct (persisters st !! p) as [ps|]; [|done].
  intros [= <- <-]. by exists ps.
Qed.

Lemma ReadSnapshot_inv p st s st' :
  ReadSnapshot p st = Return (s, st') ->
  exists ps, persisters st !! p = Some ps /\ s = (clone true (snapshot ps) st).1 /\
    st' = (clone true (snapshot ps) st).2.
Proof.
  unfold ReadSnapshot. destruct (persisters st !! p) as [ps|]; [|done].
  intros [= <- <-]. by exists ps.
Qed.

Lemma Save_inv p rs sn st st' :
  Save p rs sn st = Return st' ->
  let r := clone false rs st in
  let s := clone false sn r.2 in
  is_Some (persisters st !! p) /\
  st' = setPersister s.2 p {| raftstate := r.1; snapshot := s.1 |}.
Proof.
  unfold Save. destruct (persisters st !! p) as [ps|]; [|done]. intros [= <-]. by split.
Qed.

Lemma Inv_step o st st' : step o st st' -> Inv st -> Inv st'.
Proof.
  intros Hs HI. destruct Hs as [st|p st np st' Hc|p st s st' Hc|p st s st' Hc
    |p rs sn st st' _ _ Hc|content st|a content st Ha].
  - by apply Inv_setPersister.
  - unfold Copy in Hc. destruct (persisters st !! p) as [ps|] eqn:Hp; [|done]. simpl in Hc.
    injection Hc as _ <-. destruct (Inv_private _ HI p ps Hp).
    by apply (Inv_setPersister (setPersister _ _ _)); [apply Inv_setPersister|..].
  - apply ReadRaftState_inv in Hc as (ps & _ & _ & ->). by apply Inv_clone.
  - apply ReadSnapshot_inv in Hc as (ps & _ & _ & ->). by apply Inv_clone.
  - apply Save_inv in Hc as [_ ->]. apply Inv_setPersister; [by apply Inv_clone, Inv_clone|..]; cbn.
    + by apply clone_private, clone_private_new.
    + by apply clone_private_new, Inv_clone.
  - by apply Inv_alloc.
  - destruct HI. constructor; simpl.
    + clear -Inv_public0. set_solver.
    + intros p ps Hp. destruct (Inv_private0 p ps Hp) as [Hr Hs]. unfold private in *. simpl.
      clear -Hr Hs. split; [destruct (raftstate ps)|destruct (snapshot ps)]; try done;
        rewrite dom_insert, elem_of_union; tauto.
Qed.

Lemma Inv_steps os st st' : steps os st st' -> Inv st -> Inv st'.
Proof. induction 1; eauto using Inv_step. Qed.

Lemma Inv_empty : Inv empty_store.
Proof. constructor; [done|]. simpl. intros p ps. by rewrite lookup_empty. Qed.

(** ** What a persister holds *)

Definition contents (st : store) (p : nat) : option (string * string) :=
  (fun ps => (bytes st (raftstate ps), bytes st (snapshot ps))) <$> persisters st !! p.

(** Only a [Save] to [p] changes what [p] holds. *)
Lemma contents_step o st st' p c :
  step o st st' -> Inv st -> contents st p = Some c ->
  (forall rs sn, o <> OpSave p rs sn) -> contents st' p = Some c.
Proof.
  unfold contents. intros Hs HI Hc Ho. destruct (persisters st !! p) as [ps|] eqn:Hp; [|done].
  injection Hc as <-. destruct (Inv_private _ HI p ps Hp) as [Hr Hsn].
  assert (forall q qs, q ∉ dom (persisters st) -> <[q := qs]> (persisters st) !! p = Some ps) as Hnew.
  { intros q qs Hq. rewrite lookup_insert_ne; [done|]. intros ->. apply Hq, elem_of_dom. by eexists. }
  assert (forall ct pub, contents (alloc st ct pub).2 p
    = Some (bytes st (raftstate ps), bytes st (snapshot ps))) as Halloc.
  { intros ct pub. unfold contents. change (persisters (alloc st ct pub).2) with (persisters st).
    rewrite Hp. simpl. f_equal. f_equal; by apply alloc_bytes. }
  destruct Hs as [st|q st np st' Hc|q st s st' Hc|q st s st' Hc
    |q rs sn st st' _ _ Hc|content st|a content st Ha].
  - simpl. rewrite Hnew by apply is_fresh. done.
  - unfold Copy in Hc. destruct (persisters st !! q) as [qs|]; [|done]. simpl in Hc.
    injection Hc as _ <-. simpl. rewrite insert_insert_eq, Hnew by apply is_fresh. done.
  - apply ReadRaftState_inv in Hc as (qs & _ & _ & ->). apply (Halloc _ true).
  - apply ReadSnapshot_inv in Hc as (qs & _ & _ & ->). apply (Halloc _ true).
  - apply Save_inv in Hc as [_ ->]. cbn. rewrite lookup_insert_ne by (intros ->; by eapply Ho).
    rewrite !clone_persisters, Hp. cbn. f_equal.
    assert (forall x, private st x -> bytes (clone false sn (clone false rs st).2).2 x = bytes st x)
      as Hb by (intros x Hx; rewrite !clone_bytes; auto using clone_private).
    f_equal; [exact (Hb _ Hr)|exact (Hb _ Hsn)].
  - apply Halloc.
  - simpl. rewrite Hp. simpl. f_equal. unfold private in *.
    f_equal; [destruct (raftstate ps) as [b|]|destruct (snapshot ps) as [b|]]; simpl; try done;
      (rewrite lookup_insert_ne; [done|]); intros ->; tauto.
Qed.

Lemma contents_steps os st st' p c :
  steps os st st' -> Inv st -> contents st p = Some c ->
  Forall (fun o => forall rs sn, o <> OpSave p rs sn) os -> contents st' p = Some c.
Proof.
  induction 1 as [|o os st st1 st2 Hs _ IH]; intros HI Hc Hos; [done|].
  apply Forall_cons in Hos as [Ho Hos]. eauto using Inv_step, contents_step.
Qed.

Lemma Copy_contents p st q st' :
  Copy p st = Return (q, st') -> contents st' q = contents st p /\ is_Some (contents st p).
Proof.
  unfold Copy, contents. destruct (persisters st !! p) as [ps|]; [|done]. cbn.
  intros [= <- <-]. cbn. rewrite lookup_insert_eq. cbn. by split; [|eexists].
Qed.

Lemma Save_contents p rs sn st st' :
  Inv st -> Save p rs sn st = Return st' ->
  contents st' p = Some (bytes st rs, bytes (clone false rs st).2 sn).
Proof.
  intros HI [_ ->]%Save_inv. unfold contents. cbn. rewrite lookup_insert_eq. cbn. do 2 f_equal.
  - trans (bytes (clone false sn (clone false rs st).2).2 (clone false rs st).1); [done|].
    rewrite clone_bytes by (by apply clone_private_new). apply clone_new_bytes.
  - apply (clone_new_bytes false sn (clone false rs st).2).
Qed.

(** A slice the caller can see is not affected by the persister's allocations. *)
Lemma clone_visible orig st s : Inv st -> visible st s -> bytes (clone false orig st).2 s = bytes st s.
Proof.
  intros [Hp _] Hv. destruct s as [a|]; [|done]. unfold clone, alloc. cbn.
  rewrite lookup_insert_ne; [done|]. intros <-. apply Hp in Hv. by apply is_fresh in Hv.
Qed.

(** An operation that saves to no persister made between two states: what the
    tester makes in between, and gives to nobody yet, the running code cannot
    save to. *)
Definition elsewhere (before after : store) (o : op) : Prop :=
  match o with
  | OpSave p _ _ => p ∈ dom (persisters before) \/ p ∉ dom (persisters after)
  | _ => True
  end.

Lemma Copy_fresh p st q st' :
  Copy p st = Return (q, st') -> (q ∉ dom (persisters st)) /\ q ∈ dom (persisters st').
Proof.
  unfold Copy. destruct (persisters st !! p) as [ps|]; [|done]. simpl. intros [= <- <-]. simpl.
  split; [apply is_fresh|]. rewrite dom_insert. set_solver.
Qed.

(** A copy that nobody else has keeps what was copied. *)
Lemma Copy_kept p st q st1 os st2 :
  Inv st -> Copy p st = Return (q, st1) -> steps os st1 st2 -> Forall (elsewhere st st1) os ->
  contents st2 q = contents st p /\ Inv st2.
Proof.
  intros HI Hc Hs Hos. destruct (Copy_contents _ _ _ _ Hc) as [Hq [c Hcp]]. rewrite Hcp in Hq |- *.
  assert (Inv st1) as HI1 by (eapply (Inv_step (OpCopy p)); [by econstructor|done]).
  split; [|by eapply Inv_steps]. eapply contents_steps; [done..|]. eapply Forall_impl; [exact Hos|].
  intros o Ho rs sn ->. destruct (Copy_fresh _ _ _ _ Hc). by destruct Ho.
Qed.

(** ** Properties *)

(** C19: a copied persister is isolated.  In any history, after [Copy] of [p] the
    new persister [q] holds what [p] held, and keeps holding it whatever else
    happens -- saves to [p] by the old instance, reads, and writes to every
    array the running code can reach -- until somebody saves to [q]. *)
Theorem copy_is_isolated os0 st p q st1 os st2 :
  steps os0 empty_store st -> Copy p st = Return (q, st1) ->
  steps os st1 st2 -> Forall (fun o => forall rs sn, o <> OpSave q rs sn) os ->
  contents st2 q = contents st p.
Proof.
  intros H0 Hc Hs Hos. apply Inv_steps in H0 as HI; [|apply Inv_empty].
  destruct (Copy_contents _ _ _ _ Hc) as [Hq [c Hcp]]. rewrite Hcp in Hq |- *.
  eapply contents_steps; [done| |done|done].
  eapply (Inv_step (OpCopy p) st); [by econstructor|done].
Qed.

(** What was saved is read back.  After [Save(rs, sn)] to [p], and until the
    next save to [p], [ReadRaftState] and [ReadSnapshot] return fresh slices
    with the bytes [rs] and [sn] had when they were saved, even if the caller
    overwrites its own arrays in between. *)
Theorem save_read_roundtrip os0 st p rs sn st1 os st2 s st3 s' st3' :
  steps os0 empty_store st -> visible st rs -> visible st sn ->
  Save p rs sn st = Return st1 ->
  steps os st1 st2 -> Forall (fun o => forall rs sn, o <> OpSave p rs sn) os ->
  ReadRaftState p st2 = Return (s, st3) -> ReadSnapshot p st2 = Return (s', st3') ->
  bytes st3 s = bytes st rs /\ bytes st3' s' = bytes st sn.
Proof.
  intros H0 Hr Hsn Hsave Hs Hos. apply Inv_steps in H0 as HI; [|apply Inv_empty].
  intros (ps & Hps & -> & ->)%ReadRaftState_inv (ps' & Hps' & -> & ->)%ReadSnapshot_inv.
  pose proof (Save_contents _ _ _ _ _ HI Hsave) as Hc.
  rewrite clone_visible in Hc by done.
  eapply contents_steps in Hc; [|exact Hs| |done].
  2: { eapply (Inv_step (OpSave p rs sn) st); [by constructor|done]. }
  unfold contents in Hc. rewrite Hps in Hc, Hps'. injection Hps' as <-. injection Hc as Hc1 Hc2.
  by rewrite !clone_new_bytes.
Qed.

(** ** Witnesses *)

(** Allocate two arrays, make a persister, save. *)
Definition w0 : store :=
  (MakePersister (alloc (alloc empty_store "log" true).2 "snap" true).2).2.
Definition ops0 : list op := [OpAlloc "log"; OpAlloc "snap"; OpMake].

Lemma w0_steps : steps ops0 empty_store w0.
Proof. repeat econstructor. Qed.

Definition after (m : outcome store) : store := match m with Return st => st | _ => empty_store end.
Definition w1 : store := after (Save 0 (Some 0) (Some 1) w0).
Definition ops1 : list op := ops0 ++ [OpSave 0 (Some 0) (Some 1)].

Lemma visible_dec st a : bool_decide (a ∈ public st) = true -> visible st (Some a).
Proof. by intros ?%bool_decide_eq_true. Qed.

Lemma w1_steps : steps ops1 empty_store w1.
Proof.
  do 3 (econstructor; [constructor|]). econstructor; [|constructor].
  constructor; [apply visible_dec..|]; vm_compute; reflexivity.
Qed.

(** A restart copies the persister; then the old instance overwrites its array
    and saves again. *)
Definition w2 : store := match Copy 0 w1 with Return (_, st) => st | _ => empty_store end.
Definition w3 : store :=
  {| arrays := <[0 := "xxx"]> (arrays w2); persisters := persisters w2; public := public w2 |}.
Definition w4 : store := after (Save 0 (Some 0) None w3).

Lemma old_steps : steps [OpWrite 0 "xxx"; OpSave 0 (Some 0) None] w2 w4.
Proof.
  eapply (steps_cons _ _ _ w3); [|econstructor; [|constructor]].
  - apply step_write. apply (visible_dec w2 0). vm_compute. reflexivity.
  - constructor; [apply (visible_dec w3 0)|done|]; vm_compute; reflexivity.
Qed.

Lemma copy_is_isolated_witness :
  contents w4 1 = Some ("log", "snap") /\ contents w4 0 = Some ("xxx", "").
Proof.
  split; [|vm_compute; reflexivity].
  rewrite (copy_is_isolated ops1 w1 0 1 w2 _ w4 w1_steps ltac:(vm_compute; reflexivity) old_steps).
  - vm_compute. reflexivity.
  - repeat constructor; discriminate.
Defined.

Lemma save_read_roundtrip_witness :
  exists s st3 s' st3', ReadRaftState 0 w1 = Return (s, st3) /\ ReadSnapshot 0 w1 = Return (s', st3') /\
    bytes st3 s = "log" /\ bytes st3' s' = "snap".
Proof.
  destruct (ReadRaftState 0 w1) as [[s st3]| |] eqn:Hr; [|by vm_compute in Hr..].
  destruct (ReadSnapshot 0 w1) as [[s' st3']| |] eqn:Hs; [|by vm_compute in Hs..].
  exists s, st3, s', st3'. split; [done|]. split; [done|].
  apply (save_read_roundtrip ops0 w0 0 (Some 0) (Some 1) w1 [] w1 s st3 s' st3' w0_steps);
    [apply visible_dec; vm_compute; reflexivity..|vm_compute; reflexivity
    |constructor|constructor|done|done].
Defined.

End Persister.
