(* ===== verification/Group.v ===== *)
(** * Server groups

    Models [src/src/tester1/group.go] and [src/src/tester1/srv.go]: the servers
    of a replica group, their client ends to one another, partitions, and
    shutting servers down and restarting them.  The network is that of
    [LabRpc], the persisters those of [Persister].  [Randstring] and the
    application's [FstartServer] are arguments: the names and the services they
    return. *)

From S2P Require Import Prelude LabRpc Persister.

Module Group.
Import LabRpc(Network).

Definition ServerName (gid i : Z) : string := "server-" +:+ Itoa gid +:+ "-" +:+ Itoa i.

(** [endNames] is [None] when the slice is nil; services are known by number. *)
Record Server := {
  saved : option nat;
  svcs : list nat;
  endNames : option (list string)
}.

Record ServerGrp := {
  srvs : list Server;
  servernames : list string;
  gid : Z;
  connected : list bool
}.

(** The ends of a server: indexing a nil slice panics like an empty one. *)
Definition ends (s : Server) : list string := default [] (endNames s).

Definition set_connected (sg : ServerGrp) (l : list bool) : ServerGrp :=
  {| srvs := srvs sg; servernames := servernames sg; gid := gid sg; connected := l |}.
Definition set_srvs (sg : ServerGrp) (l : list Server) : ServerGrp :=
  {| srvs := l; servernames := servernames sg; gid := gid sg; connected := connected sg |}.

(** ** Making servers and groups *)

(** The loop of [makeServer] from index [j]: an end per peer, connected to the
    peer's server name. *)
Fixpoint makeEnds (g : Z) (j : nat) (names : list string) (net : Network) : outcome Network :=
  match names with
  | [] => Return net
  | name :: names =>
      net ← LabRpc.MakeEnd name net;
      makeEnds g (S j) names (LabRpc.Connect name (ServerName g (Z.of_nat j)) net)
  end.

Definition makeServer (g : Z) (names : list string) (net : Network) : outcome (Server * Network) :=
  net ← makeEnds g 0 names net;
  mret ({| saved := None; svcs := []; endNames := Some names |}, net).

Fixpoint makeServers (g : Z) (names : list (list string)) (net : Network)
    : outcome (list Server * Network) :=
  match names with
  | [] => Return ([], net)
  | ns :: names =>
      '(s, net) ← makeServer g ns net;
      '(l, net) ← makeServers g names net;
      mret (s :: l, net)
  end.

(** [names] are the random end names: [n] lists of [n]. *)
Definition makeSrvGrp (g : Z) (names : list (list string)) (net : Network)
    : outcome (ServerGrp * Network) :=
  '(l, net) ← makeServers g names net;
  mret ({| srvs := l;
           servernames := (fun i => ServerName g (Z.of_nat i)) <$> seq 0 (length names);
           gid := g; connected := replicate (length names) false |}, net).

Definition N (sg : ServerGrp) : Z := len (srvs sg).
Definition SrvName (sg : ServerGrp) (i : Z) : outcome string := slice_get (servernames sg) i.
Definition all (sg : ServerGrp) : list Z := Z.of_nat <$> seq 0 (length (srvs sg)).

Fixpoint SrvNamesTo (sg : ServerGrp) (to : list Z) : outcome (list string) :=
  match to with
  | [] => Return []
  | i :: to => n ← SrvName sg i; ns ← SrvNamesTo sg to; mret (n :: ns)
  end.

Definition IsConnected (sg : ServerGrp) (i : Z) : outcome bool := slice_get (connected sg) i.

(** ** Connecting *)

(** [Server.connect] *)
Fixpoint Server_connect (s : Server) (sg : ServerGrp) (to : list Z) (net : Network) : outcome Network :=
  match to with
  | [] => Return net
  | j :: to =>
      c ← IsConnected sg j;
      if (c : bool) then
        endname ← slice_get (ends s) j;
        Server_connect s sg to (LabRpc.Enable endname true net)
      else Server_connect s sg to net
  end.

(** The second loop of [ServerGrp.connect]. *)
Fixpoint connectIncoming (sg : ServerGrp) (i : Z) (to : list Z) (net : Network) : outcome Network :=
  match to with
  | [] => Return net
  | j :: to =>
      c ← IsConnected sg j;
      if (c : bool) then
        s ← slice_get (srvs sg) j;
        endname ← slice_get (ends s) i;
        connectIncoming sg i to (LabRpc.Enable endname true net)
      else connectIncoming sg i to net
  end.

Definition connect (i : Z) (to : list Z) (sg : ServerGrp) (net : Network)
    : outcome (ServerGrp * Network) :=
  l ← slice_set (connected sg) i true;
  let sg := set_connected sg l in
  s ← slice_get (srvs sg) i;
  net ← Server_connect s sg to net;
  net ← connectIncoming sg i to net;
  mret (sg, net).

(** [Server.disconnect] *)
Fixpoint disconnectEnds (s : Server) (from : list Z) (net : Network) : outcome Network :=
  match from with
  | [] => Return net
  | j :: from =>
      endname ← slice_get (ends s) j;
      disconnectEnds s from (LabRpc.Enable endname false net)
  end.
Definition Server_disconnect (s : Server) (from : list Z) (net : Network) : outcome Network :=
  match endNames s with
  | None => Return net
  | Some _ => disconnectEnds s from net
  end.

Fixpoint disconnectIncoming (sg : ServerGrp) (i : Z) (from : list Z) (net : Network) : outcome Network :=
  match from with
  | [] => Return net
  | j :: from =>
      s ← slice_get (srvs sg) j;
      match endNames s with
      | None => disconnectIncoming sg i from net
      | Some _ =>
          endname ← slice_get (ends s) i;
          disconnectIncoming sg i from (LabRpc.Enable endname false net)
      end
  end.

Definition disconnect (i : Z) (from : list Z) (sg : ServerGrp) (net : Network)
    : outcome (ServerGrp * Network) :=
  l ← slice_set (connected sg) i false;
  let sg := set_connected sg l in
  s ← slice_get (srvs sg) i;
  net ← Server_disconnect s from net;
  net ← disconnectIncoming sg i from net;
  mret (sg, net).

Definition ConnectOne (i : Z) (sg : ServerGrp) (net : Network) : outcome (ServerGrp * Network) :=
  connect i (all sg) sg net.
Definition DisconnectAll (i : Z) (sg : ServerGrp) (net : Network) : outcome (ServerGrp * Network) :=
  disconnect i (all sg) sg net.

(** Run an operation for each index in turn. *)
Fixpoint forEach (f : Z -> ServerGrp -> Network -> outcome (ServerGrp * Network)) (idx : list Z)
    (sg : ServerGrp) (net : Network) : outcome (ServerGrp * Network) :=
  match idx with
  | [] => Return (sg, net)
  | i :: idx => '(sg, net) ← f i sg net; forEach f idx sg net
  end.

Definition ConnectAll (sg : ServerGrp) (net : Network) : outcome (ServerGrp * Network) :=
  forEach ConnectOne (all sg) sg net.

(** ** Partitions *)

(** The loop of [MakePartition]: [p1] and [p2] are filled from position [j]. *)
Fixpoint fillPartition (l : Z) (idx : list Z) (j : Z) (p1 p2 : list Z) : outcome (list Z * list Z) :=
  match idx with
  | [] => Return (p1, p2)
  | i :: idx =>
      if decide (i <> l) then
        if decide (j < len p1)%Z then
          p1 ← slice_set p1 j i;
          fillPartition l idx (j + 1) p1 p2
        else
          p2 ← slice_set p2 (j - len p1) i;
          fillPartition l idx (j + 1) p1 p2
      else fillPartition l idx j p1 p2
  end.

Definition MakePartition (l : Z) (sg : ServerGrp) : outcome (list Z * list Z) :=
  let n := N sg in
  p1 ← go_make 0%Z (Z.quot n 2 + 1);
  p2 ← go_make 0%Z (Z.quot n 2);
  '(p1, p2) ← fillPartition l (all sg) 0 p1 p2;
  p2 ← slice_set p2 (len p2 - 1) l;
  mret (p1, p2).

Definition Partition (p1 p2 : list Z) (sg : ServerGrp) (net : Network)
    : outcome (ServerGrp * Network) :=
  '(sg, net) ← forEach (fun i sg net =>
      '(sg, net) ← disconnect i p2 sg net; connect i p1 sg net) p1 sg net;
  forEach (fun i sg net =>
      '(sg, net) ← disconnect i p1 sg net; connect i p2 sg net) p2 sg net.

(** ** Which servers can talk to which *)

(** The name of server [a]'s end to server [b]. *)
Definition endOf (sg : ServerGrp) (a b : nat) : option string :=
  s ← srvs sg !! a; ends s !! b.

(** Every server has an end to every server, and all ends are different. *)
Record wf (sg : ServerGrp) : Prop := {
  wf_connected : length (connected sg) = length (srvs sg);
  wf_ends a s : srvs sg !! a = Some s ->
    is_Some (endNames s) /\ length (ends s) = length (srvs sg);
  wf_inj a b a' b' e : endOf sg a b = Some e -> endOf sg a' b' = Some e -> a = a' /\ b = b'
}.

(** Server [a] can send to server [b]. *)
Definition linked (sg : ServerGrp) (net : Network) (a b : nat) : Prop :=
  exists e, endOf sg a b = Some e /\ LabRpc.endEnabled net e = true.

(** Server [a] is on the net. *)
Definition online (sg : ServerGrp) (a : nat) : Prop := connected sg !! a = Some true.

Definition inRange (sg : ServerGrp) (l : list nat) : Prop := Forall (fun i => i < length (srvs sg)) l.

Lemma endEnabled_Enable net e on e' :
  LabRpc.endEnabled (LabRpc.Enable e on net) e' = if decide (e = e') then on else LabRpc.endEnabled net e'.
Proof. unfold LabRpc.endEnabled. cbn. rewrite lookup_insert. by case_decide. Qed.

Lemma endOf_Some sg a b :
  wf sg -> a < length (srvs sg) -> b < length (srvs sg) ->
  exists s e, srvs sg !! a = Some s /\ is_Some (endNames s) /\ ends s !! b = Some e /\ endOf sg a b = Some e.
Proof.
  intros [] Ha Hb. destruct (lookup_lt_is_Some_2 (srvs sg) a Ha) as [s Hs].
  destruct (wf_ends0 a s Hs) as [Hn Hl].
  destruct (lookup_lt_is_Some_2 (ends s) b) as [e He]; [lia|].
  exists s, e. split_and!; try done. unfold endOf. by rewrite Hs.
Qed.

(** Enabling or disabling one end changes one link. *)
Lemma linked_Enable sg net a b e on x y :
  wf sg -> endOf sg a b = Some e ->
  linked sg (LabRpc.Enable e on net) x y <->
  (x = a /\ y = b /\ on = true) \/ (~ (x = a /\ y = b) /\ linked sg net x y).
Proof.
  intros Hw He. unfold linked. setoid_rewrite endEnabled_Enable. split.
  - intros (e' & He' & Hon). case_decide as Hd.
    + subst e'. destruct (wf_inj _ Hw _ _ _ _ _ He He') as [<- <-]. by left.
    + right. split; [|eauto]. intros [-> ->]. congruence.
  - intros [(-> & -> & ->)|[Hne (e' & He' & Hon)]].
    + exists e. by rewrite decide_True.
    + exists e'. split; [done|]. rewrite decide_False; [done|]. intros ->.
      destruct (wf_inj _ Hw _ _ _ _ _ He He') as [<- <-]. by apply Hne.
Qed.

Lemma IsConnected_spec sg j :
  wf sg -> j < length (srvs sg) ->
  exists c, IsConnected sg (Z.of_nat j) = Return c /\ (c = true <-> online sg j).
Proof.
  intros [] Hj. destruct (lookup_lt_is_Some_2 (connected sg) j) as [c Hc]; [lia|].
  exists c. split; [by apply slice_get_Some|]. unfold online. rewrite Hc. split; congruence.
Qed.

Lemma Server_connect_spec sg i s to : wf sg -> srvs sg !! i = Some s -> inRange sg to -> forall net,
  exists net', Server_connect s sg (Z.of_nat <$> to) net = Return net' /\
    forall x y, linked sg net' x y <-> linked sg net x y \/ (x = i /\ y ∈ to /\ online sg y).
Proof.
  intros Hw Hs. pose proof (lookup_lt_Some _ _ _ Hs) as Hi.
  induction 1 as [|j to Hj _ IH]; intros net; csimpl.
  { exists net. split; [done|]. intros x y. rewrite elem_of_nil. tauto. }
  destruct (IsConnected_spec sg j Hw Hj) as (c & -> & Hc). csimpl.
  destruct (endOf_Some sg i j Hw Hi Hj) as (s' & e & Hs' & _ & He & Heo). simplify_eq.
  destruct c.
  - rewrite (slice_get_Some _ _ _ He). csimpl.
    destruct (IH (LabRpc.Enable e true net)) as (net' & -> & Hl). exists net'. split; [done|].
    intros x y. rewrite Hl, (linked_Enable sg net i j e true x y Hw Heo), elem_of_cons.
    destruct (decide (x = i)) as [->|]; [|tauto]. destruct (decide (y = j)) as [->|]; [|tauto].
    tauto.
  - destruct (IH net) as (net' & -> & Hl). exists net'. split; [done|].
    intros x y. rewrite Hl, elem_of_cons. split; [tauto|].
    intros [?|(-> & [->|?] & Ho)]; [tauto| |tauto]. by apply Hc in Ho.
Qed.

Lemma connectIncoming_spec sg i to : wf sg -> i < length (srvs sg) -> inRange sg to -> forall net,
  exists net', connectIncoming sg (Z.of_nat i) (Z.of_nat <$> to) net = Return net' /\
    forall x y, linked sg net' x y <-> linked sg net x y \/ (y = i /\ x ∈ to /\ online sg x).
Proof.
  intros Hw Hi. induction 1 as [|j to Hj _ IH]; intros net; csimpl.
  { exists net. split; [done|]. intros x y. rewrite elem_of_nil. tauto. }
  destruct (IsConnected_spec sg j Hw Hj) as (c & -> & Hc). csimpl.
  destruct (endOf_Some sg j i Hw Hj Hi) as (s & e & Hs & _ & He & Heo).
  destruct c.
  - rewrite (slice_get_Some _ _ _ Hs). csimpl. rewrite (slice_get_Some _ _ _ He). csimpl.
    destruct (IH (LabRpc.Enable e true net)) as (net' & -> & Hl). exists net'. split; [done|].
    intros x y. rewrite Hl, (linked_Enable sg net j i e true x y Hw Heo), elem_of_cons.
    destruct (decide (x = j)) as [->|]; [|tauto]. destruct (decide (y = i)) as [->|]; [|tauto].
    tauto.
  - destruct (IH net) as (net' & -> & Hl). exists net'. split; [done|].
    intros x y. rewrite Hl, elem_of_cons. split; [tauto|].
    intros [?|(-> & [->|?] & Ho)]; [tauto| |tauto]. by apply Hc in Ho.
Qed.

Lemma disconnectEnds_spec sg i s from : wf sg -> srvs sg !! i = Some s -> inRange sg from -> forall net,
  exists net', disconnectEnds s (Z.of_nat <$> from) net = Return net' /\
    forall x y, linked sg net' x y <-> linked sg net x y /\ ~ (x = i /\ y ∈ from).
Proof.
  intros Hw Hs. pose proof (lookup_lt_Some _ _ _ Hs) as Hi.
  induction 1 as [|j from Hj _ IH]; intros net; csimpl.
  { exists net. split; [done|]. intros x y. rewrite elem_of_nil. tauto. }
  destruct (endOf_Some sg i j Hw Hi Hj) as (s' & e & Hs' & _ & He & Heo). simplify_eq.
  rewrite (slice_get_Some _ _ _ He). csimpl.
  destruct (IH (LabRpc.Enable e false net)) as (net' & -> & Hl). exists net'. split; [done|].
  intros x y. rewrite Hl, (linked_Enable sg net i j e false x y Hw Heo), elem_of_cons.
  split; [intros [[(_ & _ & [=])|[? ?]] ?]; tauto|tauto].
Qed.

Lemma disconnectIncoming_spec sg i from :
  wf sg -> i < length (srvs sg) -> inRange sg from -> forall net,
  exists net', disconnectIncoming sg (Z.of_nat i) (Z.of_nat <$> from) net = Return net' /\
    forall x y, linked sg net' x y <-> linked sg net x y /\ ~ (y = i /\ x ∈ from).
Proof.
  intros Hw Hi. induction 1 as [|j from Hj _ IH]; intros net; csimpl.
  { exists net. split; [done|]. intros x y. rewrite elem_of_nil. tauto. }
  destruct (endOf_Some sg j i Hw Hj Hi) as (s & e & Hs & [ns Hns] & He & Heo).
  rewrite (slice_get_Some _ _ _ Hs). csimpl. rewrite Hns, (slice_get_Some _ _ _ He). csimpl.
  destruct (IH (LabRpc.Enable e false net)) as (net' & -> & Hl). exists net'. split; [done|].
  intros x y. rewrite Hl, (linked_Enable sg net j i e false x y Hw Heo), elem_of_cons.
  split; [intros [[(_ & _ & [=])|[? ?]] ?]; tauto|tauto].
Qed.

(** ** connect and disconnect *)

Lemma wf_set_connected sg l :
  wf sg -> length l = length (connected sg) -> wf (set_connected sg l).
Proof. intros [] Hl. constructor; cbn; [congruence|done|done]. Qed.

Lemma slice_set_nat {A} (l : list A) (i : nat) x :
  i < length l -> slice_set l (Z.of_nat i) x = Return (<[i := x]> l).
Proof. intros Hi. unfold slice_set, len. by rewrite decide_True, Nat2Z.id by lia. Qed.

(** [sg'] is [sg] with other servers on the net. *)
Definition same_servers (sg sg' : ServerGrp) : Prop :=
  wf sg' /\ srvs sg' = srvs sg /\ gid sg' = gid sg /\ servernames sg' = servernames sg.

Lemma linked_same sg sg' net x y : srvs sg' = srvs sg -> linked sg' net x y <-> linked sg net x y.
Proof. intros E. unfold linked, endOf. by rewrite E. Qed.

Lemma connect_spec sg net i to :
  wf sg -> i < length (srvs sg) -> inRange sg to ->
  exists sg' net', connect (Z.of_nat i) (Z.of_nat <$> to) sg net = Return (sg', net') /\
    same_servers sg sg' /\ (forall a, online sg' a <-> a = i \/ online sg a) /\
    forall x y, linked sg net' x y <->
      linked sg net x y \/ (x = i /\ y ∈ to /\ online sg' y) \/ (y = i /\ x ∈ to /\ online sg' x).
Proof.
  intros Hw Hi Ht. unfold connect. rewrite slice_set_nat by (by rewrite (wf_connected _ Hw)). csimpl.
  set (sg' := set_connected sg (<[i:=true]> (connected sg))).
  assert (wf sg') as Hw' by (apply wf_set_connected; [done|by rewrite length_insert]).
  destruct (lookup_lt_is_Some_2 (srvs sg) i Hi) as [s Hs]. rewrite (slice_get_Some _ _ _ Hs). csimpl.
  destruct (Server_connect_spec sg' i s to Hw' Hs Ht net) as (net1 & -> & H1). csimpl.
  destruct (connectIncoming_spec sg' i to Hw' Hi Ht net1) as (net2 & -> & H2). csimpl.
  exists sg', net2. split_and!; [done|done| |].
  - intros a. unfold online. simpl. rewrite list_lookup_insert. case_decide as Ha; [naive_solver|].
    split; [by right|]. intros [->|?]; [|done]. destruct Ha. split; [done|].
    by rewrite (wf_connected _ Hw).
  - intros x y. specialize (H1 x y). specialize (H2 x y).
    rewrite (linked_same sg sg') in * by done. tauto.
Qed.

Lemma disconnect_spec sg net i from :
  wf sg -> i < length (srvs sg) -> inRange sg from ->
  exists sg' net', disconnect (Z.of_nat i) (Z.of_nat <$> from) sg net = Return (sg', net') /\
    same_servers sg sg' /\ (forall a, online sg' a <-> a <> i /\ online sg a) /\
    forall x y, linked sg net' x y <->
      linked sg net x y /\ ~ (x = i /\ y ∈ from) /\ ~ (y = i /\ x ∈ from).
Proof.
  intros Hw Hi Ht. unfold disconnect. rewrite slice_set_nat by (by rewrite (wf_connected _ Hw)). csimpl.
  set (sg' := set_connected sg (<[i:=false]> (connected sg))).
  assert (wf sg') as Hw' by (apply wf_set_connected; [done|by rewrite length_insert]).
  destruct (lookup_lt_is_Some_2 (srvs sg) i Hi) as [s Hs]. rewrite (slice_get_Some _ _ _ Hs). csimpl.
  destruct (disconnectEnds_spec sg' i s from Hw' Hs Ht net) as (net1 & He & H1).
  assert (Server_disconnect s (Z.of_nat <$> from) net = Return net1) as ->.
  { unfold Server_disconnect. destruct (wf_ends _ Hw i s Hs) as [[ns ->] _]. done. }
  csimpl.
  destruct (disconnectIncoming_spec sg' i from Hw' Hi Ht net1) as (net2 & -> & H2). csimpl.
  exists sg', net2. split_and!; [done|done| |].
  - intros a. unfold online. simpl. rewrite list_lookup_insert. case_decide as Ha; [naive_solver|].
    split; [|by intros [_ ?]]. intros Ho. split; [|done]. intros ->. apply Ha. split; [done|].
    by rewrite (wf_connected _ Hw).
  - intros x y. specialize (H1 x y). specialize (H2 x y).
    rewrite (linked_same sg sg') in * by done. tauto.
Qed.

Lemma same_servers_trans sg1 sg2 sg3 :
  same_servers sg1 sg2 -> same_servers sg2 sg3 -> same_servers sg1 sg3.
Proof. unfold same_servers. intros (_ & ? & ? & ?) (? & ? & ? & ?). split_and!; congruence. Qed.

(** Moving the servers of [pa], one after the other, away from [pb] and together. *)
Definition moveTo (pa pb : list nat) (i : Z) (sg : ServerGrp) (net : Network)
    : outcome (ServerGrp * Network) :=
  '(sg, net) ← disconnect i (Z.of_nat <$> pb) sg net; connect i (Z.of_nat <$> pa) sg net.

Lemma moveTo_spec sg net pa pb i :
  wf sg -> inRange sg pa -> inRange sg pb -> i ∈ pa -> (forall x, x ∈ pa -> x ∉ pb) ->
  exists sg' net', moveTo pa pb (Z.of_nat i) sg net = Return (sg', net') /\
    same_servers sg sg' /\ (forall a, online sg' a <-> a = i \/ online sg a) /\
    forall x y, linked sg net' x y <->
      (linked sg net x y /\ ~ (x = i /\ y ∈ pb) /\ ~ (y = i /\ x ∈ pb)) \/
      (x = i /\ y ∈ pa /\ online sg' y) \/ (y = i /\ x ∈ pa /\ online sg' x).
Proof.
  intros Hw Ha Hb Hi Hd.
  assert (i < length (srvs sg)) as Hi' by (unfold inRange in Ha; rewrite Forall_forall in Ha; auto).
  unfold moveTo. destruct (disconnect_spec sg net i pb Hw Hi' Hb) as (sg1 & net1 & -> & Hs1 & Ho1 & H1).
  csimpl. destruct Hs1 as (Hw1 & E1 & Hs1).
  destruct (connect_spec sg1 net1 i pa Hw1) as (sg2 & net2 & -> & Hs2 & Ho2 & H2);
    [by rewrite E1|unfold inRange; by rewrite E1|].
  exists sg2, net2. split_and!; [done|by eapply (same_servers_trans _ sg1)| |].
  - intros a. rewrite Ho2, Ho1. destruct (decide (a = i)); tauto.
  - intros x y. specialize (H1 x y). specialize (H2 x y). rewrite !(linked_same sg sg1) in H2 by done.
    tauto.
Qed.

(** One loop of [Partition]. *)
Lemma phase_spec pa pb done_ rest : forall sg net,
  wf sg -> inRange sg pa -> inRange sg pb -> (forall x, x ∈ pa -> x ∉ pb) ->
  (forall x, x ∈ done_ ++ rest -> x ∈ pa) ->
  (forall x, x ∈ done_ -> online sg x) ->
  (forall x y, x ∈ done_ -> y ∈ done_ -> linked sg net x y) ->
  (forall x y, x ∈ done_ -> y ∈ pb -> ~ linked sg net x y /\ ~ linked sg net y x) ->
  exists sg' net', forEach (moveTo pa pb) (Z.of_nat <$> rest) sg net = Return (sg', net') /\
    same_servers sg sg' /\
    (forall x y, x ∈ done_ ++ rest -> y ∈ done_ ++ rest -> linked sg net' x y) /\
    (forall x y, x ∈ done_ ++ rest -> y ∈ pb -> ~ linked sg net' x y /\ ~ linked sg net' y x) /\
    (forall x y, x ∉ pa -> y ∉ pa -> linked sg net' x y <-> linked sg net x y).
Proof.
  revert done_. induction rest as [|i rest IH]; intros dn sg net Hw Ha Hb Hd Hin Hon Hl Hx; csimpl.
  { exists sg, net. rewrite app_nil_r. by split_and!. }
  assert (i ∈ pa) as Hi by (apply Hin; set_solver).
  destruct (moveTo_spec sg net pa pb i Hw Ha Hb Hi Hd) as (sg1 & net1 & -> & Hs1 & Ho1 & H1). csimpl.
  destruct Hs1 as (Hw1 & E1 & Hs1).
  destruct (IH (dn ++ [i]) sg1 net1) as (sg2 & net2 & -> & Hs2 & R1 & R2 & R3);
    unfold inRange; rewrite ?E1; try done.
  - intros x Hx'. apply Hin. set_solver.
  - intros x [Hx'| ->%list_elem_of_singleton]%elem_of_app; rewrite Ho1; auto.
  - intros x y Hx' Hy'. rewrite (linked_same sg sg1), H1 by done.
    rewrite !elem_of_app, !list_elem_of_singleton in Hx', Hy'. rewrite !Ho1.
    assert (forall z, z ∈ dn -> z ∈ pa) as Hdn by (intros; apply Hin; set_solver).
    destruct Hx' as [Hx'| ->], Hy' as [Hy'| ->].
    + left. split_and!; [auto|intros [_ ?]; by apply (Hd y); auto|intros [_ ?]; by apply (Hd x); auto].
    + right; right. split_and!; auto.
    + right; left. split_and!; auto.
    + right; left. split_and!; auto.
  - intros x y Hx' Hy'. rewrite !(linked_same sg sg1), !H1 by done.
    assert (y ∉ pa) as Hyp by (intros ?; by eapply Hd).
    assert (y <> i) as Hyi by (intros ->; done).
    apply elem_of_app in Hx' as [Hx'| ->%list_elem_of_singleton].
    + destruct (Hx x y Hx' Hy'). tauto.
    + tauto.
  - exists sg2, net2. rewrite <-app_assoc in R1, R2. split_and!; [done|by eapply (same_servers_trans _ sg1)|..].
    + intros x y Hx' Hy'. rewrite <-(linked_same sg sg1) by done. by apply R1.
    + intros x y Hx' Hy'. rewrite <-!(linked_same sg sg1) by done. by apply R2.
    + intros x y Hx' Hy'. rewrite <-(linked_same sg sg1), R3, (linked_same sg sg1), H1 by done.
      assert (x <> i) by (intros ->; done). assert (y <> i) by (intros ->; done). tauto.
Qed.

(** A partition separates the two sides and joins each of them, whatever was
    connected before; links between servers of neither side are untouched. *)
Lemma Partition_spec sg net p1 p2 :
  wf sg -> inRange sg p1 -> inRange sg p2 -> (forall x, x ∈ p1 -> x ∉ p2) ->
  exists sg' net', Partition (Z.of_nat <$> p1) (Z.of_nat <$> p2) sg net = Return (sg', net') /\
    wf sg' /\ srvs sg' = srvs sg /\
    (forall x y, x ∈ p1 -> y ∈ p1 -> linked sg' net' x y) /\
    (forall x y, x ∈ p2 -> y ∈ p2 -> linked sg' net' x y) /\
    (forall x y, x ∈ p1 -> y ∈ p2 -> ~ linked sg' net' x y /\ ~ linked sg' net' y x) /\
    (forall x y, x ∉ p1 -> x ∉ p2 -> y ∉ p1 -> y ∉ p2 -> linked sg' net' x y <-> linked sg net x y).
Proof.
  intros Hw H1 H2 Hd. unfold Partition.
  destruct (phase_spec p1 p2 [] p1 sg net) as (sg1 & net1 & He1 & (Hw1 & E1 & Hs1) & L1 & X1 & F1);
    try done; try (intros ? ?; set_solver); try (intros ?; set_solver).
  unfold moveTo in He1. rewrite He1. csimpl.
  destruct (phase_spec p2 p1 [] p2 sg1 net1) as (sg2 & net2 & He2 & (Hw2 & E2 & Hs2) & L2 & X2 & F2);
    unfold inRange; rewrite ?E1; try done; try (intros ? ?; set_solver); try (intros ?; set_solver).
  unfold moveTo in He2. rewrite He2. exists sg2, net2.
  assert (srvs sg2 = srvs sg) as E by congruence.
  assert (forall net x y, linked sg2 net x y <-> linked sg net x y) as K2
    by (intros; by apply linked_same).
  assert (forall net x y, linked sg1 net x y <-> linked sg net x y) as K1
    by (intros; by apply linked_same).
  split_and!; try done.
  - intros x y Hx Hy. rewrite K2, <-K1, F2, K1 by (by apply Hd). by apply L1.
  - intros x y Hx Hy. rewrite K2, <-K1. by apply L2.
  - intros x y Hx Hy. rewrite !K2, <-!K1. destruct (X2 y x); auto.
  - intros x y Hx1 Hx2 Hy1 Hy2. rewrite K2, <-K1, F2, K1 by done. by apply F1.
Qed.

(** ** MakePartition *)

Definition others (l : Z) (idx : list Z) : list Z := filter (fun i => i <> l) idx.

Lemma insert_take_drop {A} (l : list A) j x ys m :
  j < length l ->
  take (S j) (<[j := x]> l) ++ ys ++ drop (S j + m) (<[j := x]> l)
  = take j l ++ x :: ys ++ drop (S j + m) l.
Proof.
  intros Hj. rewrite (take_S_r _ _ x) by (by apply list_lookup_insert_eq).
  rewrite take_insert_ge, drop_insert_lt by lia. rewrite <-!app_assoc. done.
Qed.

(** [p1] followed by [p2] is filled as one array. *)
Lemma fillPartition_spec l idx : forall j p1 p2,
  j + length (others l idx) <= length p1 + length p2 ->
  exists p1' p2', fillPartition l idx (Z.of_nat j) p1 p2 = Return (p1', p2') /\
    length p1' = length p1 /\ length p2' = length p2 /\
    p1' ++ p2' = take j (p1 ++ p2) ++ others l idx ++ drop (j + length (others l idx)) (p1 ++ p2).
Proof.
  induction idx as [|i idx IH]; intros j p1 p2 Hj; simpl.
  { exists p1, p2. rewrite Nat.add_0_r. split_and!; try done.
    unfold others. simpl. by rewrite take_drop. }
  unfold others in *. rewrite filter_cons in Hj |- *.
  destruct (decide (i <> l)) as [Hi|Hi]; [|by apply IH]. simpl in Hj. unfold len.
  replace (Z.of_nat j + 1)%Z with (Z.of_nat (S j)) by lia. case_decide as Hlt.
  - rewrite slice_set_nat by lia. csimpl.
    destruct (IH (S j) (<[j:=i]> p1) p2) as (p1' & p2' & -> & H1 & H2 & Heq).
    { rewrite length_insert. lia. }
    rewrite length_insert in H1. exists p1', p2'. split_and!; try done. rewrite Heq.
    rewrite <-insert_app_l by lia. simpl. rewrite Nat.add_succ_r.
    apply (insert_take_drop (p1 ++ p2) j i). rewrite length_app. lia.
  - replace (Z.of_nat j - Z.of_nat (length p1))%Z with (Z.of_nat (j - length p1)) by lia.
    rewrite slice_set_nat by lia. csimpl.
    destruct (IH (S j) p1 (<[j - length p1:=i]> p2)) as (p1' & p2' & -> & H1 & H2 & Heq).
    { rewrite length_insert. lia. }
    rewrite length_insert in H2. exists p1', p2'. split_and!; try done. rewrite Heq.
    rewrite <-insert_app_r_alt by lia. simpl. rewrite Nat.add_succ_r.
    apply (insert_take_drop (p1 ++ p2) j i). rewrite length_app. lia.
Qed.

Lemma filter_seq_ne l a n :
  a <= l < a + n ->
  others (Z.of_nat l) (Z.of_nat <$> seq a n)
  = (Z.of_nat <$> seq a (l - a)) ++ (Z.of_nat <$> seq (S l) (a + n - S l)).
Proof.
  intros Hl. replace n with ((l - a) + S (a + n - S l)) at 1 by lia.
  rewrite seq_app, fmap_app. unfold others. rewrite filter_app. f_equal.
  - apply filter_all_id, Forall_fmap, Forall_seq. intros j Hj. simpl. lia.
  - replace (a + (l - a)) with l by lia. csimpl. rewrite filter_cons, decide_False by lia.
    apply filter_all_id, Forall_fmap, Forall_seq. intros j Hj. simpl. lia.
Qed.

(** What [MakePartition] computes, for any number of servers but one. *)
Lemma MakePartition_spec sg l :
  1 < length (srvs sg) -> l < length (srvs sg) ->
  let n := length (srvs sg) in
  exists p1 p2, MakePartition (Z.of_nat l) sg = Return (p1, p2) /\
    length p1 = n / 2 + 1 /\ length p2 = n / 2 /\
    p1 ++ p2 = others (Z.of_nat l) (all sg) ++ replicate (1 - n mod 2) 0%Z ++ [Z.of_nat l].
Proof.
  intros Hn Hl n. fold n in Hn, Hl. unfold MakePartition, N, len. fold n.
  rewrite Z.quot_div_nonneg by lia. change 2%Z with (Z.of_nat 2). rewrite <-Nat2Z.inj_div.
  pose proof (Nat.div_mod n 2 ltac:(lia)) as Hdm. pose proof (Nat.mod_upper_bound n 2 ltac:(lia)) as Hm.
  unfold go_make. rewrite !decide_True by lia. cbn [mbind outcome_bind].
  replace (Z.to_nat (Z.of_nat (n / 2) + 1)) with (n / 2 + 1) by lia. rewrite Nat2Z.id.
  assert (length (others (Z.of_nat l) (all sg)) = n - 1) as Hlen.
  { unfold all. fold n. rewrite filter_seq_ne, length_app, !length_fmap, !length_seq by lia. lia. }
  destruct (fillPartition_spec (Z.of_nat l) (all sg) 0 (replicate (n / 2 + 1) 0%Z)
    (replicate (n / 2) 0%Z)) as (p1 & p2 & He & H1 & H2 & Heq).
  { rewrite !length_replicate, Hlen. lia. }
  rewrite length_replicate in H1, H2. change (Z.of_nat 0) with 0%Z in He. rewrite He. cbn [mbind outcome_bind].
  rewrite H2.
  replace (Z.of_nat (n / 2) - 1)%Z with (Z.of_nat (n / 2 - 1)) by lia.
  rewrite slice_set_nat by lia. cbn [mbind outcome_bind].
  exists p1, (<[n / 2 - 1 := Z.of_nat l]> p2). split_and!; [done|done|by rewrite length_insert|].
  rewrite take_0, app_nil_l, Nat.add_0_l, <-replicate_add, drop_replicate, Hlen in Heq.
  replace (n / 2 + 1 + n / 2 - (n - 1)) with ((1 - n mod 2) + 1) in Heq by lia.
  rewrite replicate_add in Heq. change (replicate 1 0%Z) with [0%Z] in Heq.
  set (r := 1 - n mod 2) in *.
  replace (n / 2 - 1) with (length (p1 ++ p2) - 1 - length p1) by (rewrite length_app; lia).
  rewrite <-insert_app_r_alt by (rewrite length_app; lia). rewrite Heq, !length_app, length_replicate.
  rewrite insert_app_r_alt by (simpl; lia). f_equal. rewrite insert_app_r_alt; rewrite length_replicate.
  - f_equal. change (length [0%Z]) with 1.
    replace (length (others (Z.of_nat l) (all sg)) + (r + 1) - 1
             - length (others (Z.of_nat l) (all sg)) - r) with 0 by lia. done.
  - change (length [0%Z]) with 1. lia.
Qed.

(** [MakePartition] splits an odd group with the leader in the minority.  For
    an odd number of servers, at least three, and any leader [l], it returns a
    majority and a minority that together list every server exactly once, the
    leader being in the minority. *)
Theorem make_partition_odd sg l k :
  length (srvs sg) = 2 * k + 1 -> 1 <= k -> l < length (srvs sg) ->
  exists p1 p2, MakePartition (Z.of_nat l) sg = Return (p1, p2) /\
    length p1 = k + 1 /\ length p2 = k /\ p1 ++ p2 ≡ₚ all sg /\ Z.of_nat l ∈ p2.
Proof.
  intros Hn Hk Hl. destruct (MakePartition_spec sg l) as (p1 & p2 & He & H1 & H2 & Heq); [lia|done|].
  exists p1, p2.
  assert (length (srvs sg) / 2 = k) as Hd by (rewrite Hn; symmetry; apply (Nat.div_unique _ 2 k 1); lia).
  assert (length (srvs sg) mod 2 = 1) as Hm
    by (rewrite Hn; symmetry; apply (Nat.mod_unique _ 2 k 1); lia).
  rewrite Hm in Heq. simpl in Heq. rewrite Hd in H1, H2. split_and!; try done.
  - rewrite Heq. unfold all. rewrite filter_seq_ne by lia.
    replace (length (srvs sg)) with (l + S (length (srvs sg) - S l)) at 2 by lia.
    rewrite seq_app. csimpl. rewrite fmap_app. csimpl. rewrite Nat.sub_0_r, <-app_assoc.
    apply Permutation_app_head. symmetry. apply Permutation_cons_append.
  - apply (list_elem_of_lookup_2 _ (k - 1)).
    assert ((p1 ++ p2) !! (length p1 + (k - 1)) = p2 !! (k - 1)) as <-.
    { rewrite lookup_app_r by lia. f_equal. lia. }
    assert (length (others (Z.of_nat l) (all sg)) = length (p1 ++ p2) - 1) as Hlo
      by (rewrite Heq, length_app; simpl; lia).
    rewrite length_app in Hlo. rewrite Heq. apply list_lookup_middle. lia.
Qed.

(** [MakePartition] is wrong for the other group sizes.  With an even number of
    servers it lists some server twice (an entry of the result is never
    written and keeps its zero value), and with a single server it panics. *)
Theorem make_partition_even_or_one sg l :
  (forall k, length (srvs sg) = 2 * k -> 1 <= k -> l < length (srvs sg) ->
     exists p1 p2, MakePartition (Z.of_nat l) sg = Return (p1, p2) /\ ~ NoDup (p1 ++ p2)) /\
  (length (srvs sg) = 1 -> exists m, MakePartition 0 sg = Panic m).
Proof.
  split.
  - intros k Hn Hk Hl. destruct (MakePartition_spec sg l) as (p1 & p2 & He & _ & _ & Heq); [lia|done|].
    exists p1, p2. split; [done|]. rewrite Heq.
    assert (length (srvs sg) mod 2 = 0) as ->.
    { rewrite Hn. symmetry. apply (Nat.mod_unique _ 2 k 0); lia. }
    simpl. destruct (decide (l = 0)) as [->|Hl0].
    + intros (_ & _ & Hnd)%NoDup_app. apply NoDup_cons in Hnd as [Hnd _]. apply Hnd. by left.
    + intros (_ & Hnd & _)%NoDup_app. apply (Hnd 0%Z); [|by left].
      unfold others, all. apply list_elem_of_filter. split; [lia|].
      apply list_elem_of_fmap. exists 0. split; [done|]. apply elem_of_seq. lia.
  - intros Hn. unfold MakePartition, N, all, len. rewrite Hn. eexists. reflexivity.
Qed.

(** ** A new group *)

Lemma makeEnds_spec g names : forall j (net : Network),
  NoDup names -> (forall e, e ∈ names -> e ∉ LabRpc.ends net) ->
  exists net', makeEnds g j names net = Return net' /\
    LabRpc.ends net' = list_to_set names ∪ LabRpc.ends net /\
    (forall e, e ∈ names -> LabRpc.endEnabled net' e = false) /\
    (forall e, e ∉ names -> LabRpc.endEnabled net' e = LabRpc.endEnabled net e).
Proof.
  induction names as [|e names IH]; intros j net Hnd Hf; simpl.
  { exists net. split_and!; try done; [set_solver|]. intros e. by rewrite elem_of_nil. }
  apply NoDup_cons in Hnd as [He Hnd]. unfold LabRpc.MakeEnd.
  rewrite decide_False by (apply Hf; left). simpl.
  edestruct (IH (S j)) as (net' & -> & E1 & E2 & E3); [done|..].
  { intros e' He'. simpl. rewrite elem_of_union, elem_of_singleton. intros [->|Hin]; [done|].
    apply (Hf e'); [by right|done]. }
  exists net'. split_and!; [done| | |].
  - rewrite E1. simpl. set_solver.
  - intros e' [->|He']%elem_of_cons; [|auto]. rewrite E3 by done.
    unfold LabRpc.endEnabled. simpl. by rewrite lookup_insert_eq.
  - intros e' [Hne Hni]%not_elem_of_cons. rewrite E3 by done.
    unfold LabRpc.endEnabled. simpl. by rewrite lookup_insert_ne.
Qed.

Lemma makeServer_spec g names (net : Network) :
  NoDup names -> (forall e, e ∈ names -> e ∉ LabRpc.ends net) ->
  exists net', makeServer g names net
      = Return ({| saved := None; svcs := []; endNames := Some names |}, net') /\
    LabRpc.ends net' = list_to_set names ∪ LabRpc.ends net /\
    (forall e, e ∈ names -> LabRpc.endEnabled net' e = false) /\
    (forall e, e ∉ names -> LabRpc.endEnabled net' e = LabRpc.endEnabled net e).
Proof.
  intros Hnd Hf. destruct (makeEnds_spec g names 0 net Hnd Hf) as (net' & He & H).
  exists net'. split; [|done]. unfold makeServer. by rewrite He.
Qed.

Lemma makeServers_spec g names : forall net : Network,
  NoDup (mjoin names) -> (forall e, e ∈ mjoin names -> e ∉ LabRpc.ends net) ->
  exists net', makeServers g names net
      = Return ((fun ns => {| saved := None; svcs := []; endNames := Some ns |}) <$> names, net') /\
    (forall e, e ∈ mjoin names -> LabRpc.endEnabled net' e = false) /\
    (forall e, e ∉ mjoin names -> LabRpc.endEnabled net' e = LabRpc.endEnabled net e).
Proof.
  induction names as [|ns names IH]; intros net Hnd Hf; simpl.
  { exists net. split_and!; try done. intros e. by rewrite elem_of_nil. }
  simpl in Hnd, Hf. apply NoDup_app in Hnd as (Hn1 & Hd & Hn2).
  destruct (makeServer_spec g ns net Hn1) as (net1 & -> & E1 & E2 & E3).
  { intros e He. apply Hf, elem_of_app. by left. }
  simpl. destruct (IH net1 Hn2) as (net2 & -> & F2 & F3).
  { intros e He. rewrite E1, elem_of_union, elem_of_list_to_set. intros [Hin|Hin].
    - by eapply Hd.
    - apply (Hf e); [apply elem_of_app; by right|done]. }
  simpl. exists net2. split_and!; [done| |].
  - intros e He. destruct (decide (e ∈ mjoin names)); [auto|]. rewrite F3 by done.
    apply elem_of_app in He as [?|?]; [auto|done].
  - intros e He. rewrite elem_of_app in He. rewrite F3, E3 by tauto. done.
Qed.

Lemma mjoin_lookup_inj {A} (ll : list (list A)) a b a' b' x l l' :
  NoDup (mjoin ll) -> ll !! a = Some l -> l !! b = Some x -> ll !! a' = Some l' -> l' !! b' = Some x ->
  a = a' /\ b = b'.
Proof.
  revert a a'. induction ll as [|k ll IH]; intros a a' Hnd Ha Hb Ha' Hb'; [done|].
  simpl in Hnd. apply NoDup_app in Hnd as (Hn1 & Hd & Hn2).
  assert (forall c m, ll !! c = Some m -> x ∈ m -> x ∈ mjoin ll) as Hin.
  { intros c m Hc Hx. apply list_elem_of_join. exists m. split; [done|]. by eapply list_elem_of_lookup_2. }
  destruct a as [|a], a' as [|a']; simplify_eq/=.
  - split; [done|]. by eapply (NoDup_lookup _ _ _ _ Hn1).
  - exfalso. apply (Hd x); [by eapply list_elem_of_lookup_2|].
    eapply Hin; [done|]. by eapply list_elem_of_lookup_2.
  - exfalso. apply (Hd x); [by eapply list_elem_of_lookup_2|].
    eapply Hin; [done|]. by eapply list_elem_of_lookup_2.
  - by destruct (IH a a' Hn2 Ha Hb Ha' Hb') as [-> ->].
Qed.

(** The group [makeSrvGrp] makes. *)
Lemma makeSrvGrp_spec g names (net : Network) :
  NoDup (mjoin names) -> (forall e, e ∈ mjoin names -> e ∉ LabRpc.ends net) ->
  Forall (fun ns => length ns = length names) names ->
  exists sg net', makeSrvGrp g names net = Return (sg, net') /\
    wf sg /\ length (srvs sg) = length names /\
    (forall a, ~ online sg a) /\ (forall a b, ~ linked sg net' a b).
Proof.
  intros Hnd Hf Hlen. unfold makeSrvGrp.
  destruct (makeServers_spec g names net Hnd Hf) as (net' & -> & E1 & _). simpl.
  eexists _, net'. split; [done|].
  set (sg := {| srvs := _ |}).
  assert (forall a b e, endOf sg a b = Some e ->
    exists ns, names !! a = Some ns /\ ns !! b = Some e) as Hend.
  { intros a b e. unfold endOf, sg. simpl. rewrite list_lookup_fmap.
    destruct (names !! a) as [ns|]; simpl; [|done]. intros He. by exists ns. }
  split_and!.
  - constructor; simpl.
    + by rewrite length_replicate, length_fmap.
    + intros a s. rewrite list_lookup_fmap. destruct (names !! a) as [ns|] eqn:Ha; simpl; [|done].
      intros [= <-]. split; [by eexists|]. rewrite length_fmap. cbn.
      rewrite Forall_lookup in Hlen. by eapply Hlen.
    + intros a b a' b' e (ns & Ha & Hb)%Hend (ns' & Ha' & Hb')%Hend. by eapply mjoin_lookup_inj.
  - simpl. by rewrite length_fmap.
  - intros a. unfold online. simpl. intros Ha%lookup_replicate. by destruct Ha.
  - intros a b (e & (ns & Ha & Hb)%Hend & He). rewrite E1 in He; [done|].
    apply list_elem_of_join. exists ns. split; by eapply list_elem_of_lookup_2.
Qed.

(** A new group is well formed and silent.  When the random end names are
    distinct and new to the network, [makeSrvGrp] succeeds; every server has
    its own end to every server, no server is on the net and no server can
    send to any other. *)
Theorem new_group_wf g names (net : Network) :
  NoDup (mjoin names) -> (forall e, e ∈ mjoin names -> e ∉ LabRpc.ends net) ->
  Forall (fun ns => length ns = length names) names ->
  exists sg net', makeSrvGrp g names net = Return (sg, net') /\
    wf sg /\ length (srvs sg) = length names /\
    (forall a, ~ online sg a) /\ (forall a b, ~ linked sg net' a b).
Proof. apply makeSrvGrp_spec. Qed.

(** ** Starting and shutting down servers *)

Section Cluster.
Context {state : Type}.

(** A group with its network, the labrpc servers registered there, the
    persisters, and the services that were killed. *)
Record cluster := {
  grp : ServerGrp;
  cnet : Network;
  cheap : gmap nat (LabRpc.Server state);
  pst : Persister.store;
  killed : list nat
}.

Definition set_saved (s : Server) (p : option nat) : Server :=
  {| saved := p; svcs := svcs s; endNames := endNames s |}.

(** [startServer]: fresh ends, and a persister with the old one's state. *)
Definition startServer (g : Z) (names : list string) (s : Server) (net : Network) (st : Persister.store)
    : outcome (Server * Network * Persister.store) :=
  '(srv, net) ← makeServer g names net;
  match saved s with
  | Some p => '(np, st) ← Persister.Copy p st; mret (set_saved srv (Some np), net, st)
  | None => let '(np, st) := Persister.MakePersister st in mret (set_saved srv (Some np), net, st)
  end.

(** [shutdownServer]: the saved persister is replaced by a copy, the services
    are killed. *)
Definition shutdownServer (s : Server) (st : Persister.store)
    : outcome (Server * Persister.store * list nat) :=
  match saved s with
  | Some p =>
      '(np, st) ← Persister.Copy p st;
      mret ({| saved := Some np; svcs := []; endNames := endNames s |}, st, svcs s)
  | None => mret ({| saved := None; svcs := []; endNames := endNames s |}, st, svcs s)
  end.

(** [StartServer(i)]: [names] are the new end names, [mks] the services (their
    numbers and their labrpc registrations) that the application starts, [sid]
    the address of the labrpc server. *)
Definition StartServer (i : Z) (names : list string) (mks : list nat * list (LabRpc.Service state))
    (sid : nat) (c : cluster) : outcome cluster :=
  s ← slice_get (srvs (grp c)) i;
  '(srv, net, st) ← startServer (gid (grp c)) names s (cnet c) (pst c);
  let srv := {| saved := saved srv; svcs := mks.1; endNames := endNames srv |} in
  l ← slice_set (srvs (grp c)) i srv;
  let labsrv := foldl (fun rs svc => LabRpc.AddService svc rs) LabRpc.MakeServer mks.2 in
  mret {| grp := set_srvs (grp c) l;
          cnet := LabRpc.AddServer (ServerName (gid (grp c)) i) sid net;
          cheap := <[sid := labsrv]> (cheap c); pst := st; killed := killed c |}.

(** [ShutdownServer(i)]: isolate, unregister, then copy the persister. *)
Definition ShutdownServer (i : Z) (c : cluster) : outcome cluster :=
  '(sg, net) ← disconnect i (all (grp c)) (grp c) (cnet c);
  let net := LabRpc.DeleteServer (ServerName (gid sg) i) net in
  s ← slice_get (srvs sg) i;
  '(s, st, dead) ← shutdownServer s (pst c);
  l ← slice_set (srvs sg) i s;
  mret {| grp := set_srvs sg l; cnet := net; cheap := cheap c; pst := st; killed := killed c ++ dead |}.

(** Maximum of a size over the servers' persisters; a server never started has
    no persister. *)
Fixpoint maxSize (size : nat -> Persister.store -> outcome Z) (l : list Server) (st : Persister.store)
    (m : Z) : outcome Z :=
  match l with
  | [] => Return m
  | s :: l =>
      match saved s with
      | None => Panic "nil pointer dereference"
      | Some p => n ← size p st; maxSize size l st (if decide (n > m)%Z then n else m)
      end
  end.
Definition LogSize (c : cluster) : outcome Z := maxSize Persister.RaftStateSize (srvs (grp c)) (pst c) 0.
Definition SnapshotSize (c : cluster) : outcome Z :=
  maxSize Persister.SnapshotSize (srvs (grp c)) (pst c) 0.

Definition RpcCount (server : Z) (c : cluster) : outcome Z :=
  LabRpc.GetCount (cheap c) (ServerName (gid (grp c)) server) (cnet c).

(** The persister of server [i]. *)
Definition savedOf (c : cluster) (i : nat) : option nat := srvs (grp c) !! i ≫= saved.

Lemma ShutdownServer_inv c i c1 p :
  ShutdownServer (Z.of_nat i) c = Return c1 -> savedOf c i = Some p ->
  exists p1, Persister.Copy p (pst c) = Return (p1, pst c1) /\ savedOf c1 i = Some p1 /\
    gid (grp c1) = gid (grp c) /\
    LabRpc.serverOf (cnet c1) (ServerName (gid (grp c)) (Z.of_nat i)) = None.
Proof.
  unfold ShutdownServer, savedOf. intros Hs Hp.
  destruct (srvs (grp c) !! i) as [s|] eqn:Hi; [|done]. simpl in Hp.
  destruct (disconnect _ _ _ _) as [[sg net]| |] eqn:Hd; [|done..]. csimpl in Hs.
  assert (srvs sg = srvs (grp c) /\ gid sg = gid (grp c)) as [E Eg].
  { unfold disconnect in Hd. destruct (slice_set _ _ _); [|done..]. csimpl in Hd.
    destruct (slice_get _ _); [|done..]. csimpl in Hd. destruct (Server_disconnect _ _ _); [|done..].
    csimpl in Hd. destruct (disconnectIncoming _ _ _ _); [|done..]. by injection Hd as <- _. }
  rewrite E, (slice_get_Some _ _ _ Hi) in Hs. csimpl in Hs. unfold shutdownServer in Hs.
  rewrite Hp in Hs. destruct (Persister.Copy p (pst c)) as [[np st]| |] eqn:Hc; [|done..].
  csimpl in Hs. rewrite slice_set_nat in Hs by (by eapply lookup_lt_Some). csimpl in Hs.
  injection Hs as <-. simpl. exists np. split_and!; [done| |done|].
  - by rewrite list_lookup_insert_eq by (by eapply lookup_lt_Some).
  - unfold LabRpc.serverOf. simpl. rewrite Eg. by rewrite lookup_insert_eq.
Qed.

Lemma makeEnds_ok g names : forall j (net net' : Network),
  makeEnds g j names net = Return net' ->
  NoDup names /\ forall e, e ∈ names -> e ∉ LabRpc.ends net.
Proof.
  induction names as [|e names IH]; intros j net net'; simpl.
  { split; [constructor|intros e; by rewrite elem_of_nil]. }
  unfold LabRpc.MakeEnd. case_decide as He; [done|]. simpl. intros [Hnd Hf]%IH. split.
  - constructor; [|done]. intros Hin%Hf. simpl in Hin. apply Hin. apply elem_of_union.
    left. by apply elem_of_singleton.
  - intros e' [->|He']%elem_of_cons; [done|]. intros Hin. apply (Hf e' He'). simpl.
    apply elem_of_union. by right.
Qed.

Lemma startServer_spec g names s net st srv net' st' p :
  startServer g names s net st = Return (srv, net', st') -> saved s = Some p ->
  endNames srv = Some names /\ (forall e, e ∈ names -> LabRpc.endEnabled net' e = false) /\
  exists np, saved srv = Some np /\ Persister.Copy p st = Return (np, st').
Proof.
  unfold startServer, makeServer. intros Hs Hp.
  destruct (makeEnds g 0 names net) as [net1| |] eqn:Hm; [|done..]. csimpl in Hs. rewrite Hp in Hs.
  destruct (makeEnds_ok _ _ _ _ _ Hm) as [Hnd Hf].
  destruct (makeEnds_spec g names 0 net Hnd Hf) as (net2 & Hm' & _ & Hoff & _).
  destruct (Persister.Copy p st) as [[np st1]| |]; [|done..]. csimpl in Hs.
  injection Hs as <- <- <-. rewrite Hm in Hm'. injection Hm' as <-.
  split_and!; [done|done|]. by exists np.
Qed.

Lemma StartServer_inv c i names mks sid c2 p :
  StartServer (Z.of_nat i) names mks sid c = Return c2 -> savedOf c i = Some p ->
  exists np, Persister.Copy p (pst c) = Return (np, pst c2) /\ savedOf c2 i = Some np /\
    LabRpc.serverOf (cnet c2) (ServerName (gid (grp c)) (Z.of_nat i)) = Some sid /\
    (exists s, srvs (grp c2) !! i = Some s /\ endNames s = Some names /\
       forall e, e ∈ names -> LabRpc.endEnabled (cnet c2) e = false).
Proof.
  unfold StartServer, savedOf. intros Hs Hp.
  destruct (srvs (grp c) !! i) as [s|] eqn:Hi; [|done]. simpl in Hp.
  rewrite (slice_get_Some _ _ _ Hi) in Hs. csimpl in Hs.
  destruct (startServer _ _ _ _ _) as [[[srv net] st]| |] eqn:Hst; [|done..]. csimpl in Hs.
  destruct (startServer_spec _ _ _ _ _ _ _ _ _ Hst Hp) as (Hen & Hoff & np & Hsv & Hc).
  rewrite slice_set_nat in Hs by (by eapply lookup_lt_Some). csimpl in Hs. injection Hs as <-. simpl.
  rewrite list_lookup_insert_eq by (by eapply lookup_lt_Some).
  exists np. split_and!; [done|done| |].
  - unfold LabRpc.serverOf. simpl. by rewrite lookup_insert_eq.
  - eexists. split_and!; [done|done|done].
Qed.

(** C20: a restarted server finds the state its predecessor had saved.  Shut server
    [i] down while its old instance keeps running: it may go on saving to its
    persister, read and overwrite arrays, and other servers may do the same and
    be restarted; then start it, with the same still going on.  The new
    instance's persister holds what the old one's held when the server was shut
    down, and keeps it until the new instance saves.  The only operations
    excluded are saves to the two copies before they are handed out.  In between
    the server is not registered with the network, and the new instance starts
    with all its ends disabled. *)
Theorem restart_keeps_state os0 c i p c1 os st names mks sid c2 os' st' :
  Persister.steps os0 Persister.empty_store (pst c) -> savedOf c i = Some p ->
  ShutdownServer (Z.of_nat i) c = Return c1 ->
  Persister.steps os (pst c1) st -> Forall (Persister.elsewhere (pst c) (pst c1)) os ->
  StartServer (Z.of_nat i) names mks sid
    {| grp := grp c1; cnet := cnet c1; cheap := cheap c1; pst := st; killed := killed c1 |} = Return c2 ->
  Persister.steps os' (pst c2) st' -> Forall (Persister.elsewhere st (pst c2)) os' ->
  (exists p2, savedOf c2 i = Some p2 /\
     Persister.contents st' p2 = Persister.contents (pst c) p) /\
  LabRpc.serverOf (cnet c1) (ServerName (gid (grp c)) (Z.of_nat i)) = None /\
  LabRpc.serverOf (cnet c2) (ServerName (gid (grp c)) (Z.of_nat i)) = Some sid /\
  exists s, srvs (grp c2) !! i = Some s /\
    forall e, e ∈ ends s -> LabRpc.endEnabled (cnet c2) e = false.
Proof.
  intros H0 Hp Hsd Hos Hno Hst Hos' Hno'.
  destruct (ShutdownServer_inv _ _ _ _ Hsd Hp) as (p1 & Hc1 & Hp1 & Hg & Hdel).
  destruct (StartServer_inv _ i _ _ _ _ p1 Hst) as (p2 & Hc2 & Hp2 & Hreg & s & Hs & Hen & Hoff); [done|].
  simpl in Hc2, Hreg. rewrite Hg in Hreg. split_and!; [|done|done|].
  - exists p2. split; [done|].
    assert (Persister.Inv (pst c)) as HI by (eapply Persister.Inv_steps; [done|apply Persister.Inv_empty]).
    destruct (Persister.Copy_kept _ _ _ _ _ _ HI Hc1 Hos Hno) as [<- HI1].
    apply (Persister.Copy_kept _ _ _ _ _ _ HI1 Hc2 Hos' Hno').
  - exists s. split; [done|]. unfold ends. by rewrite Hen.
Qed.

End Cluster.
Arguments cluster : clear implicits.

(** ** Witnesses: a group of three servers *)

Definition names3 : list (list string) :=
  [["00"; "01"; "02"]; ["10"; "11"; "12"]; ["20"; "21"; "22"]].

Lemma names3_ok :
  NoDup (mjoin names3) /\ (forall e, e ∈ mjoin names3 -> e ∉ LabRpc.ends LabRpc.MakeNetwork) /\
  Forall (fun ns => length ns = length names3) names3.
Proof.
  split_and!.
  - apply (bool_decide_eq_true_1 (NoDup (mjoin names3))). vm_compute. reflexivity.
  - intros e _. simpl. apply not_elem_of_empty.
  - by repeat constructor.
Qed.

Lemma new_group_wf_witness :
  exists sg net', makeSrvGrp 0 names3 LabRpc.MakeNetwork = Return (sg, net') /\ wf sg.
Proof.
  destruct names3_ok as (H1 & H2 & H3).
  destruct (new_group_wf 0 names3 LabRpc.MakeNetwork H1 H2 H3) as (sg & net' & Hs & Hw & _).
  by exists sg, net'.
Defined.

Definition blankServer : Server := {| saved := None; svcs := []; endNames := None |}.
Definition blankGrp (n : nat) : ServerGrp :=
  {| srvs := replicate n blankServer; servernames := []; gid := 0; connected := replicate n true |}.

Lemma make_partition_odd_witness :
  exists p1 p2, MakePartition 1 (blankGrp 5) = Return (p1, p2) /\
    length p1 = 3 /\ length p2 = 2 /\ 1%Z ∈ p2.
Proof.
  destruct (make_partition_odd (blankGrp 5) 1 2) as (p1 & p2 & He & L1 & L2 & _ & Hin);
    [reflexivity|lia|simpl; lia|]. by exists p1, p2.
Defined.

Lemma make_partition_even_or_one_witness :
  exists p1 p2, MakePartition 3 (blankGrp 4) = Return (p1, p2) /\ ~ NoDup (p1 ++ p2).
Proof.
  apply (proj1 (make_partition_even_or_one (blankGrp 4) 3) 2); [reflexivity|lia|simpl; lia].
Defined.

(** One server, whose persister holds a log and a snapshot. *)
Definition c0 : cluster Z :=
  {| grp := {| srvs := [{| saved := Some 0; svcs := [5]; endNames := Some ["a"] |}];
               servernames := [ServerName 0 0]; gid := 0; connected := [true] |};
     cnet := LabRpc.AddServer (ServerName 0 0) 3
               (LabRpc.with_ends LabRpc.MakeNetwork {["a"]} {[ "a" := true ]} {[ "a" := None ]});
     cheap := {[ 3 := LabRpc.counterServer ]}; pst := Persister.w1; killed := [] |}.
Definition crun (m : outcome (cluster Z)) : cluster Z := match m with Return c => c | _ => c0 end.
Definition c1 : cluster Z := crun (ShutdownServer 0 c0).

(** While server 0 is down its old instance overwrites an array and saves it, and
    once more after the restart. *)
Definition st1 : Persister.store := Persister.w4.
Definition c2 : cluster Z :=
  crun (StartServer 0 ["b"] ([6], [LabRpc.counterService]) 4
    {| grp := grp c1; cnet := cnet c1; cheap := cheap c1; pst := st1; killed := killed c1 |}).
Definition st2 : Persister.store := Persister.after (Persister.Save 0 None (Some 0) (pst c2)).

Lemma st2_steps : Persister.steps [Persister.OpSave 0 None (Some 0)] (pst c2) st2.
Proof.
  econstructor; [|constructor]. constructor; [done|apply Persister.visible_dec|]; vm_compute; reflexivity.
Qed.

Lemma restart_keeps_state_witness :
  exists p2, savedOf c2 0 = Some p2 /\ Persister.contents st2 p2 = Some ("log", "snap") /\
    Persister.contents st2 0 = Some ("", "xxx").
Proof.
  destruct (restart_keeps_state Persister.ops1 c0 0 0 c1
    [Persister.OpWrite 0 "xxx"; Persister.OpSave 0 (Some 0) None] st1 ["b"]
    ([6], [LabRpc.counterService]) 4 c2 [Persister.OpSave 0 None (Some 0)] st2 Persister.w1_steps)
    as ((p2 & Hp2 & Hc) & _).
  - reflexivity.
  - vm_compute. reflexivity.
  - exact Persister.old_steps.
  - constructor; [exact I|]. constructor; [|constructor]. left.
    apply (bool_decide_eq_true_1 (0 ∈ dom (Persister.persisters (pst c0)))). vm_compute. reflexivity.
  - vm_compute. reflexivity.
  - exact st2_steps.
  - constructor; [|constructor]. left.
    apply (bool_decide_eq_true_1 (0 ∈ dom (Persister.persisters st1))). vm_compute. reflexivity.
  - exists p2. split; [exact Hp2|]. rewrite Hc. split; vm_compute; reflexivity.
Defined.

End Group.
