(* ===== verification/Groups.v ===== *)
(** * The groups of a test

    Models the rest of [src/src/tester1/group.go]: starting and shutting down
    every server of a group ([start], [StartServers], [Shutdown], [cleanup]),
    and the set of groups of a test ([Groups]), with the operations of
    [src/src/tester1/config.go] on it ([MakeGroupStart], [ExitGroup]).  The
    groups share one network, one heap of labrpc servers and one store of
    persisters.  What the environment chooses for a server that is started (the
    random end names, the services [FstartServer] returns, the address of the
    labrpc server) is a [boot]. *)

From S2P Require Import Prelude LabRpc Persister Group.

Module Groups.
Import LabRpc(Network).
Import Group.

Set Default Proof Using "Type".

(** ** Accessors of a group *)

Definition SrvNames (sg : ServerGrp) : list string := servernames sg.

(** The loop appends the services of each server in turn. *)
Definition Services (sg : ServerGrp) : list (list nat) :=
  foldl (fun ss s => ss ++ [svcs s]) [] (srvs sg).

Definition GetConnected (sg : ServerGrp) : list bool := connected sg.

Section World.
Context {state : Type}.

Record boot := {
  b_names : list string;
  b_mks : list nat * list (LabRpc.Service state);
  b_sid : nat
}.

(** ** Whole groups *)

Fixpoint starts (b : nat -> boot) (idx : list nat) (c : cluster state) : outcome (cluster state) :=
  match idx with
  | [] => Return c
  | i :: idx =>
      c ← StartServer (Z.of_nat i) (b_names (b i)) (b_mks (b i)) (b_sid (b i)) c;
      starts b idx c
  end.
Definition start (b : nat -> boot) (c : cluster state) : outcome (cluster state) :=
  starts b (seq 0 (length (srvs (grp c)))) c.

(** An operation on the group and the network, in a cluster. *)
Definition on_net (f : ServerGrp -> Network -> outcome (ServerGrp * Network)) (c : cluster state)
    : outcome (cluster state) :=
  '(sg, net) ← f (grp c) (cnet c);
  mret {| grp := sg; cnet := net; cheap := cheap c; pst := pst c; killed := killed c |}.

Definition StartServers (b : nat -> boot) (c : cluster state) : outcome (cluster state) :=
  c ← start b c; on_net ConnectAll c.

Fixpoint shutdowns (idx : list nat) (c : cluster state) : outcome (cluster state) :=
  match idx with
  | [] => Return c
  | i :: idx => c ← ShutdownServer (Z.of_nat i) c; shutdowns idx c
  end.
Definition Shutdown (c : cluster state) : outcome (cluster state) :=
  shutdowns (seq 0 (length (srvs (grp c)))) c.

(** [ServerGrp.cleanup]: the services that [Kill] is called on. *)
Definition ServerGrp_cleanup (sg : ServerGrp) : list nat :=
  foldl (fun ks s => ks ++ svcs s) [] (srvs sg).

(** ** The set of groups *)

Record world := {
  grps : gmap Z ServerGrp;
  wnet : Network;
  wheap : gmap nat (LabRpc.Server state);
  wpst : Persister.store;
  wkilled : list nat
}.

Definition newGroups (net : Network) (heap : gmap nat (LabRpc.Server state)) (st : Persister.store)
    : world :=
  {| grps := ∅; wnet := net; wheap := heap; wpst := st; wkilled := [] |}.

Definition MakeGroup (g : Z) (names : list (list string)) (w : world) : outcome world :=
  '(sg, net) ← makeSrvGrp g names (wnet w);
  mret {| grps := <[g := sg]> (grps w); wnet := net; wheap := wheap w; wpst := wpst w;
          wkilled := wkilled w |}.

(** [None] is the nil pointer of a missing entry. *)
Definition lookupGroup (g : Z) (w : world) : option ServerGrp := grps w !! g.

Definition delete (g : Z) (w : world) : world :=
  {| grps := base.delete g (grps w); wnet := wnet w; wheap := wheap w; wpst := wpst w;
     wkilled := wkilled w |}.

(** Ranging over the map; the order in which the services are killed does not
    matter to the rest of the tester. *)
Definition cleanup (w : world) : world :=
  {| grps := grps w; wnet := wnet w; wheap := wheap w; wpst := wpst w;
     wkilled := foldl (fun ks '(_, sg) => ks ++ ServerGrp_cleanup sg) (wkilled w) (map_to_list (grps w)) |}.

(** A method called on the group [g]: on a nil pointer it panics. *)
Definition on_group (g : Z) (f : cluster state -> outcome (cluster state)) (w : world) : outcome world :=
  match lookupGroup g w with
  | None => Panic "nil pointer dereference"
  | Some sg =>
      c ← f {| grp := sg; cnet := wnet w; cheap := wheap w; pst := wpst w; killed := wkilled w |};
      mret {| grps := <[g := grp c]> (grps w); wnet := cnet c; wheap := cheap c; wpst := pst c;
              wkilled := killed c |}
  end.

Definition MakeGroupStart (g : Z) (names : list (list string)) (b : nat -> boot) (w : world)
    : outcome world :=
  w ← MakeGroup g names w; on_group g (StartServers b) w.

Definition ExitGroup (g : Z) (w : world) : outcome world :=
  w ← on_group g Shutdown w; mret (delete g w).

(** ** Delivery between servers *)

(** A request that server [a] of group [g] sends to server [b] is routed to the
    labrpc server at [sid]. *)
Definition delivers (w : world) (g : Z) (a b sid : nat) : Prop :=
  exists sg e rel reord, grps w !! g = Some sg /\ endOf sg a b = Some e /\
    LabRpc.readEndnameInfo (wnet w) e
    = (true, Some (ServerName g (Z.of_nat b)), Some sid, rel, reord).

(** The ends of a group. *)
Definition own (sg : ServerGrp) (e : string) : Prop := exists a b, endOf sg a b = Some e.

(** A group is well formed, its ends are known to the network and connected to
    the right servers, and its persisters exist. *)
Record cinv (sg : ServerGrp) (net : Network) (st : Persister.store) : Prop := {
  ci_wf : wf sg;
  ci_known e : own sg e -> e ∈ LabRpc.ends net;
  ci_route a b e : endOf sg a b = Some e ->
    LabRpc.connections net !! e = Some (Some (ServerName (gid sg) (Z.of_nat b)));
  ci_saved i s p : srvs sg !! i = Some s -> saved s = Some p ->
    is_Some (Persister.persisters st !! p)
}.

Record winv (w : world) : Prop := {
  wi_grp g sg : grps w !! g = Some sg -> gid sg = g /\ cinv sg (wnet w) (wpst w);
  wi_disj g g' sg sg' e : grps w !! g = Some sg -> grps w !! g' = Some sg' ->
    own sg e -> own sg' e -> g = g'
}.

(** ** Names and persisters *)

Lemma dash_in c d : ~ no_dash (c +:+ "-" +:+ d).
Proof.
  induction c as [|x c IH]; rewrite ?str_cons_app, ?str_nil_app; [by intros [? _]|].
  intros [_ H]. by apply IH.
Qed.

(** A number that starts with a digit and one that starts with a dash. *)
Lemma dash_mixed a b c d : digits a -> digits b -> a +:+ "-" +:+ b <> "-" +:+ c +:+ "-" +:+ d.
Proof.
  intros Ha Hb. destruct a as [|x a]; rewrite ?str_cons_app, ?str_nil_app; intros H.
  - injection H as ->. exact (dash_in c d (digits_no_dash _ Hb)).
  - injection H as -> _. destruct Ha as [[y Hy] _]. done.
Qed.

Lemma ServerName_inj g g' (i i' : nat) :
  ServerName g (Z.of_nat i) = ServerName g' (Z.of_nat i') -> g = g' /\ i = i'.
Proof.
  unfold ServerName. intros H%(inj (String.app _)).
  assert (forall z, (0 <= z)%Z -> digits (Itoa z)) as Hd
    by (intros z Hz; rewrite <-(Z2Nat.id z Hz); apply Itoa_nat_digits).
  assert (forall z x, (z < 0)%Z -> Itoa z +:+ x = "-" +:+ Itoa (- z) +:+ x) as Hn
    by (by intros [|p|p] x ?; [lia|lia|]).
  destruct (decide (0 <= g)%Z) as [Hg|Hg], (decide (0 <= g')%Z) as [Hg'|Hg'].
  - apply dash_split in H as [H1 H2%Itoa_nat_inj]; auto using digits_no_dash.
    split; [|done]. by apply (inj pretty).
  - exfalso. rewrite (Hn g') in H by lia. eapply dash_mixed, H; auto using Itoa_nat_digits.
  - exfalso. rewrite (Hn g) in H by lia. symmetry in H.
    eapply dash_mixed, H; auto using Itoa_nat_digits.
  - rewrite (Hn g), (Hn g') in H by lia. apply (inj (String.app "-")) in H.
    apply dash_split in H as [H1%(inj pretty) H2%Itoa_nat_inj];
      [lia|apply digits_no_dash, Hd; lia..].
Qed.

(** The store has only gained persisters. *)
Definition pext (st st' : Persister.store) : Prop :=
  Persister.arrays st' = Persister.arrays st /\ Persister.persisters st ⊆ Persister.persisters st'.

#[local] Instance pext_preorder : PreOrder pext.
Proof. split; [by intros st|]. intros st1 st2 st3 [E1 H1] [E2 H2]. split; [congruence|by etrans]. Qed.

Lemma pext_contents st st' p c :
  pext st st' -> Persister.contents st p = Some c -> Persister.contents st' p = Some c.
Proof.
  unfold Persister.contents, Persister.bytes. intros [-> Hs].
  destruct (Persister.persisters st !! p) as [ps|] eqn:Hp; [|done].
  by rewrite (lookup_weaken _ _ _ _ Hp Hs).
Qed.

Lemma pext_saved st st' p :
  pext st st' -> is_Some (Persister.persisters st !! p) -> is_Some (Persister.persisters st' !! p).
Proof. intros [_ Hs] [ps Hp]. exists ps. by eapply lookup_weaken. Qed.

Lemma Copy_ok p st :
  is_Some (Persister.persisters st !! p) ->
  exists np st', Persister.Copy p st = Return (np, st') /\ pext st st' /\
    is_Some (Persister.persisters st' !! np) /\ Persister.contents st' np = Persister.contents st p.
Proof.
  intros [ps Hp]. destruct (Persister.Copy p st) as [[np st']| |] eqn:Hc;
    [|unfold Persister.Copy in Hc; by rewrite Hp in Hc..].
  exists np, st'. destruct (Persister.Copy_contents _ _ _ _ Hc) as [E _].
  unfold Persister.Copy in Hc. rewrite Hp in Hc. cbn in Hc. injection Hc as <- <-.
  split; [done|]. split; [|split; [cbn; by rewrite lookup_insert_eq|done]].
  split; [done|]. cbn. rewrite insert_insert_eq. apply insert_subseteq, not_elem_of_dom, is_fresh.
Qed.

Lemma MakePersister_ok st np st' :
  Persister.MakePersister st = (np, st') ->
  pext st st' /\ is_Some (Persister.persisters st' !! np) /\
  Persister.contents st' np = Some ("", "").
Proof.
  unfold Persister.MakePersister. intros [= <- <-]. split; [|split].
  - split; [done|]. apply insert_subseteq, not_elem_of_dom, is_fresh.
  - cbn. by rewrite lookup_insert_eq.
  - unfold Persister.contents. cbn. by rewrite lookup_insert_eq.
Qed.

(** ** What connecting and disconnecting leaves alone *)

(** Only the ends of [E] were enabled or disabled. *)
Definition enables (E : string -> Prop) (net net' : Network) : Prop :=
  LabRpc.servers net' = LabRpc.servers net /\ LabRpc.connections net' = LabRpc.connections net /\
  LabRpc.ends net' = LabRpc.ends net /\
  forall e, ~ E e -> LabRpc.endEnabled net' e = LabRpc.endEnabled net e.

#[local] Instance enables_preorder E : PreOrder (enables E).
Proof.
  split; [by intros net|]. intros n1 n2 n3 (A1 & B1 & C1 & D1) (A2 & B2 & C2 & D2).
  split_and!; try congruence. intros e He. by rewrite D2, D1.
Qed.

Lemma enables_Enable (E : string -> Prop) e on net : E e -> enables E net (LabRpc.Enable e on net).
Proof.
  intros He. split_and!; try done. intros e' He'. rewrite endEnabled_Enable, decide_False; [done|].
  by intros ->.
Qed.

Lemma own_get sg i s j e :
  srvs sg !! i = Some s -> slice_get (ends s) j = Return e -> own sg e.
Proof.
  intros Hs (_ & Hj)%slice_get_inv. exists i, (Z.to_nat j). unfold endOf. by rewrite Hs.
Qed.

Lemma Server_connect_frame sg i s sg' to : srvs sg !! i = Some s -> forall net net',
  Server_connect s sg' to net = Return net' -> enables (own sg) net net'.
Proof.
  intros Hs. induction to as [|j to IH]; intros net net'; simpl; [by intros [= <-]|].
  intros (c & _ & Hr)%bind_Return. destruct c; [|by apply IH].
  apply bind_Return in Hr as (e & He & Hr). apply IH in Hr. etrans; [|exact Hr].
  apply enables_Enable. by eapply own_get.
Qed.

Lemma connectIncoming_frame sg i to : forall net net',
  connectIncoming sg i to net = Return net' -> enables (own sg) net net'.
Proof.
  induction to as [|j to IH]; intros net net'; simpl; [by intros [= <-]|].
  intros (c & _ & Hr)%bind_Return. destruct c; [|by apply IH].
  apply bind_Return in Hr as (s & [_ Hs]%slice_get_inv & Hr).
  apply bind_Return in Hr as (e & He & Hr). apply IH in Hr. etrans; [|exact Hr].
  apply enables_Enable. by eapply own_get.
Qed.

Lemma Server_disconnect_frame sg i s from : srvs sg !! i = Some s -> forall net net',
  Server_disconnect s from net = Return net' -> enables (own sg) net net'.
Proof.
  intros Hs net net'. unfold Server_disconnect. destruct (endNames s); [|by intros [= <-]].
  revert net net'. induction from as [|j from IH]; intros net net'; simpl; [by intros [= <-]|].
  intros (e & He & Hr)%bind_Return. apply IH in Hr. etrans; [|exact Hr].
  apply enables_Enable. by eapply own_get.
Qed.

Lemma disconnectIncoming_frame sg i from : forall net net',
  disconnectIncoming sg i from net = Return net' -> enables (own sg) net net'.
Proof.
  induction from as [|j from IH]; intros net net'; simpl; [by intros [= <-]|].
  intros (s & [_ Hs]%slice_get_inv & Hr)%bind_Return.
  destruct (endNames s); [|by apply IH].
  apply bind_Return in Hr as (e & He & Hr). apply IH in Hr. etrans; [|exact Hr].
  apply enables_Enable. by eapply own_get.
Qed.

Lemma connect_frame i to sg net sg' net' :
  connect i to sg net = Return (sg', net') -> srvs sg' = srvs sg /\ enables (own sg) net net'.
Proof.
  unfold connect. intros (l & Hl & Hr)%bind_Return. cbn zeta in Hr.
  apply bind_Return in Hr as (s & [_ Hs]%slice_get_inv & Hr).
  apply bind_Return in Hr as (n1 & H1 & Hr). apply bind_Return in Hr as (n2 & H2 & Hr).
  injection Hr as <- <-. split; [done|]. etrans.
  - eapply (Server_connect_frame sg); [exact Hs|exact H1].
  - by apply connectIncoming_frame in H2.
Qed.

Lemma disconnect_frame i from sg net sg' net' :
  disconnect i from sg net = Return (sg', net') -> srvs sg' = srvs sg /\ enables (own sg) net net'.
Proof.
  unfold disconnect. intros (l & Hl & Hr)%bind_Return. cbn zeta in Hr.
  apply bind_Return in Hr as (s & [_ Hs]%slice_get_inv & Hr).
  apply bind_Return in Hr as (n1 & H1 & Hr). apply bind_Return in Hr as (n2 & H2 & Hr).
  injection Hr as <- <-. split; [done|]. etrans.
  - eapply (Server_disconnect_frame sg); [exact Hs|exact H1].
  - by apply disconnectIncoming_frame in H2.
Qed.

(** ** Connecting every server *)

Lemma connectRest rest : forall sg net done_,
  wf sg -> inRange sg (done_ ++ rest) ->
  (forall x, x ∈ done_ -> online sg x) ->
  (forall x y, x ∈ done_ -> y ∈ done_ -> linked sg net x y) ->
  exists sg' net', forEach ConnectOne (Z.of_nat <$> rest) sg net = Return (sg', net') /\
    same_servers sg sg' /\ enables (own sg) net net' /\
    (forall x, x ∈ done_ ++ rest -> online sg' x) /\
    (forall x y, x ∈ done_ ++ rest -> y ∈ done_ ++ rest -> linked sg' net' x y).
Proof.
  induction rest as [|i rest IH]; intros sg net dn Hw Hr Hon Hl; csimpl.
  { exists sg, net. rewrite app_nil_r. by split_and!. }
  assert (i < length (srvs sg)) as Hi.
  { unfold inRange in Hr. rewrite Forall_forall in Hr. apply Hr. set_solver. }
  assert (inRange sg (seq 0 (length (srvs sg)))) as Hall.
  { apply Forall_forall. intros x ?%elem_of_seq. lia. }
  change (ConnectOne (Z.of_nat i) sg net)
    with (connect (Z.of_nat i) (Z.of_nat <$> seq 0 (length (srvs sg))) sg net).
  destruct (connect_spec sg net i _ Hw Hi Hall) as (sg1 & net1 & Hc & Hs1 & Ho1 & Hl1).
  rewrite Hc. csimpl. destruct (connect_frame _ _ _ _ _ _ Hc) as [E1 Hf1].
  assert (forall net x y, linked sg1 net x y <-> linked sg net x y) as K1 by (intros; by apply linked_same).
  assert (forall x, x ∈ dn -> x ∈ seq 0 (length (srvs sg))) as Hdn.
  { intros x Hx. apply elem_of_seq. unfold inRange in Hr. rewrite Forall_forall in Hr.
    specialize (Hr x). rewrite elem_of_app in Hr. intuition lia. }
  assert (i ∈ seq 0 (length (srvs sg))) as Hiin by (apply elem_of_seq; lia).
  destruct (IH sg1 net1 (dn ++ [i])) as (sg2 & net2 & -> & Hs2 & Hf2 & R1 & R2).
  - apply Hs1.
  - unfold inRange. by rewrite E1, <-app_assoc.
  - intros x [Hx| ->%list_elem_of_singleton]%elem_of_app; rewrite Ho1; auto.
  - intros x y Hx Hy. rewrite K1, Hl1. rewrite !elem_of_app, !list_elem_of_singleton in Hx, Hy.
    rewrite !Ho1. destruct Hx as [Hx| ->], Hy as [Hy| ->]; auto 7.
  - exists sg2, net2. rewrite <-app_assoc in R1, R2. split; [done|].
    split; [by eapply same_servers_trans|]. split; [|done]. etrans; [done|].
    unfold own, endOf in Hf2 |- *. by rewrite E1 in Hf2.
Qed.

Lemma ConnectAll_ok sg net :
  wf sg -> exists sg' net', ConnectAll sg net = Return (sg', net') /\
    same_servers sg sg' /\ enables (own sg) net net' /\
    (forall x, x < length (srvs sg) -> online sg' x) /\
    (forall x y, x < length (srvs sg) -> y < length (srvs sg) -> linked sg' net' x y).
Proof.
  intros Hw. unfold ConnectAll, all.
  destruct (connectRest (seq 0 (length (srvs sg))) sg net [] Hw) as (sg' & net' & -> & Hs & Hf & H1 & H2);
    [|intros ?; set_solver..|].
  - apply Forall_forall. intros x ?%elem_of_seq. lia.
  - exists sg', net'. split_and!; try done; [intros; apply H1|intros; apply H2];
      apply elem_of_seq; lia.
Qed.

(** ** New ends *)

(** The network has gained the ends [names]; server numbers are given by [num]. *)
Record newEnds (g : Z) (names : list string) (num : string -> nat -> Prop) (net net' : Network) : Prop := {
  ne_servers : LabRpc.servers net' = LabRpc.servers net;
  ne_ends : LabRpc.ends net' = list_to_set names ∪ LabRpc.ends net;
  ne_conn e k : num e k -> LabRpc.connections net' !! e = Some (Some (ServerName g (Z.of_nat k)));
  ne_off e : e ∈ names -> LabRpc.endEnabled net' e = false;
  ne_same e : e ∉ names -> LabRpc.endEnabled net' e = LabRpc.endEnabled net e /\
    LabRpc.connections net' !! e = LabRpc.connections net !! e
}.

Lemma makeEnds_conn g names : forall j (net net' : Network), NoDup names ->
  makeEnds g j names net = Return net' ->
  LabRpc.servers net' = LabRpc.servers net /\
  (forall k e, names !! k = Some e ->
     LabRpc.connections net' !! e = Some (Some (ServerName g (Z.of_nat (j + k))))) /\
  (forall e, e ∉ names -> LabRpc.connections net' !! e = LabRpc.connections net !! e).
Proof.
  induction names as [|n names IH]; intros j net net' Hnd; simpl.
  { intros [= <-]. split_and!; done. }
  apply NoDup_cons in Hnd as [Hn Hnd]. intros (n1 & Hm & Hr)%bind_Return.
  unfold LabRpc.MakeEnd in Hm. case_decide; [done|]. injection Hm as <-.
  apply IH in Hr as (E1 & E2 & E3); [|done]. split_and!; [done| |].
  - intros [|k] e Hk; simpl in Hk.
    + injection Hk as <-. rewrite E3 by done. simpl. rewrite lookup_insert_eq. do 4 f_equal. lia.
    + rewrite (E2 k e Hk). do 4 f_equal. lia.
  - intros e [Hne Hni]%not_elem_of_cons. rewrite E3 by done. simpl. by rewrite !lookup_insert_ne by done.
Qed.

Lemma makeServer_new g names (net : Network) :
  NoDup names -> (forall e, e ∈ names -> e ∉ LabRpc.ends net) ->
  exists net', makeServer g names net
      = Return ({| saved := None; svcs := []; endNames := Some names |}, net') /\
    newEnds g names (fun e k => names !! k = Some e) net net'.
Proof.
  intros Hnd Hf. destruct (makeEnds_spec g names 0 net Hnd Hf) as (net' & He & E1 & E2 & E3).
  exists net'. unfold makeServer. rewrite He. split; [done|].
  destruct (makeEnds_conn g names 0 net net' Hnd He) as (F1 & F2 & F3).
  constructor; [done|done|intros e k; apply F2|done|auto].
Qed.

Lemma makeServers_new g names : forall net : Network,
  NoDup (mjoin names) -> (forall e, e ∈ mjoin names -> e ∉ LabRpc.ends net) ->
  exists net', makeServers g names net
      = Return ((fun ns => {| saved := None; svcs := []; endNames := Some ns |}) <$> names, net') /\
    newEnds g (mjoin names) (fun e k => exists ns, ns ∈ names /\ ns !! k = Some e) net net'.
Proof.
  induction names as [|ns names IH]; intros net Hnd Hf; simpl.
  { exists net. split; [done|]. constructor; try done; [set_solver| |];
      [by intros e k (? & ?%elem_of_nil & _)|by intros e ?%elem_of_nil]. }
  simpl in Hnd, Hf. apply NoDup_app in Hnd as (Hn1 & Hd & Hn2).
  destruct (makeServer_new g ns net Hn1) as (net1 & -> & [E1 E2 E3 E4 E5]).
  { intros e He. apply Hf, elem_of_app. by left. }
  simpl. destruct (IH net1 Hn2) as (net2 & -> & [F1 F2 F3 F4 F5]).
  { intros e He. rewrite E2, elem_of_union, elem_of_list_to_set. intros [Hin|Hin].
    - by eapply Hd.
    - apply (Hf e); [apply elem_of_app; by right|done]. }
  simpl. exists net2. split; [done|]. constructor.
  - congruence.
  - rewrite F2, E2, list_to_set_app_L. set_solver.
  - intros e k (ns' & [->|Hin]%elem_of_cons & Hk); [|eauto].
    rewrite (proj2 (F5 e ltac:(by eapply Hd, list_elem_of_lookup_2))). by apply E3.
  - intros e He. destruct (decide (e ∈ mjoin names)); [auto|].
    apply elem_of_app in He as [He|?]; [|done]. rewrite (proj1 (F5 e ltac:(done))). auto.
  - intros e He. rewrite elem_of_app in He.
    destruct (F5 e ltac:(tauto)) as [-> ->]. apply E5. tauto.
Qed.

(** ** Starting one server *)

Lemma endOf_insert sg i srv a b :
  i < length (srvs sg) ->
  endOf (set_srvs sg (<[i := srv]> (srvs sg))) a b
  = if decide (a = i) then ends srv !! b else endOf sg a b.
Proof.
  intros Hi. unfold endOf. simpl. case_decide as Ha.
  - subst. by rewrite list_lookup_insert_eq.
  - by rewrite list_lookup_insert_ne.
Qed.

(** A group in which one server got new ends of its own is well formed. *)
Lemma wf_insert sg i srv names :
  wf sg -> i < length (srvs sg) -> endNames srv = Some names -> NoDup names ->
  length names = length (srvs sg) -> (forall e, e ∈ names -> ~ own sg e) ->
  wf (set_srvs sg (<[i := srv]> (srvs sg))).
Proof.
  intros Hw Hi He Hnd Hl Hf. assert (ends srv = names) as Hen by (unfold ends; by rewrite He).
  constructor; simpl.
  - rewrite length_insert. apply Hw.
  - intros a s. rewrite length_insert, list_lookup_insert. case_decide.
    + intros [= <-]. by rewrite He, Hen.
    + apply Hw.
  - intros a b a' b' e. rewrite !endOf_insert by done. rewrite Hen.
    case_decide as Ha; case_decide as Ha'; subst.
    + intros H1 H2. split; [done|]. by eapply NoDup_lookup.
    + intros H1%list_elem_of_lookup_2 H2. exfalso. eapply Hf; [done|]. by exists a', b'.
    + intros H1 H2%list_elem_of_lookup_2. exfalso. eapply Hf; [done|]. by exists a, b.
    + apply Hw.
Qed.

(** What a started server finds in its persister. *)
Definition inherited (st : Persister.store) (s : Server) : option (string * string) :=
  match saved s with Some p => Persister.contents st p | None => Some ("", "") end.

Definition labsrv (b : boot) : LabRpc.Server state :=
  foldl (fun rs svc => LabRpc.AddService svc rs) LabRpc.MakeServer (b_mks b).2.

Lemma startServer_ok g names s (net : Network) st :
  NoDup names -> (forall e, e ∈ names -> e ∉ LabRpc.ends net) ->
  (forall p, saved s = Some p -> is_Some (Persister.persisters st !! p)) ->
  exists np net' st', startServer g names s net st
      = Return ({| saved := Some np; svcs := []; endNames := Some names |}, net', st') /\
    newEnds g names (fun e k => names !! k = Some e) net net' /\ pext st st' /\
    is_Some (Persister.persisters st' !! np) /\ Persister.contents st' np = inherited st s.
Proof.
  intros Hnd Hf Hp. unfold startServer, inherited.
  destruct (makeServer_new g names net Hnd Hf) as (net' & -> & Hne). csimpl.
  destruct (saved s) as [p|].
  - destruct (Copy_ok p st (Hp p eq_refl)) as (np & st' & -> & H).
    exists np, net', st'. split; [done|]. by split.
  - pose proof (MakePersister_ok st _ _ (surjective_pairing _)) as H.
    eexists _, net', _. split; [done|]. split; [exact Hne|exact H].
Qed.

(** The cluster after server [i] was started with [b], in terms of that before. *)
Record started (i : nat) (b : boot) (c c' : cluster state) : Prop := {
  sd_srv : exists s np, srvs (grp c) !! i = Some s /\
    srvs (grp c') = <[i := {| saved := Some np; svcs := (b_mks b).1; endNames := Some (b_names b) |}]>
                      (srvs (grp c)) /\
    is_Some (Persister.persisters (pst c') !! np) /\
    Persister.contents (pst c') np = inherited (pst c) s;
  sd_grp : gid (grp c') = gid (grp c) /\ connected (grp c') = connected (grp c) /\
    servernames (grp c') = servernames (grp c);
  sd_servers : LabRpc.servers (cnet c')
    = <[ServerName (gid (grp c)) (Z.of_nat i) := Some (b_sid b)]> (LabRpc.servers (cnet c));
  sd_heap : cheap c' = <[b_sid b := labsrv b]> (cheap c);
  sd_ends : LabRpc.ends (cnet c') = list_to_set (b_names b) ∪ LabRpc.ends (cnet c);
  sd_same e : e ∉ b_names b ->
    LabRpc.endEnabled (cnet c') e = LabRpc.endEnabled (cnet c) e /\
    LabRpc.connections (cnet c') !! e = LabRpc.connections (cnet c) !! e;
  sd_pst : pext (pst c) (pst c');
  sd_killed : killed c' = killed c
}.

Lemma StartServer_ok i b c :
  cinv (grp c) (cnet c) (pst c) -> i < length (srvs (grp c)) ->
  NoDup (b_names b) -> length (b_names b) = length (srvs (grp c)) ->
  (forall e, e ∈ b_names b -> e ∉ LabRpc.ends (cnet c)) ->
  exists c', StartServer (Z.of_nat i) (b_names b) (b_mks b) (b_sid b) c = Return c' /\
    started i b c c' /\ cinv (grp c') (cnet c') (pst c').
Proof.
  intros [Hw Hk Hr Hs] Hi Hnd Hl Hf. unfold StartServer.
  destruct (lookup_lt_is_Some_2 (srvs (grp c)) i Hi) as [s Hsi].
  rewrite (slice_get_Some _ _ _ Hsi). csimpl.
  destruct (startServer_ok (gid (grp c)) (b_names b) s (cnet c) (pst c) Hnd Hf) as
    (np & net' & st' & -> & [E1 E2 E3 E4 E5] & Hx & Hnp & Hc); [by intros p; eapply Hs|].
  csimpl. rewrite slice_set_nat by done. csimpl. eexists. split; [done|].
  set (srv := {| saved := Some np; svcs := _; endNames := _ |}).
  split; [constructor; simpl; try done; [by exists s, np|by rewrite E1]|].
  constructor; simpl.
  - eapply wf_insert; try done. intros e He Ho. by apply (Hf e He), Hk.
  - intros e (a & k & He). rewrite endOf_insert in He by done. rewrite E2.
    rewrite elem_of_union, elem_of_list_to_set. case_decide.
    + left. by eapply list_elem_of_lookup_2.
    + right. apply Hk. by exists a, k.
  - intros a k e He. rewrite endOf_insert in He by done. case_decide.
    + by apply E3.
    + rewrite (proj2 (E5 e ltac:(intros Hin; apply (Hf e Hin), Hk; by exists a, k))). by eapply Hr.
  - intros j s' p Hj. rewrite list_lookup_insert in Hj. case_decide; simplify_eq/=.
    + by intros [= <-].
    + intros Hp. eapply pext_saved; [done|]. by eapply Hs.
Qed.

(** ** Starting a list of servers *)

Definition bootNames (b : nat -> boot) (idx : list nat) : list string := mjoin ((b_names ∘ b) <$> idx).

Record launched (idx : list nat) (b : nat -> boot) (c c' : cluster state) : Prop := {
  ld_len : length (srvs (grp c')) = length (srvs (grp c));
  ld_grp : gid (grp c') = gid (grp c) /\ connected (grp c') = connected (grp c) /\
    servernames (grp c') = servernames (grp c);
  ld_srv i s : i ∈ idx -> srvs (grp c) !! i = Some s -> exists np,
    srvs (grp c') !! i
    = Some {| saved := Some np; svcs := (b_mks (b i)).1; endNames := Some (b_names (b i)) |} /\
    Persister.contents (pst c') np = inherited (pst c) s;
  ld_other i : i ∉ idx -> srvs (grp c') !! i = srvs (grp c) !! i;
  ld_reg i : i ∈ idx ->
    LabRpc.servers (cnet c') !! ServerName (gid (grp c)) (Z.of_nat i) = Some (Some (b_sid (b i)));
  ld_unreg name : (forall i, i ∈ idx -> name <> ServerName (gid (grp c)) (Z.of_nat i)) ->
    LabRpc.servers (cnet c') !! name = LabRpc.servers (cnet c) !! name;
  ld_heap i : i ∈ idx -> cheap c' !! b_sid (b i) = Some (labsrv (b i));
  ld_heap' sid : (forall i, i ∈ idx -> sid <> b_sid (b i)) -> cheap c' !! sid = cheap c !! sid;
  ld_ends : LabRpc.ends (cnet c') = list_to_set (bootNames b idx) ∪ LabRpc.ends (cnet c);
  ld_same e : e ∉ bootNames b idx ->
    LabRpc.endEnabled (cnet c') e = LabRpc.endEnabled (cnet c) e /\
    LabRpc.connections (cnet c') !! e = LabRpc.connections (cnet c) !! e;
  ld_pst : pext (pst c) (pst c');
  ld_killed : killed c' = killed c
}.

Lemma launched_nil b c : launched [] b c c.
Proof.
  constructor; try done; try (by intros ? ?%elem_of_nil); try (by intros ? ? ?%elem_of_nil).
  unfold bootNames. simpl. set_solver.
Qed.

Lemma inherited_pext st st' s :
  pext st st' -> (forall p, saved s = Some p -> is_Some (Persister.persisters st !! p)) ->
  inherited st' s = inherited st s.
Proof.
  intros Hx Hs. unfold inherited. destruct (saved s) as [p|]; [|done].
  destruct (Hs p eq_refl) as [ps Hp]. eapply pext_contents in Hx as ->.
  - unfold Persister.contents. by rewrite Hp.
  - unfold Persister.contents. by rewrite Hp.
Qed.

Lemma launched_cons i idx b c c1 c' :
  cinv (grp c) (cnet c) (pst c) -> i ∉ idx -> (forall j, j ∈ idx -> b_sid (b j) <> b_sid (b i)) ->
  (forall e, e ∈ b_names (b i) -> e ∉ bootNames b idx) ->
  started i (b i) c c1 -> launched idx b c1 c' -> launched (i :: idx) b c c'.
Proof.
  intros Hc Hi Hsid Hn [(s & np & Hs & Es & Hnp & Hin) (Eg & Ec & En) Esv Eh Ee Esame Ep Ek] L.
  pose proof (lookup_lt_Some _ _ _ Hs) as Hlt.
  destruct L as [Ll Lg Ls Lo Lr Lu Lh Lh' Le Lsame Lp Lk]. rewrite ?Eg, ?Es in *.
  constructor.
  - rewrite Ll. by rewrite length_insert.
  - destruct Lg as (? & ? & ?). split_and!; congruence.
  - intros j s' [->|Hj]%elem_of_cons Hs'.
    + exists np. rewrite (Lo i Hi), list_lookup_insert_eq by done. simplify_eq. split; [done|].
      rewrite <-Hin. destruct Hnp as [ps Hps].
      eapply pext_contents in Lp as ->; unfold Persister.contents; by rewrite Hps.
    + destruct (Ls j s' Hj) as (np' & E1 & E2).
      { rewrite list_lookup_insert_ne; [done|]. by intros ->. }
      exists np'. split; [done|]. rewrite E2. apply inherited_pext; [done|].
      intros p. by eapply (ci_saved _ _ _ Hc).
  - intros j [Hne Hni]%not_elem_of_cons. rewrite (Lo j Hni). by rewrite list_lookup_insert_ne.
  - intros j [->|Hj]%elem_of_cons; [|by apply Lr]. rewrite Lu; [by rewrite Esv, lookup_insert_eq|].
    intros k Hk [_ ->]%ServerName_inj. done.
  - intros name Hname. rewrite Lu; [|intros k Hk; apply Hname; by right].
    rewrite Esv, lookup_insert_ne; [done|]. intros Heq. eapply Hname; [left|done].
  - intros j [->|Hj]%elem_of_cons; [|by apply Lh].
    rewrite Lh'; [by rewrite Eh, lookup_insert_eq|]. intros k Hk Heq. by eapply Hsid.
  - intros sid Hne. rewrite Lh'; [|intros k Hk; apply Hne; by right].
    rewrite Eh, lookup_insert_ne; [done|]. intros Heq. eapply Hne; [left|done].
  - rewrite Le, Ee. unfold bootNames. simpl. rewrite list_to_set_app_L. set_solver.
  - intros e. unfold bootNames. simpl. rewrite elem_of_app. intros He.
    destruct (Lsame e) as [-> ->]; [unfold bootNames; tauto|]. apply Esame. tauto.
  - by etrans.
  - congruence.
Qed.

(** The environment's choices suit a group of [n] servers on [net]. *)
Record bootsOk (idx : list nat) (b : nat -> boot) (n : nat) (net : Network) : Prop := {
  bo_names : NoDup (bootNames b idx);
  bo_fresh e : e ∈ bootNames b idx -> e ∉ LabRpc.ends net;
  bo_len i : i ∈ idx -> length (b_names (b i)) = n;
  bo_sids : NoDup ((b_sid ∘ b) <$> idx)
}.

Lemma starts_ok b idx : forall c,
  cinv (grp c) (cnet c) (pst c) -> inRange (grp c) idx -> NoDup idx ->
  bootsOk idx b (length (srvs (grp c))) (cnet c) ->
  exists c', starts b idx c = Return c' /\ launched idx b c c' /\ cinv (grp c') (cnet c') (pst c').
Proof.
  induction idx as [|i idx IH]; intros c Hc Hr Hnd [B1 B2 B3 B4]; simpl.
  { exists c. split; [done|]. split; [apply launched_nil|done]. }
  apply Forall_cons in Hr as [Hi Hr]. apply NoDup_cons in Hnd as [Hni Hnd].
  unfold bootNames in B1, B2. simpl in B1, B2, B4. apply NoDup_app in B1 as (B1 & Bd & B1').
  apply NoDup_cons in B4 as [Bi B4].
  destruct (StartServer_ok i (b i) c Hc Hi B1) as (c1 & -> & Hs & Hc1).
  { apply B3. by left. }
  { intros e He. apply B2, elem_of_app. by left. }
  csimpl. pose proof Hs as [(s & np & _ & Es & _) _ _ _ Ee _ _ _].
  destruct (IH c1 Hc1) as (c' & -> & Hl & Hc').
  - unfold inRange. by rewrite Es, length_insert.
  - done.
  - constructor.
    + done.
    + intros e He. rewrite Ee, elem_of_union, elem_of_list_to_set. intros [Hin|Hin].
      * by eapply Bd.
      * apply (B2 e); [apply elem_of_app; by right|done].
    + intros j Hj. rewrite Es, length_insert. apply B3. by right.
    + done.
  - exists c'. split; [done|]. split; [|done]. eapply launched_cons; try done.
    intros j Hj Heq. apply Bi. apply list_elem_of_fmap. by exists j.
Qed.

(** ** A whole group *)

Lemma own_same sg sg' e : srvs sg' = srvs sg -> own sg' e <-> own sg e.
Proof. intros E. unfold own, endOf. by rewrite E. Qed.

Lemma cinv_enables E sg sg' net net' st :
  cinv sg net st -> same_servers sg sg' -> enables E net net' -> cinv sg' net' st.
Proof.
  intros [Hw Hk Hr Hs] (Hw' & Es & Eg & _) (_ & Ec & Ee & _). constructor.
  - done.
  - intros e He. rewrite Ee. apply Hk. by eapply own_same.
  - intros a b e He. rewrite Ec, Eg. apply (Hr a). unfold endOf in *. by rewrite <-Es.
  - rewrite Es. done.
Qed.

Lemma launched_own n b c c1 e :
  launched (seq 0 n) b c c1 -> length (srvs (grp c)) = n -> own (grp c1) e -> e ∈ bootNames b (seq 0 n).
Proof.
  intros L Hn (i & k & He). unfold endOf in He.
  destruct (srvs (grp c1) !! i) as [s1|] eqn:H1; [|done]. simpl in He.
  pose proof (lookup_lt_Some _ _ _ H1) as Hi. rewrite (ld_len _ _ _ _ L), Hn in Hi.
  destruct (lookup_lt_is_Some_2 (srvs (grp c)) i) as [s Hs]; [by rewrite Hn|].
  destruct (ld_srv _ _ _ _ L i s) as (np & E & _); [apply elem_of_seq; lia|done|].
  rewrite H1 in E. injection E as ->. unfold bootNames. apply list_elem_of_join.
  exists (b_names (b i)). split; [by eapply list_elem_of_lookup_2|].
  apply list_elem_of_fmap. exists i. split; [done|]. apply elem_of_seq. lia.
Qed.

(** [StartServers]: every server is started, then all are connected. *)
Lemma StartServers_ok b c n :
  cinv (grp c) (cnet c) (pst c) -> length (srvs (grp c)) = n -> bootsOk (seq 0 n) b n (cnet c) ->
  exists c1 c', StartServers b c = Return c' /\ launched (seq 0 n) b c c1 /\
    same_servers (grp c1) (grp c') /\ enables (own (grp c1)) (cnet c1) (cnet c') /\
    cheap c' = cheap c1 /\ pst c' = pst c1 /\ killed c' = killed c1 /\
    cinv (grp c') (cnet c') (pst c') /\
    (forall x, x < n -> online (grp c') x) /\
    (forall x y, x < n -> y < n -> linked (grp c') (cnet c') x y).
Proof.
  intros Hc Hn Hb. unfold StartServers, start. rewrite Hn.
  destruct (starts_ok b (seq 0 n) c Hc) as (c1 & -> & Hl & Hc1).
  - apply Forall_forall. intros x ?%elem_of_seq. lia.
  - apply NoDup_seq.
  - by rewrite Hn.
  - csimpl. unfold on_net.
    destruct (ConnectAll_ok (grp c1) (cnet c1) (ci_wf _ _ _ Hc1)) as (sg' & net' & -> & Hs & Hf & Ho & Hlk).
    rewrite (ld_len _ _ _ _ Hl), Hn in Ho, Hlk. csimpl.
    eexists c1, _. split; [done|]. split; [exact Hl|]. simpl.
    do 5 (split; [done|]). split; [by eapply cinv_enables|done].
Qed.

(** ** Shutting servers down *)

Record halted (idx : list nat) (c c' : cluster state) : Prop := {
  hd_len : length (srvs (grp c')) = length (srvs (grp c));
  hd_gid : gid (grp c') = gid (grp c);
  hd_ends a b : endOf (grp c') a b = endOf (grp c) a b;
  hd_other i : i ∉ idx -> srvs (grp c') !! i = srvs (grp c) !! i;
  hd_gone i : i ∈ idx -> LabRpc.servers (cnet c') !! ServerName (gid (grp c)) (Z.of_nat i) = Some None;
  hd_servers name : (forall i, i ∈ idx -> name <> ServerName (gid (grp c)) (Z.of_nat i)) ->
    LabRpc.servers (cnet c') !! name = LabRpc.servers (cnet c) !! name;
  hd_net : LabRpc.connections (cnet c') = LabRpc.connections (cnet c) /\
    LabRpc.ends (cnet c') = LabRpc.ends (cnet c);
  hd_same e : ~ own (grp c) e -> LabRpc.endEnabled (cnet c') e = LabRpc.endEnabled (cnet c) e;
  hd_linked x y : linked (grp c') (cnet c') x y ->
    linked (grp c) (cnet c) x y /\ ~ x ∈ idx /\ ~ y ∈ idx;
  hd_pst : pext (pst c) (pst c');
  hd_heap : cheap c' = cheap c;
  hd_killed k : k ∈ killed c' <-> k ∈ killed c \/
    exists i s, i ∈ idx /\ srvs (grp c) !! i = Some s /\ k ∈ svcs s;
  hd_names : servernames (grp c') = servernames (grp c)
}.

Lemma shutdownServer_ok s st :
  (forall p, saved s = Some p -> is_Some (Persister.persisters st !! p)) ->
  exists sv st', shutdownServer s st
      = Return ({| saved := sv; svcs := []; endNames := endNames s |}, st', svcs s) /\
    pext st st' /\ (forall p, sv = Some p -> is_Some (Persister.persisters st' !! p)).
Proof.
  intros Hp. unfold shutdownServer. destruct (saved s) as [p|].
  - destruct (Copy_ok p st (Hp p eq_refl)) as (np & st' & -> & Hx & Hnp & _).
    exists (Some np), st'. split; [done|]. split; [done|]. by intros ? [= <-].
  - exists None, st. split; [done|]. by split.
Qed.

Lemma set_srvs_ends sg i s s' :
  srvs sg !! i = Some s -> endNames s' = endNames s ->
  forall a b, endOf (set_srvs sg (<[i := s']> (srvs sg))) a b = endOf sg a b.
Proof.
  intros Hs He a b. rewrite endOf_insert by (by eapply lookup_lt_Some). case_decide as Ha; [|done].
  subst. unfold endOf, ends. by rewrite Hs, He.
Qed.

Lemma wf_ends_eq sg sg' :
  wf sg -> length (srvs sg') = length (srvs sg) -> length (connected sg') = length (connected sg) ->
  (forall a b, endOf sg' a b = endOf sg a b) ->
  (forall a s', srvs sg' !! a = Some s' -> exists s, srvs sg !! a = Some s /\ endNames s' = endNames s) ->
  wf sg'.
Proof.
  intros [W1 W2 W3] Hl Hc He Hs. constructor.
  - congruence.
  - intros a s' Ha. destruct (Hs a s' Ha) as (s & Hs' & E). unfold ends. rewrite E, Hl.
    apply (W2 a s Hs').
  - intros a b a' b' e. rewrite !He. apply W3.
Qed.

Lemma ShutdownServer_ok i c :
  cinv (grp c) (cnet c) (pst c) -> i < length (srvs (grp c)) ->
  exists c', ShutdownServer (Z.of_nat i) c = Return c' /\ halted [i] c c' /\
    cinv (grp c') (cnet c') (pst c').
Proof.
  intros [Hw Hk Hr Hsv] Hi. unfold ShutdownServer.
  assert (inRange (grp c) (seq 0 (length (srvs (grp c))))) as Hall.
  { apply Forall_forall. intros x ?%elem_of_seq. lia. }
  destruct (disconnect_spec (grp c) (cnet c) i _ Hw Hi Hall) as (sg1 & net1 & Hd & Hss & _ & Hl1).
  destruct (disconnect_frame _ _ _ _ _ _ Hd) as [E1 (F1 & F2 & F3 & F4)].
  unfold all. rewrite Hd. csimpl. destruct Hss as (Hw1 & _ & Eg & En).
  destruct (lookup_lt_is_Some_2 (srvs (grp c)) i Hi) as [s Hs].
  rewrite E1, (slice_get_Some _ _ _ Hs). csimpl.
  destruct (shutdownServer_ok s (pst c)) as (sv & st' & -> & Hx & Hp'); [intros p; by eapply Hsv|].
  csimpl. rewrite slice_set_nat by done. csimpl. eexists. split; [done|].
  set (s' := {| saved := sv; svcs := []; endNames := endNames s |}).
  assert (forall a b, endOf (set_srvs sg1 (<[i := s']> (srvs (grp c)))) a b = endOf (grp c) a b) as He.
  { intros a b. rewrite <-E1, (set_srvs_ends sg1 i s s'); [|by rewrite E1|done].
    unfold endOf. by rewrite E1. }
  split; constructor; simpl; try done.
  - by rewrite length_insert.
  - intros j Hj. rewrite list_lookup_insert_ne; [done|]. intros ->. apply Hj. by left.
  - intros j ->%list_elem_of_singleton. by rewrite Eg, lookup_insert_eq.
  - intros name Hn. rewrite lookup_insert_ne, F1; [done|]. rewrite Eg. intros <-.
    eapply (Hn i); [by left|done].
  - intros x y (e & Hxy & Hon). rewrite He in Hxy.
    assert (linked (grp c) net1 x y) as Hl%Hl1 by (by exists e).
    destruct Hl as (H1 & H2 & H3). rewrite !list_elem_of_singleton.
    assert (x < length (srvs (grp c)) /\ y < length (srvs (grp c))) as [Hx' Hy'].
    { unfold endOf in Hxy. destruct (srvs (grp c) !! x) as [t|] eqn:Ht; [|done]. simpl in Hxy.
      apply lookup_lt_Some in Hxy as ?. destruct (wf_ends _ Hw x t Ht).
      apply lookup_lt_Some in Ht. lia. }
    rewrite !elem_of_seq in H2, H3. split; [done|]. split; intros ->; [apply H2|apply H3]; lia.
  - intros k. rewrite elem_of_app. split; (intros [?|Hx2]; [by left|right]).
    + exists i, s. by rewrite list_elem_of_singleton.
    + destruct Hx2 as (j & t & ->%list_elem_of_singleton & Ht & Hkt). by simplify_eq.
  - eapply (wf_ends_eq (grp c)); simpl; try done.
    + by rewrite length_insert.
    + rewrite (wf_connected _ Hw1), (wf_connected _ Hw). by rewrite E1.
    + intros a t. rewrite list_lookup_insert. case_decide; [|eauto]. intros [= <-].
      destruct_and!. subst. by exists s.
  - intros e (a & b & Hab). rewrite He in Hab. rewrite F3. apply Hk. by exists a, b.
  - intros a b e Hab. rewrite He in Hab. rewrite F2, Eg. by eapply Hr.
  - intros j t p. rewrite list_lookup_insert. case_decide; [by intros [= <-] ?; auto|].
    intros Ht Hp. eapply pext_saved; [done|]. by eapply Hsv.
Qed.

Lemma halted_cons i idx c c1 c' :
  i ∉ idx -> halted [i] c c1 -> halted idx c1 c' -> halted (i :: idx) c c'.
Proof.
  intros Hi [A1 A2 A3 A4 A5 A6 [A7 A7'] A8 A9 A10 A11 A12 A13] [B1 B2 B3 B4 B5 B6 [B7 B7'] B8 B9 B10 B11 B12 B13].
  rewrite ?A2 in *. constructor.
  - congruence.
  - congruence.
  - intros a b. by rewrite B3, A3.
  - intros j [Hne Hni]%not_elem_of_cons. rewrite B4, A4; [done|by rewrite list_elem_of_singleton|done].
  - intros j [->|Hj]%elem_of_cons; [|auto]. rewrite B6.
    + apply A5. by left.
    + intros k Hk [_ ->]%ServerName_inj. done.
  - intros name Hn. rewrite B6, A6; [done| |].
    + intros k ->%list_elem_of_singleton. apply Hn. by left.
    + intros k Hk. apply Hn. by right.
  - split; congruence.
  - intros e He. rewrite B8, A8; [done|done|]. intros (a & b & Hab). apply He. exists a, b.
    by rewrite <-A3.
  - intros x y (Hxy & Hx & Hy)%B9. apply A9 in Hxy as (Hxy & Hx' & Hy'). rewrite !not_elem_of_cons.
    rewrite !list_elem_of_singleton in Hx', Hy'. done.
  - by etrans.
  - congruence.
  - intros k. rewrite B12, A12. setoid_rewrite list_elem_of_singleton. setoid_rewrite elem_of_cons.
    split.
    + intros [[?|(j & s & -> & H)]|(j & s & Hj & Hs & H)]; [by left|right; exists i, s; tauto|].
      right. exists j, s. rewrite A4 in Hs; [tauto|]. rewrite list_elem_of_singleton. by intros ->.
    + intros [?|(j & s & [->|Hj] & Hs & H)]; [by do 2 left|left; right; by exists i, s|].
      right. exists j, s. rewrite A4; [done|]. rewrite list_elem_of_singleton. by intros ->.
  - congruence.
Qed.

Lemma shutdowns_ok idx : forall c,
  cinv (grp c) (cnet c) (pst c) -> inRange (grp c) idx -> NoDup idx ->
  exists c', shutdowns idx c = Return c' /\ halted idx c c' /\ cinv (grp c') (cnet c') (pst c').
Proof.
  induction idx as [|i idx IH]; intros c Hc Hr Hnd; simpl.
  { exists c. split; [done|]. split; [|done]. constructor; try done.
    - by intros ? ?%elem_of_nil.
    - intros x y ?. rewrite !elem_of_nil. tauto.
    - intros k. split; [by left|]. intros [?|(? & ? & ?%elem_of_nil & _)]; done. }
  apply Forall_cons in Hr as [Hi Hr]. apply NoDup_cons in Hnd as [Hni Hnd].
  destruct (ShutdownServer_ok i c Hc Hi) as (c1 & -> & Hh & Hc1). csimpl.
  destruct (IH c1 Hc1) as (c' & -> & Hh' & Hc').
  - unfold inRange. by rewrite (hd_len _ _ _ Hh).
  - done.
  - exists c'. split; [done|]. split; [by eapply halted_cons|done].
Qed.

(** ** The set of groups *)

(** Delivery depends on the ends of the group and the names of its servers. *)
Lemma delivers_frame (w w' : world) g a b sid :
  grps w' !! g = grps w !! g ->
  LabRpc.servers (wnet w') !! ServerName g (Z.of_nat b)
  = LabRpc.servers (wnet w) !! ServerName g (Z.of_nat b) ->
  (forall sg e, grps w !! g = Some sg -> own sg e ->
     LabRpc.endEnabled (wnet w') e = LabRpc.endEnabled (wnet w) e /\
     LabRpc.connections (wnet w') !! e = LabRpc.connections (wnet w) !! e) ->
  delivers w' g a b sid <-> delivers w g a b sid.
Proof.
  intros Hg Hs He. unfold delivers. rewrite Hg.
  split; intros (sg & e & rel & reord & Hsg & Hab & Hi); exists sg, e;
    destruct (He sg e Hsg) as [E1 E2]; try (by exists a, b);
    unfold LabRpc.readEndnameInfo, LabRpc.serverOf in *; rewrite ?E1, ?E2 in *;
    injection Hi as H1 H2 H3 _ _; rewrite H1, H2 in *; simpl in *;
    [rewrite Hs in H3|rewrite <-Hs in H3]; rewrite H3; by eexists _, _.
Qed.

(** An end that is enabled and connected to a registered server delivers. *)
Lemma delivers_intro (w : world) g sg a b sid :
  grps w !! g = Some sg -> gid sg = g -> cinv sg (wnet w) (wpst w) -> linked sg (wnet w) a b ->
  LabRpc.servers (wnet w) !! ServerName g (Z.of_nat b) = Some (Some sid) -> delivers w g a b sid.
Proof.
  intros Hg Eg Hc (e & He & Hon) Hs. exists sg, e, (LabRpc.reliable (wnet w)), (LabRpc.longReordering (wnet w)).
  split_and!; [done|done|]. unfold LabRpc.readEndnameInfo, LabRpc.serverOf.
  rewrite Hon, (ci_route _ _ _ Hc a b e He), Eg. simpl. by rewrite Hs.
Qed.

(** A new group's ends are new. *)
Lemma MakeGroup_ok g names (w : world) :
  NoDup (mjoin names) -> (forall e, e ∈ mjoin names -> e ∉ LabRpc.ends (wnet w)) ->
  Forall (fun ns => length ns = length names) names ->
  exists sg net', makeSrvGrp g names (wnet w) = Return (sg, net') /\
    gid sg = g /\ length (srvs sg) = length names /\ cinv sg net' (wpst w) /\
    (forall i s, srvs sg !! i = Some s -> saved s = None) /\
    servernames sg = (fun i => ServerName g (Z.of_nat i)) <$> seq 0 (length names) /\
    newEnds g (mjoin names) (fun e k => exists ns, ns ∈ names /\ ns !! k = Some e) (wnet w) net'.
Proof.
  intros Hnd Hf Hlen.
  destruct (makeSrvGrp_spec g names (wnet w) Hnd Hf Hlen) as (sg & net' & He & Hw & Hn & _).
  exists sg, net'. split; [done|]. unfold makeSrvGrp in He.
  destruct (makeServers_new g names (wnet w) Hnd Hf) as (net1 & Hm & Hne).
  rewrite Hm in He. csimpl in He. injection He as <- <-. simpl in *.
  split; [done|]. split; [done|]. split; [|split; [|done]].
  - match type of Hw with wf ?sg => set (sg0 := sg) in * end.
    assert (forall a b e, endOf sg0 a b = Some e -> exists ns, ns ∈ names /\ ns !! b = Some e) as Hend.
    { intros a b e. unfold endOf. simpl. rewrite list_lookup_fmap.
      destruct (names !! a) as [ns|] eqn:Ha; simpl; [|done]. intros Hb. exists ns.
      split; [by eapply list_elem_of_lookup_2|done]. }
    constructor; [done|..].
    + intros e (a & b & (ns & Hin & Hb)%Hend). rewrite (ne_ends _ _ _ _ _ Hne), elem_of_union.
      left. apply elem_of_list_to_set, list_elem_of_join. exists ns. split; [|done].
      by eapply list_elem_of_lookup_2.
    + intros a b e Hab. by apply (ne_conn _ _ _ _ _ Hne), (Hend a).
    + intros i s p. simpl. rewrite list_lookup_fmap. intros (ns & _ & ->)%fmap_Some. done.
  - intros i s. rewrite list_lookup_fmap. by intros (ns & _ & ->)%fmap_Some.
Qed.

(** What the environment provides for a new group: all its random names are
    different and new, its labrpc servers have new addresses. *)
Record startOk (names : list (list string)) (b : nat -> boot) (w : world) : Prop := {
  so_names : NoDup (mjoin names ++ bootNames b (seq 0 (length names)));
  so_fresh e : e ∈ mjoin names ++ bootNames b (seq 0 (length names)) -> e ∉ LabRpc.ends (wnet w);
  so_len : Forall (fun ns => length ns = length names) names;
  so_boot i : i < length names -> length (b_names (b i)) = length names;
  so_sids : NoDup ((b_sid ∘ b) <$> seq 0 (length names));
  so_heap i : i < length names -> wheap w !! b_sid (b i) = None
}.

Lemma startOk_boots names b w net' :
  startOk names b w -> LabRpc.ends net' = list_to_set (mjoin names) ∪ LabRpc.ends (wnet w) ->
  bootsOk (seq 0 (length names)) b (length names) net'.
Proof.
  intros [S1 S2 S3 S4 S5 _] Ee. apply NoDup_app in S1 as (_ & Hd & Hn). constructor; try done.
  - intros e He. rewrite Ee, elem_of_union, elem_of_list_to_set. intros [H|H]; [by eapply Hd|].
    apply (S2 e); [apply elem_of_app; by right|done].
  - intros i [_ Hi]%elem_of_seq. by apply S4.
Qed.

(** A group made in [w], with its network. *)
Record groupMade (g : Z) (names : list (list string)) (b : nat -> boot) (w w' : world) : Prop := {
  gm_grp : exists sg', grps w' = <[g := sg']> (grps w) /\ gid sg' = g /\
    cinv sg' (wnet w') (wpst w') /\ length (srvs sg') = length names /\
    (forall e, own sg' e -> e ∉ LabRpc.ends (wnet w)) /\
    (forall x y, x < length names -> y < length names -> linked sg' (wnet w') x y) /\
    (forall i, i < length names -> exists s p, srvs sg' !! i = Some s /\
       svcs s = (b_mks (b i)).1 /\ saved s = Some p /\ Persister.contents (wpst w') p = Some ("", ""));
  gm_reg i : i < length names ->
    LabRpc.servers (wnet w') !! ServerName g (Z.of_nat i) = Some (Some (b_sid (b i)));
  gm_servers name : (forall i, i < length names -> name <> ServerName g (Z.of_nat i)) ->
    LabRpc.servers (wnet w') !! name = LabRpc.servers (wnet w) !! name;
  gm_ends : LabRpc.ends (wnet w) ⊆ LabRpc.ends (wnet w');
  gm_same e : e ∈ LabRpc.ends (wnet w) ->
    LabRpc.endEnabled (wnet w') e = LabRpc.endEnabled (wnet w) e /\
    LabRpc.connections (wnet w') !! e = LabRpc.connections (wnet w) !! e;
  gm_pst : pext (wpst w) (wpst w');
  gm_heap sid rs : wheap w !! sid = Some rs -> wheap w' !! sid = Some rs;
  gm_new i : i < length names -> wheap w' !! b_sid (b i) = Some (labsrv (b i));
  gm_killed : wkilled w' = wkilled w;
  gm_names sg' : grps w' !! g = Some sg' ->
    servernames sg' = (fun i => ServerName g (Z.of_nat i)) <$> seq 0 (length names);
  gm_online sg' i : grps w' !! g = Some sg' -> i < length names -> online sg' i
}.

Lemma MakeGroupStart_ok g names b w :
  startOk names b w -> exists w', MakeGroupStart g names b w = Return w' /\ groupMade g names b w w'.
Proof.
  intros Hok. pose proof Hok as [S1 S2 S3 S4 S5 S6]. unfold MakeGroupStart, MakeGroup.
  destruct (MakeGroup_ok g names w) as (sg & net1 & -> & Eg & Hn & Hc & Hsv & Enm & [N1 N2 N3 N4 N5]); [..|done|].
  { by apply NoDup_app in S1 as [? _]. }
  { intros e He. apply S2, elem_of_app. by left. }
  csimpl. unfold on_group, lookupGroup. simpl. rewrite lookup_insert_eq.
  destruct (StartServers_ok b {| grp := sg; cnet := net1; cheap := wheap w; pst := wpst w; killed := wkilled w |}
    (length names) Hc Hn) as (c1 & c' & -> & L & (_ & Es & Eg' & En') & (F1 & F2 & F3 & F4) & Eh & Ep & Ek & Hc' & Hon & Hlk).
  { by eapply startOk_boots. }
  csimpl. eexists. split; [done|].
  pose proof L as [Ll (Lg & _ & Ln) Ls _ Lr Lu Lh Lh' Le Lsame Lp Lk]. simpl in *.
  assert (forall e, own (grp c1) e -> e ∉ LabRpc.ends (wnet w)) as Hown.
  { intros e He%(launched_own _ _ _ _ _ L); [|done]. apply S2, elem_of_app. by right. }
  constructor; simpl.
  - exists (grp c'). rewrite insert_insert_eq. split; [done|]. split; [congruence|]. split; [done|].
    split; [by rewrite Es, Ll|]. split; [intros e He; apply Hown; by eapply own_same|]. split; [done|].
    intros i Hi. destruct (lookup_lt_is_Some_2 (srvs sg) i) as [s Hs]; [lia|].
    destruct (Ls i s) as (np & E1 & E2); [apply elem_of_seq; lia|done|]. rewrite Es, E1.
    eexists _, np. split; [done|]. split; [done|]. split; [done|]. rewrite Ep, E2.
    unfold inherited. by rewrite (Hsv i s Hs).
  - intros i Hi. rewrite F1, <-Eg. apply Lr, elem_of_seq. lia.
  - intros name Hname. rewrite F1, Lu, N1; [done|]. intros i [_ Hi]%elem_of_seq. rewrite Eg.
    by apply Hname.
  - rewrite F3, Le, N2. set_solver.
  - intros e He. rewrite F4 by (intros Ho; by apply (Hown e Ho)). rewrite F2.
    destruct (Lsame e) as [-> ->].
    { intros Hin. apply (S2 e); [apply elem_of_app; by right|done]. }
    apply N5. intros Hin. apply (S2 e); [apply elem_of_app; by left|done].
  - by rewrite Ep.
  - intros sid rs Hrs. rewrite Eh, Lh'; [done|]. intros i [_ Hi]%elem_of_seq ->. by rewrite S6 in Hrs.
  - intros i Hi. rewrite Eh. apply Lh, elem_of_seq. lia.
  - congruence.
  - intros sg'. rewrite lookup_insert_eq. intros [= <-]. congruence.
  - intros sg' i. rewrite lookup_insert_eq. intros [= <-]. apply Hon.
Qed.

(** The other groups' records survive on a network that keeps their ends. *)
Lemma cinv_frame sg (net net' : Network) st st' :
  cinv sg net st -> pext st st' -> LabRpc.ends net ⊆ LabRpc.ends net' ->
  (forall e, own sg e -> LabRpc.connections net' !! e = LabRpc.connections net !! e) ->
  cinv sg net' st'.
Proof.
  intros [Hw Hk Hr Hs] Hx He Hc. constructor; [done|..].
  - intros e Ho. by apply He, Hk.
  - intros a b e Hab. rewrite Hc by (by exists a, b). by eapply Hr.
  - intros i s p H1 H2. eapply pext_saved; [done|]. by eapply Hs.
Qed.

Lemma winv_made g names b w w' : winv w -> groupMade g names b w w' -> winv w'.
Proof.
  intros [W1 W2] [(sg' & Hg & Eg & Hc & _ & Hnew & _) _ _ Ge Gs Gp _ _ _].
  assert (forall g' s e, grps w !! g' = Some s -> own s e -> e ∈ LabRpc.ends (wnet w)) as Hknown.
  { intros g' s e Hs Ho. destruct (W1 g' s Hs) as [_ Hci]. by apply (ci_known _ _ _ Hci). }
  constructor.
  - intros g' s. rewrite Hg. intros [[<- <-]|[Hne Hs]]%lookup_insert_Some; [done|].
    destruct (W1 g' s Hs) as [? Hci]. split; [done|]. eapply cinv_frame; [done..|].
    intros e Ho. apply Gs. by eapply Hknown.
  - intros g1 g2 s1 s2 e. rewrite Hg.
    intros [[<- <-]|[Hne Hs1]]%lookup_insert_Some [[<- <-]|[Hne' Hs2]]%lookup_insert_Some Ho1 Ho2.
    + done.
    + exfalso. apply (Hnew e Ho1). by eapply Hknown.
    + exfalso. apply (Hnew e Ho2). by eapply Hknown.
    + by eapply W2.
Qed.

(** A method of group [g] that keeps or renews the group's ends and leaves the
    ends of the others alone preserves the invariant. *)
Lemma winv_on_group g sg f w c' :
  winv w -> grps w !! g = Some sg ->
  f {| grp := sg; cnet := wnet w; cheap := wheap w; pst := wpst w; killed := wkilled w |} = Return c' ->
  cinv (grp c') (cnet c') (pst c') -> gid (grp c') = gid sg ->
  LabRpc.ends (wnet w) ⊆ LabRpc.ends (cnet c') ->
  (forall e, own (grp c') e -> own sg e \/ e ∉ LabRpc.ends (wnet w)) ->
  (forall e, e ∈ LabRpc.ends (wnet w) -> ~ own sg e ->
     LabRpc.connections (cnet c') !! e = LabRpc.connections (wnet w) !! e) ->
  pext (wpst w) (pst c') ->
  exists w', on_group g f w = Return w' /\ winv w' /\
    w' = {| grps := <[g := grp c']> (grps w); wnet := cnet c'; wheap := cheap c'; wpst := pst c';
            wkilled := killed c' |}.
Proof.
  intros [W1 W2] Hg Hf Hc Eg He Ho Hs Hp. unfold on_group, lookupGroup. rewrite Hg, Hf. csimpl.
  eexists. split; [done|]. split; [|done].
  assert (forall g' s e, grps w !! g' = Some s -> own s e -> e ∈ LabRpc.ends (wnet w)) as Hknown.
  { intros g' s e Hs' Ho'. destruct (W1 g' s Hs') as [_ Hci]. by apply (ci_known _ _ _ Hci). }
  assert (forall g' s e, g <> g' -> grps w !! g' = Some s -> own s e -> ~ own sg e) as Hdis.
  { intros g' s e Hne Hs' Ho' Ho''. apply Hne. by eapply (W2 g g' sg s e). }
  constructor; simpl.
  - intros g' s [[<- <-]|[Hne Hs']]%lookup_insert_Some.
    + split; [|done]. rewrite Eg. by apply (W1 g sg).
    + destruct (W1 g' s Hs') as [? Hci]. split; [done|]. eapply cinv_frame; [done..|].
      intros e Ho'. apply Hs; [by eapply Hknown|by eapply Hdis].
  - intros g1 g2 s1 s2 e [[<- <-]|[Hne Hs1]]%lookup_insert_Some [[<- <-]|[Hne' Hs2]]%lookup_insert_Some Ho1 Ho2.
    + done.
    + exfalso. destruct (Ho e Ho1) as [H|H]; [by eapply Hdis|]. apply H. by eapply Hknown.
    + exfalso. destruct (Ho e Ho2) as [H|H]; [by eapply Hdis|]. apply H. by eapply Hknown.
    + by eapply W2.
Qed.

Lemma winv_tame g sg f w :
  winv w -> grps w !! g = Some sg ->
  (exists sg' net', f sg (wnet w) = Return (sg', net') /\ same_servers sg sg' /\ enables (own sg) (wnet w) net') ->
  exists w', on_group g (on_net f) w = Return w' /\ winv w'.
Proof.
  intros Hw Hg (sg' & net' & Hf & Hss & Hen). destruct (wi_grp _ Hw g sg Hg) as [Eg Hc].
  edestruct (winv_on_group g sg (on_net f) w) as (w' & Hw' & Hi & _); [done|done| |..|by exists w'].
  - unfold on_net. simpl. rewrite Hf. csimpl. done.
  - by eapply cinv_enables.
  - apply Hss.
  - simpl. destruct Hen as (_ & _ & -> & _). done.
  - intros e Ho. left. eapply own_same; [|done]. symmetry. apply Hss.
  - simpl. destruct Hen as (_ & -> & _). done.
  - done.
Qed.

Lemma connect_tame sg net i to :
  wf sg -> i < length (srvs sg) -> inRange sg to ->
  exists sg' net', connect (Z.of_nat i) (Z.of_nat <$> to) sg net = Return (sg', net') /\
    same_servers sg sg' /\ enables (own sg) net net'.
Proof.
  intros Hw Hi Ht. destruct (connect_spec sg net i to Hw Hi Ht) as (sg' & net' & He & Hs & _).
  exists sg', net'. split_and!; [done|done|]. by eapply connect_frame.
Qed.

Lemma disconnect_tame sg net i from :
  wf sg -> i < length (srvs sg) -> inRange sg from ->
  exists sg' net', disconnect (Z.of_nat i) (Z.of_nat <$> from) sg net = Return (sg', net') /\
    same_servers sg sg' /\ enables (own sg) net net'.
Proof.
  intros Hw Hi Ht. destruct (disconnect_spec sg net i from Hw Hi Ht) as (sg' & net' & He & Hs & _).
  exists sg', net'. split_and!; [done|done|]. by eapply disconnect_frame.
Qed.

Lemma tame_trans sg sg1 sg2 net net1 net2 :
  same_servers sg sg1 -> enables (own sg) net net1 ->
  same_servers sg1 sg2 -> enables (own sg1) net1 net2 ->
  same_servers sg sg2 /\ enables (own sg) net net2.
Proof.
  intros H1 E1 H2 E2. split; [by eapply same_servers_trans|]. etrans; [done|].
  destruct H1 as (_ & Es & _). unfold own, endOf in E2 |- *. by rewrite Es in E2.
Qed.

Lemma moveTo_tame pa pb i sg net :
  wf sg -> i < length (srvs sg) -> inRange sg pa -> inRange sg pb ->
  exists sg' net', moveTo pa pb (Z.of_nat i) sg net = Return (sg', net') /\
    same_servers sg sg' /\ enables (own sg) net net'.
Proof.
  intros Hw Hi Ha Hb. unfold moveTo.
  destruct (disconnect_tame sg net i pb Hw Hi Hb) as (sg1 & net1 & -> & H1 & E1). csimpl.
  destruct (connect_tame sg1 net1 i pa) as (sg2 & net2 & -> & H2 & E2); unfold inRange;
    rewrite ?(proj1 (proj2 H1)); [apply H1|done|done|].
  exists sg2, net2. split; [done|]. by eapply tame_trans.
Qed.

Lemma phase_tame pa pb rest : forall sg net,
  wf sg -> inRange sg rest -> inRange sg pa -> inRange sg pb ->
  exists sg' net', forEach (moveTo pa pb) (Z.of_nat <$> rest) sg net = Return (sg', net') /\
    same_servers sg sg' /\ enables (own sg) net net'.
Proof.
  induction rest as [|i rest IH]; intros sg net Hw Hr Ha Hb; csimpl.
  { exists sg, net. by split_and!. }
  apply Forall_cons in Hr as [Hi Hr].
  destruct (moveTo_tame pa pb i sg net Hw Hi Ha Hb) as (sg1 & net1 & -> & H1 & E1). csimpl.
  destruct (IH sg1 net1) as (sg2 & net2 & -> & H2 & E2); unfold inRange;
    rewrite ?(proj1 (proj2 H1)); [apply H1|done|done|done|].
  exists sg2, net2. split; [done|]. by eapply tame_trans.
Qed.

Lemma Partition_tame p1 p2 sg net :
  wf sg -> inRange sg p1 -> inRange sg p2 ->
  exists sg' net', Partition (Z.of_nat <$> p1) (Z.of_nat <$> p2) sg net = Return (sg', net') /\
    same_servers sg sg' /\ enables (own sg) net net'.
Proof.
  intros Hw H1 H2. unfold Partition.
  destruct (phase_tame p1 p2 p1 sg net Hw H1 H1 H2) as (sg1 & net1 & E1 & S1 & F1).
  unfold moveTo in E1. rewrite E1. csimpl.
  destruct (phase_tame p2 p1 p2 sg1 net1) as (sg2 & net2 & E2 & S2 & F2); unfold inRange;
    rewrite ?(proj1 (proj2 S1)); [apply S1|done|done|done|].
  unfold moveTo in E2. rewrite E2. exists sg2, net2. split; [done|]. by eapply tame_trans.
Qed.

(** ** The operations of a test on its groups *)

Inductive gop :=
| OMake (g : Z) (names : list (list string)) (b : nat -> boot)
| OExit (g : Z)
| OStart (g : Z) (i : nat) (b : boot)
| OShutdown (g : Z) (i : nat)
| OConnectOne (g : Z) (i : nat)
| ODisconnectAll (g : Z) (i : nat)
| OPartition (g : Z) (p1 p2 : list nat).

Definition run (o : gop) (w : world) : outcome world :=
  match o with
  | OMake g names b => MakeGroupStart g names b w
  | OExit g => ExitGroup g w
  | OStart g i b => on_group g (StartServer (Z.of_nat i) (b_names b) (b_mks b) (b_sid b)) w
  | OShutdown g i => on_group g (ShutdownServer (Z.of_nat i)) w
  | OConnectOne g i => on_group g (on_net (ConnectOne (Z.of_nat i))) w
  | ODisconnectAll g i => on_group g (on_net (DisconnectAll (Z.of_nat i))) w
  | OPartition g p1 p2 => on_group g (on_net (Partition (Z.of_nat <$> p1) (Z.of_nat <$> p2))) w
  end.

Fixpoint runAll (os : list gop) (w : world) : outcome world :=
  match os with
  | [] => Return w
  | o :: os => w ← run o w; runAll os w
  end.

(** The group exists and has servers with the numbers [l]. *)
Definition hasServers (w : world) (g : Z) (l : list nat) : Prop :=
  exists sg, grps w !! g = Some sg /\ inRange sg l.

(** What a test must respect: groups exist, servers are in range, random names
    are new. *)
Definition valid (o : gop) (w : world) : Prop :=
  match o with
  | OMake g names b => startOk names b w
  | OExit g => is_Some (grps w !! g)
  | OStart g i b => hasServers w g [i] /\ NoDup (b_names b) /\
      (forall e, e ∈ b_names b -> e ∉ LabRpc.ends (wnet w)) /\
      (forall sg, grps w !! g = Some sg -> length (b_names b) = length (srvs sg))
  | OShutdown g i | OConnectOne g i | ODisconnectAll g i => hasServers w g [i]
  | OPartition g p1 p2 => hasServers w g (p1 ++ p2)
  end.

Fixpoint validAll (os : list gop) (w : world) : Prop :=
  match os with
  | [] => True
  | o :: os => valid o w /\ forall w', run o w = Return w' -> validAll os w'
  end.

Lemma inRange_all sg : inRange sg (seq 0 (length (srvs sg))).
Proof. apply Forall_forall. intros x ?%elem_of_seq. lia. Qed.

Lemma own_halted idx c c' e : halted idx c c' -> own (grp c') e <-> own (grp c) e.
Proof. intros H. unfold own. by setoid_rewrite (hd_ends _ _ _ H). Qed.

(** A method that shuts down servers. *)
Lemma winv_halted g sg f idx w c' :
  winv w -> grps w !! g = Some sg ->
  f {| grp := sg; cnet := wnet w; cheap := wheap w; pst := wpst w; killed := wkilled w |} = Return c' ->
  halted idx {| grp := sg; cnet := wnet w; cheap := wheap w; pst := wpst w; killed := wkilled w |} c' ->
  cinv (grp c') (cnet c') (pst c') ->
  exists w', on_group g f w = Return w' /\ winv w' /\
    w' = {| grps := <[g := grp c']> (grps w); wnet := cnet c'; wheap := cheap c'; wpst := pst c';
            wkilled := killed c' |}.
Proof.
  intros Hw Hg Hf Hh Hc. pose proof (hd_net _ _ _ Hh) as [Ec Ee]. simpl in Ec, Ee.
  eapply winv_on_group; try done.
  - apply Hh.
  - by rewrite Ee.
  - intros e Ho. left. by apply (own_halted _ _ _ _ Hh) in Ho.
  - by rewrite Ec.
  - apply (hd_pst _ _ _ Hh).
Qed.

Lemma Shutdown_ok g sg w :
  winv w -> grps w !! g = Some sg ->
  exists c' w1, Shutdown {| grp := sg; cnet := wnet w; cheap := wheap w; pst := wpst w; killed := wkilled w |}
      = Return c' /\
    halted (seq 0 (length (srvs sg)))
      {| grp := sg; cnet := wnet w; cheap := wheap w; pst := wpst w; killed := wkilled w |} c' /\
    on_group g Shutdown w = Return w1 /\ winv w1 /\
    w1 = {| grps := <[g := grp c']> (grps w); wnet := cnet c'; wheap := cheap c'; wpst := pst c';
            wkilled := killed c' |}.
Proof.
  intros Hw Hg. destruct (wi_grp _ Hw g sg Hg) as [_ Hc].
  destruct (shutdowns_ok (seq 0 (length (srvs sg)))
    {| grp := sg; cnet := wnet w; cheap := wheap w; pst := wpst w; killed := wkilled w |})
    as (c' & Hs & Hh & Hc'); [done|apply inRange_all|apply NoDup_seq|].
  destruct (winv_halted g sg Shutdown _ w c' Hw Hg Hs Hh Hc') as (w1 & H1 & H2 & H3).
  by exists c', w1.
Qed.

Lemma winv_delete g w : winv w -> winv (delete g w).
Proof.
  intros [W1 W2]. constructor; simpl.
  - intros g' s [_ Hs]%lookup_delete_Some. by apply W1.
  - intros g1 g2 s1 s2 e [_ H1]%lookup_delete_Some [_ H2]%lookup_delete_Some. by apply W2.
Qed.

Lemma winv_run o w : winv w -> valid o w -> exists w', run o w = Return w' /\ winv w'.
Proof.
  intros Hw Hv. destruct o as [g names b|g|g i b|g i|g i|g i|g p1 p2]; simpl in Hv |- *.
  - destruct (MakeGroupStart_ok g names b w Hv) as (w' & -> & Hm). exists w'.
    split; [done|]. by eapply winv_made.
  - destruct Hv as [sg Hg]. destruct (Shutdown_ok g sg w Hw Hg) as (c' & w1 & _ & _ & H1 & H2 & _).
    unfold ExitGroup. rewrite H1. csimpl. eexists. split; [done|]. by apply winv_delete.
  - destruct Hv as ((sg & Hg & [Hi _]%Forall_cons) & Hnd & Hf & Hl).
    destruct (wi_grp _ Hw g sg Hg) as [Eg Hc].
    edestruct (StartServer_ok i b {| grp := sg; cnet := wnet w; cheap := wheap w; pst := wpst w;
      killed := wkilled w |}) as (c' & Hs & Hst & Hc'); [done|done|done|by apply Hl|done|].
    destruct Hst as [(s & np & _ & Es & _) (Eg' & _) _ _ Ee Esame Ep _]. simpl in *.
    edestruct (winv_on_group g sg) as (w' & Hw' & Hi' & _); [done|done|exact Hs|done|done|..|by exists w'].
    + rewrite Ee. set_solver.
    + intros e (a & k & Hak). unfold endOf in Hak. rewrite Es, list_lookup_insert in Hak.
      case_decide as Ha; [|left; by exists a, k]. right. simpl in Hak. apply Hf.
      by eapply list_elem_of_lookup_2.
    + intros e He _. apply Esame. intros Hin. by apply (Hf e Hin).
    + done.
  - destruct Hv as (sg & Hg & [Hi _]%Forall_cons). destruct (wi_grp _ Hw g sg Hg) as [Eg Hc].
    destruct (ShutdownServer_ok i {| grp := sg; cnet := wnet w; cheap := wheap w; pst := wpst w;
      killed := wkilled w |} Hc Hi) as (c' & Hs & Hh & Hc').
    destruct (winv_halted g sg _ _ w c' Hw Hg Hs Hh Hc') as (w' & H1 & H2 & _). by exists w'.
  - destruct Hv as (sg & Hg & [Hi _]%Forall_cons). destruct (wi_grp _ Hw g sg Hg) as [Eg Hc].
    eapply winv_tame; [done|done|]. apply connect_tame; [apply Hc|done|apply inRange_all].
  - destruct Hv as (sg & Hg & [Hi _]%Forall_cons). destruct (wi_grp _ Hw g sg Hg) as [Eg Hc].
    eapply winv_tame; [done|done|]. apply disconnect_tame; [apply Hc|done|apply inRange_all].
  - destruct Hv as (sg & Hg & [H1 H2]%Forall_app). destruct (wi_grp _ Hw g sg Hg) as [Eg Hc].
    eapply winv_tame; [done|done|]. by apply Partition_tame; [apply Hc|..].
Qed.

Lemma winv_new net heap st : winv (newGroups net heap st).
Proof. by constructor. Qed.

Lemma winv_runAll os : forall w, winv w -> validAll os w -> exists w', runAll os w = Return w' /\ winv w'.
Proof.
  induction os as [|o os IH]; intros w Hw; simpl; [by exists w|]. intros [Hv Hn].
  destruct (winv_run o w Hw Hv) as (w1 & H1 & Hw1). rewrite H1. csimpl. by apply IH; [|apply Hn].
Qed.

(** C10: The operations of a test on its groups are type safe.  Start from no
    groups and run any sequence of the tester's operations (make and start a
    group, shut a group down and delete it, start or shut down a server,
    connect or disconnect a server, partition a group) on groups that exist,
    with server numbers in range and end names that are new: no operation
    panics or exits, and in the end every group is well formed: each server
    has its own end to each server, known to the network and connected to
    that server's name; no two groups share an end; every saved persister
    exists. *)
Theorem groups_type_safe net heap st os :
  validAll os (newGroups net heap st) ->
  exists w', runAll os (newGroups net heap st) = Return w' /\ winv w'.
Proof. apply winv_runAll, winv_new. Qed.

(** C21: A started group is connected, and starting it disturbs no other group.
    [MakeGroupStart] returns; every server of the new group then has a labrpc
    server of its own, with the services the application started and an empty
    persister, and a request from any server of the group to any server of the
    group is routed to that one; the groups that were there route their
    requests as before, to the same labrpc servers. *)
Theorem started_group_connected g names b w :
  winv w -> startOk names b w ->
  exists w', MakeGroupStart g names b w = Return w' /\
    (forall x y, x < length names -> y < length names -> delivers w' g x y (b_sid (b y))) /\
    (forall i, i < length names -> wheap w' !! b_sid (b i) = Some (labsrv (b i)) /\
       exists sg s p, lookupGroup g w' = Some sg /\ srvs sg !! i = Some s /\
         svcs s = (b_mks (b i)).1 /\ saved s = Some p /\ Persister.contents (wpst w') p = Some ("", "")) /\
    (forall g' x y sid, g' <> g -> delivers w' g' x y sid <-> delivers w g' x y sid) /\
    (forall sid rs, wheap w !! sid = Some rs -> wheap w' !! sid = Some rs).
Proof.
  intros Hw Hok. destruct (MakeGroupStart_ok g names b w Hok) as (w' & -> & Hm).
  exists w'. split; [done|]. destruct Hm as [(sg & Hg & Eg & Hc & Hl & _ & Hlk & Hs) Hr Hsv _ Hsame _ Hh Hn _].
  assert (grps w' !! g = Some sg) as Hgg by (by rewrite Hg, lookup_insert_eq).
  split_and!; [| | |done].
  - intros x y Hx Hy. eapply delivers_intro; [exact Hgg|exact Eg|exact Hc|auto|auto].
  - intros i Hi. split; [auto|]. destruct (Hs i Hi) as (s & p & H). by exists sg, s, p.
  - intros g' x y sid Hne. apply delivers_frame.
    + by rewrite Hg, lookup_insert_ne.
    + apply Hsv. intros i _ [? _]%ServerName_inj. done.
    + intros sg' e Hg' Ho. apply Hsame. by apply (ci_known _ _ _ (proj2 (wi_grp _ Hw g' sg' Hg'))).
Qed.

(** C22: A group that exits is gone, and only that group.  [ExitGroup] returns;
    then no server of the group is registered with the network, none of its
    ends is enabled, exactly its services were killed in addition, the group
    is no longer found (a second [ExitGroup] dereferences a nil pointer), and
    every other group routes its requests as before. *)
Theorem exited_group_gone g sg w :
  winv w -> lookupGroup g w = Some sg ->
  exists w', ExitGroup g w = Return w' /\
    lookupGroup g w' = None /\ (exists m, ExitGroup g w' = Panic m) /\
    (forall i, i < length (srvs sg) -> LabRpc.serverOf (wnet w') (ServerName g (Z.of_nat i)) = None) /\
    (forall x y, ~ linked sg (wnet w') x y) /\
    (forall k, k ∈ wkilled w' <-> k ∈ wkilled w \/ exists s, s ∈ srvs sg /\ k ∈ svcs s) /\
    (forall g' x y sid, g' <> g -> delivers w' g' x y sid <-> delivers w g' x y sid).
Proof.
  unfold lookupGroup. intros Hw Hg. destruct (wi_grp _ Hw g sg Hg) as [Eg Hc].
  destruct (Shutdown_ok g sg w Hw Hg) as (c' & w1 & _ & Hh & H1 & H2 & ->).
  unfold ExitGroup. rewrite H1. csimpl. eexists. split; [done|]. simpl.
  assert (base.delete g (<[g := grp c']> (grps w)) !! g = None) as Hd by apply lookup_delete_eq.
  destruct Hh as [_ _ Hen _ Hgo Hsv [Hcn _] Hsame Hlk _ _ Hk]. simpl in *. rewrite Eg in *.
  split_and!; [done| | | | |].
  - eexists. unfold on_group, lookupGroup. simpl. by rewrite Hd.
  - intros i Hi. unfold LabRpc.serverOf. rewrite Hgo; [done|]. apply elem_of_seq. lia.
  - intros x y Hxy. assert (linked (grp c') (cnet c') x y) as (_ & Hx & _)%Hlk.
    { destruct Hxy as (e & He & Hon). exists e. by rewrite Hen. }
    destruct Hxy as (e & He & _). unfold endOf in He. destruct (srvs sg !! x) eqn:Hs; [|done].
    apply Hx, elem_of_seq. apply lookup_lt_Some in Hs. lia.
  - intros k. rewrite Hk. split; (intros [?|H]; [by left|right]).
    + destruct H as (i & s & _ & Hs & ?). exists s. split; [by eapply list_elem_of_lookup_2|done].
    + destruct H as (s & [i Hs]%list_elem_of_lookup & ?). exists i, s.
      split; [apply elem_of_seq; apply lookup_lt_Some in Hs; lia|done].
  - intros g' x y sid Hne. apply delivers_frame; simpl.
    + by rewrite lookup_delete_ne, lookup_insert_ne by done.
    + apply Hsv. intros i _ [? _]%ServerName_inj. done.
    + intros sg' e Hg' Ho. rewrite Hcn. split; [|done]. apply Hsame. intros Ho'. apply Hne.
      by eapply (wi_disj _ Hw g' g sg' sg e).
Qed.

End World.
Arguments boot : clear implicits.
Arguments world : clear implicits.
Arguments gop : clear implicits.

(** ** Witnesses: two groups of two servers *)

(** Server [i] of the group whose end names start with [pre]. *)
Definition exBoot (pre : string) (sid i : nat) : boot Z :=
  {| b_names := (fun j => pre +:+ Itoa (Z.of_nat i) +:+ Itoa (Z.of_nat j)) <$> seq 0 2;
     b_mks := ([10 * sid + i], [LabRpc.counterService]); b_sid := sid + i |}.
Definition exNames (pre : string) : list (list string) :=
  (fun i => (fun j => pre +:+ Itoa (Z.of_nat i) +:+ Itoa (Z.of_nat j)) <$> seq 0 2) <$> seq 0 2.

Definition exW0 : world Z := newGroups LabRpc.MakeNetwork ∅ Persister.empty_store.
Definition exRun (m : outcome (world Z)) : world Z := match m with Return w => w | _ => exW0 end.
Definition exW1 : world Z := exRun (MakeGroupStart 0 (exNames "a") (exBoot "b" 1) exW0).

#[local] Instance Forall_fresh_dec (l : list string) (s : gset string) :
  Decision (Forall (fun e => e ∉ s) l).
Proof. apply _. Defined.

(** The conditions of [startOk], by computation. *)
Definition startOk_b (names : list (list string)) (b : nat -> boot Z) (w : world Z) : bool :=
  let l := mjoin names ++ bootNames b (seq 0 (length names)) in
  bool_decide (NoDup l) && bool_decide (Forall (fun e => e ∉ LabRpc.ends (wnet w)) l) &&
  forallb (fun ns => Nat.eqb (length ns) (length names)) names &&
  forallb (fun i => Nat.eqb (length (b_names (b i))) (length names)) (seq 0 (length names)) &&
  bool_decide (NoDup ((b_sid ∘ b) <$> seq 0 (length names))) &&
  forallb (fun i => match wheap w !! b_sid (b i) with None => true | Some _ => false end)
    (seq 0 (length names)).

Lemma startOk_dec names b w : startOk_b names b w = true -> startOk names b w.
Proof.
  unfold startOk_b. rewrite !andb_true_iff, !bool_decide_eq_true, !forallb_forall.
  intros (((((H1 & H2) & H3) & H4) & H5) & H6).
  assert (forall i, i < length names -> In i (seq 0 (length names))) as Hin
    by (intros i Hi; apply List.in_seq; lia).
  constructor; try done.
  - by rewrite Forall_forall in H2.
  - apply Forall_forall. intros ns Hns. apply Nat.eqb_eq, H3. by apply list_elem_of_In.
  - intros i Hi. apply Nat.eqb_eq, H4. auto.
  - intros i Hi. specialize (H6 i (Hin i Hi)). simpl in H6. by destruct (wheap w !! b_sid (b i)).
Qed.

Lemma exW1_inv : winv exW1.
Proof.
  assert (startOk (exNames "a") (exBoot "b" 1) exW0) as Hok by (apply startOk_dec; vm_compute; reflexivity).
  destruct (winv_run (OMake 0 (exNames "a") (exBoot "b" 1)) exW0 (winv_new _ _ _) Hok) as (w & Hr & Hw).
  unfold exW1. simpl in Hr. rewrite Hr. exact Hw.
Qed.

Lemma started_group_connected_witness :
  exists w', MakeGroupStart 100 (exNames "c") (exBoot "d" 3) exW1 = Return w' /\
    delivers w' 100 0 1 4 /\ (delivers w' 0 1 0 1 <-> delivers exW1 0 1 0 1).
Proof.
  destruct (started_group_connected 100 (exNames "c") (exBoot "d" 3) exW1 exW1_inv) as
    (w' & Hr & Hd & _ & Ho & _); [apply startOk_dec; vm_compute; reflexivity|].
  exists w'. split; [exact Hr|]. split; [apply (Hd 0 1); vm_compute; lia|apply Ho; lia].
Defined.

Lemma exited_group_gone_witness :
  exists w', ExitGroup 0 exW1 = Return w' /\ LabRpc.serverOf (wnet w') "server-0-1" = None.
Proof.
  destruct (lookupGroup 0 exW1) as [sg|] eqn:Hg; [|exfalso; vm_compute in Hg; discriminate].
  destruct (exited_group_gone 0 sg exW1 exW1_inv Hg) as (w' & Hr & _ & _ & Hs & _).
  exists w'. split; [exact Hr|]. apply (Hs 1).
  vm_compute in Hg. injection Hg as <-. vm_compute. lia.
Defined.

(** The conditions of [validAll], by computation. *)
Definition hasServers_b (w : world Z) (g : Z) (l : list nat) : bool :=
  match grps w !! g with
  | Some sg => forallb (fun i => Nat.ltb i (length (srvs sg))) l
  | None => false
  end.
Definition valid_b (o : gop Z) (w : world Z) : bool :=
  match o with
  | OMake g names b => startOk_b names b w
  | OExit g => hasServers_b w g []
  | OStart g i b => hasServers_b w g [i] && bool_decide (NoDup (b_names b)) &&
      bool_decide (Forall (fun e => e ∉ LabRpc.ends (wnet w)) (b_names b)) &&
      match grps w !! g with
      | Some sg => Nat.eqb (length (b_names b)) (length (srvs sg))
      | None => false
      end
  | OShutdown g i | OConnectOne g i | ODisconnectAll g i => hasServers_b w g [i]
  | OPartition g p1 p2 => hasServers_b w g (p1 ++ p2)
  end.
Fixpoint validAll_b (os : list (gop Z)) (w : world Z) : bool :=
  match os with
  | [] => true
  | o :: os => valid_b o w && match run o w with Return w' => validAll_b os w' | _ => true end
  end.

Lemma hasServers_dec w g l : hasServers_b w g l = true -> hasServers w g l.
Proof.
  unfold hasServers_b, hasServers. destruct (grps w !! g) as [sg|]; [|done].
  rewrite forallb_forall. intros H. exists sg. split; [done|]. apply Forall_forall.
  intros i Hi. apply Nat.ltb_lt, H. by apply list_elem_of_In.
Qed.

Lemma valid_dec o w : valid_b o w = true -> valid o w.
Proof.
  destruct o; simpl; auto using startOk_dec, hasServers_dec.
  - intros (sg & Hs & _)%hasServers_dec. by exists sg.
  - rewrite !andb_true_iff, !bool_decide_eq_true. intros [[[H1 H2] H3] H4].
    split_and!; [by apply hasServers_dec|done|by rewrite Forall_forall in H3|].
    intros sg Hg. rewrite Hg in H4. by apply Nat.eqb_eq.
Qed.

Lemma validAll_dec os : forall w, validAll_b os w = true -> validAll os w.
Proof.
  induction os as [|o os IH]; intros w; simpl; [done|]. intros [Hv Hr]%andb_true_iff.
  split; [by apply valid_dec|]. intros w' Hw'. rewrite Hw' in Hr. auto.
Qed.

Lemma groups_type_safe_witness :
  exists w', runAll [OMake 0 (exNames "a") (exBoot "b" 1); OMake 100 (exNames "c") (exBoot "d" 3);
                     OShutdown 0 1; OStart 0 1 (exBoot "e" 7 1); OConnectOne 0 1;
                     OPartition 100 [0] [1]; OExit 0] exW0 = Return w' /\ winv w'.
Proof.
  apply (groups_type_safe LabRpc.MakeNetwork ∅ Persister.empty_store).
  apply validAll_dec. vm_compute. reflexivity.
Defined.

End Groups.
