(* ===== verification/Raft.v ===== *)
(** * Raft: the interface and the skeleton

    Models [src/src/raftapi/raftapi.go], the interface between Raft and the
    services that use it, as a type class of operations, and
    [src/src/raft1/raft.go], the skeleton that the repository has in the place
    of an implementation: a peer's state, [Make], [Kill] and the ticker
    goroutine are there, the protocol is not.  Times are milliseconds. *)

From S2P Require Import Prelude LabRpc Persister.

Module Raft.

Set Default Proof Using "Type".

(** ** raftapi.go *)

(** What a service can ask of a Raft peer [rf]; [any] are commands, persisters
    live in a store. *)
Class RaftApi (rf any : Type) := {
  api_Start : any -> rf -> (Z * Z * bool) * rf;
  api_GetState : rf -> Z * bool;
  api_Snapshot : Z -> option string -> rf -> rf;
  api_PersistBytes : rf -> Persister.store -> outcome Z;
  api_Kill : rf -> rf
}.

(** ** raft.go *)

(** Peers are known by the names of their ends; the persister by its address. *)
Record Raft := { peers : list string; persister : nat; me : Z; dead : Z }.

Definition GetState (rf : Raft) : Z * bool := (0%Z, false).

(** [persist] and [Snapshot] have no code. *)
Definition persist (rf : Raft) (st : Persister.store) : Persister.store := st.
Definition Snapshot (index : Z) (snapshot : option string) (rf : Raft) : Raft := rf.

(** [readPersist]: returns early without any state; nothing is restored
    otherwise either. *)
Definition readPersist (data : string) (rf : Raft) : Raft :=
  if decide (Z.of_nat (String.length data) < 1)%Z then rf else rf.

Definition PersistBytes (rf : Raft) (st : Persister.store) : outcome Z :=
  Persister.RaftStateSize (persister rf) st.

(** The argument and reply structs have no fields; the handler has no code. *)
Record RequestVoteArgs := {}.
Record RequestVoteReply := {}.
Definition RequestVote (args : RequestVoteArgs) (reply : RequestVoteReply) (rf : Raft)
    : RequestVoteReply * Raft := (reply, rf).

(** The request that [sendRequestVote] hands to the network; [enc] are the
    encoded arguments. *)
Definition sendRequestVote (server : Z) (enc : string) (rf : Raft) : outcome LabRpc.reqMsg :=
  e ← slice_get (peers rf) server;
  mret {| LabRpc.endname := e; LabRpc.svcMeth := "Raft.RequestVote"; LabRpc.req_args := enc |}.

Definition Start {any} (command : any) (rf : Raft) : (Z * Z * bool) * Raft :=
  (((-1)%Z, (-1)%Z, true), rf).

Definition Kill (rf : Raft) : Raft :=
  {| peers := peers rf; persister := persister rf; me := me rf; dead := 1 |}.
Definition killed (rf : Raft) : bool := bool_decide (dead rf = 1)%Z.

(** A turn of the ticker sleeps [50 + (rand.Int63() % 300)] milliseconds. *)
Definition tick (rnd : Z) : Z := (50 + Z.rem rnd 300)%Z.

(** [ticker] from time [t], in the turn [k]: [killedAt] is the time of [Kill].
    [None] when the fuel runs out. *)
Fixpoint ticker (fuel : nat) (Int63 : nat -> Z) (killedAt : Z) (k : nat) (t : Z) : option Z :=
  match fuel with
  | O => None
  | S fuel =>
      if decide (killedAt <= t)%Z then Some t
      else ticker fuel Int63 killedAt (S k) (t + tick (Int63 k))
  end.

(** [Make]: a peer, and the store after reading its saved state. *)
Definition Make (ends : list string) (i : Z) (p : nat) (st : Persister.store)
    : outcome (Raft * Persister.store) :=
  let rf := {| peers := ends; persister := p; me := i; dead := 0 |} in
  '(data, st) ← Persister.ReadRaftState p st;
  mret (readPersist (Persister.bytes st data) rf, st).

#[global] Instance Raft_api any : RaftApi Raft any := {
  api_Start := Start;
  api_GetState := GetState;
  api_Snapshot := Snapshot;
  api_PersistBytes := PersistBytes;
  api_Kill := Kill
}.

(** ** Properties *)

(** [rand.Int63] delivers a non-negative number of 63 bits. *)
Definition Int63Ok (Int63 : nat -> Z) : Prop := forall k, (0 <= Int63 k < 2 ^ 63)%Z.

Lemma tick_range r : (0 <= r)%Z -> (50 <= tick r < 350)%Z.
Proof. intros Hr. unfold tick. rewrite Z.rem_mod_nonneg by lia. pose proof (Z.mod_pos_bound r 300). lia. Qed.

Lemma ticker_spec Int63 killedAt : Int63Ok Int63 -> forall fuel k t,
  (t <= killedAt)%Z -> (killedAt - t + 50 <= 50 * Z.of_nat fuel)%Z ->
  exists t', ticker fuel Int63 killedAt k t = Some t' /\ (killedAt <= t' < killedAt + 350)%Z.
Proof.
  intros Hr. induction fuel as [|fuel IH]; intros k t Ht Hf; simpl; [lia|].
  case_decide as Hk; [exists t; split; [done|lia]|].
  pose proof (tick_range _ (proj1 (Hr k))) as Hs.
  destruct (decide (t + tick (Int63 k) <= killedAt)%Z) as [Hle|Hgt].
  - apply IH; lia.
  - destruct fuel as [|fuel]; [lia|]. simpl. rewrite decide_True by lia. eexists. split; [done|lia].
Qed.

(** A killed peer's ticker stops within 350 milliseconds.  Whatever random
    pauses it takes, a ticker that runs when its peer is killed returns, after
    at most one turn per 50 milliseconds of life and two more, and less than 350
    milliseconds after the kill. *)
Theorem ticker_stops Int63 t0 killedAt :
  Int63Ok Int63 -> (t0 <= killedAt)%Z ->
  exists t', ticker (Z.to_nat ((killedAt - t0) / 50) + 2) Int63 killedAt 0 t0 = Some t' /\
    (killedAt <= t' < killedAt + 350)%Z.
Proof.
  intros Hr Ht. apply ticker_spec; [done|done|].
  pose proof (Z.div_mod (killedAt - t0) 50 ltac:(lia)). pose proof (Z.mod_pos_bound (killedAt - t0) 50 ltac:(lia)).
  pose proof (Z.div_pos (killedAt - t0) 50 ltac:(lia) ltac:(lia)). lia.
Qed.

Lemma ticker_stops_witness :
  exists t', ticker (Z.to_nat ((1000 - 0) / 50) + 2) (fun k => 7919 * Z.of_nat (k mod 7))%Z 1000 0 0 = Some t' /\
    (1000 <= t' < 1350)%Z.
Proof.
  apply (ticker_stops (fun k => 7919 * Z.of_nat (k mod 7))%Z 0 1000); [|lia].
  intros k. pose proof (Nat.mod_upper_bound k 7). lia.
Defined.

(** The skeleton answers [Start] as a leader, with no index, although it never
    says it is one. *)
Theorem start_contradicts_state {any} (command : any) rf :
  (api_GetState (rf := Raft) (any := any) rf).2 = false /\
  (api_Start command rf).1 = ((-1)%Z, (-1)%Z, true).
Proof. done. Qed.

(** Starting a peer changes nothing that any persister holds. *)
Lemma Make_contents ends i p st rf st' q :
  Persister.Inv st -> Make ends i p st = Return (rf, st') ->
  Persister.contents st' q = Persister.contents st q.
Proof.
  intros HI (x & Hr & Hm)%bind_Return. destruct x as [data st1]. injection Hm as _ <-.
  pose proof (Persister.step_readRaft _ _ _ _ Hr) as Hs.
  destruct (Persister.contents st q) as [c|] eqn:Hc; [by eapply Persister.contents_step|].
  apply Persister.ReadRaftState_inv in Hr as (ps & _ & _ & ->). unfold Persister.contents in *.
  rewrite Persister.clone_persisters. by destruct (Persister.persisters st !! q).
Qed.

End Raft.
