(* ===== verification/Clnts.v ===== *)
(** * Clients

    Models [src/src/tester1/clnts.go]: a clerk's client ends, made lazily, and
    the tester's control over which servers a clerk may reach.  The network is
    that of [LabRpc]; [Randstring] is an argument, the name it returns. *)

From S2P Require Import Prelude LabRpc.

Module Clnts.
Import LabRpc(Network).

(** [ends] maps a server name to the name of the end; [srvs] is [None] when nil:
    every server is allowed. *)
Record Clnt := {
  ends : gmap string string;
  srvs : option (list string)
}.

Definition makeClntTo (to : option (list string)) : Clnt := {| ends := ∅; srvs := to |}.

Definition allowedL (clnt : Clnt) (server : string) : bool :=
  match srvs clnt with
  | None => true
  | Some l => existsb (fun n => String.eqb n server) l
  end.

(** [name] is [Randstring(20)]. *)
Definition makeEnd (name server : string) (clnt : Clnt) (net : Network)
    : outcome (string * Clnt * Network) :=
  match ends clnt !! server with
  | Some e => Return (e, clnt, net)
  | None =>
      net ← LabRpc.MakeEnd name net;
      let net := LabRpc.Connect name server net in
      let net := LabRpc.Enable name (if allowedL clnt server then true else false) net in
      mret (name, {| ends := <[server := name]> (ends clnt); srvs := srvs clnt |}, net)
  end.

(** [for s, e := range clnt.ends { if test(s) { Enable(e.name, on) } }] *)
Fixpoint enableList (test : string -> bool) (on : bool) (l : list (string * string)) (net : Network)
    : Network :=
  match l with
  | [] => net
  | (s, e) :: l => enableList test on l (if test s then LabRpc.Enable e on net else net)
  end.
Definition enableWhere (test : string -> bool) (on : bool) (clnt : Clnt) (net : Network) : Network :=
  enableList test on (map_to_list (ends clnt)) net.

Definition ConnectAll (clnt : Clnt) (net : Network) : Clnt * Network :=
  ({| ends := ends clnt; srvs := None |}, enableWhere (fun _ => true) true clnt net).

Definition ConnectTo (to : list string) (clnt : Clnt) (net : Network) : Clnt * Network :=
  let clnt := {| ends := ends clnt; srvs := Some to |} in
  (clnt, enableWhere (allowedL clnt) true clnt net).

Definition Disconnect (srv : string) (clnt : Clnt) (net : Network) : Clnt * Network :=
  (clnt, enableWhere (String.eqb srv) false clnt net).

Definition DisconnectAll (clnt : Clnt) (net : Network) : Clnt * Network :=
  ({| ends := ends clnt; srvs := Some [] |}, enableWhere (fun _ => true) false clnt net).

(** [remove]: delete every end. *)
Fixpoint removeEnds (l : list (string * string)) (net : Network) : outcome Network :=
  match l with
  | [] => Return net
  | (_, e) :: l => net ← LabRpc.DeleteEnd e net; removeEnds l net
  end.
Definition remove (clnt : Clnt) (net : Network) : outcome Network :=
  removeEnds (map_to_list (ends clnt)) net.

(** [clerks] is [None] after [cleanup]; clients are known by address. *)
Definition clerks : Type := option (gmap nat Clnt).

Definition makeClnts : clerks := Some ∅.

(** [Clnts.makeEnd]: an enabled end that belongs to no clerk. *)
Definition Clnts_makeEnd (name servername : string) (net : Network) : outcome Network :=
  net ← LabRpc.MakeEnd name net;
  mret (LabRpc.Enable name true (LabRpc.Connect name servername net)).

(** [Clnt.Call]: the request that is handed to the network, over the clerk's
    end to the server. *)
Definition Call (name server methname args : string) (clnt : Clnt) (net : Network)
    : outcome (LabRpc.reqMsg * Clnt * Network) :=
  '(e, clnt, net) ← makeEnd name server clnt net;
  mret ({| LabRpc.endname := e; LabRpc.svcMeth := methname; LabRpc.req_args := args |}, clnt, net).

Definition MakeClientTo (a : nat) (to : option (list string)) (cs : clerks) : outcome clerks :=
  match cs with
  | None => Panic "assignment to entry in nil map"
  | Some m => Return (Some (<[a := makeClntTo to]> m))
  end.
Definition MakeClient (a : nat) (cs : clerks) : outcome clerks := MakeClientTo a None cs.

Definition DeleteClient (a : nat) (cs : clerks) (net : Network) : outcome (clerks * Network) :=
  match cs with
  | None => Return (cs, net)
  | Some m =>
      match m !! a with
      | Some clnt => net ← remove clnt net; mret (Some (delete a m), net)
      | None => Return (cs, net)
      end
  end.

Fixpoint removeAll (l : list (nat * Clnt)) (net : Network) : outcome Network :=
  match l with
  | [] => Return net
  | (_, clnt) :: l => net ← remove clnt net; removeAll l net
  end.
Definition cleanup (cs : clerks) (net : Network) : outcome (clerks * Network) :=
  net ← removeAll (map_to_list (default ∅ cs)) net; mret (None, net).

(** ** Which servers a clerk reaches *)

(** A call to [server] uses its end if there is one and makes one otherwise. *)
Definition reaches (clnt : Clnt) (net : Network) (server : string) : Prop :=
  match ends clnt !! server with
  | Some e => LabRpc.endEnabled net e = true
  | None => allowedL clnt server = true
  end.

(** Different servers have different ends, all known to the network. *)
Record wf (clnt : Clnt) (net : Network) : Prop := {
  wf_inj s s' e : ends clnt !! s = Some e -> ends clnt !! s' = Some e -> s = s';
  wf_net s e : ends clnt !! s = Some e -> e ∈ LabRpc.ends net
}.

Lemma endEnabled_enable net e on e' :
  LabRpc.endEnabled (LabRpc.Enable e on net) e' = if decide (e = e') then on else LabRpc.endEnabled net e'.
Proof. unfold LabRpc.endEnabled. cbn. rewrite lookup_insert. by case_decide. Qed.

(** The loop over the ends sets exactly the ends of the servers it selects. *)
Lemma enableWhere_spec test on clnt net s e :
  wf clnt net -> ends clnt !! s = Some e ->
  LabRpc.endEnabled (enableWhere test on clnt net) e
  = if test s then on else LabRpc.endEnabled net e.
Proof.
  intros [Hinj _] Hs. unfold enableWhere.
  enough (forall l net, (forall s' e', (s', e') ∈ l -> ends clnt !! s' = Some e') ->
    LabRpc.endEnabled (enableList test on l net) e
    = if test s && bool_decide ((s, e) ∈ l) then on else LabRpc.endEnabled net e) as Hl.
  { rewrite Hl by (by intros s' e' ?%elem_of_map_to_list).
    rewrite bool_decide_eq_true_2 by (by apply elem_of_map_to_list). by rewrite andb_true_r. }
  clear net. induction l as [|[s' e'] l IH]; intros net Hin; simpl; [by rewrite andb_false_r|].
  rewrite IH by (intros; apply Hin; by right). pose proof (Hin s' e' ltac:(left)) as Hs'.
  destruct (decide (e' = e)) as [->|Hne].
  - assert (s' = s) as -> by eauto. rewrite (bool_decide_eq_true_2 (_ ∈ _ :: _)) by left.
    destruct (test s); simpl; [|done]. case_bool_decide; [done|].
    by rewrite endEnabled_enable, decide_True.
  - assert (LabRpc.endEnabled (if test s' then LabRpc.Enable e' on net else net) e
            = LabRpc.endEnabled net e) as ->.
    { destruct (test s'); [|done]. by rewrite endEnabled_enable, decide_False. }
    rewrite (bool_decide_ext ((s, e) ∈ (s', e') :: l) ((s, e) ∈ l)); [done|].
    rewrite elem_of_cons. split; [|by right]. intros [?|?]; [congruence|done].
Qed.

Lemma ends_enableWhere test on clnt net : LabRpc.ends (enableWhere test on clnt net) = LabRpc.ends net.
Proof.
  unfold enableWhere. revert net. induction (map_to_list (ends clnt)) as [|[s e] l IH];
    intros net; simpl; [done|]. rewrite IH. by destruct (test s).
Qed.

Lemma wf_enableWhere test on clnt net to :
  wf clnt net -> wf {| ends := ends clnt; srvs := to |} (enableWhere test on clnt net).
Proof. intros []. constructor; simpl; [done|]. by rewrite ends_enableWhere. Qed.

Lemma allowedL_spec l e s : allowedL {| ends := e; srvs := Some l |} s = true <-> s ∈ l.
Proof.
  unfold allowedL. simpl. rewrite existsb_exists. split.
  - intros (n & Hn & ->%String.eqb_eq). by apply list_elem_of_In.
  - intros Hs. exists s. split; [by apply list_elem_of_In|apply String.eqb_refl].
Qed.

(** Making an end changes nothing about what a clerk reaches.  [makeEnd] with
    a fresh name succeeds, returns the server's end, and the clerk reaches the
    same servers before and after; ends stay distinct. *)
Theorem make_end_transparent name server clnt net :
  wf clnt net -> name ∉ LabRpc.ends net ->
  exists e clnt' net', makeEnd name server clnt net = Return (e, clnt', net') /\
    wf clnt' net' /\ ends clnt' !! server = Some e /\
    forall s, reaches clnt' net' s <-> reaches clnt net s.
Proof.
  intros Hw Hn. unfold makeEnd. destruct (ends clnt !! server) as [e|] eqn:Hs.
  { by exists e, clnt, net. }
  unfold LabRpc.MakeEnd. rewrite decide_False by done. csimpl.
  eexists _, _, _. split; [done|]. destruct Hw as [Hinj Hnet]. split_and!.
  - constructor; cbn.
    + intros s s' e Hse Hse'. apply lookup_insert_Some in Hse as [[<- <-]|[? Hse]];
        apply lookup_insert_Some in Hse' as [[<- ?]|[? Hse']]; subst; eauto.
      * by apply Hnet in Hse'.
      * by apply Hnet in Hse.
    + intros s e [[<- <-]|[? Hse]]%lookup_insert_Some; [set_solver|].
      apply elem_of_union. right. by eapply Hnet.
  - apply lookup_insert_eq.
  - intros s. unfold reaches. cbn. rewrite lookup_insert. case_decide as Hss.
    + subst s. rewrite Hs, endEnabled_enable, decide_True by done.
      unfold allowedL. simpl. by destruct (srvs clnt) as [l|]; [destruct (existsb _ l)|].
    + destruct (ends clnt !! s) as [e|] eqn:He; [|done].
      rewrite endEnabled_enable, decide_False by (intros ->; by apply Hnet in He).
      unfold LabRpc.endEnabled. cbn. rewrite lookup_insert_ne by (intros ->; by apply Hnet in He).
      done.
Qed.

(** What each connection control does to the servers a clerk reaches.
    [ConnectAll] makes it reach all, [DisconnectAll] none; [ConnectTo(l)] adds
    the servers of [l] and forbids the others only if the clerk has no end to
    them yet; [Disconnect(srv)] cuts [srv] off only if the clerk already has an
    end to it. *)
Theorem connection_controls clnt net :
  wf clnt net ->
  (forall s, reaches (ConnectAll clnt net).1 (ConnectAll clnt net).2 s) /\
  (forall s, ~ reaches (DisconnectAll clnt net).1 (DisconnectAll clnt net).2 s) /\
  (forall l s, reaches (ConnectTo l clnt net).1 (ConnectTo l clnt net).2 s <->
     s ∈ l \/ (is_Some (ends clnt !! s) /\ reaches clnt net s)) /\
  (forall srv s, reaches (Disconnect srv clnt net).1 (Disconnect srv clnt net).2 s <->
     reaches clnt net s /\ ~ (s = srv /\ is_Some (ends clnt !! s))).
Proof.
  intros Hw. unfold reaches. simpl. split_and!.
  - intros s. destruct (ends clnt !! s) as [e|] eqn:He; [|done].
    by rewrite (enableWhere_spec _ _ _ _ s).
  - intros s. destruct (ends clnt !! s) as [e|] eqn:He; [|done].
    by rewrite (enableWhere_spec _ _ _ _ s).
  - intros l s. destruct (ends clnt !! s) as [e|] eqn:He.
    + unfold enableWhere. simpl.
      pose proof (enableWhere_spec (allowedL {| ends := ends clnt; srvs := Some l |}) true clnt net s e Hw He)
        as Hsp. unfold enableWhere in Hsp. rewrite Hsp. rewrite <-(allowedL_spec l (ends clnt) s).
      destruct (allowedL _ s); (split; [|by intros [?|[_ ?]]]); auto.
    + rewrite allowedL_spec. split; [by left|]. intros [?|[[? ?] _]]; [done|congruence].
  - intros srv s. destruct (ends clnt !! s) as [e|] eqn:He.
    + rewrite (enableWhere_spec _ _ _ _ s) by done. destruct (String.eqb_spec srv s) as [->|Hne].
      * split; [done|]. intros [_ []]. by split; [|eexists].
      * split; [|by intros [? _]]. intros ?. split; [done|]. by intros [-> _].
    + split; [|by intros [? _]]. intros ?. split; [done|]. by intros [_ [? ?]].
Qed.

(** ** Removing clients *)

Lemma removeEnds_spec l : forall net : Network,
  NoDup l.*2 -> (forall e, e ∈ l.*2 -> e ∈ LabRpc.ends net) ->
  exists net', removeEnds l net = Return net' /\
    LabRpc.ends net' = LabRpc.ends net ∖ list_to_set l.*2.
Proof.
  induction l as [|[s e] l IH]; intros net Hnd Hin; simpl.
  { exists net. split; [done|]. by rewrite difference_empty_L. }
  simpl in Hnd, Hin. apply NoDup_cons in Hnd as [He Hnd]. unfold LabRpc.DeleteEnd.
  rewrite decide_False by (intros Hni; apply Hni, Hin; left). csimpl.
  edestruct IH as (net' & -> & Heq); [done| |exists net'; split; [done|]].
  - intros e' He'. simpl. apply elem_of_difference. split; [apply Hin; by right|].
    rewrite elem_of_singleton. by intros ->.
  - rewrite Heq. simpl. by rewrite difference_difference_l_L.
Qed.

Lemma wf_names clnt net : wf clnt net -> NoDup (map_to_list (ends clnt)).*2.
Proof.
  intros [Hinj _]. apply NoDup_fmap_2_strong; [|apply NoDup_map_to_list].
  intros [s e] [s' e'] Hs%elem_of_map_to_list Hs'%elem_of_map_to_list. simpl. intros <-.
  by rewrite (Hinj s s' e Hs Hs').
Qed.

(** Deleting a client deletes its ends, once.  [DeleteClient] of a registered
    client whose ends are known to the network does not fail, removes exactly
    that client's ends from the network and forgets the client; deleting it
    again does nothing. *)
Theorem delete_client_removes_ends a m clnt (net : Network) :
  m !! a = Some clnt -> wf clnt net ->
  exists net', DeleteClient a (Some m) net = Return (Some (delete a m), net') /\
    LabRpc.ends net' = LabRpc.ends net ∖ list_to_set (map_to_list (ends clnt)).*2 /\
    DeleteClient a (Some (delete a m)) net' = Return (Some (delete a m), net').
Proof.
  intros Ha Hw. unfold DeleteClient. rewrite Ha, lookup_delete_eq. unfold remove.
  destruct (removeEnds_spec (map_to_list (ends clnt)) net) as (net' & -> & Heq).
  - by eapply wf_names.
  - intros e ([s e'] & -> & Hs%elem_of_map_to_list)%list_elem_of_fmap. by eapply wf_net.
  - by exists net'.
Qed.

(** ** Witnesses *)

Definition exClnt : Clnt := {| ends := {[ "s1" := "e1" ]}; srvs := None |}.
Definition exNet : Network :=
  LabRpc.with_ends LabRpc.MakeNetwork {["e1"]} {[ "e1" := true ]} {[ "e1" := Some "s1" ]}.

Lemma exClnt_wf : wf exClnt exNet.
Proof.
  constructor; simpl.
  - intros s s' e [<- _]%lookup_singleton_Some [<- _]%lookup_singleton_Some. done.
  - intros s e [_ <-]%lookup_singleton_Some. by apply elem_of_singleton.
Qed.

Lemma make_end_transparent_witness :
  exists e clnt' net', makeEnd "e2" "s2" exClnt exNet = Return (e, clnt', net') /\ reaches clnt' net' "s2".
Proof.
  destruct (make_end_transparent "e2" "s2" exClnt exNet exClnt_wf) as (e & c & n & He & _ & _ & Hr).
  - simpl. by rewrite elem_of_singleton.
  - exists e, c, n. split; [exact He|]. by apply Hr.
Defined.

(** After [ConnectTo(s2)] the clerk still reaches [s1]. *)
Lemma connection_controls_witness :
  reaches (ConnectTo ["s2"] exClnt exNet).1 (ConnectTo ["s2"] exClnt exNet).2 "s1".
Proof.
  destruct (connection_controls exClnt exNet exClnt_wf) as (_ & _ & Hc & _).
  apply Hc. right. split; [by eexists|reflexivity].
Defined.

Lemma delete_client_removes_ends_witness :
  exists net', DeleteClient 4 (Some {[ 4 := exClnt ]}) exNet = Return (Some ∅, net') /\
    LabRpc.ends net' = ∅.
Proof.
  destruct (delete_client_removes_ends 4 {[ 4 := exClnt ]} exClnt exNet) as (net' & He & Hn & _);
    [reflexivity|apply exClnt_wf|].
  exists net'. split; [exact He|]. rewrite Hn. vm_compute. reflexivity.
Defined.

End Clnts.
