(* ===== verification/Models.v ===== *)
(** * The key/value model of the linearizability checker

    Models [src/src/models1/kv.go] and the error values of
    [src/src/kvsrv1/rpc/rpc.go].  A [porcupine.Operation] is a record of the
    fields this repository fills in. *)

From S2P Require Import Prelude GoLib MrApps.

Module Models.

(** ** Error values (kvsrv1/rpc) *)

Definition OK : string := "OK".
Definition ErrNoKey : string := "ErrNoKey".
Definition ErrVersion : string := "ErrVersion".
Definition ErrMaybe : string := "ErrMaybe".
Definition ErrWrongLeader : string := "ErrWrongLeader".
Definition ErrWrongGroup : string := "ErrWrongGroup".

(** ** Data; versions are [uint64] *)

Record KvInput := { in_Op : Z; in_Key : string; in_Value : string; in_Version : Z }.
Record KvOutput := { out_Value : string; out_Version : Z; out_Err : string }.
Record KvState := { st_Value : string; st_Version : Z }.

Record Operation := {
  ClientId : Z;
  Input : KvInput;
  Call : Z;
  Output : KvOutput;
  Return_ : Z
}.

(** ** Partition *)

Definition opKey (v : Operation) : string := in_Key (Input v).

(** [m[key] = append(m[key], v)] for every operation in turn. *)
Definition byKey (history : list Operation) : gmap string (list Operation) :=
  foldl (fun m v => <[opKey v := default [] (m !! opKey v) ++ [v]]> m) ∅ history.

(** [order] is the iteration over the map's keys. *)
Definition Partition (order : list string) (history : list Operation) : list (list Operation) :=
  (fun k => default [] (byKey history !! k)) <$> sortStrings order.

(** ** The sequential object *)

Definition Init : KvState := {| st_Value := ""; st_Version := 0 |}.

(** [None] is the state ["<invalid>"]. *)
Definition Step (st : KvState) (inp : KvInput) (out : KvOutput) : bool * option KvState :=
  if decide (in_Op inp = 0)%Z then
    (bool_decide (out_Value out = st_Value st), Some st)
  else if decide (in_Op inp = 1)%Z then
    if decide (st_Version st = in_Version inp) then
      (bool_decide (out_Err out = OK) || bool_decide (out_Err out = ErrMaybe),
       Some {| st_Value := in_Value inp; st_Version := uwrap64 (st_Version st + 1) |})
    else
      (bool_decide (out_Err out = ErrVersion) || bool_decide (out_Err out = ErrMaybe), Some st)
  else (false, None).

Definition DescribeOperation (inp : KvInput) (out : KvOutput) : string :=
  if decide (in_Op inp = 0)%Z then
    "get('" +:+ in_Key inp +:+ "') -> ('" +:+ out_Value out +:+ "', '" +:+ Itoa (out_Version out)
      +:+ "', '" +:+ out_Err out +:+ "')"
  else if decide (in_Op inp = 1)%Z then
    "put('" +:+ in_Key inp +:+ "', '" +:+ in_Value inp +:+ "', '" +:+ Itoa (in_Version inp)
      +:+ "') -> ('" +:+ out_Err out +:+ "')"
  else "<invalid>".

(** A sequential run: the checker looks for an order of the operations of one
    key in which every step is accepted. *)
Fixpoint run (st : KvState) (ops : list (KvInput * KvOutput)) : option KvState :=
  match ops with
  | [] => Some st
  | (inp, out) :: ops =>
      match Step st inp out with
      | (true, Some st') => run st' ops
      | _ => None
      end
  end.

(** ** Partition splits a history by key *)

Lemma byKey_lookup history k :
  default [] (byKey history !! k) = filter (fun v => opKey v = k) history /\
  (is_Some (byKey history !! k) <-> k ∈ (opKey <$> history)).
Proof.
  unfold byKey. induction history as [|v history IH] using rev_ind.
  { simpl. rewrite lookup_empty, elem_of_nil. split; [done|]. split; [by intros []|done]. }
  rewrite foldl_app, filter_app, fmap_app. simpl. set (m := foldl _ ∅ history) in *.
  destruct IH as [IH1 IH2]. rewrite filter_cons, filter_nil, elem_of_app, list_elem_of_singleton.
  destruct (decide (opKey v = k)) as [<-|Hne].
  - rewrite lookup_insert_eq. simpl. rewrite IH1. split; [done|]. split; [by right|by eexists].
  - rewrite lookup_insert_ne by done. rewrite app_nil_r, IH2. split; [done|].
    split; [by left|]. by intros [?| ->].
Qed.

Lemma byKey_keys history order :
  order ≡ₚ (map_to_list (byKey history)).*1 ->
  NoDup order /\ forall k, k ∈ order <-> k ∈ (opKey <$> history).
Proof.
  intros Ho. split; [rewrite Ho; apply NoDup_fst_map_to_list|]. intros k.
  rewrite Ho, list_elem_of_fmap, <-(proj2 (byKey_lookup history k)). split.
  - intros ([k' x] & -> & Hx%elem_of_map_to_list). by eexists.
  - intros [x Hx]. exists (k, x). split; [done|]. by apply elem_of_map_to_list.
Qed.

Lemma filters_perm (keys : list string) (history : list Operation) :
  NoDup keys ->
  mjoin ((fun k => filter (fun v => opKey v = k) history) <$> keys)
  ≡ₚ filter (fun v => opKey v ∈ keys) history.
Proof.
  induction keys as [|k keys IH]; intros Hnd; simpl.
  { rewrite filter_none_nil; [done|]. apply Forall_forall. intros v _. apply not_elem_of_nil. }
  apply NoDup_cons in Hnd as [Hk Hnd]. rewrite IH by done. clear IH.
  induction history as [|v history IH]; [done|]. rewrite !filter_cons.
  destruct (decide (opKey v = k)) as [<-|Hne].
  - rewrite (decide_False (P := opKey v ∈ keys)) by done.
    rewrite decide_True by left. simpl. by rewrite IH.
  - destruct (decide (opKey v ∈ keys)) as [Hin|Hni].
    + rewrite decide_True by (by right). rewrite <-IH. symmetry. apply Permutation_middle.
    + rewrite decide_False by (by intros [?|?]%elem_of_cons). done.
Qed.

(** ** Versions along a run *)

Definition okPut (op : KvInput * KvOutput) : Prop := in_Op op.1 = 1%Z /\ out_Err op.2 = OK.

Lemma run_step st inp out ops st' :
  run st ((inp, out) :: ops) = Some st' ->
  exists st1, Step st inp out = (true, Some st1) /\ run st1 ops = Some st'.
Proof. simpl. destruct (Step st inp out) as [[] [st1|]]; try done. eauto. Qed.

(** The version never decreases, and grows by at most one per step. *)
Lemma Step_version st inp out st1 :
  Step st inp out = (true, Some st1) -> (0 <= st_Version st < 2 ^ 64 - 1)%Z ->
  (st_Version st <= st_Version st1 <= st_Version st + 1)%Z /\
  (okPut (inp, out) -> st_Version st = in_Version inp /\ st_Version st1 = st_Version st + 1)%Z.
Proof.
  intros Hs Hr. unfold Step in Hs. unfold okPut. simpl.
  case_decide as H0; [injection Hs as _ <-; split; [lia|intros [? _]; lia]|].
  case_decide as H1; [|done]. case_decide as Hv.
  - injection Hs as _ <-. simpl. unfold uwrap64. rewrite Z.mod_small by lia. split; [lia|done].
  - injection Hs as He <-. split; [lia|]. intros [_ Hok]. rewrite Hok in He. done.
Qed.

Lemma run_versions ops : forall st st',
  run st ops = Some st' -> (0 <= st_Version st)%Z ->
  (st_Version st + Z.of_nat (length ops) <= 2 ^ 64 - 1)%Z ->
  forall i op, ops !! i = Some op -> okPut op -> (st_Version st <= in_Version op.1)%Z.
Proof.
  induction ops as [|[inp out] ops IH]; intros st st' Hr H0 Hb i op Hi Hok; [done|].
  apply run_step in Hr as (st1 & Hs & Hr). simpl in Hb.
  destruct (Step_version _ _ _ _ Hs) as [Hv Hp]; [lia|].
  destruct i as [|i]; simplify_eq/=; [destruct (Hp Hok); lia|].
  specialize (IH st1 st' Hr ltac:(lia) ltac:(lia) i op Hi Hok). lia.
Qed.

Lemma run_increasing ops : forall st st',
  run st ops = Some st' -> (0 <= st_Version st)%Z ->
  (st_Version st + Z.of_nat (length ops) <= 2 ^ 64 - 1)%Z ->
  forall i j op op', i < j -> ops !! i = Some op -> ops !! j = Some op' ->
    okPut op -> okPut op' -> (in_Version op.1 < in_Version op'.1)%Z.
Proof.
  induction ops as [|[inp out] ops IH]; intros st st' Hr H0 Hb i j op op' Hij Hi Hj Hok Hok'; [done|].
  apply run_step in Hr as (st1 & Hs & Hr). simpl in Hb.
  destruct (Step_version _ _ _ _ Hs) as [Hv Hp]; [lia|].
  destruct j as [|j]; [lia|]. destruct i as [|i]; simplify_eq/=.
  - destruct (Hp Hok) as [<- E].
    pose proof (run_versions ops st1 st' Hr ltac:(lia) ltac:(lia) j op' Hj Hok'). lia.
  - eapply (IH st1 st' Hr ltac:(lia) ltac:(lia) i j); auto; lia.
Qed.

(** ** Properties *)

(** [Partition] splits a history by key.  Whatever the iteration order over the
    map, there is one part per key, in increasing key order; the part of a key
    is the subsequence of its operations, in history order; and no operation
    is lost or duplicated. *)
Theorem partition_by_key history order :
  order ≡ₚ (map_to_list (byKey history)).*1 ->
  exists keys, StronglySorted (≤)%string keys /\ NoDup keys /\
    (forall k, k ∈ keys <-> k ∈ (opKey <$> history)) /\
    Partition order history = (fun k => filter (fun v => opKey v = k) history) <$> keys /\
    mjoin (Partition order history) ≡ₚ history.
Proof.
  intros Ho. destruct (byKey_keys history order Ho) as [Hnd Hin].
  assert (sortStrings order ≡ₚ order) as Hs by apply merge_sort_Permutation.
  assert (Partition order history
    = (fun k => filter (fun v => opKey v = k) history) <$> sortStrings order) as Hp.
  { unfold Partition. apply list_fmap_ext. intros _ k _. apply byKey_lookup. }
  exists (sortStrings order). split_and!; [|by rewrite Hs| |done|].
  - apply StronglySorted_merge_sort; apply _.
  - intros k. by rewrite Hs, Hin.
  - rewrite Hp, filters_perm by (by rewrite Hs).
    rewrite filter_all_id; [done|]. apply Forall_forall. intros v Hv.
    rewrite Hs, Hin. by apply list_elem_of_fmap_2.
Qed.

(** Versions make puts compare-and-swap.  In any sequential run the model
    accepts, of fewer than 2^64 operations on a key, the puts answered [OK]
    have strictly increasing versions; in particular no two puts with the same
    version both succeed. *)
Theorem ok_puts_increasing ops st' i j op op' :
  run Init ops = Some st' -> (Z.of_nat (length ops) < 2 ^ 64)%Z ->
  i < j -> ops !! i = Some op -> ops !! j = Some op' ->
  okPut op -> okPut op' -> (in_Version op.1 < in_Version op'.1)%Z.
Proof.
  intros Hr Hl. eapply (run_increasing ops Init st'); [done|done|]. simpl. lia.
Qed.

(** The model rejects puts that miss.  The server's documentation has [Put] on a
    key that does not exist answer [ErrNoKey] when its version is not 0; the
    model accepts no put answered [ErrNoKey], whatever the state. *)
Theorem model_rejects_ErrNoKey st inp out :
  in_Op inp = 1%Z -> out_Err out = ErrNoKey -> (Step st inp out).1 = false.
Proof. intros H1 He. unfold Step. rewrite H1, He. simpl. by case_decide. Qed.

(** ** Witnesses *)

Definition put (k v : string) (ver : Z) : KvInput :=
  {| in_Op := 1; in_Key := k; in_Value := v; in_Version := ver |}.
Definition get (k : string) : KvInput := {| in_Op := 0; in_Key := k; in_Value := ""; in_Version := 0 |}.
Definition ans (v e : string) : KvOutput := {| out_Value := v; out_Version := 0; out_Err := e |}.
Definition exOp (inp : KvInput) (out : KvOutput) : Operation :=
  {| ClientId := 0; Input := inp; Call := 0; Output := out; Return_ := 1 |}.
Definition exHistory : list Operation :=
  [exOp (put "y" "1" 0) (ans "" OK); exOp (put "x" "2" 0) (ans "" OK); exOp (get "y") (ans "1" OK)].

Lemma partition_by_key_witness :
  mjoin (Partition ["y"; "x"] exHistory) ≡ₚ exHistory /\
  length (Partition ["y"; "x"] exHistory) = 2.
Proof.
  destruct (partition_by_key exHistory ["y"; "x"]) as (keys & _ & _ & _ & _ & Hp).
  - vm_compute. apply Permutation_swap || reflexivity.
  - split; [exact Hp|vm_compute; reflexivity].
Defined.

Lemma ok_puts_increasing_witness :
  (in_Version (put "x" "a" 0) < in_Version (put "x" "b" 1))%Z.
Proof.
  apply (ok_puts_increasing [(put "x" "a" 0, ans "" OK); (put "x" "b" 1, ans "" OK)]
    {| st_Value := "b"; st_Version := 1 + 1 |} 0 1 (put "x" "a" 0, ans "" OK) (put "x" "b" 1, ans "" OK));
    try reflexivity; try (split; reflexivity). lia.
Defined.

Lemma model_rejects_ErrNoKey_witness : (Step Init (put "x" "a" 7) (ans "" ErrNoKey)).1 = false.
Proof. apply model_rejects_ErrNoKey; reflexivity. Defined.

End Models.
