(* ===== verification/KvTest.v ===== *)
(** * The key/value test harness

    Models [src/src/kvtest1/kvtest.go] and the operation log of
    [src/src/kvtest1/porcupine.go].  The clerk under test is not part of the
    harness: it is an argument, a pair of functions on an abstract state; what
    its documentation promises is the class [VersionedClerk].  A failed check
    ([ts.Fatalf]) is [Fatal].  Loops that run until a reply is right take fuel. *)

From S2P Require Import Prelude Random GoLib Models.

Module KvTest.
Import Models(OK, ErrNoKey, ErrVersion, ErrMaybe).

(** ** Small pieces *)

Definition letterBytes : string := "abcdefghijklmnopqrstuvwxyzABCDEFGHIJKLMNOPQRSTUVWXYZ".

(** [RandValue(n)]: [rnd] is the sequence of random numbers drawn. *)
Fixpoint RandValue (rnd : nat -> Z) (i n : nat) : string :=
  match n with
  | 0 => ""
  | S n =>
      match String.get (Z.to_nat (rnd i mod Z.of_nat (String.length letterBytes))) letterBytes with
      | Some c => String c (RandValue rnd (S i) n)
      | None => ""
      end
  end.

Definition MakeKeys (n : Z) : outcome (list string) :=
  if decide (n < 0)%Z then Panic "makeslice: len out of range"
  else Return ((fun i => "k" +:+ Itoa (Z.of_nat i)) <$> seq 0 (Z.to_nat n)).

Record ClntRes := { Nok : Z; Nmaybe : Z }.
Record EntryN := { Id : Z; N : Z }.
Record EntryV := { V_Id : Z; V_V : Z }.

(** ** The operation log *)

Definition OpLog : Type := list Models.Operation.
Definition OpLog_Len (log : OpLog) : Z := len log.
Definition OpLog_Append (op : Models.Operation) (log : OpLog) : OpLog := log ++ [op].
Definition OpLog_Read (log : OpLog) : list Models.Operation := log.

(** ** Clerks *)

Section Clerk.
Context {S : Type}.
Context (ckGet : string -> S -> (string * Z * string) * S).
Context (ckPut : string -> string -> Z -> S -> string * S).

(** [Get] and [Put] of porcupine.go: call the clerk, count the operation, and
    log it when there is a log; [start] and [fin] are the clock readings. *)
Record harness := { hstate : S; ops : Z; oplog : option OpLog }.

Definition logged (op : Models.Operation) (log : option OpLog) : option OpLog :=
  OpLog_Append op <$> log.

Definition Get (start fin : Z) (key : string) (cli : Z) (h : harness) : (string * Z * string) * harness :=
  let '((val, ver, err), s) := ckGet key (hstate h) in
  ((val, ver, err),
   {| hstate := s; ops := ops h + 1;
      oplog := logged {| Models.Input := {| Models.in_Op := 0; Models.in_Key := key;
                                            Models.in_Value := ""; Models.in_Version := 0 |};
                         Models.Output := {| Models.out_Value := val; Models.out_Version := ver;
                                             Models.out_Err := err |};
                         Models.Call := start; Models.Return_ := fin; Models.ClientId := cli |}
                      (oplog h) |}).

Definition Put (start fin : Z) (key value : string) (version : Z) (cli : Z) (h : harness)
    : string * harness :=
  let '(err, s) := ckPut key value version (hstate h) in
  (err,
   {| hstate := s; ops := ops h + 1;
      oplog := logged {| Models.Input := {| Models.in_Op := 1; Models.in_Key := key;
                                            Models.in_Value := value; Models.in_Version := version |};
                         Models.Output := {| Models.out_Value := ""; Models.out_Version := 0;
                                             Models.out_Err := err |};
                         Models.Call := start; Models.Return_ := fin; Models.ClientId := cli |}
                      (oplog h) |}).

(** The methods of [Test] are the same on the test's own clerk and log. *)
Definition Test_Get := Get.
Definition Test_Put := Put.

(** [PutAtLeastOnce]; [clock] gives the readings of each round.  [None]: out of
    fuel. *)
Fixpoint PutAtLeastOnce (fuel : nat) (clock : nat -> Z * Z) (key value : string) (ver me : Z)
    (h : harness) : option (outcome Z * harness) :=
  match fuel with
  | 0 => None
  | Datatypes.S fuel' =>
      let '(err, h) := Put (clock fuel).1 (clock fuel).2 key value ver me h in
      if decide (err = OK) then Some (Return (uwrap64 (ver + 1)), h)
      else if decide (err = ErrMaybe \/ err = ErrVersion) then
        PutAtLeastOnce fuel' clock key value (uwrap64 (ver + 1)) me h
      else if decide (ver <> 0)%Z then Some (Fatal ("Put " +:+ key +:+ " ver " +:+ Itoa ver +:+ " err " +:+ err), h)
      else PutAtLeastOnce fuel' clock key value ver me h
  end.

Definition CheckGet (start fin : Z) (key value : string) (version : Z) (h : harness)
    : outcome unit * harness :=
  let '((val, ver, err), h) := Get start fin key 0 h in
  if decide (err <> OK) then (Fatal ("Get(" +:+ key +:+ ") returns error = " +:+ err), h)
  else if decide (val <> value \/ ver <> version) then (Fatal ("Get(" +:+ key +:+ ") returns (" +:+ val +:+ ", " +:+ Itoa ver +:+ ") != (" +:+ value
           +:+ ", " +:+ Itoa version +:+ ")"), h)
  else (Return tt, h).

(** [GetJson] and [PutJson], with [encoding/json] for a type as arguments. *)
Definition GetJson {A} (unmarshal : string -> option A) (start fin : Z) (key : string) (me : Z)
    (h : harness) : outcome (A * Z) * harness :=
  let '((val, ver, err), h) := Get start fin key me h in
  if decide (err = OK) then
    match unmarshal val with
    | Some v => (Return (v, ver), h)
    | None => (Fatal ("Unmarshal err " +:+ Itoa ver), h)
    end
  else (Fatal (Itoa me +:+ ": Get " +:+ key +:+ " err " +:+ err), h).

Definition PutJson {A} (marshal : A -> option string) (start fin : Z) (key : string) (v : A)
    (ver me : Z) (h : harness) : outcome string * harness :=
  match marshal v with
  | None => (Fatal (Itoa me +:+ ": marshal"), h)
  | Some b => let '(err, h) := Put start fin key b ver me h in (Return err, h)
  end.

(** The loop of [PutAtLeastOnceJson]: the version passed to [PutJson] is always
    0. *)
Fixpoint PutAtLeastOnceJson {A} (marshal : A -> option string) (fuel : nat) (clock : nat -> Z * Z)
    (key : string) (value : A) (ver me : Z) (h : harness) : option (outcome Z * harness) :=
  match fuel with
  | 0 => None
  | Datatypes.S fuel' =>
      match PutJson marshal (clock fuel).1 (clock fuel).2 key value 0 me h with
      | (Return err, h) =>
          if decide (err <> ErrMaybe) then Some (Return ver, h)
          else PutAtLeastOnceJson marshal fuel' clock key value (uwrap64 (ver + 1)) me h
      | (Fatal m, h) => Some (Fatal m, h)
      | (Panic m, h) => Some (Panic m, h)
      end
  end.

(** The check [OnePut] makes of its own put: [e] is the entry read back. *)
Definition checkMyPut (err : string) (ver0 ver me : Z) (eId eV : Z) : outcome unit :=
  if decide (err = OK /\ ver0 = uwrap64 (ver + 1)) then
    if decide (eId <> me /\ eV <> ver) then Fatal ("Wrong value {" +:+ Itoa eId +:+ " " +:+ Itoa eV +:+ "}") else Return tt
  else Return tt.

(** [OnePut]: put, read back, check, until a put succeeded or may have. *)
Fixpoint OnePut (marshal : EntryV -> option string) (unmarshal : string -> option EntryV)
    (fuel : nat) (clock : nat -> Z * Z) (me : Z) (key : string) (ver : Z) (h : harness)
    : option (outcome (Z * bool) * harness) :=
  match fuel with
  | 0 => None
  | Datatypes.S fuel' =>
      match PutJson marshal (clock fuel).1 (clock fuel).2 key {| V_Id := me; V_V := ver |} ver me h with
      | (Return err, h) =>
          if negb (bool_decide (err = OK) || bool_decide (err = ErrVersion) || bool_decide (err = ErrMaybe))
          then Some (Fatal ("Wrong error " +:+ err), h)
          else
            match GetJson unmarshal (clock fuel).1 (clock fuel).2 key me h with
            | (Return (e, ver0), h) =>
                match checkMyPut err ver0 ver me (V_Id e) (V_V e) with
                | Return _ =>
                    if decide (err = OK \/ err = ErrMaybe) then Some (Return (ver0, bool_decide (err = OK)), h)
                    else OnePut marshal unmarshal fuel' clock me key ver0 h
                | Fatal m => Some (Fatal m, h)
                | Panic m => Some (Panic m, h)
                end
            | (Fatal m, h) => Some (Fatal m, h)
            | (Panic m, h) => Some (Panic m, h)
            end
      | (Fatal m, h) => Some (Fatal m, h)
      | (Panic m, h) => Some (Panic m, h)
      end
  end.

(** [OneClientPut]: [picks] lists the indexes of the keys the client picks until
    it is told to stop (all 0 without [randomkeys]); [fuel] bounds each
    [OnePut]. *)
Fixpoint OneClientPut (marshal : EntryV -> option string) (unmarshal : string -> option EntryV)
    (fuel : nat) (clock : nat -> Z * Z) (cli : Z) (ka : list string) (picks : list Z)
    (verm : gmap string Z) (res : ClntRes) (h : harness) : option (outcome ClntRes * harness) :=
  match picks with
  | [] => Some (Return res, h)
  | i :: picks =>
      match slice_get ka i with
      | Return k =>
          match OnePut marshal unmarshal fuel clock cli k (default 0%Z (verm !! k)) h with
          | Some (Return (ver, ok), h) =>
              OneClientPut marshal unmarshal fuel clock cli ka picks (<[k := ver]> verm)
                (if ok : bool then {| Nok := (Nok res + 1)%Z; Nmaybe := Nmaybe res |}
                 else {| Nok := Nok res; Nmaybe := (Nmaybe res + 1)%Z |}) h
          | Some (Fatal m, h) => Some (Fatal m, h)
          | Some (Panic m, h) => Some (Panic m, h)
          | None => None
          end
      | Fatal m => Some (Fatal m, h)
      | Panic m => Some (Panic m, h)
      end
  end.

(** [SpreadPutsSize]: [va] are the random values; the puts go to the clerk
    directly, the gets through the harness. *)
Fixpoint spreadPuts (ka va : list string) (s : S) : S :=
  match ka, va with
  | k :: ka, v :: va => spreadPuts ka va (ckPut k v 0 s).2
  | _, _ => s
  end.
Fixpoint spreadChecks (clock : nat -> Z * Z) (ka va : list string) (h : harness) : outcome unit * harness :=
  match ka, va with
  | k :: ka, v :: va =>
      match CheckGet (clock (length ka)).1 (clock (length ka)).2 k v 1 h with
      | (Return _, h) => spreadChecks clock ka va h
      | r => r
      end
  | _, _ => (Return tt, h)
  end.
Definition SpreadPutsSize (clock : nat -> Z * Z) (n : Z) (va : list string) (h : harness)
    : outcome (list string * list string) * harness :=
  match MakeKeys n with
  | Return ka =>
      let h := {| hstate := spreadPuts ka va (hstate h); ops := ops h; oplog := oplog h |} in
      let '(r, h) := spreadChecks clock ka va h in
      ((_ ← r; Return (ka, va)), h)
  | Fatal m => (Fatal m, h)
  | Panic m => (Panic m, h)
  end.

(** [SpreadPuts]: values of 20 letters; [read i] are the random bytes for the
    [i]-th. *)
Fixpoint randValues (read : nat -> nat -> list Z) (valsz : Z) (idx : list nat) : outcome (list string) :=
  match idx with
  | [] => Return []
  | i :: idx => v ← Random.Randstring (read i) valsz; vs ← randValues read valsz idx; mret (v :: vs)
  end.
Definition SpreadPuts (clock : nat -> Z * Z) (read : nat -> nat -> list Z) (n : Z) (h : harness)
    : outcome (list string * list string) * harness :=
  match randValues read 20 (seq 0 (Z.to_nat n)) with
  | Return va => SpreadPutsSize clock n va h
  | Fatal m => (Fatal m, h)
  | Panic m => (Panic m, h)
  end.

End Clerk.
Arguments harness : clear implicits.

(** ** CheckPutConcurrent and CheckAppends *)

Definition sumRes (rs : list ClntRes) (res : ClntRes) : ClntRes :=
  foldl (fun res r => {| Nok := (Nok res + Nok r)%Z; Nmaybe := (Nmaybe res + Nmaybe r)%Z |}) res rs.

(** The [%v] verb on a pointer to a [ClntRes]. *)
Definition fmtRes (res : ClntRes) : string := "&{" +:+ Itoa (Nok res) +:+ " " +:+ Itoa (Nmaybe res) +:+ "}".

(** The decision of [CheckPutConcurrent], given the version read. *)
Definition CheckPutConcurrent (ver0 : Z) (rs : list ClntRes) (res : ClntRes) (reliable : bool)
    : outcome ClntRes :=
  let res := sumRes rs res in
  if reliable then
    if decide (ver0 <> uwrap64 (Nok res)) then Fatal ("Reliable: Wrong number of puts: server " +:+ Itoa ver0 +:+ " clnts " +:+ fmtRes res) else Return res
  else if decide (ver0 > uwrap64 (Nok res + Nmaybe res))%Z then Fatal ("Unreliable: Wrong number of puts: server " +:+ Itoa ver0 +:+ " clnts " +:+ fmtRes res)
  else Return res.

(** Missing map keys read as zero. *)
Definition at0 (m : gmap Z Z) (k : Z) : Z := default 0%Z (m !! k).

(** The loop over the entries, on the maps [expect] and [skipped]. *)
Fixpoint scanEntries (es : list EntryN) (expect skipped : gmap Z Z) : outcome (gmap Z Z * gmap Z Z) :=
  match es with
  | [] => Return (expect, skipped)
  | e :: es =>
      if decide (at0 expect (Id e) > N e)%Z then Fatal (Itoa (Id e) +:+ ": wrong expecting " +:+ Itoa (at0 expect (Id e)) +:+ " but got " +:+ Itoa (N e))
      else if decide (at0 expect (Id e) = N e) then
        scanEntries es (<[Id e := (at0 expect (Id e) + 1)%Z]> expect) skipped
      else
        let s := (N e - at0 expect (Id e))%Z in
        scanEntries es (<[Id e := (N e + 1)%Z]> expect)
          (<[Id e := (at0 skipped (Id e) + s)%Z]> skipped)
  end.

(** The loop over [expect]; [order] is its iteration order. *)
Fixpoint checkCounts (order : list Z) (expect skipped : gmap Z Z) (rs : list ClntRes) : outcome unit :=
  match order with
  | [] => Return tt
  | c :: order =>
      r ← slice_get rs c;
      if decide (at0 skipped c > Nmaybe r)%Z then Fatal (Itoa c +:+ ": skipped puts " +:+ Itoa (at0 skipped c) +:+ " on server > " +:+ Itoa (Nmaybe r) +:+ " maybe")
      else if decide (at0 expect c > Nok r + Nmaybe r)%Z then Fatal (Itoa c +:+ ": " +:+ Itoa (at0 expect c) +:+ " puts on server > ok+maybe " +:+ Itoa (Nok r + Nmaybe r))
      else checkCounts order expect skipped rs
  end.

(** The initial maps: 0 for every client. *)
Definition zeros (nclnt : nat) : gmap Z Z := list_to_map ((fun i => (Z.of_nat i, 0%Z)) <$> seq 0 nclnt).

(** [orderOf] gives the iteration order of the final map [expect]. *)
Definition CheckAppends (orderOf : gmap Z Z -> list Z) (es : list EntryN) (nclnt : nat)
    (rs : list ClntRes) (ver : Z) : outcome unit :=
  '(expect, skipped) ← scanEntries es (zeros nclnt) (zeros nclnt);
  if decide (len es + 1 <> wrap64 ver)%Z then Fatal (Itoa (len es) +:+ " appends in val != puts on server " +:+ Itoa ver)
  else checkCounts (orderOf expect) expect skipped rs.

(** ** What CheckAppends accepts *)

(** The numbers client [c] appended, in order. *)
Definition numbers (c : Z) (es : list EntryN) : list Z := N <$> filter (fun e => Id e = c) es.

(** Strictly increasing, from [b] on. *)
Fixpoint increasing (b : Z) (l : list Z) : Prop :=
  match l with
  | [] => True
  | x :: l => (b <= x)%Z /\ increasing (x + 1) l
  end.

(** One more than the last number, [b] if there is none. *)
Definition next (b : Z) (l : list Z) : Z := foldl (fun _ x => (x + 1)%Z) b l.

Lemma numbers_cons c e es :
  numbers c (e :: es) = (if decide (Id e = c) then [N e] else []) ++ numbers c es.
Proof. unfold numbers. rewrite filter_cons. by case_decide. Qed.

Lemma at0_insert m k v c : at0 (<[k := v]> m) c = if decide (k = c) then v else at0 m c.
Proof. unfold at0. rewrite lookup_insert. by case_decide. Qed.

Lemma scanEntries_spec es : forall expect skipped,
  match scanEntries es expect skipped with
  | Return (expect', skipped') =>
      (forall c, increasing (at0 expect c) (numbers c es) /\
         at0 expect' c = next (at0 expect c) (numbers c es) /\
         at0 skipped' c - at0 skipped c = at0 expect' c - at0 expect c - len (numbers c es))%Z /\
      dom expect' = dom expect ∪ list_to_set (Id <$> es)
  | Fatal _ => ~ forall c, increasing (at0 expect c) (numbers c es)
  | Panic _ => False
  end.
Proof.
  induction es as [|e es IH]; intros expect skipped; simpl.
  { split; [|set_solver]. intros c. unfold numbers, len. simpl. split_and!; try done. lia. }
  case_decide as Hgt.
  { intros Hall. specialize (Hall (Id e)). rewrite numbers_cons, decide_True in Hall by done.
    destruct Hall as [? _]. lia. }
  assert (forall expect1 skipped1,
    (forall c, at0 expect1 c = if decide (Id e = c) then N e + 1 else at0 expect c)%Z ->
    (forall c, at0 skipped1 c = at0 skipped c + if decide (Id e = c) then N e - at0 expect c else 0)%Z ->
    dom expect1 = {[Id e]} ∪ dom expect ->
    match scanEntries es expect1 skipped1 with
    | Return (expect', skipped') =>
        (forall c, increasing (at0 expect c) (numbers c (e :: es)) /\
           at0 expect' c = next (at0 expect c) (numbers c (e :: es)) /\
           at0 skipped' c - at0 skipped c = at0 expect' c - at0 expect c - len (numbers c (e :: es)))%Z /\
        dom expect' = dom expect ∪ ({[Id e]} ∪ list_to_set (Id <$> es))
    | Fatal _ => ~ forall c, increasing (at0 expect c) (numbers c (e :: es))
    | Panic _ => False
    end) as Hstep.
  { intros expect1 skipped1 He Hs Hdom. specialize (IH expect1 skipped1).
    destruct (scanEntries es expect1 skipped1) as [[e' s']| |]; [|..|done].
    - destruct IH as [IH Hd]. split; [|rewrite Hd, Hdom; set_solver].
      intros c. destruct (IH c) as (I1 & I2 & I3). rewrite numbers_cons. rewrite He in I1, I2, I3.
      rewrite Hs in I3. unfold len in *. destruct (decide (Id e = c)) as [<-|Hne]; simpl.
      + split_and!; [lia|done|done|]. rewrite I2 in *. unfold next in *. simpl. lia.
      + split_and!; [done|done|]. rewrite I2 in *. lia.
    - intros Hall. apply IH. intros c. specialize (Hall c). rewrite numbers_cons in Hall. rewrite He.
      case_decide; [by destruct Hall|done]. }
  case_decide as Heq; apply Hstep; clear Hstep.
  - intros c. rewrite at0_insert. case_decide; [lia|done].
  - intros c. case_decide; [subst; lia|lia].
  - by rewrite dom_insert_L.
  - intros c. by rewrite at0_insert.
  - intros c. rewrite at0_insert. case_decide; [subst; lia|lia].
  - by rewrite dom_insert_L.
Qed.

Lemma zeros_spec n :
  (forall c, at0 (zeros n) c = 0%Z) /\ forall c, c ∈ dom (zeros n) <-> (0 <= c < Z.of_nat n)%Z.
Proof.
  unfold zeros. split.
  - intros c. unfold at0. destruct (list_to_map _ !! c) as [v|] eqn:E; [|done].
    apply elem_of_list_to_map_2, list_elem_of_fmap in E as (i & [= -> ->] & _). done.
  - intros c. rewrite dom_list_to_map, elem_of_list_to_set, list_elem_of_fmap. split.
    + intros ([k v] & -> & (i & [= -> ->] & Hi%elem_of_seq)%list_elem_of_fmap). simpl. lia.
    + intros Hc. exists (c, 0%Z). split; [done|]. apply list_elem_of_fmap.
      exists (Z.to_nat c). split; [f_equal; lia|]. apply elem_of_seq. lia.
Qed.

(** The checks of one client. *)
Definition countsOK (expect skipped : gmap Z Z) (rs : list ClntRes) (c : Z) : Prop :=
  exists r, slice_get rs c = Return r /\
    (at0 skipped c <= Nmaybe r)%Z /\ (at0 expect c <= Nok r + Nmaybe r)%Z.

Lemma checkCounts_spec order expect skipped rs :
  Forall (fun c => 0 <= c < len rs)%Z order ->
  (checkCounts order expect skipped rs = Return tt <-> Forall (countsOK expect skipped rs) order) /\
  (forall m, checkCounts order expect skipped rs <> Panic m).
Proof.
  induction 1 as [|c order Hc _ [IH1 IH2]]; simpl.
  { split; [|done]. split; [constructor|done]. }
  destruct (slice_get_bound rs c Hc) as [r Hr]. rewrite Hr. simpl.
  rewrite Forall_cons, <-IH1. unfold countsOK at 1. rewrite Hr.
  case_decide; [|case_decide]; (split; [|done]);
    (split; [try done|intros [(r' & [= <-] & ? & ?) ?]; try lia; done]).
  intros ?. split; [|done]. exists r. split_and!; [done|lia|lia].
Qed.

Lemma CheckAppends_spec orderOf es nclnt rs ver :
  (forall m, orderOf m ≡ₚ elements (dom m)) ->
  length rs = nclnt -> Forall (fun e => 0 <= Id e < Z.of_nat nclnt)%Z es ->
  (CheckAppends orderOf es nclnt rs ver = Return tt <->
    (forall c, increasing 0 (numbers c es)) /\
    (len es + 1 = wrap64 ver)%Z /\
    forall i r, rs !! i = Some r ->
      (next 0 (numbers (Z.of_nat i) es) - len (numbers (Z.of_nat i) es) <= Nmaybe r)%Z /\
      (next 0 (numbers (Z.of_nat i) es) <= Nok r + Nmaybe r)%Z) /\
  forall m, CheckAppends orderOf es nclnt rs ver <> Panic m.
Proof.
  intros Ho Hrs Hes. unfold CheckAppends. destruct (zeros_spec nclnt) as [Hz Hzd].
  pose proof (scanEntries_spec es (zeros nclnt) (zeros nclnt)) as Hscan.
  destruct (scanEntries es (zeros nclnt) (zeros nclnt)) as [[expect skipped]| |]; simpl; [|..|done].
  2: { split; [|done]. split; [done|]. intros [Hall _]. destruct Hscan. intros c. by rewrite Hz. }
  destruct Hscan as [Hscan Hdom].
  assert (forall c, increasing 0 (numbers c es) /\ at0 expect c = next 0 (numbers c es) /\
    at0 skipped c = next 0 (numbers c es) - len (numbers c es))%Z as Hs.
  { intros c. destruct (Hscan c) as (I1 & I2 & I3). rewrite Hz in *. split_and!; [done|done|lia]. }
  case_decide as Hver.
  { split; [|done]. split; [done|]. intros (_ & ? & _). done. }
  assert (forall c, c ∈ orderOf expect <-> (0 <= c < len rs)%Z) as Hord.
  { intros c. rewrite Ho, elem_of_elements, Hdom, elem_of_union, Hzd, elem_of_list_to_set.
    unfold len. rewrite Hrs. split; [|by left]. intros [?|(e & -> & He)%list_elem_of_fmap]; [done|].
    rewrite Forall_forall in Hes. by apply Hes. }
  destruct (checkCounts_spec (orderOf expect) expect skipped rs) as [Hiff Hp].
  { apply Forall_forall. intros c. by apply Hord. }
  split; [|done]. rewrite Hiff, Forall_forall. split.
  - intros Hall. split_and!; [apply Hs|lia|]. intros i r Hi.
    destruct (Hall (Z.of_nat i)) as (r' & Hr' & Hsk & Hex).
    { apply Hord. unfold len. apply lookup_lt_Some in Hi. lia. }
    rewrite (slice_get_Some _ _ _ Hi) in Hr'. injection Hr' as <-.
    destruct (Hs (Z.of_nat i)) as (_ & <- & <-). done.
  - intros (_ & _ & Hall) c Hc%Hord. destruct (slice_get_bound rs c Hc) as [r Hr].
    exists r. split; [done|]. apply slice_get_inv in Hr as [_ Hr].
    destruct (Hs c) as (_ & -> & ->). replace c with (Z.of_nat (Z.to_nat c)) by lia.
    by apply Hall.
Qed.

(** [CheckAppends] accepts exactly the legal appends.  For entries of the
    clients [0 .. nclnt-1] and one result per client, it returns, without
    failing a check or panicking and whatever the iteration order, if and only
    if the numbers of every client are non-negative and strictly increasing,
    the server's version is one more than the number of entries, and for every
    client the numbers it skipped are at most its uncertain puts and its
    numbers are below the puts it attempted. *)
Theorem check_appends_iff orderOf es nclnt rs ver :
  (forall m, orderOf m ≡ₚ elements (dom m)) ->
  length rs = nclnt -> Forall (fun e => 0 <= Id e < Z.of_nat nclnt)%Z es ->
  (CheckAppends orderOf es nclnt rs ver = Return tt <->
    (forall c, increasing 0 (numbers c es)) /\
    (len es + 1 = wrap64 ver)%Z /\
    forall i r, rs !! i = Some r ->
      (next 0 (numbers (Z.of_nat i) es) - len (numbers (Z.of_nat i) es) <= Nmaybe r)%Z /\
      (next 0 (numbers (Z.of_nat i) es) <= Nok r + Nmaybe r)%Z) /\
  forall m, CheckAppends orderOf es nclnt rs ver <> Panic m.
Proof. intros Ho Hrs Hes. split; by apply CheckAppends_spec. Qed.

(** ** PutAtLeastOnce against a versioned server *)

(** What the key/value server's documentation promises of [Put] when no message
    is lost: with the key's current version the put takes effect and the
    version grows by one; with an old version it is refused with [ErrVersion]
    and nothing changes. *)
Class VersionedClerk {S : Type} (ckPut : string -> string -> Z -> S -> string * S)
    (version : S -> string -> Z) := {
  put_current k v s :
    (ckPut k v (version s k) s).1 = OK /\
    version (ckPut k v (version s k) s).2 k = (version s k + 1)%Z;
  put_stale k v n s :
    (n < version s k)%Z -> ckPut k v n s = (ErrVersion, s)
}.

Section PutAtLeastOnce.
Context {S : Type} (ckPut : string -> string -> Z -> S -> string * S) (version : S -> string -> Z).
Context `{!VersionedClerk ckPut version}.

Lemma Put_stale st fin key value n me h :
  (n < version (hstate h) key)%Z ->
  (Put ckPut st fin key value n me h).1 = ErrVersion /\
  hstate (Put ckPut st fin key value n me h).2 = hstate h.
Proof. intros Hn. unfold Put. by rewrite put_stale. Qed.

Lemma Put_current st fin key value me (h : harness S) :
  (Put ckPut st fin key value (version (hstate h) key) me h).1 = OK /\
  version (hstate (Put ckPut st fin key value (version (hstate h) key) me h).2) key
  = (version (hstate h) key + 1)%Z.
Proof.
  unfold Put. pose proof (put_current key value (hstate h)) as Hc.
  by destruct (ckPut key value _ _) as [err s'].
Qed.

Lemma PutAtLeastOnce_spec clock key value me k : forall fuel ver (h : harness S),
  k < fuel -> (0 <= ver)%Z -> (version (hstate h) key = ver + Z.of_nat k)%Z ->
  (version (hstate h) key + 1 < 2 ^ 64)%Z ->
  exists h', PutAtLeastOnce ckPut fuel clock key value ver me h
      = Some (Return (version (hstate h) key + 1)%Z, h') /\
    version (hstate h') key = (version (hstate h) key + 1)%Z.
Proof.
  induction k as [|k IH]; intros [|fuel] ver h Hf Hv Hk Hb; try lia; cbn [PutAtLeastOnce].
  - replace ver with (version (hstate h) key) by lia.
    destruct (Put_current (clock (Datatypes.S fuel)).1 (clock (Datatypes.S fuel)).2 key value me h)
      as [Hok Hver]. destruct (Put ckPut _ _ key value _ me h) as [err h']. simpl in Hok, Hver.
    subst err. rewrite decide_True by done. exists h'. split; [|done].
    unfold uwrap64. rewrite Z.mod_small by lia. done.
  - destruct (Put_stale (clock (Datatypes.S fuel)).1 (clock (Datatypes.S fuel)).2 key value ver me h)
      as [Herr Hst]; [lia|]. destruct (Put ckPut _ _ key value ver me h) as [err h1].
    simpl in Herr, Hst. subst err. rewrite decide_False by done. rewrite decide_True by (by right).
    unfold uwrap64. rewrite Z.mod_small by lia. rewrite <-Hst.
    apply IH; [lia|lia|rewrite Hst; lia|rewrite Hst; lia].
Qed.

(** [PutAtLeastOnce] gets through.  Against a server that keeps the documented
    versioned-put contract, starting from any version not past the key's, it
    terminates after at most [version - ver] refused puts, returns the new
    version, and the put has taken effect. *)
Theorem put_at_least_once_terminates fuel clock key value ver me (h : harness S) :
  (0 <= ver <= version (hstate h) key)%Z -> (version (hstate h) key + 1 < 2 ^ 64)%Z ->
  (version (hstate h) key - ver < Z.of_nat fuel)%Z ->
  exists h', PutAtLeastOnce ckPut fuel clock key value ver me h
      = Some (Return (version (hstate h) key + 1)%Z, h') /\
    version (hstate h') key = (version (hstate h) key + 1)%Z.
Proof.
  intros Hv Hb Hf.
  apply (PutAtLeastOnce_spec clock key value me (Z.to_nat (version (hstate h) key - ver))); lia.
Qed.

End PutAtLeastOnce.

(** The self-check of [OnePut] is too weak.  A successful put whose value was
    replaced by another client's entry (another [Id]) passes the check, as does
    an entry with the wrong version: the condition joins the two tests with
    "and". *)
Theorem one_put_check_too_weak me ver other :
  (0 <= ver < 2 ^ 64 - 1)%Z -> other <> me ->
  checkMyPut OK (ver + 1) ver me other ver = Return tt /\
  checkMyPut OK (ver + 1) ver me me (ver + 1) = Return tt.
Proof.
  intros Hv Ho. unfold checkMyPut, uwrap64. rewrite Z.mod_small by lia.
  split; repeat case_decide; destr_hyps; congruence.
Qed.

(** ** SpreadPuts against a store *)

(** What the documentation promises of a clerk that loses no message: a put of a
    new key with version 0 stores it with version 1, a get reads it. *)
Class StoreClerk {S : Type} (ckGet : string -> S -> (string * Z * string) * S)
    (ckPut : string -> string -> Z -> S -> string * S) (view : S -> gmap string (string * Z)) := {
  store_put_new k v s : view s !! k = None -> view (ckPut k v 0%Z s).2 = <[k := (v, 1%Z)]> (view s);
  store_get k v n s : view s !! k = Some (v, n) -> (ckGet k s).1 = (v, n, OK) /\ view (ckGet k s).2 = view s
}.

Section Spread.
Context {S : Type} (ckGet : string -> S -> (string * Z * string) * S)
  (ckPut : string -> string -> Z -> S -> string * S) (view : S -> gmap string (string * Z)).
Context `{!StoreClerk ckGet ckPut view}.

(** The keys with their values. *)
Definition stored (ka va : list string) : gmap string (string * Z) :=
  list_to_map (zip ka ((fun v => (v, 1%Z)) <$> va)).

Lemma spreadPuts_view ka : forall va s,
  length va = length ka -> NoDup ka -> (forall k, k ∈ ka -> view s !! k = None) ->
  view (spreadPuts ckPut ka va s) = stored ka va ∪ view s.
Proof using All.
  induction ka as [|k ka IH]; intros [|v va] s Hl Hnd Hf; try done; cbn [spreadPuts].
  { unfold stored. simpl. by rewrite (left_id_L ∅ (∪)). }
  apply NoDup_cons in Hnd as [Hk Hnd]. injection Hl as Hl. pose proof (Hf k ltac:(left)) as Hn.
  rewrite IH; [|done|done|].
  - rewrite store_put_new by done. unfold stored. simpl. rewrite <-insert_union_r; [by rewrite insert_union_l|].
    apply not_elem_of_list_to_map. rewrite fst_zip by (rewrite length_fmap; lia). done.
  - intros k' Hk'. rewrite store_put_new by done. rewrite lookup_insert_ne by (by intros <-).
    apply Hf. by right.
Qed.

Lemma spreadChecks_ok clock ka : forall va (h : harness S),
  length va = length ka -> (forall i k v, ka !! i = Some k -> va !! i = Some v -> view (hstate h) !! k = Some (v, 1%Z)) ->
  exists h', spreadChecks ckGet clock ka va h = (Return tt, h') /\ view (hstate h') = view (hstate h).
Proof using All.
  induction ka as [|k ka IH]; intros [|v va] h Hl Hv; try done; cbn [spreadChecks]; [by exists h|].
  destruct (store_get k v 1 (hstate h) (Hv 0 k v eq_refl eq_refl)) as [Hg Hs].
  unfold CheckGet, Get. destruct (ckGet k (hstate h)) as [[[val ver] err] s] eqn:E. simpl in Hg, Hs.
  injection Hg as -> -> ->. rewrite decide_False by tauto. rewrite decide_False by tauto.
  edestruct (IH va) as (h' & E' & Hv'); [by injection Hl| |exists h'; split; [exact E'|]].
  - intros i k' v' H1 H2. simpl. rewrite Hs. by apply (Hv (Datatypes.S i)).
  - rewrite Hv'. simpl. done.
Qed.

Lemma randValues_ok read n : (forall i, Random.readOk (read i)) -> forall idx,
  (0 <= n < 2 ^ 62)%Z -> exists va, randValues read n idx = Return va /\ length va = length idx.
Proof.
  intros Hr idx Hn. induction idx as [|i idx (va & IH & Hl)]; cbn [randValues]; [by exists []|].
  rewrite (Random.Randstring_eq (read i) n (Hr i) Hn). cbn [mbind outcome_bind]. rewrite IH.
  eexists. split; [done|]. simpl. by rewrite Hl.
Qed.

Lemma keys_NoDup n : NoDup ((fun i => "k" +:+ Itoa (Z.of_nat i)) <$> seq 0 n).
Proof.
  apply NoDup_fmap_2; [|apply NoDup_seq]. intros i j H. apply Itoa_nat_inj. by apply (inj (String.app "k")).
Qed.

(** The keys that the tests spread are stored.  On a store that has none of
    them, [SpreadPuts] of [n] keys returns [n] different keys with a value each;
    then the store holds exactly these in addition, each with its value and
    version 1, and none of the checks on the way has failed. *)
Theorem spread_puts_stored clock read n (h : harness S) :
  (forall i, Random.readOk (read i)) -> (0 <= n)%Z ->
  (forall i, view (hstate h) !! ("k" +:+ Itoa (Z.of_nat i)) = None) ->
  exists ka va h', SpreadPuts ckGet ckPut clock read n h = (Return (ka, va), h') /\
    Z.of_nat (length ka) = n /\ length va = length ka /\ NoDup ka /\
    view (hstate h') = stored ka va ∪ view (hstate h) /\
    forall i k v, ka !! i = Some k -> va !! i = Some v -> view (hstate h') !! k = Some (v, 1%Z).
Proof using All.
  intros Hr Hn Hf. unfold SpreadPuts, SpreadPutsSize, MakeKeys.
  destruct (randValues_ok read 20 Hr (seq 0 (Z.to_nat n))) as (va & -> & Hl); [lia|].
  rewrite length_seq in Hl. rewrite decide_False by lia.
  set (ka := (fun i => "k" +:+ Itoa (Z.of_nat i)) <$> seq 0 (Z.to_nat n)).
  assert (length ka = Z.to_nat n) as Hk by (unfold ka; by rewrite length_fmap, length_seq).
  assert (NoDup ka) as Hnd by apply keys_NoDup.
  assert (view (spreadPuts ckPut ka va (hstate h)) = stored ka va ∪ view (hstate h)) as Hv.
  { apply spreadPuts_view; [congruence|done|]. intros k (i & -> & _)%list_elem_of_fmap. apply Hf. }
  assert (forall i k v, ka !! i = Some k -> va !! i = Some v ->
    view (spreadPuts ckPut ka va (hstate h)) !! k = Some (v, 1%Z)) as Hall.
  { intros i k v H1 H2. rewrite Hv. apply lookup_union_Some_l, elem_of_list_to_map_1'.
    - intros y (j & E)%list_elem_of_lookup. apply lookup_zip_Some in E as [E1 E2].
      pose proof (NoDup_lookup _ _ _ _ Hnd H1 E1) as <-. rewrite list_lookup_fmap, H2 in E2. by injection E2.
    - apply list_elem_of_lookup. exists i. apply lookup_zip_Some. by rewrite list_lookup_fmap, H2. }
  destruct (spreadChecks_ok clock ka va {| hstate := spreadPuts ckPut ka va (hstate h); ops := ops h; oplog := oplog h |})
    as (h' & E & Hv'); [congruence|exact Hall|].
  cbv zeta. rewrite E. exists ka, va, h'. split; [reflexivity|]. split; [lia|]. split; [congruence|].
  split; [done|]. rewrite Hv'. done.
Qed.
End Spread.

(** ** Witnesses *)

(** A server with one key: its value and its version. *)
Definition regPut (k v : string) (n : Z) (s : string * Z) : string * (string * Z) :=
  if decide (n = s.2) then (OK, (v, (s.2 + 1)%Z)) else (ErrVersion, s).
Definition regVersion (s : string * Z) (k : string) : Z := s.2.

#[local] Instance regClerk : VersionedClerk regPut regVersion.
Proof.
  split.
  - intros k v s. unfold regPut, regVersion. by rewrite !(decide_True _ _ (eq_refl s.2)).
  - intros k v n s Hn. unfold regPut, regVersion in *. by rewrite decide_False by lia.
Qed.

Definition exHarness : harness (string * Z) := {| hstate := ("a", 2%Z); ops := 0; oplog := Some [] |}.

(** A store of values and versions. *)
Definition mapGet (k : string) (s : gmap string (string * Z)) : (string * Z * string) * gmap string (string * Z) :=
  (match s !! k with Some (v, n) => (v, n, OK) | None => ("", 0%Z, ErrNoKey) end, s).
Definition mapPut (k v : string) (n : Z) (s : gmap string (string * Z)) : string * gmap string (string * Z) :=
  match s !! k with
  | Some (_, n') => if decide (n = n') then (OK, <[k := (v, (n' + 1)%Z)]> s) else (ErrVersion, s)
  | None => if decide (n = 0)%Z then (OK, <[k := (v, 1%Z)]> s) else (ErrNoKey, s)
  end.
#[local] Instance mapClerk : StoreClerk mapGet mapPut id.
Proof.
  split; unfold mapGet, mapPut, id.
  - intros k v s ->. done.
  - intros k v n s ->. done.
Qed.

Lemma spread_puts_stored_witness :
  exists ka va h', SpreadPuts mapGet mapPut (fun _ => (0, 1)%Z) (fun i k => replicate k (Z.of_nat i mod 256)%Z) 2
      {| hstate := ∅; ops := 0; oplog := None |} = (Return (ka, va), h') /\ length ka = 2 /\ length va = 2.
Proof.
  destruct (spread_puts_stored mapGet mapPut id (fun _ => (0, 1)%Z) (fun i k => replicate k (Z.of_nat i mod 256)%Z) 2
    {| hstate := ∅; ops := 0; oplog := None |}) as (ka & va & h' & H & Hk & Hv & _).
  - intros i. constructor; intros k; [apply length_replicate|]. apply Forall_replicate. apply Z.mod_pos_bound. lia.
  - lia.
  - intros i. reflexivity.
  - exists ka, va, h'. split; [exact H|]. split; lia.
Defined.

Lemma put_at_least_once_terminates_witness :
  exists h', PutAtLeastOnce regPut 3 (fun _ => (0, 1)%Z) "k" "b" 0 7 exHarness = Some (Return 3%Z, h').
Proof.
  destruct (put_at_least_once_terminates regPut regVersion 3 (fun _ => (0, 1)%Z) "k" "b" 0 7 exHarness)
    as (h' & Hp & _); [simpl; unfold regVersion; simpl; lia..|].
  exists h'. exact Hp.
Defined.

Lemma one_put_check_too_weak_witness : checkMyPut OK (3 + 1) 3 0 9 3 = Return tt.
Proof. apply (one_put_check_too_weak 0 3 9); [lia|done]. Defined.

Definition exEntries : list EntryN :=
  [{| Id := 0; N := 0 |}; {| Id := 1; N := 1 |}; {| Id := 0; N := 1 |}].
Definition exRes : list ClntRes := [{| Nok := 2; Nmaybe := 0 |}; {| Nok := 1; Nmaybe := 1 |}].

Lemma check_appends_iff_witness :
  CheckAppends (fun m => elements (dom m)) exEntries 2 exRes 4 = Return tt.
Proof.
  apply (check_appends_iff (fun m => elements (dom m)) exEntries 2 exRes 4).
  - done.
  - done.
  - repeat constructor; simpl; lia.
  - split_and!.
    + intros c. unfold exEntries. rewrite !numbers_cons. unfold numbers. simpl.
      repeat case_decide; simpl; lia.
    + reflexivity.
    + intros [|[|i]] r [= <-]; vm_compute; by split.
Defined.

End KvTest.
