(* ===== verification/KvAppend.v ===== *)
(** * The concurrent append test

    Models [OneClientAppend] of [src/src/kvtest1/kvtest.go] together with the
    test that runs it ([SpawnClientsAndWait] and [CheckAppends]): any number of
    clients append their entries to the shared key "k" with a [Get] and a
    versioned [Put] each, retrying when another client came between, and the
    checker looks at the final value and at the clients' counts.

    The server under test is a parameter: a state with a value and a version
    for the key, and relations for the clerk's [Get] and [Put] that keep their
    documented contract ([AppendServer]).  A clerk call is made of the server's
    work and of its return, which are separate steps, so that clients interleave
    also while calls are on their way. *)

From S2P Require Import Prelude Models KvTest.

Set Default Proof Using "Type".

Module KvAppend.
Import Models(OK, ErrVersion, ErrMaybe).
Import KvTest.

(** What the clerk's documentation promises of [Put]: it takes effect only when
    the version matches, and then the version grows; [OK] means it did,
    [ErrVersion] that it did not, [ErrMaybe] leaves it open. *)
Inductive putResult (value : string) (ver : Z) (srv : string * Z) : string -> string * Z -> Prop :=
| put_ok : ver = srv.2 -> putResult value ver srv OK (value, (ver + 1)%Z)
| put_version : ver <> srv.2 -> putResult value ver srv ErrVersion srv
| put_maybe_applied : ver = srv.2 -> putResult value ver srv ErrMaybe (value, (ver + 1)%Z)
| put_maybe_not : putResult value ver srv ErrMaybe srv.

(** The server under test, and the JSON encoding of lists of entries. *)
Class AppendServer {S : Type} (key : S -> string * Z)
    (ckGet : S -> string * Z -> S -> Prop) (ckPut : string -> Z -> S -> string -> S -> Prop)
    (marshal : list EntryN -> string) (unmarshal : string -> option (list EntryN)) : Prop := {
  get_contract s r s' : ckGet s r s' -> r = key s /\ key s' = key s;
  put_contract v ver s err s' : ckPut v ver s err s' -> putResult v ver (key s) err (key s');
  entries_roundtrip es : unmarshal (marshal es) = Some es
}.

Section Append.
Context {S : Type} (key : S -> string * Z).
Context (ckGet : S -> string * Z -> S -> Prop) (ckPut : string -> Z -> S -> string -> S -> Prop).
Context (marshal : list EntryN -> string) (unmarshal : string -> option (list EntryN)).

(** Where a client is in [OneClientAppend]: at the head of its loop, about to
    read, in a [Get] that the server has answered, about to write the list it
    read with its entry appended, in a [Put] that the server has answered, or
    done. *)
Inductive pc :=
| Select
| Reading | Got (r : string * Z)
| Writing (ver : Z) (es : list EntryN) | Answered (err : string)
| Returned | Failed (msg : string).

Record client := { c_pc : pc; c_i : Z; c_nok : Z; c_nmay : Z }.

Definition newClient : client := {| c_pc := Select; c_i := 0; c_nok := 0; c_nmay := 0 |}.
Definition goto (p : pc) (c : client) : client :=
  {| c_pc := p; c_i := c_i c; c_nok := c_nok c; c_nmay := c_nmay c |}.
(** After a put that succeeded, or may have, the client goes on to the next
    number. *)
Definition nextNumber (nok nmay : Z) (c : client) : client :=
  {| c_pc := Select; c_i := c_i c + 1; c_nok := c_nok c + nok; c_nmay := c_nmay c + nmay |}.
Definition result (c : client) : ClntRes := {| Nok := c_nok c; Nmaybe := c_nmay c |}.

(** What the client does when its put returns. *)
Definition afterPut (err : string) (c : client) : client :=
  if decide (err = OK) then nextNumber 1 0 c
  else if decide (err = ErrMaybe) then nextNumber 0 1 c
  else goto Reading c.

(** What it does with the value it read: [GetJson] fails the test when it does
    not decode. *)
Definition afterGet (me : Z) (r : string * Z) (c : client) : client :=
  match unmarshal r.1 with
  | Some es => goto (Writing r.2 (es ++ [{| Id := me; N := c_i c |}])) c
  | None => goto (Failed "Unmarshal err") c
  end.

Inductive cstep (me : Z) : client -> S -> client -> S -> Prop :=
| c_done c s : c_pc c = Select -> cstep me c s (goto Returned c) s
| c_default c s : c_pc c = Select -> cstep me c s (goto Reading c) s
| c_get c s r s' : c_pc c = Reading -> ckGet s r s' -> cstep me c s (goto (Got r) c) s'
| c_got c s r : c_pc c = Got r -> cstep me c s (afterGet me r c) s
| c_put c s ver es err s' :
    c_pc c = Writing ver es -> ckPut (marshal es) ver s err s' -> cstep me c s (goto (Answered err) c) s'
| c_return c s err : c_pc c = Answered err -> cstep me c s (afterPut err c) s.

(** The test: [nclnt] clients on one server. *)
Record world := { server : S; clients : list client }.

Inductive step (w : world) : world -> Prop :=
| w_step i c c' s' :
    clients w !! i = Some c -> cstep (Z.of_nat i) c (server w) c' s' ->
    step w {| server := s'; clients := <[i := c']> (clients w) |}.

Definition start (s : S) (nclnt : nat) : world := {| server := s; clients := replicate nclnt newClient |}.

(** ** The invariant *)

(** A put of the client has taken effect and has not been counted. *)
Definition in_flight (c : client) : bool := match c_pc c with Answered _ => true | _ => false end.

(** The client once a put that is in flight has returned. *)
Definition settle (c : client) : client :=
  match c_pc c with Answered err => afterPut err c | _ => c end.

(** A client's numbers on the server: increasing, below the one it is at, and
    no fewer than the puts it knows succeeded. *)
Definition accounted (es : list EntryN) (i : nat) (c : client) : Prop :=
  let l := numbers (Z.of_nat i) es in
  increasing 0 l /\ (next 0 l <= c_i c)%Z /\ (0 <= c_i c)%Z /\
  (c_nok c + c_nmay c = c_i c)%Z /\ (c_nok c <= len l)%Z.

(** What a client has read is the list of that version; what it is about to write
    extends the current list if its version is still current. *)
Definition pending (es : list EntryN) (ver : Z) (i : nat) (c : client) : Prop :=
  match c_pc c with
  | Got r => exists l, r.1 = marshal l /\ (r.2 <= ver)%Z /\ (r.2 = ver -> l = es)
  | Writing v l => (v <= ver)%Z /\ (v = ver -> l = es ++ [{| Id := Z.of_nat i; N := c_i c |}])
  | Failed _ => False
  | _ => True
  end.

Definition Inv (w : world) : Prop :=
  exists es, key (server w) = (marshal es, (len es + 1)%Z) /\
    Forall (fun e => 0 <= Id e < len (clients w))%Z es /\
    forall i c, clients w !! i = Some c -> accounted es i (settle c) /\ pending es (len es + 1) i (settle c).

Lemma settle_idle c : in_flight c = false -> settle c = c.
Proof. unfold in_flight, settle. by destruct (c_pc c). Qed.

Lemma settle_afterPut err c : settle (afterPut err c) = afterPut err c.
Proof. apply settle_idle. unfold afterPut. by repeat case_decide. Qed.

Lemma settle_answered err c : settle (goto (Answered err) c) = afterPut err c.
Proof. unfold settle, afterPut. simpl. by repeat case_decide. Qed.

Lemma numbers_snoc c es e :
  numbers c (es ++ [e]) = numbers c es ++ (if decide (Id e = c) then [N e] else []).
Proof. unfold numbers. rewrite filter_app, fmap_app, filter_cons, filter_nil. by case_decide. Qed.

Lemma next_snoc b l x : next b (l ++ [x]) = (x + 1)%Z.
Proof. unfold next. by rewrite foldl_app. Qed.

Lemma increasing_snoc b l x : increasing b l -> (next b l <= x)%Z -> increasing b (l ++ [x]).
Proof.
  revert b. induction l as [|y l IH]; intros b; simpl; [intros _ ?; split; [done|done]|].
  intros [Hy Hl] Hx. split; [done|]. by apply IH.
Qed.

(** Another client's append does not touch a client's numbers. *)
Lemma accounted_other es i j c n :
  i <> j -> accounted es i c -> accounted (es ++ [{| Id := Z.of_nat j; N := n |}]) i c.
Proof.
  intros Hij H. unfold accounted. rewrite numbers_snoc. simpl.
  rewrite decide_False by lia. by rewrite app_nil_r.
Qed.

(** The client's own append of its current number. *)
Lemma accounted_own es i c nok nmay :
  accounted es i c -> (nok + nmay = 1)%Z -> (nok <= 1)%Z ->
  accounted (es ++ [{| Id := Z.of_nat i; N := c_i c |}]) i (nextNumber nok nmay c).
Proof.
  intros (H1 & H2 & H3 & H4 & H5) Hs Hn. unfold accounted. rewrite numbers_snoc. simpl.
  rewrite decide_True by done. rewrite next_snoc. split_and!; [by apply increasing_snoc|lia|lia|lia|].
  unfold len in *. rewrite length_app. simpl. lia.
Qed.

Lemma pending_other es ver i c e : pending es ver i c -> pending (es ++ [e]) (ver + 1) i c.
Proof.
  unfold pending. destruct (c_pc c); try done.
  - intros (l & Hl & Hv & _). exists l. split_and!; [done|lia|lia].
  - intros [Hv _]. split; lia.
Qed.

Lemma accounted_goto es i c p : accounted es i c -> accounted es i (goto p c).
Proof. done. Qed.

Section Contract.
Context `{!AppendServer key ckGet ckPut marshal unmarshal}.

(** A step that leaves the list alone. *)
Lemma Inv_same_list w i c c' s' es :
  key s' = (marshal es, (len es + 1)%Z) -> key (server w) = (marshal es, (len es + 1)%Z) ->
  Forall (fun e => 0 <= Id e < len (clients w))%Z es ->
  (forall i c, clients w !! i = Some c -> accounted es i (settle c) /\ pending es (len es + 1) i (settle c)) ->
  clients w !! i = Some c -> accounted es i (settle c') -> pending es (len es + 1) i (settle c') ->
  Inv {| server := s'; clients := <[i := c']> (clients w) |}.
Proof.
  intros Hs' _ Hids Hall Hc Ha Hp. exists es. simpl. unfold len at 2. rewrite length_insert.
  split_and!; [done|done|]. intros j d Hj.
  apply list_lookup_insert_Some in Hj as [(-> & -> & _)|[_ Hj]]; [by split|eauto].
Qed.

(** A step that appends the client's current number. *)
Lemma Inv_append w i c c' s' es nok nmay :
  key s' = (marshal (es ++ [{| Id := Z.of_nat i; N := c_i c |}]), (len es + 1 + 1)%Z) ->
  Forall (fun e => 0 <= Id e < len (clients w))%Z es ->
  (forall i c, clients w !! i = Some c -> accounted es i (settle c) /\ pending es (len es + 1) i (settle c)) ->
  clients w !! i = Some c -> in_flight c = false ->
  settle c' = nextNumber nok nmay c -> (nok + nmay = 1)%Z -> (nok <= 1)%Z ->
  Inv {| server := s'; clients := <[i := c']> (clients w) |}.
Proof.
  intros Hs' Hids Hall Hc Hf Hc' Hn Hn'. set (e := {| Id := Z.of_nat i; N := c_i c |}) in *.
  assert (len (es ++ [e]) = len es + 1)%Z as Hlen by (unfold len; rewrite length_app; simpl; lia).
  exists (es ++ [e]). simpl. unfold len at 2. rewrite length_insert, Hlen. split_and!; [done| |].
  - apply Forall_app. split; [done|]. repeat constructor; simpl; [lia|].
    apply lookup_lt_Some in Hc. lia.
  - intros j d Hj. apply list_lookup_insert_Some in Hj as [(<- & <- & _)|[Hne Hj]].
    + rewrite Hc'. split; [|done]. apply accounted_own; [|done|done].
      rewrite <-(settle_idle c) by done. by apply Hall.
    + destruct (Hall _ _ Hj) as [Ha Hp]. split; [by apply accounted_other|by apply pending_other].
Qed.

(** The server's part of a put. *)
Lemma Inv_put w i c ver l err s' :
  Inv w -> clients w !! i = Some c -> c_pc c = Writing ver l -> ckPut (marshal l) ver (server w) err s' ->
  Inv {| server := s'; clients := <[i := goto (Answered err) c]> (clients w) |}.
Proof using Type*.
  intros (es & Hk & Hids & Hall) Hc Hpc Hput. destruct (Hall _ _ Hc) as [Ha Hp].
  assert (in_flight c = false) as Hf by (unfold in_flight; by rewrite Hpc).
  rewrite settle_idle in Ha, Hp by done. unfold pending in Hp. rewrite Hpc in Hp. destruct Hp as [Hle Heq].
  apply put_contract in Hput. rewrite Hk in Hput.
  inversion Hput as [Hv E1 E2|Hv E1 E2|Hv E1 E2|E1 E2]; simpl in *; subst.
  - rewrite Heq in E2 by done. by apply (Inv_append w i c _ _ es 1 0).
  - by eapply Inv_same_list.
  - rewrite Heq in E2 by done. by apply (Inv_append w i c _ _ es 0 1).
  - eapply Inv_same_list; try done. rewrite settle_answered. unfold afterPut. simpl.
    destruct Ha as (H1 & H2 & H3 & H4 & H5). unfold accounted. simpl. split_and!; try done; lia.
Qed.

Lemma append_inv_step w w' : step w w' -> Inv w -> Inv w'.
Proof using Type*.
  intros [i c c' s' Hc Hs] HI. inversion Hs as [| |? ? r ? Hpc Hget|? ? r Hpc|? ? ver l err ? Hpc Hput|? ? err Hpc]; subst.
  5: by eapply Inv_put.
  all: destruct HI as (es & Hk & Hids & Hall); destruct (Hall _ _ Hc) as [Ha Hp].
  all: try rewrite settle_idle in Ha, Hp by (unfold in_flight; by case_match; simplify_eq).
  - by eapply Inv_same_list.
  - by eapply Inv_same_list.
  - apply get_contract in Hget as [-> Hk']. eapply Inv_same_list; try done; [by rewrite Hk'|].
    rewrite Hk. exists es. by split_and!.
  - unfold pending in Hp. rewrite Hpc in Hp. destruct Hp as (l & Hl & Hle & Heq).
    eapply Inv_same_list; try done; unfold afterGet; rewrite Hl, entries_roundtrip; [done|].
    simpl. split; [done|]. intros E. by rewrite Heq.
  - unfold settle in Ha, Hp. rewrite Hpc in Ha, Hp. eapply Inv_same_list; try done; by rewrite settle_afterPut.
Qed.

Lemma Inv_start s0 nclnt : key s0 = (marshal [], 1%Z) -> Inv (start s0 nclnt).
Proof.
  intros Hk. exists []. split_and!; [done|constructor|].
  intros i c [-> _]%lookup_replicate. split; [|done]. unfold accounted. simpl. unfold len. simpl. split_and!; try done; lia.
Qed.

Lemma Inv_run s0 nclnt w : key s0 = (marshal [], 1%Z) -> rtc step (start s0 nclnt) w -> Inv w.
Proof using Type*.
  intros Hk%(Inv_start s0 nclnt) Hr. induction Hr; eauto using append_inv_step.
Qed.

Lemma step_clients w w' : rtc step w w' -> length (clients w') = length (clients w).
Proof. induction 1 as [|w w1 w' [] _ IH]; [done|]. rewrite IH. simpl. by rewrite length_insert. Qed.

End Contract.
End Append.

(** C8: the append test does not fail a correct server.  Against any server that
    keeps the documented contract, started with an empty list at version 1,
    and in every interleaving of any number of clients -- with puts that lose
    races, puts whose fate the client does not know, and time between the
    server's work and a call's return -- no client ever fails to decode what it
    reads; and whenever no put is between its effect and its return, as when all
    clients have returned, the value and the version that a [Get] reads and the
    clients' counts pass [CheckAppends], as long as the version fits an [int]. *)
Theorem append_test_passes {S} (key : S -> string * Z) ckGet ckPut marshal unmarshal
    `{!AppendServer key ckGet ckPut marshal unmarshal} orderOf s0 nclnt w :
  (forall m, orderOf m ≡ₚ elements (dom m)) -> key s0 = (marshal [], 1%Z) ->
  rtc (step ckGet ckPut marshal unmarshal) (start s0 nclnt) w ->
  Forall (fun c => forall m, c_pc c <> Failed m) (clients w) /\
  forall r s', Forall (fun c => in_flight c = false) (clients w) ->
    ckGet (server w) r s' -> (r.2 < 2 ^ 63)%Z ->
    exists es, unmarshal r.1 = Some es /\
      CheckAppends orderOf es nclnt (result <$> clients w) r.2 = Return tt.
Proof.
  intros Ho Hk Hr. assert (length (clients w) = nclnt) as Hlen.
  { rewrite (step_clients _ _ _ _ _ _ Hr). apply length_replicate. }
  destruct (Inv_run key ckGet ckPut marshal unmarshal s0 nclnt w Hk Hr) as (es & Hkey & Hids & Hall).
  split.
  { apply Forall_lookup. intros i c Hc m Hm. destruct (Hall _ _ Hc) as [_ Hp].
    unfold settle, pending in Hp. by rewrite Hm, Hm in Hp. }
  intros r s' Hidle [-> _]%get_contract Hver. rewrite Hkey in *. simpl in *.
  assert (forall i c, clients w !! i = Some c -> accounted es i c) as Hacc.
  { intros i c Hc. rewrite <-(settle_idle c) by exact (Forall_lookup_1 _ _ _ _ Hidle Hc). by apply Hall. }
  exists es. split; [apply entries_roundtrip|].
  apply CheckAppends_spec; [done|by rewrite length_fmap| |].
  { unfold len in Hids. by rewrite Hlen in Hids. }
  split_and!.
  - intros c. destruct (decide (0 <= c < Z.of_nat nclnt)%Z) as [Hc|Hc].
    + destruct (lookup_lt_is_Some_2 (clients w) (Z.to_nat c)) as [d Hd]; [lia|].
      destruct (Hacc _ _ Hd) as [Hi _]. by rewrite Z2Nat.id in Hi by lia.
    + unfold numbers. rewrite filter_none_nil; [done|]. apply Forall_forall. intros e He Heq.
      rewrite Forall_forall in Hids. specialize (Hids _ He). unfold len in Hids. lia.
  - unfold wrap64. pose proof (len_nonneg es). rewrite Z.mod_small; lia.
  - intros i r Hi. rewrite list_lookup_fmap in Hi. apply fmap_Some in Hi as (c & Hc & ->).
    destruct (Hacc _ _ Hc) as (_ & H2 & _ & H4 & H5). simpl. lia.
Qed.

(** ** A concrete server *)

Definition exMarshal (es : list EntryN) : string := pos_str (encode ((fun e => (Id e, N e)) <$> es)).
Definition exUnmarshal (s : string) : option (list EntryN) :=
  l ← decode (str_pos s); Some ((fun p => {| Id := p.1; N := p.2 |}) <$> (l : list (Z * Z))).
Definition exGet (s : string * Z) (r : string * Z) (s' : string * Z) : Prop := r = s /\ s' = s.

#[export] Instance exServer : AppendServer id exGet putResult exMarshal exUnmarshal.
Proof.
  split; [by intros s r s' [-> ->]|done|].
  intros es. unfold exUnmarshal, exMarshal. rewrite str_pos_str, decode_encode. simpl. f_equal.
  rewrite <-list_fmap_compose. rewrite <-(list_fmap_id es) at 2. apply list_fmap_ext. by intros i [].
Qed.

Definition e0 : EntryN := {| Id := 0; N := 0 |}.
Definition e1 : EntryN := {| Id := 1; N := 0 |}.
Definition exStart : world := start (exMarshal [], 1%Z) 2.
Definition exStep := step exGet putResult exMarshal exUnmarshal.

(** One step of client [i]. *)
Ltac turn i := eapply rtc_l; [eapply (w_step _ _ _ _ _ i); [reflexivity|]|]; simpl.
Ltac get i := turn i; [by eapply c_get; [|split]|]; turn i; [by apply c_got|].
Ltac put i H := turn i; [by eapply c_put; [|apply H]|].
Ltac back i := turn i; [by eapply c_return|].

(** Both clients have read the empty list and client 0's put took effect. *)
Definition exRace : world :=
  {| server := (exMarshal [e0], 2%Z);
     clients := [{| c_pc := Answered OK; c_i := 0; c_nok := 0; c_nmay := 0 |};
                 {| c_pc := Writing 1 [e1]; c_i := 0; c_nok := 0; c_nmay := 0 |}] |}.

Lemma exRace_run : rtc exStep exStart exRace.
Proof.
  unfold exStart, start. simpl. turn 0; [by apply c_default|]. get 0.
  turn 1; [by apply c_default|]. get 1. put 0 put_ok. apply rtc_refl.
Qed.

(** At that moment the check would fail: the put has not been counted. *)
Example inflight_not_counted :
  CheckAppends (fun m => elements (dom m)) [e0] 2 (result <$> clients exRace) 2 <> Return tt.
Proof. by vm_compute. Qed.

(** Client 1 loses the race, retries, and its put is applied without it knowing;
    both are told to stop. *)
Definition exFinal : world :=
  {| server := (exMarshal [e0; e1], 3%Z);
     clients := [{| c_pc := Returned; c_i := 1; c_nok := 1; c_nmay := 0 |};
                 {| c_pc := Returned; c_i := 1; c_nok := 0; c_nmay := 1 |}] |}.

Lemma exFinal_run : rtc exStep exStart exFinal.
Proof.
  etrans; [apply exRace_run|]. put 1 put_version. back 1. back 0. get 1. put 1 put_maybe_applied.
  turn 0; [by apply c_done|]. back 1. turn 1; [by apply c_done|]. apply rtc_refl.
Qed.

Lemma append_test_passes_witness :
  exists es, exUnmarshal (server exFinal).1 = Some es /\ es = [e0; e1] /\
    CheckAppends (fun m => elements (dom m)) es 2 (result <$> clients exFinal) 3 = Return tt.
Proof.
  destruct (append_test_passes id exGet putResult exMarshal exUnmarshal (fun m => elements (dom m))
    (exMarshal [], 1%Z) 2 exFinal) as (_ & H); [done|done|apply exFinal_run|].
  destruct (H (exMarshal [e0; e1], 3%Z) (exMarshal [e0; e1], 3%Z)) as (es & H1 & H2);
    [by repeat constructor|done|done|].
  exists es. split_and!; [exact H1| |exact H2]. vm_compute in H1. by injection H1 as <-.
Defined.

End KvAppend.
