(* ===== verification/Rsm.v ===== *)
(** * The replicated state machine and its tester

    Models [src/src/kvraft1/rsm/rsm.go] (the interface between a server and the
    layer that replicates it, and the skeleton of that layer),
    [src/src/kvraft1/rsm/server.go] (the counter server of the tester) and
    [src/src/kvraft1/rsm/test.go] (submitting to whichever server is the
    leader, and checking the counters).  What a replicated server promises is
    the class [LawfulStateMachine]; that a snapshot stands for the operations
    it was made after is proved for every instance of it. *)

From S2P Require Import Prelude Gob LabRpc Persister Raft Models.

Module Rsm.

Set Default Proof Using "Type".

(** ** rsm.go *)

(** [StateMachine]: a value of type [any] that an operation does not expect
    makes it exit. *)
Class StateMachine (sm req rep : Type) := {
  DoOp : req -> sm -> outcome (rep * sm);
  Snapshot : sm -> list Z;
  Restore : list Z -> sm -> outcome sm
}.

(** The operations a replica executes, in order, with their replies. *)
Fixpoint runOps {sm req rep} `{!StateMachine sm req rep} (os : list req) (s : sm)
    : outcome (list rep * sm) :=
  match os with
  | [] => Return ([], s)
  | o :: os =>
      '(r, s) ← DoOp o s;
      '(rs, s) ← runOps os s;
      mret (r :: rs, s)
  end.

(** What replication needs of a server: states that answer alike keep doing so,
    and restoring a snapshot, in any state, gives a state that answers like the
    one it was made of. *)
Class LawfulStateMachine (sm req rep : Type) `{!StateMachine sm req rep} (ok : sm -> Prop)
    (alike : sm -> sm -> Prop) : Prop := {
  ok_DoOp o s r s' : ok s -> DoOp o s = Return (r, s') -> ok s';
  alike_DoOp o s1 s2 r s1' : alike s1 s2 -> DoOp o s1 = Return (r, s1') ->
    exists s2', DoOp o s2 = Return (r, s2') /\ alike s1' s2';
  Restore_Snapshot s any_ : ok s -> exists s', Restore (Snapshot s) any_ = Return s' /\ alike s s'
}.

(** [sm] and the apply channel are not used by the skeleton. *)
Record RSM := { rsm_me : Z; rf : option Raft.Raft; maxraftstate : Z }.

Definition MakeRSM (useRaftStateMachine : bool) (ends : list string) (i : Z) (p : nat) (maxraft : Z)
    (st : Persister.store) : outcome (RSM * Persister.store) :=
  if negb useRaftStateMachine then
    '(r, st) ← Raft.Make ends i p st;
    mret ({| rsm_me := i; rf := Some r; maxraftstate := maxraft |}, st)
  else mret ({| rsm_me := i; rf := None; maxraftstate := maxraft |}, st).

Definition RSM_Raft (rsm : RSM) : option Raft.Raft := rf rsm.

(** [None] is nil. *)
Definition Submit {req rep : Type} (r : req) (rsm : RSM) : string * option rep := (Models.ErrWrongLeader, None).

(** ** server.go *)

Inductive any := Inc | Null | Dec | OtherReq.
Inductive anyRep := IncRep (N : Z) | NullRep.

#[export] Instance any_eq_dec : EqDecision any.
Proof. solve_decision. Defined.

(** [rsm] is [None] when nil. *)
Record rsmSrv := { srv_me : Z; rsm : option RSM; counter : Z }.

Definition set_counter (rs : rsmSrv) (n : Z) : rsmSrv :=
  {| srv_me := srv_me rs; rsm := rsm rs; counter := n |}.

Definition makeRsmSrv (useRaftStateMachine : bool) (srv : Z) (ends : list string) (p : nat) (maxraft : Z)
    (st : Persister.store) : outcome (rsmSrv * Persister.store) :=
  '(r, st) ← MakeRSM useRaftStateMachine ends srv p maxraft st;
  mret ({| srv_me := srv; rsm := Some r; counter := 0 |}, st).

(** A call that runs on its own. *)
Definition rsmSrv_DoOp (req : any) (rs : rsmSrv) : outcome (anyRep * rsmSrv) :=
  match req with
  | Inc => let rs := set_counter rs (wrap64 (counter rs + 1)) in Return (IncRep (counter rs), rs)
  | Null => Return (NullRep, rs)
  | _ => Fatal "DoOp should execute only Inc"
  end.

Definition rsmSrv_Snapshot (rs : rsmSrv) : list Z := Gob.Encode (counter rs).

(** [labgob] decodes with [gob], and counts and prints a warning when the counter
    was not zero before ([Labgob.checkDefault]); the counter read is the same. *)
Definition rsmSrv_Restore (data : list Z) (rs : rsmSrv) : outcome rsmSrv :=
  match Gob.Decode data with
  | Some n => Return (set_counter rs n)
  | None => Fatal "couldn't decode counter"
  end.

Definition Kill (rs : rsmSrv) : rsmSrv :=
  {| srv_me := srv_me rs; rsm := None; counter := counter rs |}.

(** [rs.rsm.Raft()]: a nil [rsm] panics. *)
Definition rsmSrv_Raft (rs : rsmSrv) : outcome (option Raft.Raft) :=
  match rsm rs with
  | Some r => Return (RSM_Raft r)
  | None => Panic "nil pointer dereference"
  end.

#[export] Instance rsmSrv_machine : StateMachine rsmSrv any anyRep := {
  DoOp := rsmSrv_DoOp;
  Snapshot := rsmSrv_Snapshot;
  Restore := rsmSrv_Restore
}.

(** ** Concurrent calls of DoOp(Inc)

    The counter is incremented under the lock and read for the reply after the
    lock was released. *)

Inductive pc := Called | Added | Replied (n : Z).

Inductive incStep : Z * list pc -> Z * list pc -> Prop :=
| inc_add c ps i :
    ps !! i = Some Called -> incStep (c, ps) (wrap64 (c + 1), <[i := Added]> ps)
| inc_reply c ps i :
    ps !! i = Some Added -> incStep (c, ps) (c, <[i := Replied c]> ps).

(** ** test.go *)

Definition NSRV : Z := 3.

(** [p] is [None] when nil. *)
Fixpoint inList (s : Z) (p : list Z) : bool :=
  match p with
  | [] => false
  | i :: p => if decide (s = i) then true else inList s p
  end.
Definition inPartition (s : Z) (p : option (list Z)) : bool :=
  match p with None => true | Some p => inList s p end.

(** What a try of server [index] meets: whether it is on the net, whether its
    [rsm] is not nil, and what [Submit] answers.  [k] counts the tries. *)
Record probe (rep : Type) := {
  p_connected : bool; p_rsm : bool; p_submit : string * option rep
}.
Arguments p_connected {_} _.
Arguments p_rsm {_} _.
Arguments p_submit {_} _.

Section Tester.
Context {rep : Type}.
Implicit Types (probes : nat -> Z -> probe rep) (p : option (list Z)).

(** The inner loop, with [m] servers left to try: the reply and the leader, or
    the number of tries so far. *)
Fixpoint tryServers probes (n : Z) p (m k : nat) (index : Z) : (option rep * Z) + nat :=
  match m with
  | O => inr k
  | S m =>
      let q := probes k index in
      let next := tryServers probes n p m (S k) (Z.rem (index + 1) n) in
      if p_connected q then
        if p_rsm q && inPartition index p then
          if decide ((p_submit q).1 = Models.OK) then inl ((p_submit q).2, index) else next
        else next
      else next
  end.

(** [onePartition]: [rounds] is the number of turns before [NSEC] seconds have
    passed, [leaderAt r] what [ts.leader] holds at the start of turn [r].  The
    result has the leader it stored, if any. *)
Fixpoint onePartition probes (n : nat) p (leaderAt : nat -> Z) (rounds r k : nat) : option rep * option Z :=
  match rounds with
  | O => (None, None)
  | S rounds =>
      match tryServers probes (Z.of_nat n) p n k (leaderAt r) with
      | inl (reply, index) => (reply, Some index)
      | inr k => onePartition probes n p leaderAt rounds (S r) k
      end
  end.
End Tester.

(** [rep.( *IncRep)] panics on another type. *)
Definition oneInc (r : option anyRep) : outcome (option Z) :=
  match r with
  | None => Return None
  | Some (IncRep n) => Return (Some n)
  | Some NullRep => Panic "interface conversion"
  end.
Definition oneNull (r : option anyRep) : outcome (option unit) :=
  match r with
  | None => Return None
  | Some NullRep => Return (Some ())
  | Some (IncRep _) => Panic "interface conversion"
  end.

Fixpoint countValue (v : Z) (counters : list Z) : Z :=
  match counters with
  | [] => 0
  | c :: l => (if decide (c = v) then 1 else 0) + countValue v l
  end.

(** [checkCounter]: [polls i] are the counters in turn [i]; [to] the pause in
    milliseconds; the result is the time slept, or the number of servers found
    last. *)
Fixpoint checkCounterLoop (polls : nat -> list Z) (v nsrv : Z) (m i : nat) (to slept n : Z) : Z + Z :=
  match m with
  | O => inr n
  | S m =>
      let n := countValue v (polls i) in
      if decide (n >= nsrv)%Z then inl slept
      else checkCounterLoop polls v nsrv m (S i) (if decide (to < 1000)%Z then to * 2 else to) (slept + to) n
  end.
Definition checkCounter (polls : nat -> list Z) (v nsrv : Z) : outcome Z :=
  match checkCounterLoop polls v nsrv 30 0 10 0 0 with
  | inl slept => Return slept
  | inr n => Fatal ("checkCounter: only " +:+ Itoa n +:+ " srvs have " +:+ Itoa v +:+ " instead of " +:+ Itoa nsrv)
  end.

(** [Leader]: the services of each server of the group; a service that is a Raft
    peer answers [GetState]. *)
Fixpoint peerLeads {rfT} `{!Raft.RaftApi rfT any} (ss : list (option rfT)) : bool :=
  match ss with
  | [] => false
  | Some r :: ss => if (Raft.api_GetState (any := any) r).2 then true else peerLeads ss
  | None :: ss => peerLeads ss
  end.
Fixpoint Leader {rfT} `{!Raft.RaftApi rfT any} (i : Z) (sss : list (list (option rfT))) : bool * Z :=
  match sss with
  | [] => (false, 0%Z)
  | ss :: sss => if peerLeads ss then (true, i) else Leader (i + 1) sss
  end.
(** ** A snapshot stands for the operations before it *)

Section Replay.
Context {sm req rep : Type} `{!StateMachine sm req rep} {ok : sm -> Prop} {alike : sm -> sm -> Prop}.
Context `{!LawfulStateMachine sm req rep ok alike}.

Lemma runOps_ok os : forall s rs s', ok s -> runOps os s = Return (rs, s') -> ok s'.
Proof using All.
  induction os as [|o os IH]; intros s rs s' Hs; simpl; [by intros [= _ <-]|].
  intros ([r s1] & Hd & Hr)%bind_Return. apply bind_Return in Hr as ([rs1 s2] & Hr & Hm).
  injection Hm as _ <-. eapply IH, Hr. by eapply ok_DoOp.
Qed.

Lemma runOps_alike os : forall s1 s2 rs s1', alike s1 s2 -> runOps os s1 = Return (rs, s1') ->
  exists s2', runOps os s2 = Return (rs, s2') /\ alike s1' s2'.
Proof using All.
  induction os as [|o os IH]; intros s1 s2 rs s1' Ha; simpl.
  { intros [= <- <-]. by exists s2. }
  intros ([r t1] & Hd & Hr)%bind_Return. apply bind_Return in Hr as ([rs1 t1'] & Hr & Hm).
  injection Hm as <- <-. destruct (alike_DoOp o s1 s2 r t1 Ha Hd) as (t2 & -> & Ha'). csimpl.
  destruct (IH t1 t2 rs1 t1' Ha' Hr) as (s2' & -> & Ha2). by exists s2'.
Qed.

(** A replica that restores a snapshot made after some operations and then
    executes the rest answers as one that executed them all. *)
Lemma replay os1 os2 s0 rs1 s1 rs2 s2 f :
  ok s0 -> runOps os1 s0 = Return (rs1, s1) -> runOps os2 s1 = Return (rs2, s2) ->
  exists s1' s2', Restore (Snapshot s1) f = Return s1' /\ runOps os2 s1' = Return (rs2, s2') /\
    alike s2 s2'.
Proof using All.
  intros H0 H1 H2. destruct (Restore_Snapshot s1 f) as (s1' & Hr & Ha); [by eapply runOps_ok|].
  destruct (runOps_alike os2 s1 s1' rs2 s2 Ha H2) as (s2' & H3 & H4). by exists s1', s2'.
Qed.
End Replay.

Definition inInt (rs : rsmSrv) : Prop := (int_min <= counter rs <= int_max)%Z.
Definition sameCounter (rs rs' : rsmSrv) : Prop := counter rs = counter rs'.

Lemma wrap64_range z : (int_min <= wrap64 z <= int_max)%Z.
Proof.
  unfold int_min, int_max, wrap64. pose proof (Z.mod_pos_bound (z + 2 ^ 63) (2 ^ 64)). lia.
Qed.

#[export] Instance rsmSrv_lawful : LawfulStateMachine rsmSrv any anyRep inInt sameCounter.
Proof.
  constructor.
  - intros [] s r s' Hs; simpl; intros [= _ <-]; [apply wrap64_range|done].
  - unfold sameCounter. intros [] s1 s2 r s1' Ha; simpl; intros [= <- <-].
    + simpl. rewrite Ha. by eexists.
    + by eexists.
  - intros s f Hs. simpl. unfold rsmSrv_Restore, rsmSrv_Snapshot. rewrite Gob.gob_int_roundtrip by done.
    by eexists.
Qed.

(** C14: A snapshot of the counter server stands for the operations before it.
    However the operations are cut in two, a server that restores the bytes
    of a snapshot made after the first part, whatever it held before, answers
    the second part exactly as the server that executed both, and ends with
    the same counter; bytes that are not a gob message make it exit. *)
Theorem rsm_snapshot_replay os1 os2 rs reps1 rs1 reps2 rs2 f :
  inInt rs -> runOps os1 rs = Return (reps1, rs1) -> runOps os2 rs1 = Return (reps2, rs2) ->
  (exists f1 f2, rsmSrv_Restore (rsmSrv_Snapshot rs1) f = Return f1 /\
     runOps os2 f1 = Return (reps2, f2) /\ counter f2 = counter rs2) /\
  exists m, rsmSrv_Restore [] f = Fatal m.
Proof.
  intros H0 H1 H2. split; [|by eexists].
  destruct (replay (ok := inInt) (alike := sameCounter) os1 os2 rs reps1 rs1 reps2 rs2 f H0 H1 H2)
    as (f1 & f2 & Hr & Hs & Ha). by exists f1, f2.
Qed.

(** ** Counting *)

Definition isInc (o : any) : Prop := o = Inc.
Definition incReplies (l : list anyRep) : list Z :=
  omap (fun r => match r with IncRep n => Some n | NullRep => None end) l.

(** Executed one after the other, increments are numbered without gap.  On a
    sequence of [Inc] and [Null] operations the server never exits; the
    counter grows by the number of [Inc]s, and their replies are the
    consecutive numbers from the old counter to the new, as long as these fit
    an [int]. *)
Theorem serial_incs_numbered os : forall rs,
  Forall (fun o => o = Inc \/ o = Null) os ->
  (0 <= counter rs)%Z -> (counter rs + Z.of_nat (count isInc os) <= int_max)%Z ->
  exists reps rs', runOps os rs = Return (reps, rs') /\
    counter rs' = (counter rs + Z.of_nat (count isInc os))%Z /\
    incReplies reps = seqZ (counter rs + 1) (Z.of_nat (count isInc os)).
Proof.
  induction os as [|o os IH]; intros rs Hos H0 Hm.
  { exists [], rs. split; [done|]. change (count isInc []) with 0. split; [lia|done]. }
  apply Forall_cons in Hos as [Ho Hos]. rewrite count_cons in Hm |- *.
  destruct Ho as [->| ->].
  - rewrite decide_True in Hm |- * by done.
    assert (wrap64 (counter rs + 1) = counter rs + 1)%Z as Hw.
    { apply wrap64_small. unfold int_min, int_max in *. lia. }
    destruct (IH (set_counter rs (wrap64 (counter rs + 1)))) as (reps & rs' & Hr & Hc & Hi);
      [done|simpl; lia|simpl; lia|]. simpl in Hr |- *. rewrite Hr. csimpl. eexists _, _. split; [done|].
    simpl in Hc, Hi. rewrite Hw in Hc, Hi. split; [lia|]. simpl. rewrite Hi, Hw.
    change (S (count isInc os)) with (1 + count isInc os).
    rewrite Nat2Z.inj_add, (seqZ_cons (counter rs + 1)) by lia. f_equal. f_equal; lia.
  - rewrite decide_False in Hm |- * by done. destruct (IH rs) as (reps & rs' & Hr & Hc & Hi); [done|lia|lia|].
    simpl in Hr |- *. rewrite Hr. csimpl. by eexists _, _.
Qed.

(** ** Concurrent increments *)

Definition called (p : pc) : Prop := p = Called.
#[local] Instance called_dec p : Decision (called p).
Proof. unfold called. destruct p; (left; done) || (right; done). Defined.

Record IncInv (n : nat) (st : Z * list pc) : Prop := {
  ii_len : length st.2 = n;
  ii_count : (st.1 + Z.of_nat (count called st.2) = Z.of_nat n)%Z;
  ii_reply r : Replied r ∈ st.2 -> (1 <= r <= st.1)%Z;
  ii_added : Added ∈ st.2 -> (1 <= st.1)%Z;
  ii_last : st.1 = 0%Z \/ Added ∈ st.2 \/ Replied st.1 ∈ st.2
}.

Lemma elem_of_insert {A} (l : list A) i x y : y ∈ <[i := x]> l -> y = x \/ y ∈ l.
Proof.
  intros [j Hj]%list_elem_of_lookup. rewrite list_lookup_insert in Hj. case_decide; simplify_eq; [by left|].
  right. by eapply list_elem_of_lookup_2.
Qed.

Lemma elem_of_insert_self {A} (l : list A) i x y : l !! i = Some y -> x ∈ <[i := x]> l.
Proof.
  intros Hi. eapply list_elem_of_lookup_2. apply list_lookup_insert_eq. by eapply lookup_lt_Some.
Qed.

Lemma IncInv_step n st st' :
  (Z.of_nat n <= int_max)%Z -> incStep st st' -> IncInv n st -> IncInv n st'.
Proof.
  intros Hn Hs [H1 H2 H3 H4 H5]. destruct Hs as [c ps i Hi|c ps i Hi]; simpl in *;
    pose proof (fun p q => count_insert called ps i p q) as Hc; pose proof (count_le called ps).
  - specialize (Hc _ Added Hi). rewrite decide_True, decide_False in Hc by done.
    assert (0 <= c)%Z as H0.
    { destruct H5 as [->|[Ha|Hr]]; [done|apply H4 in Ha; lia|apply H3 in Hr; lia]. }
    assert (wrap64 (c + 1) = c + 1)%Z as Hw.
    { apply wrap64_small. unfold int_min, int_max in *. lia. }
    rewrite Hw. constructor; simpl.
    + by rewrite length_insert.
    + lia.
    + intros r [?|Hr%H3]%elem_of_insert; [done|lia].
    + intros _. lia.
    + right; left. by eapply elem_of_insert_self.
  - specialize (Hc _ (Replied c) Hi). rewrite !decide_False in Hc by done.
    assert (1 <= c)%Z as H0 by (apply H4; by eapply list_elem_of_lookup_2).
    constructor; simpl.
    + by rewrite length_insert.
    + lia.
    + intros r [[= ->]|Hr%H3]%elem_of_insert; lia.
    + done.
    + right; right. by eapply elem_of_insert_self.
Qed.

Lemma IncInv_init n : IncInv n (0%Z, replicate n Called).
Proof.
  constructor; simpl.
  - apply length_replicate.
  - rewrite (proj2 (count_all called _)); [rewrite length_replicate; lia|]. by apply Forall_replicate.
  - intros r [? _]%elem_of_replicate. done.
  - intros [? _]%elem_of_replicate. done.
  - by left.
Qed.

(** Concurrent increments are not lost, whatever the interleaving.  When [n]
    calls of [DoOp] on [Inc] run at once and all have replied, the counter is
    [n], every reply is between 1 and [n], and one of them is [n]. *)
Theorem concurrent_incs_counted n c ps :
  (Z.of_nat n <= int_max)%Z -> rtc incStep (0%Z, replicate n Called) (c, ps) ->
  Forall (fun p => exists r, p = Replied r) ps ->
  c = Z.of_nat n /\ (forall r, Replied r ∈ ps -> (1 <= r <= Z.of_nat n)%Z) /\
  (n <> 0 -> Replied (Z.of_nat n) ∈ ps).
Proof.
  intros Hn Hr Hd. assert (IncInv n (c, ps)) as [H1 H2 H3 H4 H5].
  { pose proof (IncInv_init n) as HI. revert HI. induction Hr as [|x y z Hs _ IH]; [done|].
    intros HI. apply IH. by eapply IncInv_step. }
  simpl in *. assert (count called ps = 0) as H0.
  { apply count_none. eapply Forall_impl; [exact Hd|]. intros p [r ->]. done. }
  assert (c = Z.of_nat n) as -> by lia. split_and!; [done|done|]. intros Hne.
  destruct H5 as [?|[Ha|?]]; [lia| |done]. rewrite Forall_forall in Hd. by destruct (Hd _ Ha).
Qed.

(** But the replies need not be different: the reply reads the counter after the
    lock was released. *)
Theorem concurrent_incs_same_reply :
  rtc incStep (0%Z, [Called; Called]) (2%Z, [Replied 2; Replied 2]).
Proof.
  eapply rtc_l; [by apply (inc_add 0 _ 0)|]. eapply rtc_l; [by apply (inc_add _ _ 1)|].
  eapply rtc_l; [by apply (inc_reply _ _ 0)|]. eapply rtc_l; [by apply (inc_reply _ _ 1)|].
  apply rtc_refl.
Qed.

(** ** Submitting *)

Section TesterProofs.
Context {rep : Type}.
Implicit Types (probes : nat -> Z -> probe rep) (p : option (list Z)).

(** The try [q] of server [index] succeeds. *)
Definition accepts (q : probe rep) (index : Z) p : Prop :=
  p_connected q = true /\ p_rsm q = true /\ inPartition index p = true /\ (p_submit q).1 = Models.OK.

Lemma tryServers_sound probes n p m : forall k index reply i,
  tryServers probes n p m k index = inl (reply, i) ->
  exists k', accepts (probes k' i) i p /\ (p_submit (probes k' i)).2 = reply.
Proof.
  induction m as [|m IH]; intros k index reply i; simpl; [done|].
  destruct (p_connected (probes k index)) eqn:H1; [|apply IH].
  destruct (p_rsm (probes k index)) eqn:H2; simpl; [|apply IH].
  destruct (inPartition index p) eqn:H3; [|apply IH]. case_decide as H4; [|apply IH].
  intros [= <- <-]. exists k. by split.
Qed.

(** From [index], the next [m] servers are tried. *)
Lemma tryServers_complete probes n p m : forall k index j,
  (0 < n)%Z -> (0 <= index < n)%Z -> j < m ->
  (forall k', accepts (probes k' (Z.rem (index + Z.of_nat j) n)) (Z.rem (index + Z.of_nat j) n) p) ->
  exists r, tryServers probes n p m k index = inl r.
Proof.
  induction m as [|m IH]; intros k index j Hn Hi Hj Ha; [lia|]. simpl.
  assert (j <> 0 -> exists r, tryServers probes n p m (S k) (Z.rem (index + 1) n) = inl r) as Hnext.
  { intros Hj0. apply (IH (S k) _ (j - 1)); [done|apply Z.rem_bound_pos; lia|lia|].
    rewrite Z.add_rem_idemp_l by nia.
    replace (index + 1 + Z.of_nat (j - 1))%Z with (index + Z.of_nat j)%Z by lia. done. }
  destruct (decide (j = 0)) as [->|Hj0].
  - rewrite Z.add_0_r, Z.rem_small in Ha by lia. destruct (Ha k) as (-> & -> & -> & E). simpl.
    rewrite decide_True by done. by eexists.
  - destruct (Hnext Hj0) as [r Hr]. rewrite Hr. repeat case_match; by eexists.
Qed.

Lemma onePartition_sound probes n p leaderAt rounds : forall r k reply l,
  onePartition probes n p leaderAt rounds r k = (reply, l) ->
  (reply = None /\ l = None) \/
  exists i k', l = Some i /\ accepts (probes k' i) i p /\ (p_submit (probes k' i)).2 = reply.
Proof.
  induction rounds as [|rounds IH]; intros r k reply l; simpl.
  { intros [= <- <-]. by left. }
  destruct (tryServers _ _ _ _ _ _) as [[rep' i]|k'] eqn:Ht; [|apply IH].
  intros [= <- <-]. right. apply tryServers_sound in Ht as (k' & Ha & Hr). by exists i, k'.
Qed.
End TesterProofs.

(** Submitting finds a server that accepts.  Whatever [onePartition] returns
    other than nil is the reply of a server that is on the net, in the given
    partition and answered [OK], and that server is stored as the leader; and
    if some server of the partition is on the net and always accepts, the
    first turn already returns, whatever leader was tried first.  With the
    skeleton's [Submit] nothing is ever returned. *)
Theorem one_partition_finds {rep} (probes : nat -> Z -> probe rep) n p leaderAt rounds :
  (forall reply l, onePartition probes n p leaderAt rounds 0 0 = (reply, l) ->
     (reply = None /\ l = None) \/
     exists i k, l = Some i /\ accepts (probes k i) i p /\ (p_submit (probes k i)).2 = reply) /\
  (forall i, (0 <= i < Z.of_nat n)%Z -> (0 <= leaderAt 0%nat < Z.of_nat n)%Z -> 0 < rounds ->
     (forall k, accepts (probes k i) i p) ->
     exists reply j, onePartition probes n p leaderAt rounds 0 0 = (reply, Some j)) /\
  ((forall k i, exists r, p_submit (probes k i) = Submit (req := any) Inc r) ->
     onePartition probes n p leaderAt rounds 0 0 = (None, None)).
Proof.
  split_and!.
  - intros reply l. apply onePartition_sound.
  - intros i Hi Hl Hr Ha. destruct rounds as [|rounds]; [lia|]. simpl.
    destruct (tryServers_complete probes (Z.of_nat n) p n 0 (leaderAt 0)
      (Z.to_nat (Z.rem (i - leaderAt 0%nat + Z.of_nat n) (Z.of_nat n)))) as [[reply j] ->].
    + lia.
    + done.
    + pose proof (Z.rem_bound_pos (i - leaderAt 0%nat + Z.of_nat n) (Z.of_nat n)). lia.
    + rewrite Z2Nat.id by (apply Z.rem_bound_pos; lia).
      pose proof (Z.rem_bound_pos (i - leaderAt 0%nat + Z.of_nat n) (Z.of_nat n) ltac:(lia) ltac:(lia)) as Hb.
      rewrite (Z.rem_mod_nonneg (i - _ + _)) in Hb |- * by lia. rewrite Z.rem_mod_nonneg by lia.
      rewrite Zplus_mod_idemp_r.
      replace (leaderAt 0%nat + (i - leaderAt 0%nat + Z.of_nat n))%Z with (i + 1 * Z.of_nat n)%Z by lia.
      rewrite Z.mod_add, Z.mod_small by lia. done.
    + by eexists _, _.
  - intros Hs. destruct (onePartition probes n p leaderAt rounds 0 0) as [reply l] eqn:He.
    apply onePartition_sound in He as [[-> ->]|(i & k & _ & (_ & _ & _ & Ha) & _)]; [done|].
    destruct (Hs k i) as [r Hr]. by rewrite Hr in Ha.
Qed.

(** ** Checking the counters *)

(** The time slept before turn [i]. *)
Fixpoint pauseIn (i : nat) : Z :=
  match i with O => 10 | S i => let to := pauseIn i in if decide (to < 1000)%Z then to * 2 else to end.
Fixpoint sleptBefore (i : nat) : Z := match i with O => 0 | S i => sleptBefore i + pauseIn i end.

Lemma countValue_spec v l : countValue v l = Z.of_nat (count (fun c => c = v) l).
Proof. induction l as [|c l IH]; simpl; [done|]. rewrite count_cons, IH. case_decide; lia. Qed.

Lemma checkCounterLoop_spec polls v nsrv m : forall i n,
  (exists j, j < m /\ (forall k, i <= k < i + j -> (countValue v (polls k) < nsrv)%Z) /\
     (nsrv <= countValue v (polls (i + j)%nat))%Z /\
     checkCounterLoop polls v nsrv m i (pauseIn i) (sleptBefore i) n = inl (sleptBefore (i + j))) \/
  ((forall k, i <= k < i + m -> (countValue v (polls k) < nsrv)%Z) /\
   exists n', checkCounterLoop polls v nsrv m i (pauseIn i) (sleptBefore i) n = inr n').
Proof.
  induction m as [|m IH]; intros i n; [right; split; [intros; lia|by eexists]|]. cbn [checkCounterLoop].
  case_decide as Hd.
  - left. exists 0. rewrite Nat.add_0_r. split_and!; [lia|intros; lia|lia|done].
  - change (if decide (pauseIn i < 1000)%Z then pauseIn i * 2 else pauseIn i)%Z with (pauseIn (S i)).
    change (sleptBefore i + pauseIn i)%Z with (sleptBefore (S i)).
    destruct (IH (S i) (countValue v (polls i))) as [(j & Hj & Hb & Hc & He)|[Hb He]]; [left|right].
    + exists (S j). rewrite Nat.add_succ_r. split_and!; [lia| |done|exact He].
      intros k Hk. destruct (decide (k = i)) as [->|]; [lia|apply Hb; lia].
    + split; [|exact He]. intros k Hk. destruct (decide (k = i)) as [->|]; [lia|apply Hb; lia].
Qed.

Lemma sleptBefore_bound i : i < 30 -> (sleptBefore i <= 29430)%Z.
Proof.
  intros Hi. assert (forallb (fun i => bool_decide (sleptBefore i <= 29430)%Z) (seq 0 30) = true) as H
    by (vm_compute; reflexivity).
  rewrite forallb_forall in H. eapply bool_decide_eq_true_1, H. apply List.in_seq. lia.
Qed.

(** [checkCounter] passes exactly when enough servers agree in time.  It
    returns if and only if in one of its 30 turns at least [nsrv] servers have
    the value, in the first such turn, and it then has slept at most 29.43
    seconds; otherwise it fails the test. *)
Theorem check_counter_iff polls v nsrv :
  (forall t, checkCounter polls v nsrv = Return t ->
     (0 <= t <= 29430)%Z /\
     exists i, i < 30 /\ (nsrv <= Z.of_nat (count (fun c => c = v) (polls i)))%Z /\ t = sleptBefore i /\
       forall k, k < i -> (Z.of_nat (count (fun c => c = v) (polls k)) < nsrv)%Z) /\
  ((exists i, i < 30 /\ (nsrv <= Z.of_nat (count (fun c => c = v) (polls i)))%Z) ->
     exists t, checkCounter polls v nsrv = Return t) /\
  ((forall i, i < 30 -> (Z.of_nat (count (fun c => c = v) (polls i)) < nsrv)%Z) ->
     exists m, checkCounter polls v nsrv = Fatal m).
Proof.
  setoid_rewrite <-countValue_spec. unfold checkCounter.
  change 10%Z with (pauseIn 0) at 1 2 3. change 0%Z with (sleptBefore 0) at 1 4 6.
  assert (forall i, (0 <= sleptBefore i)%Z) as Hp.
  { assert (forall i, (0 <= pauseIn i)%Z) as Hq
      by (induction i as [|i IH]; simpl; [lia|case_decide; lia]).
    induction i as [|i IH]; simpl; [lia|]. specialize (Hq i). lia. }
  destruct (checkCounterLoop_spec polls v nsrv 30 0 0) as [(j & Hj & Hb & Hc & He)|[Hb [n He]]];
    rewrite He; split_and!.
  - intros t [= <-]. simpl plus. split; [split; [apply Hp|by apply sleptBefore_bound]|].
    exists j. split_and!; [done|done|done|]. intros k Hk. apply Hb. lia.
  - intros _. by eexists.
  - intros Hall. exfalso. specialize (Hall j Hj). simpl in Hc. lia.
  - done.
  - intros (i & Hi & Hn). exfalso. specialize (Hb i). lia.
  - intros _. by eexists.
Qed.

(** ** Finding the leader *)

Lemma peerLeads_spec {rfT} `{!Raft.RaftApi rfT any} (ss : list (option rfT)) :
  peerLeads ss = true <-> exists r, Some r ∈ ss /\ (Raft.api_GetState (any := any) r).2 = true.
Proof.
  induction ss as [|[r|] ss IH]; simpl.
  - split; [done|]. by intros (r & ?%elem_of_nil & _).
  - destruct (Raft.api_GetState r).2 eqn:Hr.
    + split; [|done]. intros _. exists r. split; [left|done].
    + rewrite IH. setoid_rewrite elem_of_cons. split; [naive_solver|].
      intros (r' & [[= ->]|?] & ?); [congruence|eauto].
  - rewrite IH. setoid_rewrite elem_of_cons. naive_solver.
Qed.

(** [Leader] finds the first server that claims to lead.  Over any Raft
    implementation it returns true and the number of the first server one of
    whose services is a Raft peer that says it is the leader, and false if no
    server has one; over the skeleton it never finds a leader. *)
Theorem leader_finds_first {rfT} `{!Raft.RaftApi rfT any} (sss : list (list (option rfT))) :
  (forall i, Leader 0 sss = (true, i) ->
     exists ss r, sss !! Z.to_nat i = Some ss /\ (0 <= i)%Z /\ Some r ∈ ss /\
       (Raft.api_GetState (any := any) r).2 = true /\
       forall j ss' r', j < Z.to_nat i -> sss !! j = Some ss' -> Some r' ∈ ss' ->
         (Raft.api_GetState (any := any) r').2 = false) /\
  ((Leader 0 sss).1 = false <->
     forall ss r, ss ∈ sss -> Some r ∈ ss -> (Raft.api_GetState (any := any) r).2 = false) /\
  (forall peers : list (list (option Raft.Raft)), Leader 0 peers = (false, 0%Z)).
Proof.
  assert (forall l b, (0 <= b)%Z ->
    (exists k ss, Leader b l = (true, (b + Z.of_nat k)%Z) /\ l !! k = Some ss /\ peerLeads ss = true /\
       forall j ss', j < k -> l !! j = Some ss' -> peerLeads ss' = false) \/
    (Leader b l = (false, 0%Z) /\ forall ss, ss ∈ l -> peerLeads ss = false)) as Hgen.
  { induction l as [|ss l IH]; intros b Hb; simpl.
    { right. split; [done|]. by intros ss ?%elem_of_nil. }
    destruct (peerLeads ss) eqn:Hs.
    - left. exists 0, ss. rewrite Z.add_0_r. split_and!; [done|done|done|intros; lia].
    - destruct (IH (b + 1)%Z ltac:(lia)) as [(k & ss' & -> & Hk & Hl & Hj)|[-> Hj]]; [left|right].
      + exists (S k), ss'. split_and!; [f_equal; lia|done|done|].
        intros [|j] ss'' Hjk; simpl; [by intros [= <-]|]. apply Hj. lia.
      + split; [done|]. intros ss' [->|?]%elem_of_cons; auto. }
  assert (forall ss r, peerLeads ss = false -> Some r ∈ ss -> (Raft.api_GetState (any := any) r).2 = false) as Hno.
  { intros ss r Hs Hr. apply not_true_iff_false. intros Ht.
    assert (peerLeads ss = true) by (apply peerLeads_spec; by exists r). congruence. }
  split_and!.
  - intros i Hi. destruct (Hgen sss 0%Z ltac:(lia)) as [(k & ss & Hk & Hs & Hl & Hj)|[Hk _]]; [|congruence].
    rewrite Hk in Hi. injection Hi as <-. apply peerLeads_spec in Hl as (r & Hr & Hg).
    exists ss, r. rewrite Z.add_0_l, Nat2Z.id. split_and!; [done|lia|done|done|].
    intros j ss' r' Hjk Hj' Hr'. eapply Hno; [|done]. by eapply Hj.
  - destruct (Hgen sss 0%Z ltac:(lia)) as [(k & ss & -> & Hs & Hl & _)|[-> Hj]]; simpl.
    + split; [done|]. apply peerLeads_spec in Hl as (r & Hr & Hg). intros Hall.
      rewrite (Hall ss r) in Hg; [done|by eapply list_elem_of_lookup_2|done].
    + split; [|done]. intros _ ss r Hs Hr. eapply Hno; [|done]. auto.
  - intros peers. generalize 0%Z at 1. induction peers as [|ss peers IH]; intros b; simpl; [done|].
    assert (peerLeads ss = false) as ->; [|apply IH].
    induction ss as [|[r|] ss IH']; simpl; auto.
Qed.

(** ** Witnesses *)

Definition exSrv : rsmSrv := {| srv_me := 0; rsm := None; counter := 5 |}.
Definition exFresh : rsmSrv := {| srv_me := 1; rsm := None; counter := 0 |}.

Lemma rsm_snapshot_replay_witness :
  exists f1 f2, rsmSrv_Restore (rsmSrv_Snapshot (set_counter exSrv 7)) exFresh = Return f1 /\
    runOps [Inc] f1 = Return ([IncRep 8], f2).
Proof.
  destruct (rsm_snapshot_replay [Inc; Null; Inc] [Inc] exSrv [IncRep 6; NullRep; IncRep 7]
    (set_counter exSrv 7) [IncRep 8] (set_counter exSrv 8) exFresh) as [(f1 & f2 & H1 & H2 & _) _];
    [split; vm_compute; discriminate|vm_compute; reflexivity|vm_compute; reflexivity|].
  exists f1, f2. split; [exact H1|exact H2].
Defined.

Lemma serial_incs_numbered_witness :
  exists reps rs', runOps [Inc; Null; Inc] exSrv = Return (reps, rs') /\ incReplies reps = [6; 7]%Z.
Proof.
  destruct (serial_incs_numbered [Inc; Null; Inc] exSrv) as (reps & rs' & H1 & _ & H2);
    [repeat (constructor; [auto|]); constructor|vm_compute; discriminate|vm_compute; discriminate|].
  exists reps, rs'. split; [exact H1|exact H2].
Defined.

Lemma concurrent_incs_counted_witness :
  (2%Z = Z.of_nat 2) /\ Replied 2 ∈ [Replied 2; Replied 2].
Proof.
  destruct (concurrent_incs_counted 2 2 [Replied 2; Replied 2]) as (H1 & _ & H2);
    [vm_compute; discriminate|apply concurrent_incs_same_reply|repeat constructor; by eexists|].
  split; [exact H1|apply H2; lia].
Defined.

End Rsm.
