(* ===== verification/KvServers.v ===== *)
(** * The key/value servers, clerks and the lock: the skeletons

    Models [src/src/kvsrv1], [src/src/kvraft1] and [src/src/shardkv1] as the
    repository has them: the types of the RPCs, the servers that are started and
    registered with labrpc, and handlers, clerks, lock and shard controller
    whose bodies are still to be written.  What each server exposes to RPCs, and
    that nothing else of it can be called, is proved with the model of [labrpc].
    Byte slices are [option string], [None] being nil. *)

From S2P Require Import Prelude ShardCfg LabRpc Persister Group Raft Clnts Models Rsm.

Module KvServers.

Set Default Proof Using "Type".

(** ** rpc.go *)

Record PutArgs := { pa_Key : string; pa_Value : string; pa_Version : Z }.
Record PutReply := { pr_Err : string }.
Record GetArgs := { ga_Key : string }.
Record GetReply := { gr_Value : string; gr_Version : Z; gr_Err : string }.

(** ** shardrpc.go *)

Record FreezeShardArgs := { fa_Shard : Z; fa_Num : Z }.
Record FreezeShardReply := { fr_State : option string; fr_Num : Z; fr_Err : string }.
Record InstallShardArgs := { ia_Shard : Z; ia_State : option string; ia_Num : Z }.
Record InstallShardReply := { ir_Err : string }.
Record DeleteShardArgs := { da_Shard : Z; da_Num : Z }.
Record DeleteShardReply := { dr_Err : string }.

(** ** kvsrv1 *)

Module KvSrv.
(** The server has only its lock. *)
Record KVServer := MkKVServer {}.
Definition MakeKVServer : KVServer := MkKVServer.
Definition Get (args : GetArgs) (reply : GetReply) (kv : KVServer) : GetReply * KVServer := (reply, kv).
Definition Put (args : PutArgs) (reply : PutReply) (kv : KVServer) : PutReply * KVServer := (reply, kv).
Definition Kill (kv : KVServer) : KVServer := kv.
Definition StartKVServer (ends : list string) (gid srv : Z) (p : nat) : list KVServer := [MakeKVServer].

Record Clerk := { clnt : nat; server : string }.
Definition MakeClerk (c : nat) (srv : string) : Clerk := {| clnt := c; server := srv |}.
Definition Clerk_Get (ck : Clerk) (key : string) : string * Z * string := ("", 0%Z, Models.ErrNoKey).
Definition Clerk_Put (ck : Clerk) (key value : string) (version : Z) : string := Models.ErrNoKey.
End KvSrv.

(** ** lock.go *)

Module Lock.
Record Lock {clerk : Type} := { ck : clerk }.
Arguments Lock : clear implicits.
Definition MakeLock {clerk} (c : clerk) (l : string) : Lock clerk := {| ck := c |}.
Definition Acquire {clerk} (lk : Lock clerk) : Lock clerk := lk.
Definition Release {clerk} (lk : Lock clerk) : Lock clerk := lk.
End Lock.

(** ** kvraft1 *)

Module KvRaft.
Record KVServer := { me : Z; dead : Z; rsm : option Rsm.RSM }.

(** [any] values that the skeleton does not look at. *)
Definition DoOp {any : Type} (req : any) (kv : KVServer) : option any * KVServer := (None, kv).
Definition Snapshot (kv : KVServer) : option string := None.
Definition Restore (data : option string) (kv : KVServer) : KVServer := kv.
Definition Get (args : GetArgs) (reply : GetReply) (kv : KVServer) : GetReply * KVServer := (reply, kv).
Definition Put (args : PutArgs) (reply : PutReply) (kv : KVServer) : PutReply * KVServer := (reply, kv).
Definition Kill (kv : KVServer) : KVServer := {| me := me kv; dead := 1; rsm := rsm kv |}.
Definition killed (kv : KVServer) : bool := bool_decide (dead kv = 1)%Z.

(** The services are the server and its Raft peer; the latter is nil when
    another Raft is plugged in. *)
Definition StartKVServer (useRaftStateMachine : bool) (ends : list string) (gid i : Z) (p : nat)
    (maxraftstate : Z) (st : Persister.store)
    : outcome (KVServer * option Raft.Raft * Persister.store) :=
  '(r, st) ← Rsm.MakeRSM useRaftStateMachine ends i p maxraftstate st;
  mret ({| me := i; dead := 0; rsm := Some r |}, Rsm.RSM_Raft r, st).

Record Clerk := { clnt : nat; servers : list string }.
Definition MakeClerk (c : nat) (srvs : list string) : Clerk := {| clnt := c; servers := srvs |}.
Definition Clerk_Get (ck : Clerk) (key : string) : string * Z * string := ("", 0%Z, "").
Definition Clerk_Put (ck : Clerk) (key value : string) (version : Z) : string := "".
End KvRaft.

(** ** shardkv1 *)

Module ShardGrp.
Record KVServer := { me : Z; dead : Z; rsm : option Rsm.RSM; gid : Z }.
Definition DoOp {any : Type} (req : any) (kv : KVServer) : option any * KVServer := (None, kv).
Definition Snapshot (kv : KVServer) : option string := None.
Definition Restore (data : option string) (kv : KVServer) : KVServer := kv.
Definition Get (args : GetArgs) (reply : GetReply) (kv : KVServer) : GetReply * KVServer := (reply, kv).
Definition Put (args : PutArgs) (reply : PutReply) (kv : KVServer) : PutReply * KVServer := (reply, kv).
Definition FreezeShard (args : FreezeShardArgs) (reply : FreezeShardReply) (kv : KVServer)
    : FreezeShardReply * KVServer := (reply, kv).
Definition InstallShard (args : InstallShardArgs) (reply : InstallShardReply) (kv : KVServer)
    : InstallShardReply * KVServer := (reply, kv).
Definition DeleteShard (args : DeleteShardArgs) (reply : DeleteShardReply) (kv : KVServer)
    : DeleteShardReply * KVServer := (reply, kv).
Definition Kill (kv : KVServer) : KVServer :=
  {| me := me kv; dead := 1; rsm := rsm kv; gid := gid kv |}.
Definition killed (kv : KVServer) : bool := bool_decide (dead kv = 1)%Z.

Definition StartServerShardGrp (useRaftStateMachine : bool) (ends : list string) (g i : Z) (p : nat)
    (maxraftstate : Z) (st : Persister.store)
    : outcome (KVServer * option Raft.Raft * Persister.store) :=
  '(r, st) ← Rsm.MakeRSM useRaftStateMachine ends i p maxraftstate st;
  mret ({| me := i; dead := 0; rsm := Some r; gid := g |}, Rsm.RSM_Raft r, st).

Record Clerk := { clnt : nat; servers : list string }.
Definition MakeClerk (c : nat) (srvs : list string) : Clerk := {| clnt := c; servers := srvs |}.
Definition Clerk_Get (ck : Clerk) (key : string) : string * Z * string := ("", 0%Z, "").
Definition Clerk_Put (ck : Clerk) (key value : string) (version : Z) : string := "".
Definition Clerk_FreezeShard (ck : Clerk) (s num : Z) : option string * string := (None, "").
Definition Clerk_InstallShard (ck : Clerk) (s : Z) (state : option string) (num : Z) : string := "".
Definition Clerk_DeleteShard (ck : Clerk) (s num : Z) : string := "".
End ShardGrp.

Module ShardCtrler.
Record ShardCtrler := { clnt : nat; IKVClerk : KvSrv.Clerk; killed : Z }.
Definition MakeShardCtrler (c : nat) : ShardCtrler :=
  {| clnt := c; IKVClerk := KvSrv.MakeClerk c (Group.ServerName 0 0); killed := 0 |}.
Definition InitController (sck : ShardCtrler) : ShardCtrler := sck.
Definition InitConfig (cfg : ShardCfg.ShardConfig) (sck : ShardCtrler) : ShardCtrler := sck.
Definition ChangeConfigTo (new : ShardCfg.ShardConfig) (sck : ShardCtrler) : ShardCtrler := sck.
Definition Query (sck : ShardCtrler) : option ShardCfg.ShardConfig := None.
End ShardCtrler.

Module ShardKv.
Record Clerk := { clnt : nat; sck : ShardCtrler.ShardCtrler }.
Definition MakeClerk (c : nat) (s : ShardCtrler.ShardCtrler) : Clerk := {| clnt := c; sck := s |}.
Definition Clerk_Get (ck : Clerk) (key : string) : string * Z * string := ("", 0%Z, "").
Definition Clerk_Put (ck : Clerk) (key value : string) (version : Z) : string := "".
End ShardKv.
(** ** What a server exposes to RPCs *)

Section Surface.
Context {state : Type}.
Implicit Types (rs : LabRpc.Server state).

(** The names [Service.Method] that a server dispatches. *)
Definition surface rs : list string :=
  mjoin ((fun p => (fun q => p.1 +:+ "." +:+ q.1) <$> map_to_list (LabRpc.svc_methods p.2))
           <$> map_to_list (LabRpc.services rs)).

(** No method name has a dot. *)
Fixpoint dotless (s : string) : bool :=
  match s with
  | EmptyString => true
  | String c s => if decide (c = "."%char) then false else dotless s
  end.

Lemma splitLastDot_None s : dotless s = true -> LabRpc.splitLastDot s = None.
Proof.
  induction s as [|c s IH]; [done|]. cbn [dotless LabRpc.splitLastDot]. destruct (decide _); [done|].
  intros Hs. by rewrite (IH Hs).
Qed.

Lemma splitLastDot_app a b : dotless b = true -> LabRpc.splitLastDot (a +:+ "." +:+ b) = Some (a, b).
Proof.
  intros Hb. induction a as [|c a IH].
  - rewrite str_nil_app. change ("." +:+ b) with (String "."%char b). cbn [LabRpc.splitLastDot].
    by rewrite splitLastDot_None, decide_True.
  - rewrite str_cons_app. cbn [LabRpc.splitLastDot]. by rewrite IH.
Qed.

Lemma splitLastDot_Some s a b : LabRpc.splitLastDot s = Some (a, b) -> s = a +:+ "." +:+ b.
Proof.
  revert a b. induction s as [|c s IH]; intros a b; [done|].
  cbn [LabRpc.splitLastDot]. destruct (LabRpc.splitLastDot s) as [[a' b']|].
  - intros [= <- <-]. rewrite (IH a' b' eq_refl). by rewrite str_cons_app.
  - destruct (decide _); [|done]. intros [= <- <-]. by subst.
Qed.

Lemma elem_of_surface rs s :
  s ∈ surface rs <-> exists a svc b m, LabRpc.services rs !! a = Some svc /\
    LabRpc.svc_methods svc !! b = Some m /\ s = a +:+ "." +:+ b.
Proof.
  unfold surface. rewrite list_elem_of_join. split.
  - intros (l & Hl & ([a svc] & -> & Ha%elem_of_map_to_list)%list_elem_of_fmap).
    apply list_elem_of_fmap in Hl as ([b m] & -> & Hb%elem_of_map_to_list). by exists a, svc, b, m.
  - intros (a & svc & b & m & Ha & Hb & ->). eexists. split; [|apply list_elem_of_fmap; exists (a, svc);
      split; [done|by apply elem_of_map_to_list]].
    apply list_elem_of_fmap. exists (b, m). split; [done|]. by apply elem_of_map_to_list.
Qed.

(** A server that has its receivers answers exactly the requests of its surface. *)
Lemma dispatch_surface rs req (objs : LabRpc.objects state) :
  (forall a svc, LabRpc.services rs !! a = Some svc -> is_Some (objs !! LabRpc.svc_rcvr svc)) ->
  (forall a svc b m, LabRpc.services rs !! a = Some svc -> LabRpc.svc_methods svc !! b = Some m ->
     dotless b = true) ->
  (exists r, LabRpc.Server_dispatch rs req objs = Return r) <-> LabRpc.svcMeth req ∈ surface rs.
Proof.
  intros Hr Hd. rewrite elem_of_surface. unfold LabRpc.Server_dispatch. split.
  - intros [r Hres]. destruct (LabRpc.splitLastDot _) as [[a b]|] eqn:Hs; [|done].
    apply splitLastDot_Some in Hs. destruct (LabRpc.services rs !! a) as [svc|] eqn:Ha; [|done].
    unfold LabRpc.Service_dispatch in Hres.
    destruct (LabRpc.svc_methods svc !! b) as [m|] eqn:Hb; [|done]. by exists a, svc, b, m.
  - intros (a & svc & b & m & Ha & Hb & ->). rewrite splitLastDot_app by (by eapply Hd). rewrite Ha.
    unfold LabRpc.Service_dispatch. rewrite Hb. destruct (Hr a svc Ha) as [o ->].
    destruct (LabRpc.m_call m o (LabRpc.req_args req)). by eexists.
Qed.
End Surface.

(** The objects that are registered. *)
Inductive obj :=
| OSrv (kv : KvSrv.KVServer)
| OKv (kv : KvRaft.KVServer)
| OShard (kv : ShardGrp.KVServer)
| ORaft (rf : Raft.Raft).

(** A handler: a method with a pointer to the reply as its last parameter. *)
Definition handler (name : string) (call : obj -> string -> obj * string) : LabRpc.method obj :=
  {| LabRpc.m_name := name; LabRpc.m_exported := true; LabRpc.m_in := [true; true; true];
     LabRpc.m_numOut := 0; LabRpc.m_call := call |}.
(** Another method: the kinds of its parameters after the receiver, and the
    number of its results. *)
Definition plain (name : string) (params : list bool) (numOut : Z) : LabRpc.method obj :=
  {| LabRpc.m_name := name; LabRpc.m_exported := true; LabRpc.m_in := true :: params;
     LabRpc.m_numOut := numOut; LabRpc.m_call := fun o _ => (o, "") |}.

(** [labgob] on the arguments and replies. *)
Class Codec (A : Type) := { enc : A -> string; dec : string -> A }.

Section Servers.
Context `{!Codec GetArgs, !Codec GetReply, !Codec PutArgs, !Codec PutReply, !Codec Raft.RequestVoteArgs,
  !Codec Raft.RequestVoteReply, !Codec FreezeShardArgs, !Codec FreezeShardReply, !Codec InstallShardArgs,
  !Codec InstallShardReply, !Codec DeleteShardArgs, !Codec DeleteShardReply}.

(** The reply that a handler is called with. *)
Definition zeroGet : GetReply := {| gr_Value := ""; gr_Version := 0; gr_Err := "" |}.
Definition zeroPut : PutReply := {| pr_Err := "" |}.
Definition zeroFreeze : FreezeShardReply := {| fr_State := None; fr_Num := 0; fr_Err := "" |}.
Definition zeroInstall : InstallShardReply := {| ir_Err := "" |}.
Definition zeroDelete : DeleteShardReply := {| dr_Err := "" |}.

(** Call a handler on the object, if it has the handler's type. *)
Definition onSrv {A R} `{!Codec A, !Codec R} (f : A -> R -> KvSrv.KVServer -> R * KvSrv.KVServer) (zero : R)
    (o : obj) (args : string) : obj * string :=
  match o with OSrv kv => let '(r, kv) := f (dec args) zero kv in (OSrv kv, enc r) | _ => (o, "") end.
Definition onKv {A R} `{!Codec A, !Codec R} (f : A -> R -> KvRaft.KVServer -> R * KvRaft.KVServer) (zero : R)
    (o : obj) (args : string) : obj * string :=
  match o with OKv kv => let '(r, kv) := f (dec args) zero kv in (OKv kv, enc r) | _ => (o, "") end.
Definition onShard {A R} `{!Codec A, !Codec R} (f : A -> R -> ShardGrp.KVServer -> R * ShardGrp.KVServer)
    (zero : R) (o : obj) (args : string) : obj * string :=
  match o with OShard kv => let '(r, kv) := f (dec args) zero kv in (OShard kv, enc r) | _ => (o, "") end.
Definition onRaft {A R} `{!Codec A, !Codec R} (f : A -> R -> Raft.Raft -> R * Raft.Raft) (zero : R)
    (o : obj) (args : string) : obj * string :=
  match o with ORaft rf => let '(r, rf) := f (dec args) zero rf in (ORaft rf, enc r) | _ => (o, "") end.

(** The methods of each type, as [reflect] lists them. *)
Definition srvMethods : list (LabRpc.method obj) :=
  [handler "Get" (onSrv KvSrv.Get zeroGet); plain "Kill" [] 0; handler "Put" (onSrv KvSrv.Put zeroPut)].
Definition kvMethods : list (LabRpc.method obj) :=
  [plain "DoOp" [false] 1; handler "Get" (onKv KvRaft.Get zeroGet); plain "Kill" [] 0;
   handler "Put" (onKv KvRaft.Put zeroPut); plain "Restore" [false] 0; plain "Snapshot" [] 1].
Definition shardMethods : list (LabRpc.method obj) :=
  [handler "DeleteShard" (onShard ShardGrp.DeleteShard zeroDelete); plain "DoOp" [false] 1;
   handler "FreezeShard" (onShard ShardGrp.FreezeShard zeroFreeze);
   handler "Get" (onShard ShardGrp.Get zeroGet);
   handler "InstallShard" (onShard ShardGrp.InstallShard zeroInstall); plain "Kill" [] 0;
   handler "Put" (onShard ShardGrp.Put zeroPut); plain "Restore" [false] 0; plain "Snapshot" [] 1].
Definition raftMethods : list (LabRpc.method obj) :=
  [plain "GetState" [] 2; plain "Kill" [] 0; plain "PersistBytes" [] 1;
   handler "RequestVote" (onRaft Raft.RequestVote Raft.Build_RequestVoteReply);
   plain "Snapshot" [false; false] 0; plain "Start" [false] 3].

(** The loop of [StartServer] over the services of a server. *)
Fixpoint register (svcs : list (string * nat * list (LabRpc.method obj))) (rs : LabRpc.Server obj)
    : outcome (LabRpc.Server obj) :=
  match svcs with
  | [] => Return rs
  | (name, a, ms) :: svcs =>
      s ← LabRpc.MakeService name a ms;
      register svcs (LabRpc.AddService s rs)
  end.

Definition srvServer (a : nat) : outcome (LabRpc.Server obj) :=
  register [("KVServer", a, srvMethods)] LabRpc.MakeServer.
Definition kvServer (a b : nat) : outcome (LabRpc.Server obj) :=
  register [("KVServer", a, kvMethods); ("Raft", b, raftMethods)] LabRpc.MakeServer.
Definition shardServer (a b : nat) : outcome (LabRpc.Server obj) :=
  register [("KVServer", a, shardMethods); ("Raft", b, raftMethods)] LabRpc.MakeServer.
(** A method that does not change its receiver. *)
Definition harmless (m : LabRpc.method obj) : Prop := forall o args, (LabRpc.m_call m o args).1 = o.

Lemma register_from svcs : forall rs0 rs, register svcs rs0 = Return rs ->
  forall n svc, LabRpc.services rs !! n = Some svc ->
    LabRpc.services rs0 !! n = Some svc \/
    exists a ms, (n, a, ms) ∈ svcs /\ LabRpc.svc_rcvr svc = a /\
      forall b m, LabRpc.svc_methods svc !! b = Some m -> m ∈ ms.
Proof using Type.
  induction svcs as [|[[name a] ms] svcs IH]; intros rs0 rs; simpl; [intros [= <-]; by left|].
  intros (s & Hs & Hr)%bind_Return n svc Hn. destruct (IH _ _ Hr n svc Hn) as [H|H].
  - unfold LabRpc.MakeService in Hs. apply bind_Return in Hs as (methods & Hm & Hs). injection Hs as <-.
    simpl in H. apply lookup_insert_Some in H as [[<- <-]|[_ H]]; [|by left].
    right. exists a, ms. split; [left|]. split; [done|]. simpl. intros b m Hb.
    destruct (LabRpc.addMethods_spec ms ∅) as (methods' & Hm' & Hin). rewrite Hm in Hm'. injection Hm' as <-.
    destruct (Hin b m Hb) as [Hx|(Hx & _)]; [by rewrite lookup_empty in Hx|done].
  - right. destruct H as (a' & ms' & Hin & H). exists a', ms'. split; [by right|done].
Qed.

(** A server whose services are registered with harmless methods and live
    receivers answers its surface, and leaves the receivers alone. *)
Lemma registered_surface svcs rs (objs : LabRpc.objects obj) req :
  register svcs LabRpc.MakeServer = Return rs ->
  (forall n a ms, (n, a, ms) ∈ svcs -> is_Some (objs !! a) /\ Forall harmless ms) ->
  (forall a svc b m, LabRpc.services rs !! a = Some svc -> LabRpc.svc_methods svc !! b = Some m ->
     dotless b = true) ->
  ((exists r, LabRpc.Server_dispatch rs req objs = Return r) <-> LabRpc.svcMeth req ∈ surface rs) /\
  forall rep rs' objs', LabRpc.Server_dispatch rs req objs = Return (rep, rs', objs') ->
    objs' = objs /\ LabRpc.ok rep = true.
Proof using Type.
  intros Hr Hs Hd.
  assert (forall n svc, LabRpc.services rs !! n = Some svc -> is_Some (objs !! LabRpc.svc_rcvr svc) /\
    forall b m, LabRpc.svc_methods svc !! b = Some m -> harmless m) as Hsvc.
  { intros n svc Hn. destruct (register_from _ _ _ Hr n svc Hn) as [H|(a & ms & Hin & <- & Hm)].
    - simpl in H. by rewrite lookup_empty in H.
    - destruct (Hs _ _ _ Hin) as [Ho Hh]. split; [done|]. intros b m Hb.
      rewrite Forall_forall in Hh. apply Hh. by eapply Hm. }
  split; [apply dispatch_surface; [intros n svc Hn; by apply (Hsvc n)|done]|].
  intros rep rs' objs' Hres. split; [|by eapply LabRpc.dispatch_ok].
  unfold LabRpc.Server_dispatch in Hres. destruct (LabRpc.splitLastDot _) as [[n b]|]; [|done].
  destruct (LabRpc.services rs !! n) as [svc|] eqn:Hn; [|done]. unfold LabRpc.Service_dispatch in Hres.
  destruct (LabRpc.svc_methods svc !! b) as [m|] eqn:Hb; [|done].
  destruct (objs !! LabRpc.svc_rcvr svc) as [o|] eqn:Ho; [|done].
  destruct (Hsvc n svc Hn) as [_ Hh]. specialize (Hh b m Hb o (LabRpc.req_args req)).
  destruct (LabRpc.m_call m o (LabRpc.req_args req)) as [o' r]. simpl in Hh. subst o'.
  injection Hres as _ _ <-. by apply (insert_id (M := gmap nat)).
Qed.

Lemma harmless_all :
  Forall harmless srvMethods /\ Forall harmless kvMethods /\ Forall harmless shardMethods /\
  Forall harmless raftMethods.
Proof using Type.
  split_and!; repeat (apply Forall_cons; split; [intros []; done|]); done.
Qed.

(** The names of the methods that a server dispatches have no dot. *)
Definition dotlessAll (rs : LabRpc.Server obj) : bool :=
  forallb (fun p => forallb (fun q => dotless q.1) (map_to_list (LabRpc.svc_methods p.2)))
    (map_to_list (LabRpc.services rs)).
Lemma dotlessAll_spec rs : dotlessAll rs = true -> forall a svc b m,
  LabRpc.services rs !! a = Some svc -> LabRpc.svc_methods svc !! b = Some m -> dotless b = true.
Proof using Type.
  unfold dotlessAll. rewrite forallb_forall. intros H a svc b m Ha Hb.
  specialize (H (a, svc)). rewrite <-list_elem_of_In, elem_of_map_to_list, forallb_forall in H.
  specialize (H Ha (b, m)). rewrite <-list_elem_of_In, elem_of_map_to_list in H. by apply H.
Qed.

Lemma live_objects a b (x y : obj) (objs : gmap nat obj) :
  a <> b -> is_Some (<[a := x]> (<[b := y]> objs) !! a) /\ is_Some (<[a := x]> (<[b := y]> objs) !! b).
Proof using Type.
  intros Hab. split; eexists; [apply lookup_insert_eq|].
  rewrite lookup_insert_ne by done. apply lookup_insert_eq.
Qed.

(** What a started server exposes.  The labrpc server of a key/value server
    answers exactly the RPCs [KVServer.Get] and [KVServer.Put], a replicated
    one also [Raft.RequestVote], a shard group's also [KVServer.FreezeShard],
    [InstallShard] and [DeleteShard]; a request for anything else of those
    types, [Kill] or [Snapshot] or [DoOp], or for another service, is not
    answered but ends the process.  The skeletons' handlers answer with
    success and change no server. *)
Theorem rpc_surface a b :
  a <> b ->
  exists s1 s2 s3, srvServer a = Return s1 /\ kvServer a b = Return s2 /\ shardServer a b = Return s3 /\
    forall objs req kv1 kv2 kv3 rf,
      ((exists r, LabRpc.Server_dispatch s1 req (<[a := OSrv kv1]> objs) = Return r) <->
         LabRpc.svcMeth req ∈ ["KVServer.Get"; "KVServer.Put"]) /\
      ((exists r, LabRpc.Server_dispatch s2 req (<[a := OKv kv2]> (<[b := ORaft rf]> objs)) = Return r) <->
         LabRpc.svcMeth req ∈ ["KVServer.Get"; "KVServer.Put"; "Raft.RequestVote"]) /\
      ((exists r, LabRpc.Server_dispatch s3 req (<[a := OShard kv3]> (<[b := ORaft rf]> objs)) = Return r) <->
         LabRpc.svcMeth req ∈ ["KVServer.Get"; "KVServer.Put"; "KVServer.FreezeShard";
                              "KVServer.InstallShard"; "KVServer.DeleteShard"; "Raft.RequestVote"]) /\
      (forall rep s' objs',
         LabRpc.Server_dispatch s3 req (<[a := OShard kv3]> (<[b := ORaft rf]> objs)) = Return (rep, s', objs') ->
         objs' = <[a := OShard kv3]> (<[b := ORaft rf]> objs) /\ LabRpc.ok rep = true).
Proof using Type.
  intros Hab. destruct harmless_all as (H1 & H2 & H3 & H4).
  set (the := fun m : outcome (LabRpc.Server obj) => match m with Return rs => rs | _ => LabRpc.MakeServer end).
  exists (the (srvServer a)), (the (kvServer a b)), (the (shardServer a b)).
  split; [reflexivity|]. split; [reflexivity|]. split; [reflexivity|].
  intros objs req kv1 kv2 kv3 rf.
  destruct (registered_surface [("KVServer", a, srvMethods)] (the (srvServer a)) (<[a := OSrv kv1]> objs) req)
    as [S1 _]; [reflexivity| |apply dotlessAll_spec; vm_compute; reflexivity|].
  { intros n x ms Hx%list_elem_of_singleton. simplify_eq. split; [|done].
    eexists. apply (lookup_insert_eq (M := gmap nat)). }
  destruct (registered_surface [("KVServer", a, kvMethods); ("Raft", b, raftMethods)] (the (kvServer a b))
    (<[a := OKv kv2]> (<[b := ORaft rf]> objs)) req) as [S2 _];
    [reflexivity| |apply dotlessAll_spec; vm_compute; reflexivity|].
  { intros n x ms [Hx|Hx%list_elem_of_singleton]%elem_of_cons; simplify_eq; (split; [|done]);
      by apply live_objects. }
  destruct (registered_surface [("KVServer", a, shardMethods); ("Raft", b, raftMethods)] (the (shardServer a b))
    (<[a := OShard kv3]> (<[b := ORaft rf]> objs)) req) as [S3 F3];
    [reflexivity| |apply dotlessAll_spec; vm_compute; reflexivity|].
  { intros n x ms [Hx|Hx%list_elem_of_singleton]%elem_of_cons; simplify_eq; (split; [|done]);
      by apply live_objects. }
  split_and!; [etrans; [exact S1|]|etrans; [exact S2|]|etrans; [exact S3|]|exact F3];
    apply elem_of_Permutation_proper;
    match goal with |- ?x ≡ₚ ?y => apply (bool_decide_eq_true_1 (x ≡ₚ y)) end; vm_compute; reflexivity.
Qed.

End Servers.

(** ** Witnesses *)

(** A codec that forgets: enough to make requests. *)
Definition blank {A} (x : A) : Codec A := {| enc := fun _ => ""; dec := fun _ => x |}.
#[local] Instance blankGetArgs : Codec GetArgs := blank {| ga_Key := "" |}.
#[local] Instance blankGetReply : Codec GetReply := blank zeroGet.
#[local] Instance blankPutArgs : Codec PutArgs := blank {| pa_Key := ""; pa_Value := ""; pa_Version := 0 |}.
#[local] Instance blankPutReply : Codec PutReply := blank zeroPut.
#[local] Instance blankVoteArgs : Codec Raft.RequestVoteArgs := blank Raft.Build_RequestVoteArgs.
#[local] Instance blankVoteReply : Codec Raft.RequestVoteReply := blank Raft.Build_RequestVoteReply.
#[local] Instance blankFreezeArgs : Codec FreezeShardArgs := blank {| fa_Shard := 0; fa_Num := 0 |}.
#[local] Instance blankFreezeReply : Codec FreezeShardReply := blank zeroFreeze.
#[local] Instance blankInstallArgs : Codec InstallShardArgs :=
  blank {| ia_Shard := 0; ia_State := None; ia_Num := 0 |}.
#[local] Instance blankInstallReply : Codec InstallShardReply := blank zeroInstall.
#[local] Instance blankDeleteArgs : Codec DeleteShardArgs := blank {| da_Shard := 0; da_Num := 0 |}.
#[local] Instance blankDeleteReply : Codec DeleteShardReply := blank zeroDelete.

Lemma rpc_surface_witness :
  exists s2, kvServer 1 2 = Return s2 /\ forall kv rf objs,
    ~ exists r, LabRpc.Server_dispatch s2
        {| LabRpc.endname := "e"; LabRpc.svcMeth := "KVServer.Kill"; LabRpc.req_args := "" |}
        (<[1 := OKv kv]> (<[2 := ORaft rf]> objs)) = Return r.
Proof.
  destruct (rpc_surface 1 2 ltac:(lia)) as (s1 & s2 & s3 & _ & H2 & _ & H). exists s2. split; [exact H2|].
  intros kv rf objs Hr.
  destruct (H objs {| LabRpc.endname := "e"; LabRpc.svcMeth := "KVServer.Kill"; LabRpc.req_args := "" |}
    KvSrv.MkKVServer kv (ShardGrp.Build_KVServer 0 0 None 0) rf) as (_ & [Hs _] & _).
  specialize (Hs Hr). simpl in Hs. rewrite !elem_of_cons, elem_of_nil in Hs.
  repeat (destruct Hs as [Hs|Hs]; [discriminate Hs|]). exact Hs.
Defined.

End KvServers.
