(* ===== verification/Annotation.v ===== *)
(** * Annotations of test runs

    Models [src/src/tester1/annotation.go]: the annotations a test leaves for
    the visualisation of its history -- points, intervals, and continuous
    annotations that stay open until they are replaced or ended -- and the
    framework's record of which servers are connected and crashed, from which
    the "$ Failure" annotation is computed.

    The global variables [annotation] and [finfo] are the two fields of
    [world]; [finfo] is nil until [AnnotateTest].  Every read of the clock is
    an argument. *)

From S2P Require Import Prelude.

Set Default Proof Using "Type".

Module Annotation.

(** [porcupine.Annotation], the fields the code sets. *)
Record annot := {
  Tag : string; Start : Z; End_ : Z; Description : string; Details : string;
  BackgroundColor : string
}.

Record Continuous := { c_start : Z; c_desp : string; c_details : string; c_bgcolor : string }.

Record Annotation := {
  annotations : list annot; continuous : gmap string Continuous; finalized : bool
}.

Record CheckerBegin := { ck_ts : Z; ck_details : string }.

Record FrameworkInfo := {
  nservers : Z; connected : list bool; crashed : list bool; ckbegin : CheckerBegin
}.

Record world := { annotation : Annotation; finfo : option FrameworkInfo }.

Definition COLOR_INFO : string := "#FAFAFA".
Definition COLOR_NEUTRAL : string := "#FFECB3".
Definition COLOR_SUCCESS : string := "#C8E6C9".
Definition COLOR_FAILURE : string := "#FFCDD2".
Definition COLOR_FAULT : string := "#B3E5FC".
Definition COLOR_USER : string := "#FFF176".
Definition TAG_CHECKER : string := "$ Checker".
Definition TAG_PARTITION : string := "$ Failure".
Definition TAG_INFO : string := "$ Test Info".

Definition mkAnnotation : Annotation := {| annotations := []; continuous := ∅; finalized := false |}.

Definition mkFrameworkInfo (n : Z) : outcome FrameworkInfo :=
  conn ← go_make true n;
  cr ← go_make false n;
  Return {| nservers := n; connected := conn; crashed := cr; ckbegin := {| ck_ts := 0; ck_details := "" |} |}.

Definition init : world := {| annotation := mkAnnotation; finfo := None |}.

(** ** The list of annotations *)

Definition add (a : annot) (an : Annotation) : Annotation :=
  {| annotations := annotations an ++ [a]; continuous := continuous an; finalized := finalized an |}.

Definition set_continuous (m : gmap string Continuous) (an : Annotation) : Annotation :=
  {| annotations := annotations an; continuous := m; finalized := finalized an |}.

Definition annotatePointColor (t : Z) (tag desp details bgcolor : string) (an : Annotation) : Annotation :=
  add {| Tag := tag; Start := t; End_ := 0; Description := desp; Details := details;
         BackgroundColor := bgcolor |} an.

Definition annotateIntervalColor (t : Z) (tag : string) (start : Z) (desp details bgcolor : string)
    (an : Annotation) : Annotation :=
  add {| Tag := tag; Start := start; End_ := t; Description := desp; Details := details;
         BackgroundColor := bgcolor |} an.

(** The interval a continuous annotation becomes when it is closed at [t]. *)
Definition concretize (tag : string) (cont : Continuous) (t : Z) : annot :=
  {| Tag := tag; Start := c_start cont; End_ := t; Description := c_desp cont;
     Details := c_details cont; BackgroundColor := c_bgcolor cont |}.

Definition annotateContinuousColor (t : Z) (tag desp details bgcolor : string) (an : Annotation)
    : Annotation :=
  let new := {| c_start := t; c_desp := desp; c_details := details; c_bgcolor := bgcolor |} in
  match continuous an !! tag with
  | None => set_continuous (<[tag := new]> (continuous an)) an
  | Some cont => set_continuous (<[tag := new]> (continuous an)) (add (concretize tag cont t) an)
  end.

(** A missing map entry reads as the zero [Continuous]. *)
Definition zeroContinuous : Continuous :=
  {| c_start := 0; c_desp := ""; c_details := ""; c_bgcolor := "" |}.

Definition annotateContinuousEnd (t : Z) (tag : string) (an : Annotation) : Annotation :=
  let cont := default zeroContinuous (continuous an !! tag) in
  set_continuous (delete tag (continuous an)) (add (concretize tag cont t) an).

(** [order] enumerates the open annotations. *)
Definition finalize (t : Z) (order : list (string * Continuous)) (an : Annotation)
    : list annot * Annotation :=
  (annotations an ++ ((fun p => concretize p.1 p.2 t) <$> order),
   {| annotations := annotations an; continuous := continuous an; finalized := true |}).

Definition clear (an : Annotation) : Annotation :=
  {| annotations := []; continuous := ∅; finalized := false |}.

Definition isFinalized (an : Annotation) : bool := finalized an.

Definition endMark (t : Z) (end_ : string) : annot :=
  {| Tag := TAG_INFO; Start := t; End_ := 0; Description := end_; Details := end_;
     BackgroundColor := COLOR_INFO |}.

Definition FinalizeAnnotations (t t' : Z) (order : list (string * Continuous)) (end_ : string)
    (an : Annotation) : list annot * Annotation :=
  let '(l, an) := finalize t order an in (l ++ [endMark t' end_], an).

(** [cleanup]: [enabled] is [VIS_ENABLE]; the result has the annotations it
    hands to the visualisation, if any. *)
Definition cleanup (enabled : string) (t t' : Z) (order : list (string * Continuous)) (failed : bool)
    (end_ : string) (an : Annotation) : option (list annot) * Annotation :=
  if bool_decide (enabled = "never") || (negb failed && bool_decide (enabled <> "always")) || isFinalized an
  then (None, clear an)
  else
    let '(l, an) := finalize t order an in
    match l with
    | [] => (None, an)
    | _ => (Some (l ++ [endMark t' end_]), an)
    end.

(** ** The framework's annotations *)

Definition set_annotation (w : world) (an : Annotation) : world := {| annotation := an; finfo := finfo w |}.
Definition set_finfo (w : world) (fi : FrameworkInfo) : world :=
  {| annotation := annotation w; finfo := Some fi |}.
Definition set_ckbegin (fi : FrameworkInfo) (ck : CheckerBegin) : FrameworkInfo :=
  {| nservers := nservers fi; connected := connected fi; crashed := crashed fi; ckbegin := ck |}.
Definition set_status (fi : FrameworkInfo) (conn cr : list bool) : FrameworkInfo :=
  {| nservers := nservers fi; connected := conn; crashed := cr; ckbegin := ckbegin fi |}.

(** [finfo.mu.Lock()] on a nil [finfo] panics. *)
Definition getFinfo (w : world) : outcome FrameworkInfo :=
  match finfo w with Some fi => Return fi | None => Panic "nil pointer dereference" end.

Definition AnnotatePointColor (t : Z) (tag desp details bgcolor : string) (w : world) : world :=
  set_annotation w (annotatePointColor t tag desp details bgcolor (annotation w)).
Definition AnnotateIntervalColor (t : Z) (tag : string) (start : Z) (desp details bgcolor : string)
    (w : world) : world :=
  set_annotation w (annotateIntervalColor t tag start desp details bgcolor (annotation w)).
Definition AnnotateContinuousColor (t : Z) (tag desp details bgcolor : string) (w : world) : world :=
  set_annotation w (annotateContinuousColor t tag desp details bgcolor (annotation w)).

Definition AnnotateInfo (t : Z) (desp details : string) (w : world) : world :=
  AnnotatePointColor t TAG_INFO desp details COLOR_INFO w.

Definition AnnotateInfoInterval (t start : Z) (desp details : string) (w : world) : world :=
  AnnotateIntervalColor t TAG_INFO start desp details COLOR_INFO w.

Definition AnnotateTest (t : Z) (desp : string) (n : Z) (w : world) : outcome world :=
  let details := desp +:+ " (" +:+ Itoa n +:+ " servers)" in
  fi ← mkFrameworkInfo n;
  Return (AnnotateInfo t details details {| annotation := clear (annotation w); finfo := Some fi |}).

Definition AnnotateCheckerBegin (t : Z) (details : string) (w : world) : outcome world :=
  fi ← getFinfo w;
  Return (set_finfo w (set_ckbegin fi {| ck_ts := t; ck_details := details |})).

(** The final reset of the source changes a local copy of [finfo.ckbegin]. *)
Definition AnnotateCheckerEnd (t : Z) (desp details color : string) (w : world) : outcome world :=
  fi ← getFinfo w;
  let ck := ckbegin fi in
  if decide (ck_ts ck = 0%Z)
  then Return (set_annotation w (annotatePointColor t TAG_CHECKER desp details color (annotation w)))
  else Return (set_annotation w
         (annotateIntervalColor t TAG_CHECKER (ck_ts ck) desp (ck_details ck +:+ ": " +:+ details) color
            (annotation w))).

Definition AnnotateCheckerSuccess (t : Z) (desp details : string) : world -> outcome world :=
  AnnotateCheckerEnd t desp details COLOR_SUCCESS.
Definition AnnotateCheckerFailure (t : Z) (desp details : string) : world -> outcome world :=
  AnnotateCheckerEnd t desp details COLOR_FAILURE.
Definition AnnotateCheckerNeutral (t : Z) (desp details : string) : world -> outcome world :=
  AnnotateCheckerEnd t desp details COLOR_NEUTRAL.

Definition SetAnnotationFinalized (w : world) : world :=
  set_annotation w {| annotations := annotations (annotation w);
                      continuous := continuous (annotation w); finalized := true |}.

Definition GetAnnotationFinalized (w : world) : bool := isFinalized (annotation w).

(** Before [os.Exit], and when the process is interrupted: the annotations that
    are written out.  [order] enumerates the open annotations. *)
Definition AnnotateCheckerFailureBeforeExit (enabled : string) (t t1 t2 : Z)
    (order : list (string * Continuous)) (desp details : string) (w : world)
    : outcome (option (list annot) * world) :=
  w ← AnnotateCheckerFailure t desp details w;
  let '(out, an) := cleanup enabled t1 t2 order true "test failed" (annotation w) in
  Return (out, set_annotation w an).
Definition interrupted (enabled : string) (t t' : Z) (order : list (string * Continuous)) (w : world)
    : option (list annot) * world :=
  let '(out, an) := cleanup enabled t t' order true "interrupted" (annotation w) in
  (out, set_annotation w an).

(** Users' annotations. *)
Definition Annotate (t : Z) (tag desp details : string) (w : world) : world :=
  set_annotation w (annotatePointColor t tag desp details COLOR_USER (annotation w)).
Definition AnnotateInterval (t : Z) (tag : string) (start : Z) (desp details : string) (w : world) : world :=
  set_annotation w (annotateIntervalColor t tag start desp details COLOR_USER (annotation w)).
Definition AnnotateContinuous (t : Z) (tag desp details : string) (w : world) : world :=
  set_annotation w (annotateContinuousColor t tag desp details COLOR_USER (annotation w)).
Definition AnnotateContinuousEnd (t : Z) (tag : string) (w : world) : world :=
  set_annotation w (annotateContinuousEnd t tag (annotation w)).

(** ** Failures *)

(** The [%v] verb on a slice of integers. *)
Fixpoint spaced (l : list Z) : string :=
  match l with
  | [] => ""
  | [z] => Itoa z
  | z :: l => Itoa z +:+ " " +:+ spaced l
  end.
Definition fmtInts (l : list Z) : string := "[" +:+ spaced l +:+ "]".

(** The loop of [annotateFault]: the ids of connected and of crashed servers
    and the text for the disconnected ones; [crashed[id]] is indexed by the
    ids of [connected]. *)
Fixpoint scanServers (id : nat) (conn : list bool) (cr : list bool) (acc : list Z * list Z * string)
    : outcome (list Z * list Z * string) :=
  match conn with
  | [] => Return acc
  | c :: conn =>
      x ← slice_get cr (Z.of_nat id);
      let '(ids, crashes, text) := acc in
      scanServers (S id) conn cr
        (if x : bool then (ids, crashes ++ [Z.of_nat id], text)
         else if c : bool then (ids ++ [Z.of_nat id], crashes, text)
         else (ids, crashes, text +:+ fmtInts [Z.of_nat id] +:+ " "))
  end.

Definition faultText (conn cr : list bool) : outcome string :=
  r ← scanServers 0 conn cr ([], [], "partition = ");
  let '(ids, crashes, text) := r in
  Return (text +:+ (if decide (ids = []) then "" else fmtInts ids)
               +:+ (if decide (crashes = []) then "" else " / crash = " +:+ fmtInts crashes)).

Definition healthy (fi : FrameworkInfo) : bool :=
  bool_decide (connected fi = replicate (Z.to_nat (nservers fi)) true) &&
  bool_decide (crashed fi = replicate (Z.to_nat (nservers fi)) false).

Definition annotateFault (t : Z) (fi : FrameworkInfo) (an : Annotation) : outcome Annotation :=
  if healthy fi then Return (annotateContinuousEnd t TAG_PARTITION an)
  else
    text ← faultText (connected fi) (crashed fi);
    Return (annotateContinuousColor t TAG_PARTITION text text COLOR_FAULT an).

(** [copy(dst, src)]: the shorter length counts. *)
Definition go_copy {A} (dst src : list A) : list A := take (length dst) src ++ drop (length src) dst.

Definition withFault (t : Z) (fi : FrameworkInfo) (w : world) : outcome world :=
  an ← annotateFault t fi (annotation w);
  Return {| annotation := an; finfo := Some fi |}.

Definition AnnotateConnection (t : Z) (connection : list bool) (w : world) : outcome world :=
  fi ← getFinfo w;
  if decide (connected fi = connection) then Return w
  else withFault t (set_status fi (go_copy (connected fi) connection) (crashed fi)) w.

Definition AnnotateTwoPartitions (t : Z) (p1 p2 : list Z) (w : world) : world :=
  let text := "partition = " +:+ fmtInts p1 +:+ " " +:+ fmtInts p2 in
  set_annotation w (annotateContinuousColor t TAG_PARTITION text text COLOR_FAULT (annotation w)).

Definition AnnotateClearFailure (t : Z) (w : world) : outcome world :=
  fi ← getFinfo w;
  Return {| annotation := annotateContinuousEnd t TAG_PARTITION (annotation w);
            finfo := Some (set_status fi (replicate (length (connected fi)) true)
                                         (replicate (length (crashed fi)) false)) |}.

(** The loops of [AnnotateShutdown] and [AnnotateRestart]: set [crashed[id]] to
    [v] for every server of the list, noting whether something changed. *)
Fixpoint markServers (v : bool) (servers : list Z) (cr : list bool) (changed : bool)
    : outcome (bool * list bool) :=
  match servers with
  | [] => Return (changed, cr)
  | id :: servers =>
      x ← slice_get cr id;
      cr ← slice_set cr id v;
      markServers v servers cr (changed || xorb x v)
  end.

Definition AnnotateMark (v : bool) (t : Z) (servers : list Z) (w : world) : outcome world :=
  fi ← getFinfo w;
  r ← markServers v servers (crashed fi) false;
  let fi := set_status fi (connected fi) r.2 in
  if r.1 : bool then withFault t fi w else Return (set_finfo w fi).

Definition AnnotateShutdown : Z -> list Z -> world -> outcome world := AnnotateMark true.
Definition AnnotateRestart : Z -> list Z -> world -> outcome world := AnnotateMark false.

Definition allServers (w : world) : outcome (list Z) :=
  fi ← getFinfo w;
  z ← go_make 0%Z (nservers fi);
  Return (imap (fun i _ => Z.of_nat i) z).

Definition AnnotateShutdownAll (t : Z) (w : world) : outcome world :=
  servers ← allServers w; AnnotateShutdown t servers w.
Definition AnnotateRestartAll (t : Z) (w : world) : outcome world :=
  servers ← allServers w; AnnotateRestart t servers w.

(** ** Runs of a test *)

Inductive op :=
| OpInfo (desp details : string)
| OpCheckerBegin (details : string) | OpCheckerEnd (desp details color : string)
| OpPoint (tag desp details : string) | OpInterval (tag : string) (start : Z) (desp details : string)
| OpContinuous (tag desp details : string) | OpContinuousEnd (tag : string)
| OpConnection (connection : list bool) | OpClearFailure
| OpShutdown (servers : list Z) | OpRestart (servers : list Z)
| OpShutdownAll | OpRestartAll
| OpTwoPartitions (p1 p2 : list Z).

(** An operation at time [t]. *)
Definition runOp (o : op) (t : Z) (w : world) : outcome world :=
  match o with
  | OpInfo desp details => Return (AnnotateInfo t desp details w)
  | OpCheckerBegin details => AnnotateCheckerBegin t details w
  | OpCheckerEnd desp details color => AnnotateCheckerEnd t desp details color w
  | OpPoint tag desp details => Return (Annotate t tag desp details w)
  | OpInterval tag start desp details => Return (AnnotateInterval t tag start desp details w)
  | OpContinuous tag desp details => Return (AnnotateContinuous t tag desp details w)
  | OpContinuousEnd tag => Return (AnnotateContinuousEnd t tag w)
  | OpConnection connection => AnnotateConnection t connection w
  | OpClearFailure => AnnotateClearFailure t w
  | OpShutdown servers => AnnotateShutdown t servers w
  | OpRestart servers => AnnotateRestart t servers w
  | OpShutdownAll => AnnotateShutdownAll t w
  | OpRestartAll => AnnotateRestartAll t w
  | OpTwoPartitions p1 p2 => Return (AnnotateTwoPartitions t p1 p2 w)
  end.

Fixpoint runOps (ops : list (op * Z)) (w : world) : outcome world :=
  match ops with
  | [] => Return w
  | (o, t) :: ops => w ← runOp o t w; runOps ops w
  end.

(** Server numbers in range, and no user annotation under the framework's tag. *)
Definition valid (n : Z) (o : op) : Prop :=
  match o with
  | OpContinuous tag _ _ | OpContinuousEnd tag => tag <> TAG_PARTITION
  | OpShutdown servers | OpRestart servers => Forall (fun id => 0 <= id < n)%Z servers
  | _ => True
  end.

(** ** What the failure annotation is to show

    A specification that knows no annotations: which servers are connected,
    which are down, and the two sides of a partition that was announced after
    the last change of these. *)
Record status := { s_conn : list bool; s_down : gset Z; s_cut : option (list Z * list Z) }.

Definition well (n : Z) : status :=
  {| s_conn := replicate (Z.to_nat n) true; s_down := ∅; s_cut := None |}.

(** An announced partition is shown until the set of servers that are down changes. *)
Definition set_down (d : gset Z) (s : status) : status :=
  {| s_conn := s_conn s; s_down := d; s_cut := if decide (d = s_down s) then s_cut s else None |}.

Definition allOf (n : Z) : gset Z := list_to_set (seqZ 0 n).

Definition expect (n : Z) (o : op) (s : status) : status :=
  match o with
  | OpConnection connection =>
      if decide (s_conn s = connection) then s
      else {| s_conn := go_copy (s_conn s) connection; s_down := s_down s; s_cut := None |}
  | OpClearFailure => well n
  | OpShutdown servers => set_down (s_down s ∪ list_to_set servers) s
  | OpRestart servers => set_down (s_down s ∖ list_to_set servers) s
  | OpShutdownAll => set_down (s_down s ∪ allOf n) s
  | OpRestartAll => set_down (s_down s ∖ allOf n) s
  | OpTwoPartitions p1 p2 => {| s_conn := s_conn s; s_down := s_down s; s_cut := Some (p1, p2) |}
  | _ => s
  end.

Definition expects (n : Z) (ops : list (op * Z)) (s : status) : status :=
  foldl (fun s o => expect n o.1 s) s ops.

(** The slice [crashed] when the servers of [d] are down. *)
Definition bits (n : Z) (d : gset Z) : list bool := (fun i => bool_decide (i ∈ d)) <$> seqZ 0 n.

Definition twoText (p : list Z * list Z) : string := "partition = " +:+ fmtInts p.1 +:+ " " +:+ fmtInts p.2.

(** The open failure annotation shows [s]: an announced partition, or else what
    is computed from the servers' status, and nothing when all are well. *)
Definition shows (s : status) (fi : FrameworkInfo) (an : Annotation) : Prop :=
  match s_cut s with
  | Some p => exists c, continuous an !! TAG_PARTITION = Some c /\ c_desp c = twoText p
  | None =>
      match continuous an !! TAG_PARTITION with
      | None => healthy fi = true
      | Some c => healthy fi = false /\ faultText (connected fi) (crashed fi) = Return (c_desp c)
      end
  end.

Definition agrees (n : Z) (s : status) (fi : FrameworkInfo) : Prop :=
  nservers fi = n /\ length (connected fi) = Z.to_nat n /\
  connected fi = s_conn s /\ crashed fi = bits n (s_down s).

Definition Tracked (n : Z) (s : status) (w : world) : Prop :=
  exists fi, finfo w = Some fi /\ agrees n s fi /\ shows s fi (annotation w).

Lemma length_bits n d : length (bits n d) = Z.to_nat n.
Proof. unfold bits. by rewrite length_fmap, length_seqZ. Qed.

Lemma bits_empty n : bits n ∅ = replicate (Z.to_nat n) false.
Proof.
  symmetry. apply replicate_as_Forall. rewrite length_bits. split; [done|]. unfold bits. apply Forall_fmap.
  apply Forall_true. intros i. simpl. symmetry. apply bool_decide_eq_false_2. set_solver.
Qed.

Lemma lookup_bits n d id : (0 <= id < n)%Z -> bits n d !! Z.to_nat id = Some (bool_decide (id ∈ d)).
Proof.
  intros H. unfold bits. rewrite list_lookup_fmap, lookup_seqZ_lt by lia. simpl. do 2 f_equal.
  apply bool_decide_ext. by rewrite Z2Nat.id by lia.
Qed.

(** Setting [crashed[id]] adds the server to those that are down or removes it. *)
Definition mark (v : bool) (l : list Z) (d : gset Z) : gset Z :=
  if v then d ∪ list_to_set l else d ∖ list_to_set l.

Lemma elem_of_mark v l d i : i ∈ mark v l d <-> if decide (i ∈ l) then v = true else i ∈ d.
Proof. unfold mark. destruct v; case_decide; set_solver. Qed.

Lemma bits_insert v n d id :
  (0 <= id < n)%Z -> <[Z.to_nat id := v]> (bits n d) = bits n (mark v [id] d).
Proof.
  intros H. apply list_eq. intros k. destruct (decide (k < Z.to_nat n)) as [Hk|Hk].
  2: { rewrite !lookup_ge_None_2; rewrite ?length_insert, ?length_bits; [done|lia..]. }
  replace k with (Z.to_nat (Z.of_nat k)) by lia. rewrite lookup_bits by lia.
  destruct (decide (Z.of_nat k = id)) as [->|Hne].
  - rewrite list_lookup_insert_eq by (rewrite length_bits; lia). f_equal. symmetry.
    destruct v; [apply bool_decide_eq_true_2|apply bool_decide_eq_false_2];
      rewrite elem_of_mark, decide_True by set_solver; done.
  - rewrite list_lookup_insert_ne by lia. rewrite lookup_bits by lia. f_equal.
    apply bool_decide_ext. rewrite elem_of_mark, decide_False by set_solver. done.
Qed.

Lemma mark_cons v id l d : mark v (id :: l) d = mark v l (mark v [id] d).
Proof.
  unfold mark. cbn [list_to_set]. destruct v.
  - set_solver.
  - set_solver.
Qed.

Lemma mark_id v l d : mark v l d = d <-> forall i, i ∈ l -> bool_decide (i ∈ d) = v.
Proof.
  split.
  - intros E i Hi. rewrite <-E. destruct v; [apply bool_decide_eq_true_2|apply bool_decide_eq_false_2];
      rewrite elem_of_mark, decide_True by done; done.
  - intros H. apply set_eq. intros i. rewrite elem_of_mark. case_decide as Hi; [|done].
    specialize (H i Hi). destruct v.
    + apply bool_decide_eq_true in H. done.
    + apply bool_decide_eq_false in H. done.
Qed.

Lemma scanServers_ok id conn cr acc :
  id + length conn <= length cr -> exists r, scanServers id conn cr acc = Return r.
Proof.
  revert id acc. induction conn as [|c conn IH]; intros id [[ids crashes] text] Hl; simpl in *; [eauto|].
  destruct (lookup_lt_is_Some_2 cr id) as [x Hx]; [lia|].
  rewrite (slice_get_Some _ _ _ Hx). simpl. apply IH. lia.
Qed.

Lemma faultText_ok conn cr : length conn <= length cr -> exists s, faultText conn cr = Return s.
Proof.
  intros H. unfold faultText. destruct (scanServers_ok 0 conn cr ([], [], "partition = ")) as [[[ids crashes] text] ->];
    [done|]. simpl. eauto.
Qed.

Lemma withFault_tracks n t s fi w :
  agrees n s fi -> s_cut s = None -> exists w', withFault t fi w = Return w' /\ Tracked n s w'.
Proof.
  intros Hs Hcut. unfold withFault, annotateFault. destruct (healthy fi) eqn:Eh; simpl.
  - eexists. split; [done|]. exists fi. split_and!; [done|done|]. unfold shows. rewrite Hcut. simpl.
    by rewrite lookup_delete_eq.
  - destruct Hs as (Hn & H1 & H2 & H3). destruct (faultText_ok (connected fi) (crashed fi)) as [text Hf].
    { rewrite H3, length_bits. lia. }
    rewrite Hf. simpl. eexists. split; [done|]. exists fi. split_and!; [done|done|].
    unfold shows, annotateContinuousColor. rewrite Hcut. simpl.
    destruct (continuous (annotation w) !! TAG_PARTITION); simpl; by rewrite lookup_insert_eq.
Qed.

(** Operations that touch neither the servers' status nor the failure tag. *)
Lemma Tracked_keep n s w w' :
  Tracked n s w -> continuous (annotation w') !! TAG_PARTITION = continuous (annotation w) !! TAG_PARTITION ->
  (exists fi, finfo w = Some fi /\ exists ck, finfo w' = Some (set_ckbegin fi ck)) -> Tracked n s w'.
Proof.
  intros (fi & Hfi & Hs & Ht) Hc (fi' & Hfi' & ck & Hck). rewrite Hfi in Hfi'. injection Hfi' as <-.
  exists (set_ckbegin fi ck). split_and!; [done|done|]. unfold shows in *. by rewrite Hc.
Qed.

Lemma set_ckbegin_same fi : set_ckbegin fi (ckbegin fi) = fi.
Proof. by destruct fi. Qed.

Lemma markServers_ok v n servers d changed :
  Forall (fun id => 0 <= id < n)%Z servers ->
  markServers v servers (bits n d) changed
    = Return (changed || negb (bool_decide (mark v servers d = d)), bits n (mark v servers d)).
Proof.
  intros H. revert d changed. induction H as [|id servers Hid _ IH]; intros d changed; simpl.
  - assert (mark v [] d = d) as -> by (apply mark_id; intros i Hi; by apply not_elem_of_nil in Hi).
    by rewrite bool_decide_eq_true_2, orb_false_r.
  - assert (slice_get (bits n d) id = Return (bool_decide (id ∈ d))) as ->.
    { rewrite <-(Z2Nat.id id) at 1 by lia. apply slice_get_Some. by apply lookup_bits. }
    unfold slice_set, len. rewrite decide_True by (rewrite length_bits; lia). simpl.
    rewrite bits_insert by done. cbn [mbind outcome_bind]. rewrite IH, <-mark_cons. do 2 f_equal. rewrite <-orb_assoc. f_equal.
    destruct (decide (bool_decide (id ∈ d) = v)) as [E|E].
    + assert (mark v [id] d = d) as Es by (apply mark_id; by intros i ->%list_elem_of_singleton).
      by rewrite Es, E, xorb_nilpotent.
    + rewrite (bool_decide_eq_false_2 (mark v (id :: servers) d = d)).
      * by destruct (bool_decide (id ∈ d)), v.
      * intros Hm. by apply E, (proj1 (mark_id v (id :: servers) d) Hm); left.
Qed.

Lemma AnnotateMark_tracks v n t servers s w :
  Tracked n s w -> Forall (fun id => 0 <= id < n)%Z servers ->
  exists w', AnnotateMark v t servers w = Return w' /\ Tracked n (set_down (mark v servers (s_down s)) s) w'.
Proof.
  intros (fi & Hfi & Hs & Ht) H. unfold AnnotateMark, getFinfo. rewrite Hfi. simpl.
  pose proof Hs as (Hn & H1 & H2 & H3). rewrite H3, markServers_ok by done. simpl.
  unfold set_down. destruct (decide (mark v servers (s_down s) = s_down s)) as [E|E].
  - rewrite bool_decide_eq_true_2 by done. simpl. rewrite E. eexists. split; [done|]. exists fi.
    split_and!; [|done|by destruct s]. simpl. rewrite <-H3. by destruct fi.
  - rewrite bool_decide_eq_false_2 by done. simpl. apply withFault_tracks; [|done].
    by split_and!; simpl.
Qed.

Lemma allServers_valid n s w :
  (0 <= n)%Z -> Tracked n s w ->
  exists l, allServers w = Return l /\ Forall (fun id => 0 <= id < n)%Z l /\ list_to_set l = allOf n.
Proof.
  intros Hp (fi & Hfi & (Hn & _) & _). unfold allServers, getFinfo. rewrite Hfi. simpl.
  unfold go_make. rewrite decide_True by lia. rewrite Hn.
  assert (forall i x, imap (fun i _ => Z.of_nat i) (replicate (Z.to_nat n) 0%Z) !! i = Some x
    <-> i < Z.to_nat n /\ x = Z.of_nat i) as Hl.
  { intros i x. rewrite list_lookup_imap. split.
    - intros (y & Hy & ->)%fmap_Some. by apply lookup_replicate in Hy as [_ Hy].
    - intros [Hi ->]. by rewrite lookup_replicate_2. }
  eexists. split; [done|]. split.
  - apply Forall_lookup. intros i x (Hi & ->)%Hl. lia.
  - apply set_eq. intros x. unfold allOf. rewrite !elem_of_list_to_set, elem_of_seqZ, list_elem_of_lookup.
    setoid_rewrite Hl. split; [intros (i & Hi & ->); lia|]. intros Hx. exists (Z.to_nat x). lia.
Qed.

Lemma AnnotateAll_tracks v n t s w :
  (0 <= n)%Z -> Tracked n s w ->
  exists w', (servers ← allServers w; AnnotateMark v t servers w) = Return w' /\
    Tracked n (set_down (if v then s_down s ∪ allOf n else s_down s ∖ allOf n) s) w'.
Proof.
  intros Hp HT. destruct (allServers_valid n s w Hp HT) as (l & -> & Hl & E). cbn [mbind outcome_bind].
  destruct (AnnotateMark_tracks v n t l s w HT Hl) as (w' & Hw & HT'). exists w'. split; [done|].
  unfold mark in HT'. by rewrite E in HT'.
Qed.

Lemma AnnotateConnection_tracks n t connection s w :
  Tracked n s w -> exists w', AnnotateConnection t connection w = Return w' /\
    Tracked n (expect n (OpConnection connection) s) w'.
Proof.
  intros HT. pose proof HT as (fi & Hfi & Hs & Ht). destruct Hs as (Hn & H1 & H2 & H3).
  unfold AnnotateConnection, getFinfo, expect. rewrite Hfi. simpl. rewrite <-H2.
  case_decide; [eauto|]. apply withFault_tracks; [|done]. split_and!; simpl; try done.
  unfold go_copy. rewrite length_app, length_take, length_drop. lia.
Qed.

Lemma AnnotateClearFailure_tracks n t s w :
  (0 <= n)%Z -> Tracked n s w -> exists w', AnnotateClearFailure t w = Return w' /\ Tracked n (well n) w'.
Proof.
  intros Hp (fi & Hfi & (Hn & H1 & H2 & H3) & Ht). unfold AnnotateClearFailure, getFinfo. rewrite Hfi. simpl.
  eexists. split; [done|]. eexists. split_and!; [done| |].
  - split_and!; simpl; rewrite ?length_replicate, ?H1, ?H3, ?length_bits; [done..|by rewrite bits_empty].
  - unfold shows, healthy. simpl. rewrite lookup_delete_eq, H1, H3, length_bits, Hn, !bool_decide_eq_true_2; done.
Qed.

Lemma runOp_tracks n o t s w :
  (0 <= n)%Z -> valid n o -> Tracked n s w ->
  exists w', runOp o t w = Return w' /\ Tracked n (expect n o s) w'.
Proof.
  intros Hp Hv HT. pose proof HT as (fi & Hfi & Hs & Ht).
  assert (exists ck, finfo w = Some (set_ckbegin fi ck)) as Hck
    by (exists (ckbegin fi); by rewrite set_ckbegin_same).
  destruct o; cbn [runOp valid] in *.
  - eexists. split; [done|]. eapply Tracked_keep; [done|done|eauto].
  - unfold AnnotateCheckerBegin, getFinfo. rewrite Hfi. simpl. eexists. split; [done|].
    eapply Tracked_keep; [done|done|]. exists fi. split; [done|]. by eexists.
  - unfold AnnotateCheckerEnd, getFinfo. rewrite Hfi. simpl.
    case_decide; (eexists; split; [done|]; eapply Tracked_keep; [done|done|eauto]).
  - eexists. split; [done|]. eapply Tracked_keep; [done|done|eauto].
  - eexists. split; [done|]. eapply Tracked_keep; [done|done|eauto].
  - eexists. split; [done|]. eapply Tracked_keep; [done| |eauto]. simpl.
    unfold annotateContinuousColor. destruct (continuous _ !! tag); simpl; by rewrite lookup_insert_ne.
  - eexists. split; [done|]. eapply Tracked_keep; [done| |eauto]. simpl. by rewrite lookup_delete_ne.
  - by apply AnnotateConnection_tracks.
  - by eapply AnnotateClearFailure_tracks.
  - by apply (AnnotateMark_tracks true).
  - by apply (AnnotateMark_tracks false).
  - by apply (AnnotateAll_tracks true).
  - by apply (AnnotateAll_tracks false).
  - eexists. split; [done|]. exists fi. split_and!; [done|exact Hs|]. unfold shows. simpl.
    unfold annotateContinuousColor.
    eexists. split; [destruct (continuous (annotation w) !! TAG_PARTITION); simpl; apply lookup_insert_eq|].
    unfold twoText. done.
Qed.

Lemma runOps_tracks n ops s w :
  (0 <= n)%Z -> Forall (fun o => valid n o.1) ops -> Tracked n s w ->
  exists w', runOps ops w = Return w' /\ Tracked n (expects n ops s) w'.
Proof.
  intros Hp Hv. revert s w. induction Hv as [|[o t] ops Ho _ IH]; intros s w Hw; simpl; [eauto|].
  destruct (runOp_tracks n o t s w Hp Ho Hw) as (w' & -> & Hw'). simpl. by apply IH.
Qed.

(** ** Theorems *)


(** The begin of a check is reused.  [AnnotateCheckerEnd] means to reset the
    begin timestamp but resets a copy: after one begin, a second end without a
    begin of its own becomes an interval that starts at the first check's
    begin, carrying its description. *)
Theorem checker_begin_reused t1 t2 t3 d desp details color desp' details' color' w fi :
  finfo w = Some fi -> t1 <> 0%Z ->
  exists w', (w1 ← AnnotateCheckerBegin t1 d w; w2 ← AnnotateCheckerEnd t2 desp details color w1;
              AnnotateCheckerEnd t3 desp' details' color' w2) = Return w' /\
    last (annotations (annotation w')) =
      Some {| Tag := TAG_CHECKER; Start := t1; End_ := t3; Description := desp';
              Details := d +:+ ": " +:+ details'; BackgroundColor := color' |}.
Proof.
  intros Hfi Ht. unfold AnnotateCheckerBegin, AnnotateCheckerEnd, getFinfo. rewrite Hfi. simpl.
  rewrite decide_False by done. simpl. rewrite decide_False by done.
  eexists. split; [done|]. simpl. by rewrite last_snoc.
Qed.

(** Ending a continuous annotation that is not open adds an interval from time
    zero with no description, although the source means to do nothing. *)
Lemma end_without_begin t tag an :
  continuous an !! tag = None ->
  annotations (annotateContinuousEnd t tag an) = annotations an ++ [concretize tag zeroContinuous t].
Proof. intros H. unfold annotateContinuousEnd. by rewrite H. Qed.

(** No annotation is lost when the run is finalised: every recorded one and
    every open one is handed over, in any iteration order. *)
Lemma finalize_all t t' order end_ an :
  order ≡ₚ map_to_list (continuous an) ->
  (FinalizeAnnotations t t' order end_ an).1 ≡ₚ
    annotations an ++ ((fun p => concretize p.1 p.2 t) <$> map_to_list (continuous an)) ++ [endMark t' end_].
Proof. intros H. unfold FinalizeAnnotations. simpl. by rewrite H, <-(assoc_L (++)). Qed.

(** ** Witnesses *)

Definition exOps : list (op * Z) :=
  [(OpShutdown [1], 10); (OpConnection [true; false; false], 11); (OpRestartAll, 12);
   (OpContinuous "mine" "a" "b", 13); (OpConnection [true; false; true], 14)]%Z.

(** Two partitions replace what the status says; a restart that changes nothing
    leaves them, the next shutdown does not. *)
Definition exCut : list (op * Z) := exOps ++ [(OpTwoPartitions [0; 1] [2], 15); (OpRestart [2], 16)]%Z.


Lemma checker_begin_reused_witness :
  exists w', (w1 ← AnnotateCheckerBegin 5 "check" (set_finfo init
      {| nservers := 0; connected := []; crashed := []; ckbegin := {| ck_ts := 0; ck_details := "" |} |});
      w2 ← AnnotateCheckerEnd 7 "ok" "x" COLOR_SUCCESS w1; AnnotateCheckerEnd 9 "ok" "y" COLOR_SUCCESS w2)
      = Return w' /\
    last (annotations (annotation w')) =
      Some {| Tag := TAG_CHECKER; Start := 5; End_ := 9; Description := "ok";
              Details := "check: y"; BackgroundColor := COLOR_SUCCESS |}.
Proof. eapply checker_begin_reused; [reflexivity|lia]. Defined.

End Annotation.
