(* ===== verification/Config.v ===== *)
(** * The tester's configuration

    Models [src/src/tester1/config.go]: one test's network, groups and clerks,
    the statistics that [Begin] and [End] report, the time limit and the
    cleanup.  The network, the groups, the clerks and the annotations are those
    of [LabRpc], [Groups], [Clnts] and [Annotation].  Times are nanoseconds and
    arguments of the operations that read the clock.  The random helpers of the
    file are in [Random]. *)

From S2P Require Import Prelude GoLib LabRpc Persister Group Groups Clnts Annotation.

Module Config.
Import LabRpc(Network).

Set Default Proof Using "Type".

Definition GRP0 : Z := 0.
Definition Second : Z := 1000000000.

Section Config.
Context {state : Type}.

(** [failed] is the test's [t.Failed()]; the network is that of [groups]. *)
Record Config := {
  groups : Groups.world state;
  clnts : Clnts.clerks;
  failed : bool;
  start : Z;
  t0 : Z;
  rpcs0 : Z;
  ops : Z;
  annotation : Annotation.Annotation
}.

Definition net (cfg : Config) : Network := Groups.wnet (groups cfg).

Definition set_groups (cfg : Config) (w : Groups.world state) : Config :=
  {| groups := w; clnts := clnts cfg; failed := failed cfg; start := start cfg; t0 := t0 cfg;
     rpcs0 := rpcs0 cfg; ops := ops cfg; annotation := annotation cfg |}.
Definition set_net (cfg : Config) (n : Network) : Config :=
  set_groups cfg {| Groups.grps := Groups.grps (groups cfg); Groups.wnet := n;
    Groups.wheap := Groups.wheap (groups cfg); Groups.wpst := Groups.wpst (groups cfg);
    Groups.wkilled := Groups.wkilled (groups cfg) |}.
Definition set_stats (cfg : Config) (t r o : Z) : Config :=
  {| groups := groups cfg; clnts := clnts cfg; failed := failed cfg; start := start cfg; t0 := t;
     rpcs0 := r; ops := o; annotation := annotation cfg |}.

Definition set_annotation (cfg : Config) (an : Annotation.Annotation) : Config :=
  {| groups := groups cfg; clnts := clnts cfg; failed := failed cfg; start := start cfg; t0 := t0 cfg;
     rpcs0 := rpcs0 cfg; ops := ops cfg; annotation := an |}.

(** ** Groups *)

Definition MakeGroupStart (g : Z) (names : list (list string)) (b : nat -> Groups.boot state)
    (cfg : Config) : outcome Config :=
  w ← Groups.MakeGroupStart g names b (groups cfg); mret (set_groups cfg w).
Definition ExitGroup (g : Z) (cfg : Config) : outcome Config :=
  w ← Groups.ExitGroup g (groups cfg); mret (set_groups cfg w).
Definition Group (g : Z) (cfg : Config) : option Group.ServerGrp := Groups.lookupGroup g (groups cfg).

(** ** The network *)

Definition SetReliable (reliable : bool) (cfg : Config) : Config :=
  set_net cfg (LabRpc.Reliable reliable (net cfg)).
Definition IsReliable (cfg : Config) : bool := LabRpc.IsReliable (net cfg).
Definition SetLongReordering (longrel : bool) (cfg : Config) : Config :=
  set_net cfg (LabRpc.LongReordering longrel (net cfg)).
Definition SetLongDelays (longdel : bool) (cfg : Config) : Config :=
  set_net cfg (LabRpc.LongDelays longdel (net cfg)).
Definition RpcTotal (cfg : Config) : Z := LabRpc.GetTotalCount (net cfg).
Definition BytesTotal (cfg : Config) : Z := LabRpc.GetTotalBytes (net cfg).

(** ** Clients *)

(** The methods of the embedded [Clnts]; [a] is the address of the new client. *)
Definition set_clnts (cfg : Config) (cs : Clnts.clerks) : Config :=
  {| groups := groups cfg; clnts := cs; failed := failed cfg; start := start cfg; t0 := t0 cfg;
     rpcs0 := rpcs0 cfg; ops := ops cfg; annotation := annotation cfg |}.
Definition MakeClientTo (a : nat) (to : option (list string)) (cfg : Config) : outcome Config :=
  cs ← Clnts.MakeClientTo a to (clnts cfg); mret (set_clnts cfg cs).
Definition MakeClient (a : nat) (cfg : Config) : outcome Config := MakeClientTo a None cfg.
Definition DeleteClient (a : nat) (cfg : Config) : outcome Config :=
  '(cs, n) ← Clnts.DeleteClient a (clnts cfg) (net cfg); mret (set_clnts (set_net cfg n) cs).

(** ** Making a configuration *)

(** [an] is the package's annotation state; the heap and the persisters are
    those that exist already.  The fields not assigned are zero. *)
Definition MakeConfig (names : list (list string)) (reliable : bool) (b : nat -> Groups.boot state)
    (heap : gmap nat (LabRpc.Server state)) (st : Persister.store) (an : Annotation.Annotation)
    (now : Z) : outcome Config :=
  let net := LabRpc.MakeNetwork in
  let cfg := {| groups := Groups.newGroups net heap st; clnts := None; failed := false; start := 0;
                t0 := 0; rpcs0 := 0; ops := 0; annotation := an |} in
  cfg ← MakeGroupStart GRP0 names b cfg;
  let cfg := {| groups := groups cfg; clnts := Clnts.makeClnts; failed := failed cfg; start := now;
                t0 := t0 cfg; rpcs0 := rpcs0 cfg; ops := ops cfg; annotation := annotation cfg |} in
  mret (SetReliable reliable cfg).

(** ** A test *)

(** [CheckTimeout]: a test that has not failed fails after two minutes. *)
Definition CheckTimeout (now : Z) (cfg : Config) : outcome unit :=
  if negb (failed cfg) && bool_decide (now - start cfg > 120 * Second)%Z
  then Fatal "test took longer than 120 seconds" else Return ().

(** [Begin]: the line it prints and the new configuration. *)
Definition Begin (now : Z) (description : string) (cfg : Config) : string * Config :=
  let rel := if IsReliable cfg then "reliable" else "unreliable" in
  (description +:+ " (" +:+ rel +:+ " network)...", set_stats cfg now (RpcTotal cfg) 0).

(** [atomic.AddInt32(&cfg.ops, 1)] *)
Definition Op (cfg : Config) : Config := set_stats cfg (t0 cfg) (rpcs0 cfg) (wrap32 (ops cfg + 1)).

(** The numbers of the line that [End] prints. *)
Record report := { r_time : Z; r_npeers : Z; r_nrpc : Z; r_ops : Z }.

Definition End (now : Z) (cfg : Config) : outcome (option report) :=
  _ ← CheckTimeout now cfg;
  if failed cfg then mret None
  else
    match Group GRP0 cfg with
    | None => Panic "nil pointer dereference"
    | Some sg =>
        mret (Some {| r_time := now - t0 cfg; r_npeers := Group.N sg;
                      r_nrpc := wrap64 (RpcTotal cfg - rpcs0 cfg); r_ops := ops cfg |})
    end.

(** [Fatalf]: [frames] are the callers' files and lines; the lines it prints. *)
Definition Fatalf (text : string) (frames : list (string * Z)) : list string * outcome unit :=
  match frames with
  | [] => (["Fatal: " +:+ text], Panic "testing: zero callers found")
  | _ =>
      (("Fatal: " +:+ text) ::
         ((fun f => "        " +:+ f.1 +:+ ":" +:+ Itoa f.2)
            <$> filter (fun f => Contains f.1 "test.go" = true) frames),
       Fatal text)
  end.

(** [Cleanup]: [vis], [t], [t'] and [order] are the arguments of the
    annotations' cleanup; the result has what it hands to the visualisation. *)
Definition Cleanup (vis : string) (t t' : Z) (order : list (string * Annotation.Continuous)) (now : Z)
    (cfg : Config) : outcome (option (list Annotation.annot) * Config) :=
  '(cs, n) ← Clnts.cleanup (clnts cfg) (net cfg);
  let w := Groups.cleanup (groups (set_net cfg n)) in
  n ← LabRpc.Cleanup (Groups.wnet w);
  let '(out, an) := if failed cfg then Annotation.cleanup vis t t' order true "test failed" (annotation cfg)
                    else Annotation.cleanup vis t t' order false "test passed" (annotation cfg) in
  let cfg := {| groups := groups (set_net (set_groups cfg w) n); clnts := cs; failed := failed cfg;
                start := start cfg; t0 := t0 cfg; rpcs0 := rpcs0 cfg; ops := ops cfg; annotation := an |} in
  _ ← CheckTimeout now cfg;
  mret (out, cfg).

Lemma winv_Reliable rel (cfg : Config) :
  Groups.winv (groups cfg) -> Groups.winv (groups (SetReliable rel cfg)).
Proof.
  intros [H1 H2]. constructor; [|exact H2]. intros g sg Hg. destruct (H1 g sg Hg) as [Eg []].
  split; [exact Eg|]. by constructor.
Qed.

(** A configuration of a group 0. *)
Lemma MakeConfig_ok names rel b (heap : gmap nat (LabRpc.Server state)) st an now :
  Groups.startOk names b (Groups.newGroups LabRpc.MakeNetwork heap st) ->
  exists cfg w, MakeConfig names rel b heap st an now = Return cfg /\
    Groups.groupMade GRP0 names b (Groups.newGroups LabRpc.MakeNetwork heap st) w /\
    groups cfg = groups (set_net (set_groups cfg w)
                                         (LabRpc.Reliable rel (Groups.wnet w))) /\
    Groups.winv (groups cfg) /\ clnts cfg = Some ∅ /\ failed cfg = false /\
    start cfg = now.
Proof.
  intros Hok. unfold MakeConfig, MakeGroupStart. simpl.
  destruct (Groups.MakeGroupStart_ok GRP0 names b _ Hok) as (w & Hw & Hm). rewrite Hw.
  cbn [mbind outcome_bind mret outcome_ret]. eexists _, w. split; [done|]. split; [done|].
  split; [done|]. split; [|done]. apply winv_Reliable. simpl. eapply Groups.winv_made; [|exact Hm].
  apply Groups.winv_new.
Qed.

(** ** What happens between [Begin] and [End] *)

(** [during k n cfg cfg']: the clerks report [k] operations and the network
    accepts [n] requests, in any interleaving, while the network and the
    servers do anything else they can. *)
Inductive during : nat -> nat -> Config -> Config -> Prop :=
| during_refl cfg : during 0 0 cfg cfg
| during_op k n cfg cfg' : during k n (Op cfg) cfg' -> during (S k) n cfg cfg'
| during_net k n m cfg cfg' (w w' : LabRpc.world state) :
    LabRpc.net w = net cfg -> LabRpc.sends m w w' ->
    during k n (set_net cfg (LabRpc.net w')) cfg' -> during k (m + n) cfg cfg'.

Lemma during_stats k n cfg cfg' : during k n cfg cfg' ->
  wrap32 (ops cfg) = ops cfg -> wrap32 (RpcTotal cfg) = RpcTotal cfg ->
  ops cfg' = wrap32 (ops cfg + Z.of_nat k) /\
  RpcTotal cfg' = wrap32 (RpcTotal cfg + Z.of_nat n) /\
  t0 cfg' = t0 cfg /\ rpcs0 cfg' = rpcs0 cfg /\ start cfg' = start cfg /\ failed cfg' = failed cfg /\
  Groups.grps (groups cfg') = Groups.grps (groups cfg).
Proof.
  induction 1 as [cfg|k n cfg cfg' _ IH|k n m cfg cfg' w w' Hw Hs _ IH]; intros Ho Hr.
  - by rewrite !Z.add_0_r.
  - destruct IH as (E1 & E2 & E3); [apply wrap32_idem|done|]. split; [|by split].
    rewrite E1. simpl. rewrite wrap32_add. f_equal. lia.
  - pose proof (LabRpc.sends_count _ _ _ Hs) as Hc. rewrite Hw in Hc. specialize (Hc Hr).
    change (RpcTotal (set_net cfg (LabRpc.net w'))) with (LabRpc.net_count (LabRpc.net w')) in IH.
    rewrite Hc in IH. simpl in IH.
    destruct IH as (E1 & E2 & E3); [done|apply wrap32_idem|]. split; [done|]. split; [|done].
    rewrite E2, wrap32_add. f_equal.
    change (LabRpc.net_count (net cfg)) with (RpcTotal cfg). lia.
Qed.

(** C25: The report of a test is right, within the counters' width.  Between
    [Begin] and [End] let the clerks report [k] operations and the network
    accept [n] requests.  If the test has not failed and is within its time
    limit, [End] reports [k] modulo 2^32 (as an [int32]) operations and the
    size of group 0; the report is exactly [k] operations as long as [k] is
    below 2^31, and exactly [n] RPCs as long as the network's own count stays
    below 2^31.  After the time limit [End] fails the test. *)
Theorem end_report now d cfg line cfg1 k n cfg2 now' sg :
  Begin now d cfg = (line, cfg1) -> during k n cfg1 cfg2 -> failed cfg = false ->
  Group GRP0 cfg = Some sg -> (0 <= RpcTotal cfg)%Z -> (RpcTotal cfg < 2 ^ 31)%Z ->
  ((now' - start cfg <= 120 * Second)%Z -> exists r, End now' cfg2 = Return (Some r) /\
     r_ops r = wrap32 (Z.of_nat k) /\ r_npeers r = Group.N sg /\ r_time r = (now' - now)%Z /\
     ((Z.of_nat k < 2 ^ 31)%Z -> r_ops r = Z.of_nat k) /\
     ((RpcTotal cfg + Z.of_nat n < 2 ^ 31)%Z -> r_nrpc r = Z.of_nat n)) /\
  ((now' - start cfg > 120 * Second)%Z -> exists m, End now' cfg2 = Fatal m).
Proof.
  intros Hb Hd Hf Hg H0 Hlt. injection Hb as _ <-.
  destruct (during_stats _ _ _ _ Hd) as (E1 & E2 & E3 & E4 & E5 & E6 & E7).
  { done. }
  { apply wrap32_small. change (RpcTotal (set_stats cfg now (RpcTotal cfg) 0)) with (RpcTotal cfg). lia. }
  simpl in *. change (RpcTotal (set_stats cfg now (RpcTotal cfg) 0)) with (RpcTotal cfg) in E2.
  unfold End, CheckTimeout. rewrite E5, E6, Hf. simpl. split; intros Ht.
  - rewrite bool_decide_eq_false_2 by lia. cbn [mbind outcome_bind].
    unfold Group, Groups.lookupGroup in Hg |- *. rewrite E7, Hg. eexists. split; [done|]. simpl.
    rewrite E1, E3. split_and!; try done.
    + intros Hk. rewrite wrap32_small; lia.
    + intros Hn. rewrite E2, E4, wrap32_small by lia. rewrite wrap64_small; [lia|].
      unfold int_min, int_max. lia.
  - rewrite bool_decide_eq_true_2 by lia. by eexists.
Qed.

(** ** Cleaning up *)

(** The clerks' ends are known to the network, and no two clerks share one. *)
Definition clerksOk (m : gmap nat Clnts.Clnt) (n : Network) : Prop :=
  (forall a c, m !! a = Some c -> Clnts.wf c n) /\
  forall a a' c c' s s' e, m !! a = Some c -> m !! a' = Some c' ->
    Clnts.ends c !! s = Some e -> Clnts.ends c' !! s' = Some e -> a = a'.

(** The names of a clerk's ends. *)
Definition endNames (c : Clnts.Clnt) : list string := (map_to_list (Clnts.ends c)).*2.

Lemma endNames_spec c e : e ∈ endNames c <-> exists s, Clnts.ends c !! s = Some e.
Proof.
  unfold endNames. rewrite list_elem_of_fmap. split.
  - intros ([s e'] & -> & H%elem_of_map_to_list). by exists s.
  - intros [s Hs]. exists (s, e). split; [done|]. by apply elem_of_map_to_list.
Qed.

(** Removing clerks that are left. *)
Lemma removeAll_ok l : forall n : Network,
  NoDup (mjoin (endNames <$> l.*2)) -> (forall e, e ∈ mjoin (endNames <$> l.*2) -> e ∈ LabRpc.ends n) ->
  exists n', Clnts.removeAll l n = Return n' /\
    LabRpc.ends n' = LabRpc.ends n ∖ list_to_set (mjoin (endNames <$> l.*2)) /\
    LabRpc.done_closed n' = LabRpc.done_closed n.
Proof.
  induction l as [|[a c] l IH]; intros n Hnd Hin; simpl in *.
  { exists n. split_and!; [done|set_solver|done]. }
  apply NoDup_app in Hnd as (H1 & Hd & H2). unfold Clnts.remove.
  destruct (Clnts.removeEnds_spec (map_to_list (Clnts.ends c)) n H1) as (n1 & He & Hn1).
  { intros e He. apply Hin, elem_of_app. by left. }
  assert (LabRpc.done_closed n1 = LabRpc.done_closed n) as Hd1.
  { clear -He. revert n He. induction (map_to_list (Clnts.ends c)) as [|[s e] k IH]; intros n; simpl.
    - by intros [= <-].
    - intros (n2 & Hn2 & Hr)%bind_Return. rewrite (IH _ Hr). unfold LabRpc.DeleteEnd in Hn2.
      case_decide; [done|]. by injection Hn2 as <-. }
  rewrite He. csimpl. destruct (IH n1 H2) as (n2 & -> & Hn2 & Hd2).
  - intros e He'. rewrite Hn1. apply elem_of_difference. split; [apply Hin, elem_of_app; by right|].
    rewrite elem_of_list_to_set. intros Hc. by apply (Hd e).
  - exists n2. split_and!; [done| |congruence]. rewrite Hn2, Hn1, list_to_set_app_L.
    by rewrite difference_difference_l_L.
Qed.

Lemma clerks_ends m n : clerksOk m n ->
  NoDup (mjoin (endNames <$> (map_to_list m).*2)) /\
  forall e, e ∈ mjoin (endNames <$> (map_to_list m).*2) <->
    exists a c s, m !! a = Some c /\ Clnts.ends c !! s = Some e.
Proof.
  intros [Hw Hd]. split.
  - assert (forall p, p ∈ map_to_list m -> m !! p.1 = Some p.2) as Hl
      by (intros [a c] H%elem_of_map_to_list; done).
    pose proof (NoDup_fst_map_to_list m) as Hnd. revert Hl Hnd.
    induction (map_to_list m) as [|[a c] l IH]; intros Hl Hnd; simpl; [constructor|].
    simpl in Hnd. apply NoDup_cons in Hnd as [Ha Hnd]. apply NoDup_app. split_and!.
    + eapply Clnts.wf_names, (Hw a). apply (Hl (a, c)). left.
    + intros e (s & Hs)%endNames_spec (k & Hk & (c' & -> & ([a' c''] & -> & Hac)%list_elem_of_fmap)%list_elem_of_fmap)%list_elem_of_join.
      apply endNames_spec in Hk as [s' Hs']. simpl in Hs'.
      assert (a = a') as <-.
      { eapply (Hd a a' c c'' s s' e); [apply (Hl (a, c)); left|apply (Hl (a', c'')); by right|done|done]. }
      apply Ha. apply list_elem_of_fmap. by exists (a, c'').
    + apply IH; [|done]. intros p Hp. apply Hl. by right.
  - intros e. rewrite list_elem_of_join. split.
    + intros (k & Hk & (c & -> & ([a c'] & -> & Hac%elem_of_map_to_list)%list_elem_of_fmap)%list_elem_of_fmap).
      apply endNames_spec in Hk as [s Hs]. by exists a, c', s.
    + intros (a & c & s & Hac & Hs). exists (endNames c). split; [apply endNames_spec; by exists s|].
      apply list_elem_of_fmap. exists c. split; [done|]. apply list_elem_of_fmap. exists (a, c).
      split; [done|]. by apply elem_of_map_to_list.
Qed.

(** Every service of every group is killed. *)
Lemma groups_cleanup_killed (w : Groups.world state) k :
  k ∈ Groups.wkilled (Groups.cleanup w) <->
  k ∈ Groups.wkilled w \/ exists g sg s, Groups.grps w !! g = Some sg /\ s ∈ Group.srvs sg /\ k ∈ Group.svcs s.
Proof.
  assert (forall l acc, k ∈ foldl (fun ks s => ks ++ Group.svcs s) acc l <->
    k ∈ acc \/ exists s, s ∈ l /\ k ∈ Group.svcs s) as H1.
  { induction l as [|s l IH]; intros acc; simpl.
    - split; [by left|]. intros [?|(s & ?%elem_of_nil & _)]; done.
    - rewrite IH, elem_of_app. setoid_rewrite elem_of_cons. naive_solver. }
  assert (forall l acc, k ∈ foldl (fun ks '(_, sg) => ks ++ Groups.ServerGrp_cleanup sg) acc l <->
    k ∈ acc \/ exists (g : Z) sg s, (g, sg) ∈ l /\ s ∈ Group.srvs sg /\ k ∈ Group.svcs s) as H2.
  { induction l as [|[g sg] l IH]; intros acc; simpl.
    - split; [by left|]. intros [?|(g & sg & s & ?%elem_of_nil & _)]; done.
    - rewrite IH, elem_of_app. unfold Groups.ServerGrp_cleanup. rewrite H1.
      setoid_rewrite elem_of_cons. setoid_rewrite elem_of_nil. naive_solver. }
  unfold Groups.cleanup. simpl. rewrite H2. by setoid_rewrite elem_of_map_to_list.
Qed.

(** C26: Cleaning up releases everything a test holds.  If the clerks' ends are
    known to the network and different, the network has not been closed and
    the test is within its time limit, [Cleanup] returns; then exactly the
    clerks' ends have been deleted from the network, every service of every
    group has been killed and no other, the network is closed (a second
    [Cleanup] panics), and no new clerk can be made. *)
Theorem cleanup_releases vis t t' order now cfg m :
  clnts cfg = Some m -> clerksOk m (net cfg) -> LabRpc.done_closed (net cfg) = false ->
  (failed cfg = true \/ (now - start cfg <= 120 * Second)%Z) ->
  exists out cfg', Cleanup vis t t' order now cfg = Return (out, cfg') /\
    (forall e, e ∈ LabRpc.ends (net cfg') <->
       e ∈ LabRpc.ends (net cfg) /\
       ~ exists a c s, m !! a = Some c /\ Clnts.ends c !! s = Some e) /\
    (forall k, k ∈ Groups.wkilled (groups cfg') <-> k ∈ Groups.wkilled (groups cfg) \/
       exists g sg s, Group g cfg = Some sg /\ s ∈ Group.srvs sg /\ k ∈ Group.svcs s) /\
    LabRpc.done_closed (net cfg') = true /\
    (forall a, exists p, Clnts.MakeClient a (clnts cfg') = Panic p) /\
    exists p, Cleanup vis t t' order now cfg' = Panic p.
Proof.
  intros Hc Hok Hdn Ht. destruct (clerks_ends m (net cfg) Hok) as [Hnd Hin].
  destruct (removeAll_ok (map_to_list m) (net cfg) Hnd) as (n1 & Hr & He & Hd1).
  { intros e (a & c & s & Ha & Hs)%Hin. by eapply (Clnts.wf_net _ _ (proj1 Hok a c Ha)). }
  assert (forall cfg' : Config, failed cfg' = failed cfg -> start cfg' = start cfg ->
    CheckTimeout now cfg' = Return ()) as Hto.
  { intros cfg' E1 E2. unfold CheckTimeout. rewrite E1, E2. destruct (failed cfg); [done|].
    destruct Ht as [|Ht]; [done|]. by rewrite bool_decide_eq_false_2 by lia. }
  unfold Cleanup at 1, Clnts.cleanup at 1. rewrite Hc. simpl. rewrite Hr. simpl.
  unfold LabRpc.Cleanup at 1. rewrite Hd1, Hdn. simpl.
  destruct (if failed cfg then _ else _) as [out an]. rewrite Hto by done. simpl.
  eexists out, _. split; [done|]. split_and!; simpl.
  - intros e. unfold net. simpl. rewrite He, elem_of_difference, elem_of_list_to_set, Hin. done.
  - intros k. apply (groups_cleanup_killed (groups (set_net cfg n1))).
  - done.
  - intros a. by eexists.
  - eexists. unfold Cleanup, Clnts.cleanup. simpl. rewrite map_to_list_empty. simpl. done.
Qed.

End Config.
Arguments Config : clear implicits.

(** ** Witnesses *)

Definition exCfg : Config Z :=
  {| groups := Groups.exW1; clnts := Clnts.makeClnts; failed := false; start := 0; t0 := 0; rpcs0 := 0;
     ops := 17; annotation := Annotation.mkAnnotation |}.
Definition exBegun : Config Z := (Begin 5 "Test" exCfg).2.
Definition exWorld : LabRpc.world Z :=
  {| LabRpc.net := net exCfg; LabRpc.heap := Groups.wheap (groups exCfg); LabRpc.objs := LabRpc.exObjs;
     LabRpc.reqs := []; LabRpc.log := [] |}.

(** One RPC and two operations. *)
Lemma exDuring : exists cfg2, during 2 1 exBegun cfg2.
Proof.
  eexists. apply during_op.
  eapply (during_net 1 0 1 _ _ exWorld (LabRpc.accept LabRpc.exMsg exWorld)); [reflexivity| |].
  - apply (LabRpc.sends_call 0 LabRpc.exMsg); [reflexivity|constructor].
  - apply during_op, during_refl.
Qed.

Lemma end_report_witness :
  exists (cfg2 : Config Z) r, End 12 cfg2 = Return (Some r) /\ r_ops r = 2%Z /\ r_nrpc r = 1%Z /\ r_time r = 7%Z.
Proof.
  destruct exDuring as [cfg2 Hd]. destruct (Group GRP0 exCfg) as [sg|] eqn:Hg;
    [|exfalso; vm_compute in Hg; discriminate].
  destruct (end_report 5 "Test" exCfg _ exBegun 2 1 cfg2 12 sg eq_refl Hd eq_refl Hg) as [H _].
  - vm_compute. discriminate.
  - vm_compute. reflexivity.
  - destruct H as (r & He & _ & _ & Ht & Ho & Hn).
    + vm_compute. discriminate.
    + exists cfg2, r. split; [exact He|]. split; [apply Ho; lia|].
      split; [apply Hn; vm_compute; reflexivity|exact Ht].
Defined.

Definition exHolding : Config Z :=
  {| groups := Groups.newGroups Clnts.exNet ∅ Persister.empty_store;
     clnts := Some {[ 4 := Clnts.exClnt ]}; failed := false; start := 0; t0 := 0; rpcs0 := 0; ops := 0;
     annotation := Annotation.mkAnnotation |}.

Lemma exHolding_ok : clerksOk {[ 4 := Clnts.exClnt ]} (net exHolding).
Proof.
  split.
  - intros a c [_ <-]%lookup_singleton_Some. apply Clnts.exClnt_wf.
  - by intros a a' c c' s s' e [<- _]%lookup_singleton_Some [<- _]%lookup_singleton_Some.
Qed.

Lemma cleanup_releases_witness :
  exists out cfg', Cleanup "" 1 2 [] 3 exHolding = Return (out, cfg') /\ "e1" ∉ LabRpc.ends (net cfg').
Proof.
  destruct (cleanup_releases "" 1 2 [] 3 exHolding _ eq_refl exHolding_ok eq_refl) as
    (out & cfg' & Hc & He & _).
  - right. vm_compute. discriminate.
  - exists out, cfg'. split; [exact Hc|]. rewrite He. intros [_ H]. apply H.
    exists 4, Clnts.exClnt, "s1". split; reflexivity.
Defined.

End Config.
