(* ===== verification/KvCheck.v ===== *)
(** * Checking the history of a key/value test

    Models the rest of [src/src/kvtest1/porcupine.go] (what [checkPorcupine] does
    with the checker's answer) and the concurrent clients of
    [src/src/kvtest1/kvtest.go], and shows that the whole check accepts what a
    correct server does.  The checker itself is the porcupine package: it is an
    argument, with its documentation as the class [Porcupine].  The server that
    the clients talk to is an argument too, with the contract that the comments
    of [src/src/kvsrv1/server.go] and [client.go] give as the class
    [KvContract]. *)

From S2P Require Import Prelude LabRpc Group Groups Clnts Models KvTest Annotation Config.

Module KvCheck.
Import Models.

Set Default Proof Using "Type".

(** ** Linearizability *)

(** [a] returned before [b] was called. *)
Definition precedes (a b : Operation) : Prop := (Return_ a < Call b)%Z.

Definition answers (l : list Operation) : list (KvInput * KvOutput) :=
  (fun o => (Input o, Output o)) <$> l.

(** An order of the operations that respects real time and that the sequential
    object accepts. *)
Definition linearization (h l : list Operation) : Prop :=
  l ≡ₚ h /\
  (forall i j a b, l !! i = Some a -> l !! j = Some b -> precedes a b -> i < j) /\
  is_Some (run Init (answers l)).

(** Every part of the history, as [KvModel.Partition] splits it, has one. *)
Definition Linearizable (h : list Operation) : Prop :=
  exists order, order ≡ₚ (map_to_list (byKey h)).*1 /\
    Forall (fun part => exists l, linearization part l) (Partition order h).

(** ** The server's contract *)

(** The documented behaviour of the key/value server, on what it stores: [Get]
    answers the value and version, or [ErrNoKey]; [Put] with the key's version
    installs the value under the next one, a missing key has version 0; any
    other version is refused, with [ErrNoKey] when there is no such key. *)
Definition docGet (m : gmap string (string * Z)) (k : string) : string * Z * string :=
  match m !! k with Some (v, n) => (v, n, OK) | None => ("", 0%Z, ErrNoKey) end.
Definition docPut (m : gmap string (string * Z)) (k v : string) (n : Z) : string * gmap string (string * Z) :=
  match m !! k with
  | Some (_, cur) =>
      if decide (cur = n) then (OK, <[k := (v, uwrap64 (cur + 1))]> m) else (ErrVersion, m)
  | None => if decide (n = 0)%Z then (OK, <[k := (v, 1%Z)]> m) else (ErrNoKey, m)
  end.

Class KvContract {S : Type} (srvGet : string -> S -> (string * Z * string) * S)
    (srvPut : string -> string -> Z -> S -> string * S) (view : S -> gmap string (string * Z)) := {
  contract_get k s : (srvGet k s).1 = docGet (view s) k /\ view (srvGet k s).2 = view s;
  contract_put k v n s :
    ((srvPut k v n s).1, view (srvPut k v n s).2) = docPut (view s) k v n
}.

(** ** Concurrent clients *)

Section Clients.
Context {S : Type} (srvGet : string -> S -> (string * Z * string) * S)
  (srvPut : string -> string -> Z -> S -> string * S) (view : S -> gmap string (string * Z)).
Context `{!KvContract srvGet srvPut view}.

(** What a client has called and not returned from: the input, the clock when it
    was called and, once the call has taken effect, its output. *)
Record sys := {
  srv : S;
  now : Z;
  pend : gmap Z (KvInput * Z * option KvOutput);
  log : KvTest.OpLog
}.

Definition getInput (k : string) : KvInput :=
  {| in_Op := 0; in_Key := k; in_Value := ""; in_Version := 0 |}.
Definition putInput (k v : string) (n : Z) : KvInput :=
  {| in_Op := 1; in_Key := k; in_Value := v; in_Version := n |}.
Definition getOutput (r : string * Z * string) : KvOutput :=
  {| out_Value := r.1.1; out_Version := r.1.2; out_Err := r.2 |}.
Definition putOutput (err : string) : KvOutput :=
  {| out_Value := ""; out_Version := 0; out_Err := err |}.

(** A put that the server did or refused for its version may be reported as
    [ErrMaybe], when an answer was lost. *)
Definition reported (err err' : string) : Prop :=
  err' = err \/ (err' = ErrMaybe /\ (err = OK \/ err = ErrVersion)).

(** The steps of the clients' [Get] and [Put]: read the clock and call the
    clerk; the call takes effect at the server; read the clock and log the
    operation under the number [id] that the caller gave.  The clock does not
    go back.  The last reading and the append are one step, since the order of
    the log does not matter to the checker; the count of operations is in
    [KvTest]. *)
Inductive step (s : sys) : sys -> Prop :=
| st_tick t :
    (now s <= t)%Z -> step s {| srv := srv s; now := t; pend := pend s; log := log s |}
| st_get cli k :
    pend s !! cli = None ->
    step s {| srv := srv s; now := now s; pend := <[cli := (getInput k, now s, None)]> (pend s);
              log := log s |}
| st_put cli k v n :
    pend s !! cli = None -> (0 <= n < 2 ^ 64)%Z ->
    step s {| srv := srv s; now := now s; pend := <[cli := (putInput k v n, now s, None)]> (pend s);
              log := log s |}
| st_serve_get cli k t :
    pend s !! cli = Some (getInput k, t, None) ->
    step s {| srv := (srvGet k (srv s)).2; now := now s;
              pend := <[cli := (getInput k, t, Some (getOutput (srvGet k (srv s)).1))]> (pend s);
              log := log s |}
| st_serve_put cli k v n t err :
    pend s !! cli = Some (putInput k v n, t, None) -> reported (srvPut k v n (srv s)).1 err ->
    step s {| srv := (srvPut k v n (srv s)).2; now := now s;
              pend := <[cli := (putInput k v n, t, Some (putOutput err))]> (pend s); log := log s |}
| st_return cli id inp t out :
    pend s !! cli = Some (inp, t, Some out) ->
    step s {| srv := srv s; now := now s; pend := delete cli (pend s);
              log := KvTest.OpLog_Append {| Input := inp; Output := out; Call := t; Return_ := now s;
                                            ClientId := id |} (log s) |}.

Definition fresh_start (s : sys) : Prop := view (srv s) = ∅ /\ pend s = ∅ /\ log s = [].

(** A put answered [ErrNoKey], which [KvModel.Step] does not accept. *)
Definition noKeyPut (io : KvInput * KvOutput) : Prop := in_Op io.1 = 1%Z /\ out_Err io.2 = ErrNoKey.
#[local] Instance noKeyPut_dec io : Decision (noKeyPut io).
Proof. unfold noKeyPut. apply _. Defined.

(** ** The order of the effects *)

(** An operation that has taken effect: logged, or still to return. *)
Inductive effect := Done (o : Operation) | Waiting (cli : Z) (inp : KvInput) (t : Z) (out : KvOutput).

Definition eCall (e : effect) : Z := match e with Done o => Call o | Waiting _ _ t _ => t end.
Definition eIO (e : effect) : KvInput * KvOutput :=
  match e with Done o => (Input o, Output o) | Waiting _ inp _ out => (inp, out) end.
Definition eDone (e : effect) : option Operation := match e with Done o => Some o | _ => None end.
Definition eWait (e : effect) : option Z := match e with Waiting c _ _ _ => Some c | _ => None end.

Definition onKey (k : string) (e : effect) : Prop := in_Key (eIO e).1 = k.
#[local] Instance onKey_dec k e : Decision (onKey k e).
Proof. unfold onKey. apply _. Defined.

(** The sequential object's state for what the server stores under a key. *)
Definition abs (o : option (string * Z)) : KvState :=
  match o with Some (v, n) => {| st_Value := v; st_Version := n |} | None => Init end.

Record Inv (s : sys) (l : list effect) : Prop := {
  iv_log : omap eDone l ≡ₚ log s;
  iv_wait cli inp t out : Waiting cli inp t out ∈ l <-> pend s !! cli = Some (inp, t, Some out);
  iv_uniq : NoDup (omap eWait l);
  iv_past e : e ∈ l -> (eCall e <= now s)%Z;
  iv_pend cli inp t o : pend s !! cli = Some (inp, t, o) -> (t <= now s)%Z;
  iv_order i j a o : l !! i = Some a -> l !! j = Some (Done o) -> i <= j -> (eCall a <= Return_ o)%Z;
  iv_run k : Forall (fun e => ~ noKeyPut (eIO e)) (filter (onKey k) l) ->
    run Init (eIO <$> filter (onKey k) l) = Some (abs (view (srv s) !! k))
}.

Lemma run_app st a b : run st (a ++ b) = run st a ≫= fun st' => run st' b.
Proof.
  revert st. induction a as [|[inp out] a IH]; intros st; simpl; [done|].
  by destruct (Step st inp out) as [[] [st'|]].
Qed.

(** The effect of a call is a step of the sequential object, for its key. *)
Definition accepted (m m' : gmap string (string * Z)) (inp : KvInput) (out : KvOutput) : Prop :=
  (~ noKeyPut (inp, out) -> Step (abs (m !! in_Key inp)) inp out = (true, Some (abs (m' !! in_Key inp)))) /\
  forall k, k <> in_Key inp -> m' !! k = m !! k.

Lemma get_accepted k s :
  accepted (view s) (view (srvGet k s).2) (getInput k) (getOutput (srvGet k s).1).
Proof using All.
  destruct (contract_get k s) as [-> ->]. split; [|done]. intros _. unfold Step. simpl. f_equal.
  apply bool_decide_eq_true_2. unfold docGet. by destruct (view s !! k) as [[v n]|].
Qed.

Lemma put_accepted k v n s err :
  reported (srvPut k v n s).1 err ->
  accepted (view s) (view (srvPut k v n s).2) (putInput k v n) (putOutput err).
Proof using All.
  pose proof (contract_put k v n s) as Hc. destruct (srvPut k v n s) as [e s']. simpl in *.
  unfold docPut in Hc. intros Hr. unfold accepted, noKeyPut, Step. simpl.
  destruct (view s !! k) as [[v0 cur]|] eqn:Hk; simpl; case_decide; injection Hc as -> ->;
    (split; [|intros; rewrite ?lookup_insert_ne by done; done]); intros Hnk;
    rewrite ?lookup_insert_eq, ?Hk; simpl.
  all: destruct Hr as [->|[-> [?|?]]]; simplify_eq; try done.
  all: by destruct Hnk.
Qed.

Lemma Inv_serve s l cli inp t out srv' :
  Inv s l -> pend s !! cli = Some (inp, t, None) -> accepted (view (srv s)) (view srv') inp out ->
  Inv {| srv := srv'; now := now s; pend := <[cli := (inp, t, Some out)]> (pend s); log := log s |}
      (l ++ [Waiting cli inp t out]).
Proof.
  intros [I1 I2 I3 I4 I5 I6 I7] Hp [Ha Hf].
  assert (cli ∉ omap eWait l) as Hnew.
  { intros ([|c i t' o] & Hin & [= ->])%list_elem_of_omap. apply I2 in Hin. congruence. }
  constructor; simpl.
  - by rewrite omap_app, app_nil_r.
  - intros c i t' o. rewrite elem_of_app, list_elem_of_singleton, lookup_insert, I2.
    case_decide as Hc; [subst c|]; split; intros H; destruct_or?; try congruence; auto.
    right. congruence.
  - rewrite omap_app. apply NoDup_app. split_and!; [done| |apply NoDup_singleton].
    intros c Hc ->%list_elem_of_singleton. done.
  - intros e [He| ->%list_elem_of_singleton]%elem_of_app; [by apply I4|]. simpl. by eapply I5.
  - intros c i t' o [[_ [= <- <- <-]]|[_ H]]%lookup_insert_Some; by eapply I5.
  - intros i j a o Hi Hj Hij. apply lookup_app_Some in Hj as [Hj|[? Hj]].
    + rewrite lookup_app_l in Hi by (apply lookup_lt_Some in Hj; lia). by eapply I6.
    + destruct (j - length l) as [|[|?]]; simpl in Hj; congruence.
  - intros k. rewrite filter_app, filter_cons, filter_nil, fmap_app, Forall_app, run_app. intros [H1 H2].
    rewrite I7 by done. case_decide as Hk; unfold onKey in Hk; simpl in *.
    + subst k. rewrite Forall_singleton in H2. by rewrite (Ha H2).
    + by rewrite Hf.
Qed.

(** Replacing a waiting operation by the logged one. *)
Lemma Inv_return s l cli id inp t out :
  Inv s l -> pend s !! cli = Some (inp, t, Some out) ->
  exists l', Inv {| srv := srv s; now := now s; pend := delete cli (pend s);
    log := KvTest.OpLog_Append {| Input := inp; Output := out; Call := t; Return_ := now s;
                                  ClientId := id |} (log s) |} l'.
Proof using All.
  intros [I1 I2 I3 I4 I5 I6 I7] Hp. set (o := Build_Operation _ _ _ _ _).
  pose proof Hp as Hin. apply I2 in Hin. apply list_elem_of_split in Hin as (l1 & l2 & ->).
  exists (l1 ++ Done o :: l2). rewrite omap_app in I3. cbn [omap list_omap eWait] in I3.
  assert (forall c i t' out', Waiting c i t' out' ∈ l1 \/ Waiting c i t' out' ∈ l2 -> c <> cli) as Hne.
  { intros c i t' out' H ->. apply NoDup_app in I3 as (_ & Hd & [Hc _]%NoDup_cons).
    destruct H as [H|H].
    - eapply (Hd cli); [|left]. apply list_elem_of_omap. by eexists.
    - apply Hc, list_elem_of_omap. by eexists. }
  constructor; simpl.
  - unfold KvTest.OpLog_Append. rewrite <-I1, !omap_app. simpl. by rewrite <-app_assoc, Permutation_cons_append, app_assoc.
  - intros c i t' out'. specialize (I2 c i t' out'). rewrite elem_of_app, elem_of_cons in I2 |- *.
    rewrite lookup_delete. case_decide as Hc.
    + subst c. split; [|done]. intros [H|[?|H]]; [|done|]; destruct (Hne cli i t' out'); auto.
    + rewrite <-I2. split; [intros [?|[?|?]]; auto; done|]. intros [?|[?|?]]; auto. congruence.
  - rewrite omap_app. cbn [omap list_omap eWait]. apply NoDup_app in I3 as (H1 & H2 & [_ H3]%NoDup_cons).
    apply NoDup_app. split_and!; [done| |done]. intros c Hc Hc'. apply (H2 c Hc). by right.
  - intros e. rewrite elem_of_app, elem_of_cons. intros He.
    destruct He as [He|[->|He]]; [apply I4; set_solver|simpl; by eapply I5|apply I4; set_solver].
  - intros c i t' o' [_ H]%lookup_delete_Some. by eapply I5.
  - assert (forall m x, (l1 ++ Done o :: l2) !! m = Some x ->
      exists y, (l1 ++ Waiting cli inp t out :: l2) !! m = Some y /\ eCall y = eCall x /\
        (x = y \/ m = length l1 /\ x = Done o)) as Hm.
    { intros m x. rewrite !lookup_app. destruct (l1 !! m) eqn:E; [intros [= ->]; eauto|].
      apply lookup_ge_None in E. destruct (m - length l1) eqn:Em; simpl.
      - intros [= <-]. eexists. split_and!; [done|done|]. right. split; [lia|done].
      - intros ->. eauto. }
    intros i j a o' Hi Hj Hij. apply Hm in Hi as (y & Hi & <- & _). apply Hm in Hj as (z & Hj & _ & Hz).
    destruct Hz as [<-|[_ [= ->]]]; [by eapply I6|]. simpl. apply I4. by eapply list_elem_of_lookup_2.
  - assert (forall k, eIO <$> filter (onKey k) (l1 ++ Done o :: l2)
      = eIO <$> filter (onKey k) (l1 ++ Waiting cli inp t out :: l2)) as E.
    { intros k. rewrite !filter_app, !fmap_app, !filter_cons.
      by destruct (decide (in_Key inp = k)) as [Hk|Hk]; rewrite ?decide_True, ?decide_False by exact Hk. }
    intros k Hk. rewrite E. apply I7. revert Hk.
    rewrite <-!(Forall_fmap eIO (fun io => ~ noKeyPut io)). by rewrite E.
Qed.


Lemma linear_step s s' : step s s' -> (exists l, Inv s l) -> exists l, Inv s' l.
Proof using All.
  intros Hs [l HI]. pose proof HI as [I1 I2 I3 I4 I5 I6 I7].
  assert (forall cli inp, pend s !! cli = None ->
    Inv {| srv := srv s; now := now s; pend := <[cli := (inp, now s, None)]> (pend s); log := log s |} l)
    as Hcall.
  { intros cli inp Hn. constructor; simpl; try done.
    - intros c i t out. rewrite I2, lookup_insert. case_decide; [subst c|done]. rewrite Hn. split; congruence.
    - intros c i t o [[_ [= _ <- _]]|[_ H]]%lookup_insert_Some; [done|]. by eapply I5. }
  destruct Hs as [t Ht|cli k Hn|cli k v n Hn _|cli k t Hp|cli k v n t err Hp Hr|cli id inp t out Hp].
  - exists l. constructor; simpl; try done.
    + intros e He. specialize (I4 e He). lia.
    + intros cli i t' o H. specialize (I5 cli i t' o H). lia.
  - exists l. by apply Hcall.
  - exists l. by apply Hcall.
  - eexists. eapply Inv_serve; [done|done|]. apply get_accepted.
  - eexists. eapply Inv_serve; [done|done|]. by apply put_accepted.
  - by eapply Inv_return.
Qed.

Lemma linear_steps s s' : rtc step s s' -> (exists l, Inv s l) -> exists l, Inv s' l.
Proof using All. induction 1 as [|x y z Hs _ IH]; [done|]. intros HI. apply IH. by eapply linear_step. Qed.

Lemma Inv_fresh s : fresh_start s -> Inv s [].
Proof.
  intros (H1 & H2 & H3). constructor.
  - by rewrite H3.
  - intros cli inp t out. rewrite H2, lookup_empty. split; [by intros ?%elem_of_nil|done].
  - constructor.
  - by intros e ?%elem_of_nil.
  - intros cli inp t o. by rewrite H2, lookup_empty.
  - done.
  - intros k _. by rewrite H1, lookup_empty.
Qed.

(** When nobody is waiting the order of the effects is a linearization. *)
Lemma Inv_done s l : Inv s l -> pend s = ∅ -> exists h, l = Done <$> h /\ h ≡ₚ log s.
Proof.
  intros [I1 I2 _ _ _ _ _] Hp. exists (omap eDone l). split; [|done]. clear I1.
  assert (forall cli inp t out, Waiting cli inp t out ∉ l) as Hw.
  { intros cli inp t out H%I2. by rewrite Hp, lookup_empty in H. }
  clear I2. induction l as [|[o|c i t o] l IH]; simpl; [done| |].
  - f_equal. apply IH. intros c i t o' H. apply (Hw c i t o'). by right.
  - destruct (Hw c i t o). by left.
Qed.

(** Filtering keeps the order. *)
Lemma filter_lookup_mono {A} (P : A -> Prop) `{forall x, Decision (P x)} (l : list A) i j a b :
  filter P l !! i = Some a -> filter P l !! j = Some b -> i <= j ->
  exists i' j', l !! i' = Some a /\ l !! j' = Some b /\ i' <= j'.
Proof.
  revert i j. induction l as [|x l IH]; intros i j; [done|]. rewrite filter_cons. case_decide as Hx.
  - destruct i as [|i], j as [|j]; simpl; try lia.
    + intros [= <-] [= <-] _. by exists 0, 0.
    + intros [= <-] Hb _. apply list_elem_of_lookup_2, list_elem_of_filter in Hb as [_ Hb].
      apply list_elem_of_lookup_1 in Hb as [j' Hb]. exists 0, (Datatypes.S j'). split_and!; [done|done|lia].
    + intros Ha Hb Hij. destruct (IH i j Ha Hb) as (i' & j' & ? & ? & ?); [lia|].
      exists (Datatypes.S i'), (Datatypes.S j'). split_and!; [done|done|lia].
  - intros Ha Hb Hij. destruct (IH i j Ha Hb Hij) as (i' & j' & ? & ? & ?).
    exists (Datatypes.S i'), (Datatypes.S j'). split_and!; [done|done|lia].
Qed.

Lemma filter_Done k (h : list Operation) : filter (onKey k) (Done <$> h) = Done <$> filter (fun o => opKey o = k) h.
Proof.
  induction h as [|o h IH]; [done|]. csimpl. rewrite !filter_cons, IH.
  by destruct (decide (opKey o = k)) as [Hk|Hk]; rewrite ?decide_True, ?decide_False by exact Hk.
Qed.

Lemma Inv_linear s l k :
  Inv s l -> pend s = ∅ -> (forall o, o ∈ log s -> ~ noKeyPut (Input o, Output o)) ->
  exists l', linearization (filter (fun o => opKey o = k) (log s)) l'.
Proof.
  intros HI Hp Hn. destruct (Inv_done s l HI Hp) as (h & -> & Hh). destruct HI as [_ _ _ _ _ I6 I7].
  exists (filter (fun o => opKey o = k) h). split_and!.
  - by rewrite Hh.
  - intros i j a b Ha Hb Hab. destruct (decide (i < j)) as [|Hij]; [done|exfalso].
    destruct (filter_lookup_mono _ h j i b a Hb Ha) as (j' & i' & Hb' & Ha' & Hij'); [lia|].
    specialize (I6 j' i' (Done b) a). rewrite !list_lookup_fmap, Hb', Ha' in I6.
    specialize (I6 eq_refl eq_refl Hij'). unfold precedes in Hab. simpl in I6. lia.
  - specialize (I7 k). rewrite filter_Done, <-list_fmap_compose in I7. eexists. unfold answers. apply I7.
    apply Forall_fmap, Forall_forall. intros o [_ Ho]%list_elem_of_filter. simpl. apply Hn. by rewrite <-Hh.
Qed.

Lemma clients_linearizable s0 s :
  fresh_start s0 -> rtc step s0 s -> pend s = ∅ ->
  (forall o, o ∈ log s -> ~ noKeyPut (Input o, Output o)) -> Linearizable (log s).
Proof using All.
  intros H0 Hr Hp Hn. destruct (linear_steps s0 s Hr) as [l HI]; [exists []; by apply Inv_fresh|].
  exists ((map_to_list (byKey (log s))).*1). split; [done|]. unfold Partition. apply Forall_fmap, Forall_forall.
  intros k _. simpl. rewrite (proj1 (byKey_lookup (log s) k)). by eapply Inv_linear.
Qed.

End Clients.

(** ** The checker *)

Inductive CheckResult := Ok | Illegal | Unknown.

(** What porcupine documents of [CheckOperationsVerbose] on [KvModel]: [Ok] and
    [Illegal] are right; [Unknown] is a time-out. *)
Class Porcupine (check : list Operation -> Z -> CheckResult) := {
  check_Ok h t : check h t = Ok -> Linearizable h;
  check_Illegal h t : check h t = Illegal -> ~ Linearizable h
}.

(** The environment variables, and what opening the file of the visualisation
    gives: a temporary file for the empty name; [None] is an error. *)
Record visEnv := { VIS_ENABLE : string; VIS_FILE : string; openFile : string -> option string }.

(** What is handed to the visualisation: the file and the annotations. *)
Definition vis : Type := option (string * list Annotation.annot).

Definition linearizabilityCheckTimeout : Z := 1 * Config.Second.

(** [checkPorcupine]: its outcome, the visualisation it writes and the annotations
    it leaves. *)
Definition checkPorcupine (check : list Operation -> Z -> CheckResult) (env : visEnv) (t t' : Z)
    (order : list (string * Annotation.Continuous)) (opLog : KvTest.OpLog) (nsec : Z)
    (an : Annotation.Annotation) : outcome unit * vis * Annotation.Annotation :=
  let enabled := VIS_ENABLE env in
  match check (KvTest.OpLog_Read opLog) nsec with
  | Illegal =>
      let '(v, an) :=
        match openFile env (VIS_FILE env) with
        | None => (None, an)
        | Some file =>
            if decide (enabled <> "never") then
              let '(l, an) := Annotation.FinalizeAnnotations t t' order "test failed" an in
              (Some (file, l), an)
            else (None, an)
        end in
      (Fatal "history is not linearizable", v, an)
  | _ =>
      if bool_decide (enabled = "always") && Annotation.isFinalized an then
        match openFile env (VIS_FILE env) with
        | None => (Return (), None, an)
        | Some file =>
            let '(l, an) := Annotation.FinalizeAnnotations t t' order "test passed" an in
            (Return (), Some (file, l), an)
        end
      else (Return (), None, an)
  end.

(** ** The test *)

Section Test.
Context {state : Type}.

Record Test := { Config_ : Config.Config state; oplog : KvTest.OpLog; randomkeys : bool }.

Definition MakeTest (cfg : Config.Config state) (rk : bool) : Test :=
  {| Config_ := cfg; oplog := []; randomkeys := rk |}.

Definition set_Config (ts : Test) (cfg : Config.Config state) : Test :=
  {| Config_ := cfg; oplog := oplog ts; randomkeys := randomkeys ts |}.

(** [t.Fatal] marks the test as failed. *)
Definition failNow (o : outcome unit) (cfg : Config.Config state) : bool :=
  match o with Fatal _ => true | _ => Config.failed cfg end.

Definition CheckPorcupineT (check : list Operation -> Z -> CheckResult) (env : visEnv) (t t' : Z)
    (order : list (string * Annotation.Continuous)) (nsec : Z) (ts : Test) : outcome unit * vis * Test :=
  let cfg := Config_ ts in
  let '(o, v, an) := checkPorcupine check env t t' order (oplog ts) nsec (Config.annotation cfg) in
  (o, v, {| Config_ := {| Config.groups := Config.groups cfg; Config.clnts := Config.clnts cfg;
                          Config.failed := failNow o cfg; Config.start := Config.start cfg;
                          Config.t0 := Config.t0 cfg; Config.rpcs0 := Config.rpcs0 cfg;
                          Config.ops := Config.ops cfg; Config.annotation := an |};
            oplog := oplog ts; randomkeys := randomkeys ts |}).

Definition CheckPorcupine (check : list Operation -> Z -> CheckResult) (env : visEnv) (t t' : Z)
    (order : list (string * Annotation.Continuous)) (ts : Test) : outcome unit * vis * Test :=
  CheckPorcupineT check env t t' order linearizabilityCheckTimeout ts.

(** [Cleanup] of the test: [End], then the configuration's cleanup. *)
Definition Cleanup (env : visEnv) (now : Z) (t t' : Z) (order : list (string * Annotation.Continuous))
    (ts : Test) : outcome (option Config.report * option (list Annotation.annot) * Test) :=
  r ← Config.End now (Config_ ts);
  '(out, cfg) ← Config.Cleanup (VIS_ENABLE env) t t' order now (Config_ ts);
  mret (r, out, {| Config_ := cfg; oplog := oplog ts; randomkeys := randomkeys ts |}).

Fixpoint ConnectClnts (clnts : list Clnts.Clnt) (net : LabRpc.Network) : list Clnts.Clnt * LabRpc.Network :=
  match clnts with
  | [] => ([], net)
  | c :: clnts =>
      let '(c, net) := Clnts.ConnectAll c net in
      let '(cs, net) := ConnectClnts clnts net in (c :: cs, net)
  end.

(** The check visualises what it should. *)
Lemma checkPorcupine_finalized check env t t' order log nsec an o file l an' :
  checkPorcupine check env t t' order log nsec an = (o, Some (file, l), an') ->
  Annotation.isFinalized an' = true /\
  l = Annotation.annotations an ++ ((fun p => Annotation.concretize p.1 p.2 t) <$> order)
      ++ [Annotation.endMark t' (match o with Fatal _ => "test failed" | _ => "test passed" end)].
Proof.
  unfold checkPorcupine, Annotation.FinalizeAnnotations, Annotation.finalize.
  destruct (check _ _); simpl; destruct (openFile env _); repeat case_decide; simpl;
    try case_match; intros; simplify_eq; by rewrite app_assoc.
Qed.

(** The visualisation of a failed check is kept.  When the check has written the
    history with the operations, and all annotations with the verdict at the
    end, the cleanup of the test, at whatever time and whether the test has
    failed or not, does not write over it. *)
Theorem history_file_kept check env t t' order nsec (ts : Test) o file l ts' :
  CheckPorcupineT check env t t' order nsec ts = (o, Some (file, l), ts') ->
  (exists a, l = a ++ [Annotation.endMark t' (match o with Fatal _ => "test failed" | _ => "test passed" end)]) /\
  Config.failed (Config_ ts') = (match o with Fatal _ => true | _ => Config.failed (Config_ ts) end) /\
  forall now u u' order' r out ts'', Cleanup env now u u' order' ts' = Return (r, out, ts'') -> out = None.
Proof.
  unfold CheckPorcupineT. destruct (checkPorcupine _ _ _ _ _ _ _ _) as [[o1 v] an] eqn:Hc.
  intros [= -> -> <-]. apply checkPorcupine_finalized in Hc as [Hf ->]. split_and!.
  - eexists. by rewrite app_assoc.
  - done.
  - intros now u u' order' r out ts''. unfold Cleanup, Config.Cleanup. simpl.
    intros (r0 & _ & H)%bind_Return. apply bind_Return in H as ([out0 cfg] & H & [= _ -> _]).
    apply bind_Return in H as ([cs n] & _ & H). apply bind_Return in H as (n' & _ & H).
    unfold Annotation.cleanup in H. simpl in H. rewrite Hf, !orb_true_r in H.
    destruct (failNow o (Config_ ts)); apply bind_Return in H as (_ & _ & [= <- _]); done.
Qed.

End Test.
Arguments Test : clear implicits.


(** C9: a correct server passes the check.  Any number of clients call [Get] and [Put]
    on a server that keeps its documented contract, in any interleaving of
    calls, effects and returns, with lost answers reported as [ErrMaybe]; when
    all calls have returned, and no put was answered [ErrNoKey], the log is
    linearizable, and [checkPorcupine] with any checker that keeps to
    porcupine's documentation does not fail the test. *)
Theorem correct_server_passes {S : Type} (srvGet : string -> S -> (string * Z * string) * S)
    (srvPut : string -> string -> Z -> S -> string * S) (view : S -> gmap string (string * Z))
    `{!KvContract srvGet srvPut view} (check : list Operation -> Z -> CheckResult) `{!Porcupine check}
    env t t' order nsec an (s0 s : sys) :
  fresh_start view s0 -> rtc (step srvGet srvPut) s0 s -> pend s = ∅ ->
  (forall o, o ∈ log s -> ~ noKeyPut (Input o, Output o)) ->
  Linearizable (log s) /\
  (checkPorcupine check env t t' order (log s) nsec an).1.1 = Return ().
Proof.
  intros H0 Hr Hp Hn. pose proof (clients_linearizable srvGet srvPut view s0 s H0 Hr Hp Hn) as Hl.
  split; [done|]. unfold checkPorcupine, KvTest.OpLog_Read.
  destruct (check (log s) nsec) eqn:Hc; [| |]; simpl.
  - by repeat case_match.
  - by destruct (check_Illegal _ _ Hc).
  - by repeat case_match.
Qed.

(** ** Witnesses *)

(** The contract itself is a server. *)
Definition refGet (k : string) (m : gmap string (string * Z)) : (string * Z * string) * gmap string (string * Z) :=
  (docGet m k, m).
Definition refPut (k v : string) (n : Z) (m : gmap string (string * Z)) : string * gmap string (string * Z) :=
  docPut m k v n.
#[local] Instance refContract : KvContract refGet refPut id.
Proof. split; [done|]. intros k v n s. symmetry. apply (surjective_pairing (refPut k v n s)). Qed.

(** A checker for histories of at most one operation; it gives up on others. *)
Definition exCheck (h : list Operation) (nsec : Z) : CheckResult :=
  match h with
  | [] => Ok
  | [o] => match run Init (answers [o]) with Some _ => Unknown | None => Illegal end
  | _ => Unknown
  end.

Lemma Partition_one o : forall order, order ≡ₚ (map_to_list (byKey [o])).*1 -> Partition order [o] = [[o]].
Proof.
  intros order. assert (byKey [o] = {[ opKey o := [o] ]}) as E.
  { unfold byKey. simpl. by rewrite lookup_empty, insert_empty. }
  unfold Partition. rewrite E, map_to_list_singleton. simpl. intros Ho. apply Permutation_singleton_r in Ho. subst order.
  simpl. by rewrite lookup_singleton_eq.
Qed.

#[local] Instance exPorcupine : Porcupine exCheck.
Proof.
  split; intros [|o [|o' h]] t; unfold exCheck; try done.
  - intros _. eexists. split; [done|]. constructor.
  - by destruct (run _ _).
  - destruct (run Init (answers [o])) eqn:Hr; [done|]. intros _ (order & Ho & Hf).
    rewrite (Partition_one o order Ho) in Hf. apply Forall_cons in Hf as [(l & Hl & _ & [x Hx]) _].
    apply Permutation_singleton_r in Hl. subst l. congruence.
Qed.

Definition ex0 : sys := {| srv := (∅ : gmap string (string * Z)); now := 0; pend := ∅; log := [] |}.
Definition exEnv : visEnv := {| VIS_ENABLE := "always"; VIS_FILE := "h.html"; openFile := Some |}.

(** Two clients: a put and a get at the same time; the put's first answer is
    lost. *)
Definition exPutOp : Operation :=
  {| Input := putInput "x" "a" 0; Output := putOutput ErrMaybe; Call := 0; Return_ := 9; ClientId := 1 |}.
Definition exGetOp : Operation :=
  {| Input := getInput "x"; Output := getOutput ("a", 1%Z, OK); Call := 0; Return_ := 9; ClientId := 2 |}.
Definition ex1 : sys :=
  {| srv := ({[ "x" := ("a", 1%Z) ]} : gmap string (string * Z)); now := 9; pend := ∅; log := [exGetOp; exPutOp] |}.

Lemma ex_run : rtc (step refGet refPut) ex0 ex1.
Proof.
  eapply rtc_l; [apply (st_put _ _ _ 1 "x" "a" 0); [reflexivity|lia]|].
  eapply rtc_l; [apply (st_get _ _ _ 2 "x"); reflexivity|].
  eapply rtc_l; [apply (st_serve_put _ _ _ 1 "x" "a" 0 0 ErrMaybe);
                 [reflexivity|right; split; [reflexivity|by left]]|].
  eapply rtc_l; [apply (st_serve_get _ _ _ 2 "x" 0); reflexivity|].
  eapply rtc_l; [apply (st_tick _ _ _ 9); simpl; lia|].
  eapply rtc_l; [apply (st_return _ _ _ 2 2 (getInput "x") 0 (getOutput ("a", 1%Z, OK))); reflexivity|].
  eapply rtc_l; [apply (st_return _ _ _ 1 1 (putInput "x" "a" 0) 0 (putOutput ErrMaybe)); reflexivity|].
  match goal with |- rtc _ ?s _ => replace s with ex1; [apply rtc_refl|] end.
  unfold ex1; f_equal; vm_compute; reflexivity.
Qed.

Lemma correct_server_passes_witness :
  Linearizable [exGetOp; exPutOp] /\
  (checkPorcupine exCheck exEnv 0 0 [] [exGetOp; exPutOp] 1 Annotation.mkAnnotation).1.1 = Return ().
Proof.
  apply (correct_server_passes refGet refPut id exCheck exEnv 0 0 [] 1 Annotation.mkAnnotation ex0 ex1);
    [done|exact ex_run|done|].
  intros o [->|[->|[]%elem_of_nil]%elem_of_cons]%elem_of_cons [_ H]; by vm_compute in H.
Defined.

(** A failed check: a get of a key that was never put returns a value. *)
Definition exBad : Test Z :=
  {| Config_ := Config.exBegun; randomkeys := false;
     oplog := [{| Input := getInput "x"; Output := getOutput ("a", 1%Z, OK); Call := 0; Return_ := 9;
                  ClientId := 1 |}] |}.

Definition exRes : outcome unit * vis * Test Z := CheckPorcupine exCheck exEnv 5 6 [] exBad.
Definition returns {A} (o : outcome A) : bool := match o with Return _ => true | _ => false end.

Lemma history_file_kept_witness :
  exRes.1 = (Fatal "history is not linearizable", Some ("h.html", [Annotation.endMark 6 "test failed"])) /\
  Config.failed (Config_ exRes.2) = true /\
  exists r ts'', Cleanup exEnv 7 8 9 [] exRes.2 = Return (r, None, ts'').
Proof.
  assert (exRes.1 = (Fatal "history is not linearizable", Some ("h.html", [Annotation.endMark 6 "test failed"])))
    as H by (vm_compute; reflexivity).
  split; [exact H|].
  destruct (history_file_kept exCheck exEnv 5 6 [] linearizabilityCheckTimeout exBad _ _ _ exRes.2
    (eq_trans (surjective_pairing exRes) (f_equal (fun x => (x, exRes.2)) H))) as (_ & Hf & Hc).
  split; [exact Hf|].
  assert (returns (Cleanup exEnv 7 8 9 [] exRes.2) = true) as Hr by (vm_compute; reflexivity).
  destruct (Cleanup exEnv 7 8 9 [] exRes.2) as [[[r out] ts'']| |] eqn:E; [|discriminate Hr..].
  exists r, ts''. rewrite (Hc _ _ _ _ _ _ _ E) in E |- *. reflexivity.
Defined.

End KvCheck.
