(* ===== verification/TestSystem.v ===== *)
(** * A running test

    The tester of [src/src/tester1] (its configuration, groups and clients) over
    the network of [src/src/labrpc/labrpc.go], composed: the operations that a
    test calls, the calls of its clerks and the steps of the network, in any
    interleaving.  Every operation of the tester works on the network through
    the network's own operations only, so that an execution of a test is an
    execution of the network ([test_reachable]), and what is proved of the
    network holds in every test.  Which names such operations register is kept
    track of, so that a server that was shut down is known to stay away until
    it is started again ([shut_down_server_silent]). *)

From S2P Require Import Prelude LabRpc RpcCalls Persister Group Groups Clnts Annotation Config.

Set Default Proof Using "Type".

Module TestSystem.
Import LabRpc(Network).

(** The parts of a program that returned. *)
Ltac returned :=
  repeat match goal with
  | H : (_ ≫= _) = Return _ |- _ => apply bind_Return in H as (? & ? & ?); cbn beta in *
  | H : mret _ = Return _ |- _ => injection H as H; subst
  | H : Return _ = Return _ |- _ => injection H as H; subst
  | x : prod _ _ |- _ => destruct x; cbn [fst snd] in *
  end.

Section Reconf.
Context {state : Type}.

(** ** What the tester does to the network *)

(** A sequence of the network's configuration operations, and new servers.  Names
    that are registered are in [P]. *)
Definition registers (P : string -> Prop) (op : LabRpc.netop) : Prop :=
  match op with LabRpc.OpAddServer name _ => P name | _ => True end.
Inductive adv (P : string -> Prop) : Network * gmap nat (LabRpc.Server state) -> Network * gmap nat (LabRpc.Server state) -> Prop :=
| adv_op op n n' h : registers P op -> LabRpc.applyOp op n = Return n' -> adv P (n, h) (n', h)
| adv_server sid rs n h : h !! sid = None -> LabRpc.srv_count rs = 0%Z -> adv P (n, h) (n, <[sid := rs]> h).
Definition advances (P : string -> Prop) := rtc (adv P).
Definition reconf (P : string -> Prop) (n n' : Network) : Prop := forall h, advances P (n, h) (n', h).

#[local] Instance reconf_preorder P : PreOrder (reconf P).
Proof. split; [intros n h; apply rtc_refl|]. intros x y z H1 H2 h. by etrans; [apply H1|]. Qed.

Section Names.
Variable P : string -> Prop.
#[local] Abbreviation advances := (advances P).
#[local] Abbreviation reconf := (reconf P).

Lemma reconf_op op n n' : registers P op -> LabRpc.applyOp op n = Return n' -> reconf n n'.
Proof. intros Hop H h. apply rtc_once. by eapply adv_op. Qed.

Lemma reconf_MakeEnd e n n' : LabRpc.MakeEnd e n = Return n' -> reconf n n'.
Proof. by apply (reconf_op (LabRpc.OpMakeEnd e)). Qed.
Lemma reconf_DeleteEnd e n n' : LabRpc.DeleteEnd e n = Return n' -> reconf n n'.
Proof. by apply (reconf_op (LabRpc.OpDeleteEnd e)). Qed.
Lemma reconf_Cleanup n n' : LabRpc.Cleanup n = Return n' -> reconf n n'.
Proof. by apply (reconf_op LabRpc.OpCleanup). Qed.
Lemma reconf_Connect e name n : reconf n (LabRpc.Connect e name n).
Proof. by apply (reconf_op (LabRpc.OpConnect e name)). Qed.
Lemma reconf_Enable e on n : reconf n (LabRpc.Enable e on n).
Proof. by apply (reconf_op (LabRpc.OpEnable e on)). Qed.
Lemma reconf_AddServer name sid n : P name -> reconf n (LabRpc.AddServer name sid n).
Proof. intros H. by apply (reconf_op (LabRpc.OpAddServer name sid)). Qed.
Lemma reconf_DeleteServer name n : reconf n (LabRpc.DeleteServer name n).
Proof. by apply (reconf_op (LabRpc.OpDeleteServer name)). Qed.

(** ** Groups *)

Lemma makeEnds_reconf g names : forall j n n', Group.makeEnds g j names n = Return n' -> reconf n n'.
Proof.
  induction names as [|name names IH]; intros j n n' H; cbn [Group.makeEnds] in H; returned; [done|].
  etrans; [by eapply reconf_MakeEnd|]. etrans; [apply reconf_Connect|]. by eapply IH.
Qed.

Lemma makeServers_reconf g names : forall n l n',
  Group.makeServers g names n = Return (l, n') -> reconf n n' /\ length l = length names.
Proof.
  induction names as [|ns names IH]; intros n l n' H; cbn [Group.makeServers] in H; returned; [done|].
  unfold Group.makeServer in *. returned. edestruct IH as [IH1 IH2]; [eassumption|].
  split; [by etrans; [eapply makeEnds_reconf|]|]. simpl. by f_equal.
Qed.

Lemma Server_connect_reconf s sg to : forall n n', Group.Server_connect s sg to n = Return n' -> reconf n n'.
Proof.
  induction to as [|j to IH]; intros n n' H; cbn [Group.Server_connect] in H; returned; [done|].
  case_match; returned; [|by eapply IH]. etrans; [apply reconf_Enable|]. by eapply IH.
Qed.

Lemma connectIncoming_reconf sg i to : forall n n', Group.connectIncoming sg i to n = Return n' -> reconf n n'.
Proof.
  induction to as [|j to IH]; intros n n' H; cbn [Group.connectIncoming] in H; returned; [done|].
  case_match; returned; [|by eapply IH]. etrans; [apply reconf_Enable|]. by eapply IH.
Qed.

(** The network is reconfigured and the group keeps its number. *)
Definition moves (sg : Group.ServerGrp) (n : Network) (sg' : Group.ServerGrp) (n' : Network) : Prop :=
  reconf n n' /\ Group.gid sg' = Group.gid sg.

Lemma connect_reconf i to sg n sg' n' : Group.connect i to sg n = Return (sg', n') -> moves sg n sg' n'.
Proof.
  unfold Group.connect. intros H. returned. split; [|done].
  etrans; [by eapply Server_connect_reconf|by eapply connectIncoming_reconf].
Qed.

Lemma disconnectEnds_reconf s from : forall n n', Group.disconnectEnds s from n = Return n' -> reconf n n'.
Proof.
  induction from as [|j from IH]; intros n n' H; cbn [Group.disconnectEnds] in H; returned; [done|].
  etrans; [apply reconf_Enable|]. by eapply IH.
Qed.

Lemma disconnectIncoming_reconf sg i from : forall n n',
  Group.disconnectIncoming sg i from n = Return n' -> reconf n n'.
Proof.
  induction from as [|j from IH]; intros n n' H; cbn [Group.disconnectIncoming] in H; returned; [done|].
  case_match; returned; [|by eapply IH]. etrans; [apply reconf_Enable|]. by eapply IH.
Qed.

Lemma disconnect_reconf i from sg n sg' n' : Group.disconnect i from sg n = Return (sg', n') -> moves sg n sg' n'.
Proof.
  unfold Group.disconnect, Group.Server_disconnect. intros H. returned. split; [|done].
  etrans; [|by eapply disconnectIncoming_reconf]. case_match; returned; [by eapply disconnectEnds_reconf|done].
Qed.

Lemma moves_trans sg n sg1 n1 sg' n' : moves sg n sg1 n1 -> moves sg1 n1 sg' n' -> moves sg n sg' n'.
Proof. intros [H1 E1] [H2 E2]. split; [by etrans|congruence]. Qed.

Lemma forEach_reconf f idx : (forall i sg n sg' n', f i sg n = Return (sg', n') -> moves sg n sg' n') ->
  forall sg n sg' n', Group.forEach f idx sg n = Return (sg', n') -> moves sg n sg' n'.
Proof.
  intros Hf. induction idx as [|i idx IH]; intros sg n sg' n' H; cbn [Group.forEach] in H; returned; [done|].
  eapply moves_trans; [by eapply Hf|by eapply IH].
Qed.

Lemma ConnectAll_reconf sg n sg' n' : Group.ConnectAll sg n = Return (sg', n') -> moves sg n sg' n'.
Proof. apply forEach_reconf. intros i sg1 n1 sg2 n2. apply connect_reconf. Qed.

Lemma Partition_reconf p1 p2 sg n sg' n' : Group.Partition p1 p2 sg n = Return (sg', n') -> moves sg n sg' n'.
Proof.
  unfold Group.Partition. intros H. returned.
  assert (forall q1 q2 i sg n sg' n', ('(sg, net) ← Group.disconnect i q2 sg n; Group.connect i q1 sg net)
    = Return (sg', n') -> moves sg n sg' n') as Hf.
  { intros q1 q2 i sg1 n1 sg2 n2 H1. returned.
    eapply moves_trans; [by eapply disconnect_reconf|by eapply connect_reconf]. }
  eapply moves_trans; (eapply forEach_reconf; [|eassumption]); intros ?????; apply Hf.
Qed.

(** The network and the servers of a cluster. *)
Definition nets (c : Group.cluster state) := (Group.cnet c, Group.cheap c).
Definition cgid (c : Group.cluster state) : Z := Group.gid (Group.grp c).

(** The labrpc servers that are started are new. *)
Definition freshSids (b : nat -> Groups.boot state) (idx : list nat) (h : gmap nat (LabRpc.Server state)) : Prop :=
  NoDup ((Groups.b_sid ∘ b) <$> idx) /\ forall i, i ∈ idx -> h !! Groups.b_sid (b i) = None.

Lemma services_count svcs : forall rs : LabRpc.Server state,
  LabRpc.srv_count (foldl (fun rs svc => LabRpc.AddService svc rs) rs svcs) = LabRpc.srv_count rs.
Proof. induction svcs as [|svc svcs IH]; intros rs; simpl; [done|]. by rewrite IH. Qed.

Lemma StartServer_advances i names mks sid c c' :
  P (Group.ServerName (cgid c) i) ->
  Group.cheap c !! sid = None -> Group.StartServer i names mks sid c = Return c' ->
  advances (nets c) (nets c') /\ cgid c' = cgid c /\ exists rs, Group.cheap c' = <[sid := rs]> (Group.cheap c).
Proof.
  unfold Group.StartServer, Group.startServer, Group.makeServer. intros HP Hf H. returned.
  assert (reconf (Group.cnet c) n) as Hn.
  { case_match; [|destruct (Persister.MakePersister _)]; returned; by eapply makeEnds_reconf. }
  split; [|split; [done|by eexists]]. unfold nets; cbn [Group.cnet Group.cheap].
  etrans; [apply (Hn (Group.cheap c))|]. etrans; [apply reconf_AddServer, HP|].
  apply rtc_once, adv_server; [done|]. apply services_count.
Qed.

Lemma starts_advances b idx : forall c c',
  (forall i, i ∈ idx -> P (Group.ServerName (cgid c) (Z.of_nat i))) ->
  freshSids b idx (Group.cheap c) -> Groups.starts b idx c = Return c' ->
  advances (nets c) (nets c') /\ cgid c' = cgid c.
Proof.
  induction idx as [|i idx IH]; intros c c' HP [Hnd Hf] H; cbn [Groups.starts] in H; returned; [split; [apply rtc_refl|done]|].
  rewrite fmap_cons in Hnd. apply NoDup_cons in Hnd as [Hni Hnd].
  match goal with H : Group.StartServer _ _ _ _ _ = _ |- _ =>
    apply StartServer_advances in H as (H1 & Eg & rs & Hh); [|apply HP; by left|apply Hf; by left] end.
  match goal with H : Groups.starts _ _ _ = _ |- _ => apply IH in H as [H2 Eg2]; [split; [by etrans|congruence]|..] end.
  { rewrite Eg. intros j Hj. apply HP. by right. }
  split; [done|]. intros j Hj. rewrite Hh.
  rewrite lookup_insert_ne; [apply Hf; by right|]. intros E. apply Hni. apply list_elem_of_fmap.
  exists j. split; [exact E|exact Hj].
Qed.

Lemma on_net_advances f c c' :
  (forall sg n sg' n', f sg n = Return (sg', n') -> moves sg n sg' n') -> Groups.on_net f c = Return c' ->
  advances (nets c) (nets c') /\ cgid c' = cgid c.
Proof.
  unfold Groups.on_net. intros Hf H. returned. unfold nets, cgid; cbn [Group.cnet Group.cheap Group.grp].
  match goal with H : f _ _ = _ |- _ => apply Hf in H as [Hr Hg]; split; [apply Hr|done] end.
Qed.

Lemma StartServers_advances b c c' :
  (forall i, i < length (Group.srvs (Group.grp c)) -> P (Group.ServerName (cgid c) (Z.of_nat i))) ->
  freshSids b (seq 0 (length (Group.srvs (Group.grp c)))) (Group.cheap c) -> Groups.StartServers b c = Return c' ->
  advances (nets c) (nets c') /\ cgid c' = cgid c.
Proof.
  unfold Groups.StartServers, Groups.start. intros HP Hf H. returned.
  match goal with H : Groups.starts _ _ _ = _ |- _ => apply starts_advances in H as [H1 E1]; [| |done] end.
  - match goal with H : Groups.on_net _ _ = _ |- _ => apply on_net_advances in H as [H2 E2]; [|apply ConnectAll_reconf] end.
    split; [by etrans|congruence].
  - intros i Hi. apply HP. apply elem_of_seq in Hi. lia.
Qed.

Lemma ShutdownServer_advances i (c c' : Group.cluster state) :
  Group.ShutdownServer i c = Return c' -> advances (nets c) (nets c') /\ cgid c' = cgid c.
Proof.
  unfold Group.ShutdownServer. intros H. returned. unfold nets, cgid; cbn [Group.cnet Group.cheap Group.grp].
  match goal with H : Group.disconnect _ _ _ _ = _ |- _ => apply disconnect_reconf in H as [Hd Eg] end.
  split; [|done]. etrans; [apply Hd|apply reconf_DeleteServer].
Qed.

Lemma shutdowns_advances idx : forall c c' : Group.cluster state,
  Groups.shutdowns idx c = Return c' -> advances (nets c) (nets c') /\ cgid c' = cgid c.
Proof.
  induction idx as [|i idx IH]; intros c c' H; cbn [Groups.shutdowns] in H; returned; [split; [apply rtc_refl|done]|].
  match goal with H : Group.ShutdownServer _ _ = _ |- _ => apply ShutdownServer_advances in H as [H1 E1] end.
  match goal with H : Groups.shutdowns _ _ = _ |- _ => apply IH in H as [H2 E2] end.
  split; [by etrans|congruence].
Qed.

(** ** The map of groups *)

Definition wnets (w : Groups.world state) := (Groups.wnet w, Groups.wheap w).

(** Every group has the number it is kept under. *)
Definition numbered (w : Groups.world state) : Prop :=
  forall g sg, Groups.grps w !! g = Some sg -> Group.gid sg = g.

Lemma on_group_advances g f w w' :
  (forall sg c c', Groups.grps w !! g = Some sg -> Group.grp c = sg -> nets c = wnets w -> f c = Return c' ->
     advances (nets c) (nets c') /\ cgid c' = cgid c) ->
  numbered w -> Groups.on_group g f w = Return w' -> advances (wnets w) (wnets w') /\ numbered w'.
Proof.
  unfold Groups.on_group, Groups.lookupGroup. intros Hf Hn H. destruct (Groups.grps w !! g) as [sg|] eqn:E; [|done].
  returned. match goal with H : f _ = Return _ |- _ => apply (Hf sg) in H as [Ha Eg]; [split; [exact Ha|]|done..] end.
  intros g' sg' Hg'. cbn [Groups.grps] in Hg'. destruct (decide (g' = g)) as [->|Hne].
  - rewrite lookup_insert_eq in Hg'. injection Hg' as <-. unfold cgid in Eg. cbn [Group.grp] in Eg.
    rewrite Eg. by apply Hn.
  - rewrite lookup_insert_ne in Hg' by done. by apply Hn.
Qed.

(** The servers that an operation on groups starts are new, and have names in [P]. *)
Definition freshOp (o : Groups.gop state) (w : Groups.world state) : Prop :=
  match o with
  | Groups.OMake g names b => freshSids b (seq 0 (length names)) (Groups.wheap w)
  | Groups.OStart g i b => Groups.wheap w !! Groups.b_sid b = None
  | _ => True
  end.
Definition named (o : Groups.gop state) : Prop :=
  match o with
  | Groups.OMake g names _ => forall i : nat, i < length names -> P (Group.ServerName g (Z.of_nat i))
  | Groups.OStart g i _ => P (Group.ServerName g (Z.of_nat i))
  | _ => True
  end.

Lemma MakeGroupStart_advances g names b w w' :
  freshOp (Groups.OMake g names b) w -> named (Groups.OMake g names b) -> numbered w ->
  Groups.MakeGroupStart g names b w = Return w' -> advances (wnets w) (wnets w') /\ numbered w'.
Proof.
  unfold Groups.MakeGroupStart, Groups.MakeGroup, Group.makeSrvGrp. intros Hf HP Hn H. returned.
  match goal with H : Group.makeServers _ _ _ = _ |- _ => apply makeServers_reconf in H as [Hr Hl] end.
  match goal with H : Groups.on_group _ _ _ = _ |- _ => apply on_group_advances in H as [H1 H2] end.
  - split; [|done]. etrans; [apply (Hr (Groups.wheap w))|exact H1].
  - cbn [Groups.grps Groups.wheap]. intros sg c c' Hsg <- [= _ Hh]. rewrite lookup_insert_eq in Hsg.
    injection Hsg as Hsg. apply StartServers_advances; unfold cgid; rewrite ?Hh, <-Hsg; cbn [Group.srvs Group.gid];
      rewrite Hl; done.
  - intros g' sg' Hg'. cbn [Groups.grps] in Hg'. destruct (decide (g' = g)) as [->|Hne].
    + rewrite lookup_insert_eq in Hg'. by injection Hg' as <-.
    + rewrite lookup_insert_ne in Hg' by done. by apply Hn.
Qed.

Lemma run_advances o w w' :
  freshOp o w -> named o -> numbered w -> Groups.run o w = Return w' ->
  advances (wnets w) (wnets w') /\ numbered w'.
Proof.
  destruct o as [g names b|g|g i b|g i|g i|g i|g p1 p2]; intros Hf HP Hn H; [by apply MakeGroupStart_advances in H|..];
    cbn [Groups.run] in H.
  - unfold Groups.ExitGroup in H. returned.
    match goal with H : Groups.on_group _ _ _ = _ |- _ => 
      apply on_group_advances in H as [H1 H2]; [|intros ??????; apply shutdowns_advances|done] end.
    split; [done|]. intros g' sg' Hg'. cbn [Groups.delete Groups.grps] in Hg'.
    apply lookup_delete_Some in Hg' as [_ Hg']. by apply H2.
  - eapply on_group_advances; [|exact Hn|exact H]. intros sg c c' Hg Eg [= _ Hh] Hs.
    eapply StartServer_advances in Hs as (H1 & E1 & _); [done| |by rewrite Hh].
    unfold cgid. by rewrite Eg, (Hn g sg Hg).
  - eapply on_group_advances; [|exact Hn|exact H]. intros sg c c' _ _ _. apply ShutdownServer_advances.
  - eapply on_group_advances; [|exact Hn|exact H]. intros sg c c' _ _ _. apply on_net_advances. intros ????. apply connect_reconf.
  - eapply on_group_advances; [|exact Hn|exact H]. intros sg c c' _ _ _. apply on_net_advances. intros ????. apply disconnect_reconf.
  - eapply on_group_advances; [|exact Hn|exact H]. intros sg c c' _ _ _. apply on_net_advances. intros ????. apply Partition_reconf.
Qed.

(** ** Clients *)

Lemma removeEnds_reconf l : forall n n', Clnts.removeEnds l n = Return n' -> reconf n n'.
Proof.
  induction l as [|[srv e] l IH]; intros n n' H; cbn [Clnts.removeEnds] in H; returned; [done|].
  etrans; [by eapply reconf_DeleteEnd|by eapply IH].
Qed.

Lemma removeAll_reconf l : forall n n', Clnts.removeAll l n = Return n' -> reconf n n'.
Proof.
  induction l as [|[a clnt] l IH]; intros n n' H; cbn [Clnts.removeAll] in H; returned; [done|].
  etrans; [by eapply removeEnds_reconf|by eapply IH].
Qed.

Lemma enableList_reconf test on l : forall n, reconf n (Clnts.enableList test on l n).
Proof.
  induction l as [|[srv e] l IH]; intros n; cbn [Clnts.enableList]; [done|].
  etrans; [|apply IH]. destruct (test srv); [apply reconf_Enable|done].
Qed.

Lemma Call_reconf name server meth args clnt n msg clnt' n' :
  Clnts.Call name server meth args clnt n = Return (msg, clnt', n') -> reconf n n'.
Proof.
  unfold Clnts.Call, Clnts.makeEnd. intros H. returned. case_match; returned; [done|].
  etrans; [by eapply reconf_MakeEnd|]. etrans; [apply reconf_Connect|apply reconf_Enable].
Qed.

(** ** The operations of a test *)

(** The connection controls of a client. *)
Inductive control := CConnectAll | CConnectTo (srvs : list string) | CDisconnect (srv : string) | CDisconnectAll.
Definition apply (k : control) (clnt : Clnts.Clnt) (n : Network) : Clnts.Clnt * Network :=
  match k with
  | CConnectAll => Clnts.ConnectAll clnt n
  | CConnectTo l => Clnts.ConnectTo l clnt n
  | CDisconnect srv => Clnts.Disconnect srv clnt n
  | CDisconnectAll => Clnts.DisconnectAll clnt n
  end.

(** What a test asks of its configuration; the arguments of [TCleanup] are those of
    the annotations. *)
Inductive top :=
| TGroup (o : Groups.gop state)
| TReliable (yes : bool) | TLongReordering (yes : bool) | TLongDelays (yes : bool)
| TMakeClientTo (a : nat) (to : option (list string)) | TDeleteClient (a : nat)
| TControl (a : nat) (k : control)
| TCleanup (vis : string) (t t' : Z) (order : list (string * Annotation.Continuous)) (now : Z).

Definition moved (a : nat) (m : gmap nat Clnts.Clnt) (clnt : Clnts.Clnt) (n : Network) (cfg : Config.Config state)
    : Config.Config state := Config.set_clnts (Config.set_net cfg n) (Some (<[a := clnt]> m)).

Definition runTop (o : top) (cfg : Config.Config state) : outcome (Config.Config state) :=
  match o with
  | TGroup o => w ← Groups.run o (Config.groups cfg); mret (Config.set_groups cfg w)
  | TReliable yes => Return (Config.SetReliable yes cfg)
  | TLongReordering yes => Return (Config.SetLongReordering yes cfg)
  | TLongDelays yes => Return (Config.SetLongDelays yes cfg)
  | TMakeClientTo a to => Config.MakeClientTo a to cfg
  | TDeleteClient a => Config.DeleteClient a cfg
  | TControl a k =>
      match Config.clnts cfg with
      | Some m =>
          match m !! a with
          | Some clnt => let '(clnt, n) := apply k clnt (Config.net cfg) in mret (moved a m clnt n cfg)
          | None => Return cfg
          end
      | None => Return cfg
      end
  | TCleanup vis t t' order now => '(_, cfg) ← Config.Cleanup vis t t' order now cfg; mret cfg
  end.

Definition freshTop (o : top) (cfg : Config.Config state) : Prop :=
  match o with TGroup o => freshOp o (Config.groups cfg) | _ => True end.

Definition cnets (cfg : Config.Config state) := wnets (Config.groups cfg).
Definition namedTop (o : top) : Prop := match o with TGroup o => named o | _ => True end.
Definition numberedTop (cfg : Config.Config state) : Prop := numbered (Config.groups cfg).

Lemma runTop_advances o cfg cfg' :
  freshTop o cfg -> namedTop o -> numberedTop cfg -> runTop o cfg = Return cfg' ->
  advances (cnets cfg) (cnets cfg') /\ numberedTop cfg'.
Proof.
  destruct o as [o|yes|yes|yes|a to|a|a k|vis t t' order now]; cbn [freshTop namedTop runTop]; intros Hf HP Hn H.
  - returned. by eapply run_advances.
  - returned. split; [by apply (reconf_op (LabRpc.OpReliable yes))|done].
  - returned. split; [by apply (reconf_op (LabRpc.OpLongReordering yes))|done].
  - returned. split; [by apply (reconf_op (LabRpc.OpLongDelays yes))|done].
  - unfold Config.MakeClientTo in H. returned. split; [apply rtc_refl|done].
  - unfold Config.DeleteClient, Clnts.DeleteClient in H. returned.
    destruct (Config.clnts cfg) as [m|]; [destruct (m !! a) as [clnt|]|]; returned; split; try done; try apply rtc_refl.
    match goal with H : Clnts.remove _ _ = _ |- _ => apply removeEnds_reconf in H; apply H end.
  - destruct (Config.clnts cfg) as [m|]; [destruct (m !! a) as [clnt|]|]; returned; split; try done; try apply rtc_refl;
      destruct k; cbn in H; returned; try done; apply enableList_reconf.
  - unfold Config.Cleanup, Clnts.cleanup in H. returned. case_match; returned. split; [|done].
    match goal with H : Clnts.removeAll _ _ = _ |- _ => apply removeAll_reconf in H; rename H into Hra end.
    match goal with H : LabRpc.Cleanup _ = _ |- _ => apply reconf_Cleanup in H; rename H into Hcl end.
    etrans; [apply Hra|apply Hcl].
Qed.

End Names.

(** ** The running system *)

(** The configuration with its network and servers, the receivers' states, the
    calls under way and the executions of handlers so far. *)
Record tsys := {
  t_cfg : Config.Config state;
  t_objs : LabRpc.objects state;
  t_reqs : list LabRpc.request;
  t_log : list LabRpc.execution
}.

(** The network's part of the system, and its update. *)
Definition view (x : tsys) : LabRpc.world state :=
  {| LabRpc.net := Config.net (t_cfg x); LabRpc.heap := Groups.wheap (Config.groups (t_cfg x));
     LabRpc.objs := t_objs x; LabRpc.reqs := t_reqs x; LabRpc.log := t_log x |}.
Definition with_net (cfg : Config.Config state) (n : Network) (h : gmap nat (LabRpc.Server state)) : Config.Config state :=
  Config.set_groups cfg {| Groups.grps := Groups.grps (Config.groups cfg); Groups.wnet := n; Groups.wheap := h;
    Groups.wpst := Groups.wpst (Config.groups cfg); Groups.wkilled := Groups.wkilled (Config.groups cfg) |}.
Definition put (x : tsys) (w : LabRpc.world state) : tsys :=
  {| t_cfg := with_net (t_cfg x) (LabRpc.net w) (LabRpc.heap w); t_objs := LabRpc.objs w;
     t_reqs := LabRpc.reqs w; t_log := LabRpc.log w |}.
Definition set_cfg (x : tsys) (cfg : Config.Config state) : tsys :=
  {| t_cfg := cfg; t_objs := t_objs x; t_reqs := t_reqs x; t_log := t_log x |}.

(** The test calls an operation of the tester, one of those in [Q]; a clerk calls
    a server through its client, which makes an end if it has none and hands the
    request to the network; the network, and the servers that call each other,
    take a step. *)
Inductive tstepOf (Q : top -> Prop) (x : tsys) : tsys -> Prop :=
| t_tester o cfg : Q o -> freshTop o (t_cfg x) -> runTop o (t_cfg x) = Return cfg -> tstepOf Q x (set_cfg x cfg)
| t_call a m clnt name server meth args msg clnt' n :
    Config.clnts (t_cfg x) = Some m -> m !! a = Some clnt ->
    Clnts.Call name server meth args clnt (Config.net (t_cfg x)) = Return (msg, clnt', n) ->
    LabRpc.loop_done n = false ->
    tstepOf Q x (put (set_cfg x (moved a m clnt' n (t_cfg x))) (LabRpc.accept msg (view (set_cfg x (moved a m clnt' n (t_cfg x))))))
| t_net w : LabRpc.own (view x) w -> tstepOf Q x (put x w).

Definition anyTop (o : top) : Prop := True.
Definition tstep : tsys -> tsys -> Prop := tstepOf anyTop.

Lemma view_put x w : view (put x w) = w.
Proof. by destruct w. Qed.

(** A step of the network, and the names that its operation registers. *)
Definition nstep (P : string -> Prop) (w w' : LabRpc.world state) : Prop :=
  LabRpc.step w w' /\
  forall name, LabRpc.serverOf (LabRpc.net w) name = None -> ~ P name -> LabRpc.serverOf (LabRpc.net w') name = None.

Lemma registers_unreg P op n n' name :
  registers P op -> LabRpc.applyOp op n = Return n' -> ~ P name ->
  LabRpc.serverOf n name = None -> LabRpc.serverOf n' name = None.
Proof.
  unfold LabRpc.serverOf. destruct op as [| | | |e|e|nm sid|nm| |]; cbn; intros HP H Hnot Hoff; try (by injection H as <-).
  - unfold LabRpc.Cleanup in H. destruct (LabRpc.done_closed n); [done|]. by injection H as <-.
  - unfold LabRpc.MakeEnd in H. case_decide; [done|]. by injection H as <-.
  - unfold LabRpc.DeleteEnd in H. case_decide; [done|]. by injection H as <-.
  - injection H as <-. cbn. rewrite lookup_insert_ne; [done|]. by intros ->.
  - injection H as <-. cbn. destruct (decide (nm = name)) as [->|]; [by rewrite lookup_insert_eq|].
    by rewrite lookup_insert_ne.
Qed.

Lemma advances_steps P p p' o rs l :
  advances P p p' -> rtc (nstep P)
    {| LabRpc.net := p.1; LabRpc.heap := p.2; LabRpc.objs := o; LabRpc.reqs := rs; LabRpc.log := l |}
    {| LabRpc.net := p'.1; LabRpc.heap := p'.2; LabRpc.objs := o; LabRpc.reqs := rs; LabRpc.log := l |}.
Proof.
  induction 1 as [|p p1 p' Ha _ IH]; [apply rtc_refl|]. eapply rtc_l; [|exact IH].
  destruct Ha as [op n n' h Hop Hr|sid rs0 n h Hn Hc]; (split; [|intros name Hoff HP; cbn in *]).
  - by apply (LabRpc.step_op op {| LabRpc.net := n; LabRpc.heap := h |}).
  - by eapply registers_unreg.
  - by apply (LabRpc.step_server sid rs0 {| LabRpc.net := n; LabRpc.heap := h |}).
  - done.
Qed.

Lemma own_nstep P w w' : LabRpc.own w w' -> nstep P w w'.
Proof.
  intros [Hs (_ & _ & Hsv & _)]. split; [done|]. unfold LabRpc.serverOf. by rewrite Hsv.
Qed.

(** Forward simulation: a step of the test is a sequence of steps of the network,
    which registers only names in [P] when the tester's operations do. *)
Lemma tstep_simulated P (Q : top -> Prop) x y :
  (forall o, Q o -> namedTop P o) -> numberedTop (t_cfg x) -> tstepOf Q x y ->
  rtc (nstep P) (view x) (view y) /\ numberedTop (t_cfg y).
Proof.
  intros HQ Hn [o cfg Ho Hf Hr|a m clnt name server meth args msg clnt' n Hm Ha Hc Hl|w Hw].
  - apply (runTop_advances P) in Hr as [H1 H2]; [|auto..].
    split; [exact (advances_steps _ _ _ _ _ _ H1)|exact H2].
  - split; [|exact Hn]. rewrite view_put. eapply rtc_r; [|split; [by apply (LabRpc.step_call msg)|done]].
    apply (Call_reconf P) in Hc.
    exact (advances_steps _ _ _ _ _ _ (Hc (Groups.wheap (Config.groups (t_cfg x))))).
  - split; [|exact Hn]. rewrite view_put. by apply rtc_once, own_nstep.
Qed.

Lemma tsteps_simulated P (Q : top -> Prop) x y :
  (forall o, Q o -> namedTop P o) -> rtc (tstepOf Q) x y -> numberedTop (t_cfg x) ->
  rtc (nstep P) (view x) (view y) /\ numberedTop (t_cfg y).
Proof.
  intros HQ. induction 1 as [x|x y z H _ IH]; intros Hn; [split; [apply rtc_refl|done]|].
  destruct (tstep_simulated P Q x y HQ Hn H) as [H1 Hy]. destruct (IH Hy) as [H2 Hz].
  split; [by etrans|done].
Qed.

(** A new configuration, with nothing under way. *)
Definition launch (cfg : Config.Config state) (o : LabRpc.objects state) : tsys :=
  {| t_cfg := cfg; t_objs := o; t_reqs := []; t_log := [] |}.

Lemma MakeConfig_advances names rel b st an now cfg :
  freshSids b (seq 0 (length names)) ∅ -> Config.MakeConfig names rel b ∅ st an now = Return cfg ->
  advances (fun _ => True) (LabRpc.MakeNetwork, ∅) (cnets cfg) /\ numberedTop cfg.
Proof.
  unfold Config.MakeConfig, Config.MakeGroupStart. intros Hf H. returned.
  match goal with H : Groups.MakeGroupStart _ _ _ _ = _ |- _ =>
    apply (MakeGroupStart_advances (fun _ => True)) in H as [H1 H2]; [|exact Hf|done|] end.
  - split; [|exact H2]. etrans; [exact H1|]. by apply (reconf_op _ (LabRpc.OpReliable rel)).
  - intros g sg Hg. cbn in Hg. by rewrite lookup_empty in Hg.
Qed.

(** Every execution of a test is an execution of the network. *)
Lemma test_reachable names rel b st an now cfg o x :
  freshSids b (seq 0 (length names)) ∅ -> Config.MakeConfig names rel b ∅ st an now = Return cfg ->
  rtc tstep (launch cfg o) x -> LabRpc.reachable (view x) /\ numberedTop (t_cfg x).
Proof.
  intros Hf Hm Hr. destruct (MakeConfig_advances _ _ _ _ _ _ _ Hf Hm) as [Ha Hn].
  destruct (tsteps_simulated (fun _ => True) anyTop _ _ ltac:(by intros [[]| | | | | | |]) Hr Hn) as [Hs Hx].
  split; [|exact Hx]. exists o. eapply (rtc_subrel (nstep (fun _ => True))); [by intros ?? []|].
  etrans; [exact (advances_steps _ _ _ o [] [] Ha)|exact Hs].
Qed.

(** ** A server that is shut down *)

(** [o] shuts server [i] of group [g] down; [o] does not start it. *)
Definition stops (g : Z) (i : nat) (cfg : Config.Config state) (o : top) : Prop :=
  match o with
  | TGroup (Groups.OShutdown g' i') => g' = g /\ i' = i
  | TGroup (Groups.OExit g') => g' = g /\
      exists sg, Groups.grps (Config.groups cfg) !! g = Some sg /\ i < length (Group.srvs sg)
  | _ => False
  end.
Definition startsNot (g : Z) (i : nat) (o : top) : Prop :=
  match o with
  | TGroup (Groups.OMake g' _ _) => g' <> g
  | TGroup (Groups.OStart g' i' _) => (g', i') <> (g, i)
  | _ => True
  end.

(** A request whose server is, or was, the one with this name; one that waits for
    its reply; one that got none. *)
Definition routed (name : string) (r : LabRpc.request) : Prop :=
  match LabRpc.rq_stage r with
  | LabRpc.Waiting rt | LabRpc.Replying rt _ => LabRpc.rt_servername rt = name
  | _ => False
  end.
Definition waits (name : string) (r : LabRpc.request) : Prop :=
  match LabRpc.rq_stage r with LabRpc.Waiting rt => LabRpc.rt_servername rt = name | _ => False end.
Definition refused (r : LabRpc.request) : Prop :=
  match LabRpc.rq_stage r with LabRpc.Answered rep => LabRpc.ok rep = false | _ => False end.

Lemma ShutdownServer_off i (c c' : Group.cluster state) :
  Group.ShutdownServer i c = Return c' -> LabRpc.serverOf (Group.cnet c') (Group.ServerName (cgid c) i) = None.
Proof.
  unfold Group.ShutdownServer. intros H. returned. cbn [Group.cnet].
  match goal with H : Group.disconnect _ _ _ _ = _ |- _ =>
    apply (disconnect_reconf (fun _ => True)) in H as [_ Eg] end.
  unfold cgid. rewrite <-Eg. unfold LabRpc.serverOf. cbn. by rewrite lookup_insert_eq.
Qed.

(** What has no server keeps none while other names are registered. *)
Lemma advances_unreg P p p' name :
  advances P p p' -> ~ P name -> LabRpc.serverOf p.1 name = None -> LabRpc.serverOf p'.1 name = None.
Proof.
  induction 1 as [|p p1 p' Ha _ IH]; intros HP Hoff; [done|]. apply IH; [done|].
  destruct Ha as [op n n' h Hop Hr|]; [by eapply registers_unreg|done].
Qed.

Lemma shutdowns_off idx : forall (c c' : Group.cluster state) i, i ∈ idx ->
  Groups.shutdowns idx c = Return c' -> LabRpc.serverOf (Group.cnet c') (Group.ServerName (cgid c) (Z.of_nat i)) = None.
Proof.
  induction idx as [|j idx IH]; intros c c' i Hi H; [by apply not_elem_of_nil in Hi|].
  cbn [Groups.shutdowns] in H. returned.
  match goal with H : Group.ShutdownServer _ _ = Return ?x |- _ => rename H into Hj; rename x into c1 end.
  pose proof (ShutdownServer_advances (fun _ => False) _ _ _ Hj) as [_ Eg].
  match goal with H : Groups.shutdowns _ _ = _ |- _ => rename H into Hr end.
  apply elem_of_cons in Hi as [->|Hi]; [|rewrite <-Eg; by eapply IH].
  apply (shutdowns_advances (fun _ => False)) in Hr as [Ha _].
  eapply (advances_unreg (fun _ => False) _ _ _ Ha); [by intros []|]. by apply ShutdownServer_off in Hj.
Qed.

Lemma stops_off g i cfg o cfg' :
  numberedTop cfg -> stops g i cfg o -> runTop o cfg = Return cfg' ->
  LabRpc.serverOf (Config.net cfg') (Group.ServerName g (Z.of_nat i)) = None.
Proof.
  intros Hn Hs H. destruct o as [[| g'| |g' i'| | |]| | | | | | |]; try done; cbn [stops runTop] in Hs, H; returned;
    cbn [Groups.run] in *.
  - destruct Hs as (-> & sg & Hsg & Hi). unfold Groups.ExitGroup, Groups.on_group, Groups.lookupGroup in *.
    rewrite Hsg in *. returned. unfold Config.net. cbn.
    match goal with H : Groups.Shutdown _ = _ |- _ => eapply shutdowns_off in H; [|by apply elem_of_seq; split; [lia|exact Hi]] end.
    unfold cgid in *. cbn [Group.grp] in *. by rewrite (Hn g sg Hsg) in *.
  - destruct Hs as [-> ->]. unfold Groups.on_group, Groups.lookupGroup in *.
    destruct (Groups.grps (Config.groups cfg) !! g) as [sg|] eqn:Hsg; [|done]. returned. unfold Config.net. cbn.
    match goal with H : Group.ShutdownServer _ _ = _ |- _ => apply ShutdownServer_off in H end.
    unfold cgid in *. cbn [Group.grp] in *. by rewrite (Hn g sg Hsg) in *.
Qed.

(** One step of a request while no server has the name. *)
Lemma off_req_step rn name r r' :
  LabRpc.serverOf rn name = None -> LabRpc.req_step rn r r' ->
  (routed name r' -> routed name r) /\ (waits name r \/ refused r -> waits name r' \/ refused r').
Proof.
  intros Hoff Hs. destruct Hs as [r|rnd msg st h Hst|msg st sid rep Hok|msg rt h|rnd msg rt rep|msg rt rep h];
    unfold routed, waits, refused; cbn; try tauto.
  - split; [|tauto]. unfold LabRpc.processStart in Hst.
    destruct (LabRpc.readEndnameInfo rn (LabRpc.endname msg)) as [[[[en sv] srv] rel] lr] eqn:E.
    destruct en; [destruct sv as [sv|]; [destruct srv as [srv|]; [destruct (negb rel && _)|]|]|];
      injection Hst as <- <-; cbn; try done. intros ->.
    unfold LabRpc.readEndnameInfo in E. injection E as _ E1 E2 _ _. rewrite E1 in E2. cbn in E2. congruence.
  - unfold LabRpc.processTimeout. destruct (LabRpc.isServerDead _ _ _ _) eqn:E; cbn; [|tauto].
    split; [done|]. by right.
  - unfold LabRpc.processReply. destruct (LabRpc.isServerDead _ _ _ _) eqn:E; cbn; [split; [done|by right]|].
    apply orb_false_iff in E as [_ E]. apply negb_false_iff, bool_decide_eq_true in E.
    destruct (_ && _); cbn; split; try done; intros [<-|[]]; [by right|]; congruence.
Qed.

(** The requests of a network while the server with this name stays away. *)
Record silence (name : string) (w0 w : LabRpc.world state) : Prop := {
  si_off : LabRpc.serverOf (LabRpc.net w) name = None;
  si_new i r : LabRpc.reqs w !! i = Some r -> routed name r ->
    exists r0, LabRpc.reqs w0 !! i = Some r0 /\ routed name r0;
  si_old i r0 : LabRpc.reqs w0 !! i = Some r0 -> waits name r0 ->
    exists r, LabRpc.reqs w !! i = Some r /\ (waits name r \/ refused r)
}.

(** A request that a step adds is not routed. *)
Lemma step_new_req (w w' : LabRpc.world state) i r' :
  LabRpc.step w w' -> LabRpc.reqs w !! i = None -> LabRpc.reqs w' !! i = Some r' ->
  match LabRpc.rq_stage r' with LabRpc.Start | LabRpc.Answered _ => True | _ => False end.
Proof.
  intros Hs H0 H1. destruct Hs; cbn in H1; try congruence;
    try (rewrite list_lookup_insert_ne in H1 by (intros ->; congruence); congruence).
  all: apply lookup_app_Some in H1 as [H1|[_ H1]]; [congruence|].
  all: apply list_lookup_singleton_Some in H1 as [_ <-]; done.
Qed.

Lemma silence_step P name w0 w w' : ~ P name -> nstep P w w' -> silence name w0 w -> silence name w0 w'.
Proof.
  intros HP [Hs Hoff] [So Sn Sl]. split; [by apply Hoff|..].
  - intros i r' Hi Hr. destruct (LabRpc.reqs w !! i) as [r|] eqn:E.
    + destruct (LabRpc.step_req _ _ _ _ Hs E) as (r1 & Hi1 & Hq). rewrite Hi in Hi1. injection Hi1 as <-.
      apply (Sn i r E). by eapply off_req_step.
    + pose proof (step_new_req _ _ _ _ Hs E Hi) as H. unfold routed in Hr. by destruct (LabRpc.rq_stage r').
  - intros i r0 H0 Hw. destruct (Sl i r0 H0 Hw) as (r & Hi & Hr).
    destruct (LabRpc.step_req _ _ _ _ Hs Hi) as (r1 & Hi1 & Hq). exists r1. split; [done|].
    by eapply (off_req_step _ _ _ _ So Hq).
Qed.

Lemma silence_steps P name w0 w w' : ~ P name -> rtc (nstep P) w w' -> silence name w0 w -> silence name w0 w'.
Proof. intros HP. induction 1 as [|w w1 w' H _ IH]; [done|]. intros Hq. by eapply IH, silence_step. Qed.

(** C5: A server that was shut down is silent until it is started again.  In any
    running test (operations of the tester on groups, clients and the network,
    calls of clerks and of servers, steps of the network, in any interleaving
    since [MakeConfig]) let the tester shut server [i] of group [g] down, with
    [ShutdownServer] or by ending the group, and let the test run on in any way
    that does not start that server again.  Then its name leads to no server; a
    call that was waiting for the server is never answered with success; and no
    other call, earlier or later, over any end, is ever handed to it. *)
Theorem shut_down_server_silent names rel b st an now cfg o x op cfg' g i y :
  freshSids b (seq 0 (length names)) ∅ -> Config.MakeConfig names rel b ∅ st an now = Return cfg ->
  rtc tstep (launch cfg o) x ->
  stops g i (t_cfg x) op -> runTop op (t_cfg x) = Return cfg' ->
  rtc (tstepOf (startsNot g i)) (set_cfg x cfg') y ->
  let name := Group.ServerName g (Z.of_nat i) in
  LabRpc.serverOf (Config.net (t_cfg y)) name = None /\
  (forall k r0, t_reqs x !! k = Some r0 -> waits name r0 ->
     exists r, t_reqs y !! k = Some r /\ (waits name r \/ refused r)) /\
  (forall k r, t_reqs y !! k = Some r -> routed name r ->
     exists r0, t_reqs x !! k = Some r0 /\ routed name r0).
Proof.
  intros Hf Hm Hr Hst Hop Hy name. destruct (test_reachable _ _ _ _ _ _ _ _ _ Hf Hm Hr) as [_ Hn].
  pose proof (stops_off _ _ _ _ _ Hn Hst Hop) as Hoff.
  assert (numberedTop cfg') as Hn'.
  { apply (runTop_advances (fun _ => True)) in Hop as [_ Hop]; [done|by destruct op as [[]| | | | | | |]..|done]. }
  assert (forall o, startsNot g i o -> namedTop (fun nm => nm <> name) o) as HQ.
  { intros [[g' nms b'| |g' i' b'| | | |]| | | | | | |] HQ; try done; cbn in HQ |- *.
    - intros j _ [E _]%Groups.ServerName_inj. done.
    - by intros [-> ->]%Groups.ServerName_inj. }
  destruct (tsteps_simulated _ _ _ _ HQ Hy Hn') as [Hs _].
  destruct (silence_steps (fun nm => nm <> name) name (view x) _ _ ltac:(auto) Hs) as [S1 S2 S3].
  - split; [exact Hoff|by eauto|]. intros k r0 Hk Hw. exists r0. by auto.
  - split; [exact S1|]. split; [exact S3|exact S2].
Qed.

(** ** A clerk's call, from end to end *)

Lemma put_view x : put x (view x) = x.
Proof. by destruct x as [[[]]]. Qed.

Lemma own_lifted v w : rtc LabRpc.own v w -> forall x, view x = v -> rtc tstep x (put x w).
Proof.
  induction 1 as [v|v w1 w Ho _ IH]; intros x <-; [rewrite put_view; apply rtc_refl|].
  eapply rtc_l; [by apply t_net|]. apply (IH (put x w1)), view_put.
Qed.

Lemma advances_loop P p p' : advances P p p' -> LabRpc.loop_done p'.1 = LabRpc.loop_done p.1.
Proof.
  induction 1 as [|p p1 p' Ha _ IH]; [done|]. rewrite IH. destruct Ha as [op n n' h _ Hop|]; [|done]. simpl.
  destruct op; simpl in Hop; try (by injection Hop as <-).
  - unfold LabRpc.Cleanup in Hop. destruct (LabRpc.done_closed n); [done|]. by injection Hop as <-.
  - unfold LabRpc.MakeEnd in Hop. case_decide; [done|]. by injection Hop as <-.
  - unfold LabRpc.DeleteEnd in Hop. case_decide; [done|]. by injection Hop as <-.
Qed.

(** The request of a client's first call of a server. *)
Definition request (name meth args : string) : LabRpc.reqMsg :=
  {| LabRpc.endname := name; LabRpc.svcMeth := meth; LabRpc.req_args := args |}.

Lemma first_call name server meth args clnt n sid :
  Clnts.ends clnt !! server = None -> Clnts.allowedL clnt server = true -> name ∉ LabRpc.ends n ->
  LabRpc.serverOf n server = Some sid ->
  exists clnt' n', Clnts.Call name server meth args clnt n = Return (request name meth args, clnt', n') /\
    Clnts.ends clnt' !! server = Some name /\ LabRpc.loop_done n' = LabRpc.loop_done n /\ LabRpc.reliable n' = LabRpc.reliable n /\
    LabRpc.endEnabled n' name = true /\ mjoin (LabRpc.connections n' !! name) = Some server /\
    LabRpc.serverOf n' server = Some sid.
Proof.
  intros He Ha Hn Hs. unfold Clnts.Call, Clnts.makeEnd, LabRpc.MakeEnd. rewrite He, decide_False by done.
  cbn [mbind outcome_bind mret outcome_ret]. rewrite Ha. eexists _, _. split; [reflexivity|].
  split; [apply lookup_insert_eq|]. split; [done|]. split; [done|]. unfold LabRpc.endEnabled. simpl.
  rewrite !lookup_insert_eq. done.
Qed.

Lemma call_served x a m clnt name server meth args sid rs rep rs' o' :
  LabRpc.loop_done (Config.net (t_cfg x)) = false -> LabRpc.reliable (Config.net (t_cfg x)) = true ->
  Config.clnts (t_cfg x) = Some m -> m !! a = Some clnt ->
  Clnts.ends clnt !! server = None -> Clnts.allowedL clnt server = true -> name ∉ LabRpc.ends (Config.net (t_cfg x)) ->
  LabRpc.serverOf (Config.net (t_cfg x)) server = Some sid -> Groups.wheap (Config.groups (t_cfg x)) !! sid = Some rs ->
  LabRpc.Server_dispatch rs (request name meth args) (t_objs x) = Return (rep, rs', o') ->
  exists y clnt', rtc tstep x y /\ Config.clnts (t_cfg y) = Some (<[a := clnt']> m) /\
    Clnts.ends clnt' !! server = Some name /\ t_objs y = o' /\ LabRpc.ok rep = true /\
    t_reqs y !! length (t_reqs x)
    = Some {| LabRpc.rq_msg := request name meth args; LabRpc.rq_stage := LabRpc.Answered rep;
              LabRpc.rq_handler := LabRpc.Returned rep |}.
Proof.
  intros Hl Hrel Hm Ha He Hal Hn Hs Hh Hd.
  destruct (first_call name server meth args clnt _ sid He Hal Hn Hs) as (clnt' & n' & Hc & Hend & El & Er & Een & Eco & Esv).
  set (x1 := set_cfg x (moved a m clnt' n' (t_cfg x))).
  destruct (LabRpc.call_path (view x1) name server sid rs (request name meth args) rep rs' o') as (w & _ & Hw & Ho & Hq).
  - cbn. by rewrite El.
  - split; [cbn; by rewrite Er|]. by split.
  - done.
  - exact Hh.
  - exact Hd.
  - exists (put (put x1 (LabRpc.accept (request name meth args) (view x1))) w), clnt'. split.
    + eapply rtc_l; [apply (t_call anyTop x a m clnt name server meth args (request name meth args) clnt' n' Hm Ha Hc); by rewrite El|].
      apply (own_lifted _ _ Hw). apply view_put.
    + split; [done|]. split; [done|]. split; [done|]. split; [by eapply LabRpc.dispatch_ok|done].
Qed.

(** C28: A clerk's call, from end to end.  Make a test of a group of servers on a reliable
    network, with fresh random names, and a client; let the client call a
    method of any server of the group.  Then the test can run until the call is
    answered with success: the client's end leads to the labrpc server that was
    started for that server, its service's handler has run on the receiver, and
    the answer is its reply. *)
Theorem clerk_call_served names b st an now o a name i meth args rep rs' o' :
  Groups.startOk names b (Groups.newGroups LabRpc.MakeNetwork ∅ st) -> i < length names ->
  LabRpc.Server_dispatch (Groups.labsrv (b i)) (request name meth args) o = Return (rep, rs', o') ->
  exists cfg, Config.MakeConfig names true b ∅ st an now = Return cfg /\
  (name ∉ LabRpc.ends (Config.net cfg) ->
   exists x m clnt, rtc tstep (launch cfg o) x /\ Config.clnts (t_cfg x) = Some m /\ m !! a = Some clnt /\
    Clnts.ends clnt !! Group.ServerName Config.GRP0 (Z.of_nat i) = Some name /\
    t_objs x = o' /\ LabRpc.ok rep = true /\
    t_reqs x !! 0 = Some {| LabRpc.rq_msg := request name meth args; LabRpc.rq_stage := LabRpc.Answered rep;
                            LabRpc.rq_handler := LabRpc.Returned rep |}).
Proof.
  intros Hok Hi Hd. destruct (Config.MakeConfig_ok names true b ∅ st an now Hok) as (cfg & w & Hm & Hmade & Eg & _ & Ec & _).
  exists cfg. split; [exact Hm|]. intros Hn. pose proof (Groups.gm_reg _ _ _ _ _ Hmade i Hi) as Hreg.
  pose proof (Groups.gm_new _ _ _ _ _ Hmade i Hi) as Hnew.
  assert (freshSids b (seq 0 (length names)) ∅) as Hf by (split; [apply Hok|by intros ? _; apply lookup_empty]).
  destruct (MakeConfig_advances _ _ _ _ _ _ _ Hf Hm) as [Hl%advances_loop _]. cbn in Hl.
  set (cfg1 := Config.set_clnts cfg (Some (<[a := Clnts.makeClntTo None]> ∅))).
  assert (tstep (launch cfg o) (launch cfg1 o)) as S1.
  { apply (t_tester anyTop (launch cfg o) (TMakeClientTo a None) cfg1); [done|done|]. cbn [runTop].
    unfold Config.MakeClientTo, Clnts.MakeClientTo. cbn [t_cfg launch]. by rewrite Ec. }
  destruct (call_served (launch cfg1 o) a (<[a := Clnts.makeClntTo None]> ∅) (Clnts.makeClntTo None) name
    (Group.ServerName Config.GRP0 (Z.of_nat i)) meth args (Groups.b_sid (b i)) (Groups.labsrv (b i)) rep rs' o')
    as (x & clnt & Hs & Hcl & Hend & Ho & Hrep & Hq); try done.
  - change (LabRpc.reliable (Config.net cfg) = true). unfold Config.net. by rewrite Eg.
  - apply lookup_insert_eq.
  - change (LabRpc.serverOf (Config.net cfg) (Group.ServerName Config.GRP0 (Z.of_nat i)) = Some (Groups.b_sid (b i))).
    unfold Config.net. rewrite Eg. unfold LabRpc.serverOf. cbn. by rewrite Hreg.
  - change (Groups.wheap (Config.groups cfg) !! Groups.b_sid (b i) = Some (Groups.labsrv (b i))). rewrite Eg. exact Hnew.
  - exists x, (<[a := clnt]> (<[a := Clnts.makeClntTo None]> ∅)), clnt. split; [by eapply rtc_l|]. split; [done|].
    split; [apply lookup_insert_eq|]. done.
Qed.

End Reconf.

(** ** A concrete test *)

Definition exConfig : outcome (Config.Config Z) :=
  Config.MakeConfig (Groups.exNames "a") true (Groups.exBoot "b" 1) ∅ Persister.empty_store Annotation.mkAnnotation 0.
Definition exObjs : LabRpc.objects Z := {[ 7 := 0%Z ]}.

Lemma exFresh : freshSids (Groups.exBoot "b" 1) (seq 0 (length (Groups.exNames "a"))) ∅.
Proof. split; [apply (bool_decide_eq_true_1 _); vm_compute; reflexivity|]. intros i _. apply lookup_empty. Qed.

(** The first server calls the second, which has been handed the request when it
    is shut down; then the network's timer fires. *)
Definition exMsg : LabRpc.reqMsg := request "b01" "Counter.Add" "hi".
Definition exRoute : LabRpc.route :=
  {| LabRpc.rt_servername := "server-0-1"; LabRpc.rt_server := 2; LabRpc.rt_reliable := true;
     LabRpc.rt_longreordering := false |}.
Definition exWait : LabRpc.request :=
  {| LabRpc.rq_msg := exMsg; LabRpc.rq_stage := LabRpc.Waiting exRoute; LabRpc.rq_handler := LabRpc.Running 2 |}.
Definition exSent (cfg : Config.Config Z) : tsys :=
  put (launch cfg exObjs) (LabRpc.accept exMsg (view (launch cfg exObjs))).
Definition exWaiting (cfg : Config.Config Z) : tsys := put (exSent cfg) (LabRpc.set_reqs (view (exSent cfg)) 0 exWait).
Definition exGivenUp (cfg : Config.Config Z) (x : tsys) : tsys :=
  put (set_cfg x cfg) (LabRpc.set_reqs (view (set_cfg x cfg)) 0
    {| LabRpc.rq_msg := exMsg; LabRpc.rq_stage := LabRpc.processTimeout (Config.net cfg) exMsg exRoute;
       LabRpc.rq_handler := LabRpc.Running 2 |}).

Lemma exWaiting_steps cfg :
  LabRpc.loop_done (Config.net cfg) = false ->
  LabRpc.readEndnameInfo (Config.net (t_cfg (exSent cfg))) "b01" = (true, Some "server-0-1", Some 2, true, false) ->
  rtc tstep (launch cfg exObjs) (exWaiting cfg).
Proof.
  intros Hl Hi. eapply rtc_l; [apply t_net|].
  { split; [by apply (LabRpc.step_call exMsg)|by split_and!]. }
  apply rtc_once. apply t_net. split; [|by split_and!].
  apply (LabRpc.step_start 1 (view (exSent cfg)) 0 exMsg); [done|].
  unfold LabRpc.processStart. change (LabRpc.net (view (exSent cfg))) with (Config.net (t_cfg (exSent cfg))).
  change (LabRpc.endname exMsg) with "b01". by rewrite Hi.
Qed.

Lemma shut_down_server_silent_witness :
  exists cfg cfg1 r, exConfig = Return cfg /\
    runTop (TGroup (Groups.OShutdown 0 1)) (t_cfg (exWaiting cfg)) = Return cfg1 /\
    LabRpc.serverOf (Config.net cfg1) "server-0-1" = None /\
    t_reqs (exGivenUp cfg1 (exWaiting cfg)) !! 0 = Some r /\ refused r.
Proof.
  assert (check exConfig (fun cfg => negb (LabRpc.loop_done (Config.net cfg)) &&
    bool_decide (LabRpc.readEndnameInfo (Config.net (t_cfg (exSent cfg))) "b01" = (true, Some "server-0-1", Some 2%nat, true, false)) &&
    check (runTop (TGroup (Groups.OShutdown 0 1)) (t_cfg (exWaiting cfg))) (fun _ => true))%bool = true) as Hc
    by (vm_compute; reflexivity).
  apply check_inv in Hc as (cfg & E & [[Hl%negb_true_iff Hi%(bool_decide_eq_true_1 _)]%andb_true_iff Hc]%andb_true_iff).
  apply check_inv in Hc as (cfg1 & E1 & _). exists cfg, cfg1.
  destruct (shut_down_server_silent (Groups.exNames "a") true (Groups.exBoot "b" 1) Persister.empty_store
    Annotation.mkAnnotation 0 cfg exObjs (exWaiting cfg) (TGroup (Groups.OShutdown 0 1)) cfg1 0 1
    (exGivenUp cfg1 (exWaiting cfg)) exFresh E) as (Hoff & Hw & _).
  - by apply exWaiting_steps.
  - split; reflexivity.
  - exact E1.
  - apply rtc_once, t_net. split; [|by split_and!].
    by apply (LabRpc.step_timeout (view (set_cfg (exWaiting cfg) cfg1)) 0 exMsg exRoute (LabRpc.Running 2)).
  - destruct (Hw 0 exWait eq_refl eq_refl) as (r & Hr & Hq). exists r. split; [exact E|]. split; [exact E1|].
    split; [exact Hoff|]. split; [exact Hr|]. destruct Hq as [Hq|Hq]; [|exact Hq]. exfalso. injection Hr as <-.
    unfold waits, LabRpc.processTimeout in Hq. cbn in Hq.
    rewrite LabRpc.isServerDead_gone in Hq; [exact Hq|]. intros H2. change (LabRpc.serverOf (Config.net cfg1) "server-0-1" = None) in Hoff.
    by rewrite Hoff in H2.
Defined.

(** The second server counts a call. *)
Lemma clerk_call_served_witness :
  exists cfg x rep, exConfig = Return cfg /\ rtc tstep (launch cfg exObjs) x /\ t_objs x = {[ 7 := 1%Z ]} /\
    t_reqs x !! 0 = Some {| LabRpc.rq_msg := request "x" "Counter.Add" "hi"; LabRpc.rq_stage := LabRpc.Answered rep;
                            LabRpc.rq_handler := LabRpc.Returned rep |}.
Proof.
  destruct (clerk_call_served (Groups.exNames "a") (Groups.exBoot "b" 1) Persister.empty_store Annotation.mkAnnotation 0
    exObjs 5 "x" 1 "Counter.Add" "hi" {| LabRpc.ok := true; LabRpc.reply := "hi" |} LabRpc.exServer' {[ 7 := 1%Z ]})
    as (cfg & Hm & Hx).
  - apply Groups.startOk_dec. vm_compute. reflexivity.
  - vm_compute. lia.
  - vm_compute. reflexivity.
  - destruct Hx as (x & m & clnt & Hs & _ & _ & _ & Ho & _ & Hq).
    + assert (check exConfig (fun cfg => bool_decide ("x" ∉ LabRpc.ends (Config.net cfg))) = true) as Hc
        by (vm_compute; reflexivity).
      apply (check_Return _ _ cfg Hm), (bool_decide_eq_true_1 _) in Hc. exact Hc.
    + exists cfg, x, {| LabRpc.ok := true; LabRpc.reply := "hi" |}. split; [exact Hm|]. split; [exact Hs|]. split; [exact Ho|exact Hq].
Defined.

End TestSystem.
