(* ===== verification/KvSetup.v ===== *)
(** * Setting up the key/value tests

    Models [src/src/kvsrv1/test.go] and [src/src/kvraft1/test.go]: a test's
    configuration and servers, and the clerks it makes and deletes for the
    bodies of the tests ([IClerkMaker] of [src/src/kvtest1/kvtest.go], here a
    class).  The configuration is that of [Config], the clerks' connections
    those of [Clnts], the clerks those of [KvServers].  Random names and the
    addresses of new clients are arguments. *)

From S2P Require Import Prelude LabRpc Persister Group Groups Clnts Annotation Config KvServers KvTest KvCheck.

Module KvSetup.
Import LabRpc(Network).

Set Default Proof Using "Type".

(** ** The calls of one client *)

(** Calls in turn, each with the name [Randstring] returns if an end is made:
    name, server, method and arguments. *)
Fixpoint callAll (l : list (string * string * string * string)) (c : Clnts.Clnt) (n : Network)
    : outcome (list LabRpc.reqMsg * Clnts.Clnt * Network) :=
  match l with
  | [] => Return ([], c, n)
  | (name, server, meth, args) :: l =>
      '(m, c, n) ← Clnts.Call name server meth args c n;
      '(ms, c, n) ← callAll l c n;
      mret (m :: ms, c, n)
  end.

(** The client [c] has made its ends on top of the network [n0]. *)
Record lives (c : Clnts.Clnt) (n0 n : Network) : Prop := {
  lv_inj s s' e : Clnts.ends c !! s = Some e -> Clnts.ends c !! s' = Some e -> s = s';
  lv_new s e : Clnts.ends c !! s = Some e -> e ∉ LabRpc.ends n0;
  lv_ends e : e ∈ LabRpc.ends n <-> e ∈ LabRpc.ends n0 \/ exists s, Clnts.ends c !! s = Some e;
  lv_route s e : Clnts.ends c !! s = Some e ->
    LabRpc.connections n !! e = Some (Some s) /\ LabRpc.endEnabled n e = Clnts.allowedL c s;
  lv_same e : e ∈ LabRpc.ends n0 -> LabRpc.endEnabled n e = LabRpc.endEnabled n0 e /\
    LabRpc.connections n !! e = LabRpc.connections n0 !! e;
  lv_servers : LabRpc.servers n = LabRpc.servers n0;
  lv_flags : LabRpc.reliable n = LabRpc.reliable n0 /\
    LabRpc.longReordering n = LabRpc.longReordering n0
}.

Lemma lives_new to n : lives (Clnts.makeClntTo to) n n.
Proof.
  constructor; simpl; try done.
  intros e. split; [by left|]. intros [?|[s Hs]]; [done|]. by rewrite lookup_empty in Hs.
Qed.

Lemma lives_wf c n0 n : lives c n0 n -> Clnts.wf c n.
Proof. intros L. constructor; [apply L|]. intros s e Hs. apply (lv_ends _ _ _ L). right. by exists s. Qed.

Lemma makeEnd_lives name s c n0 n :
  lives c n0 n -> name ∉ LabRpc.ends n ->
  exists e c' n', Clnts.makeEnd name s c n = Return (e, c', n') /\ lives c' n0 n' /\
    Clnts.ends c' !! s = Some e /\ Clnts.srvs c' = Clnts.srvs c /\
    Clnts.ends c ⊆ Clnts.ends c' /\ (forall e', e' ∈ LabRpc.ends n' -> e' ∈ LabRpc.ends n \/ e' = name).
Proof.
  intros L Hn. unfold Clnts.makeEnd. destruct (Clnts.ends c !! s) as [e|] eqn:Hs.
  { exists e, c, n. split_and!; try done. by left. }
  unfold LabRpc.MakeEnd. rewrite decide_False by done. csimpl.
  eexists _, _, _. split; [done|]. destruct L as [L1 L2 L3 L4 L5 L6 L7].
  assert (forall s e, Clnts.ends c !! s = Some e -> e <> name) as Hne.
  { intros s' e Hs' ->. apply Hn, L3. right. by exists s'. }
  assert (name ∉ LabRpc.ends n0) as Hn0 by (intros Hin; apply Hn, L3; by left).
  split_and!; [constructor|..]; cbn [Clnts.ends Clnts.srvs]; try done.
  - intros s1 s2 e [[<- <-]|[? H1]]%lookup_insert_Some [[<- ?]|[? H2]]%lookup_insert_Some; subst; try done.
    + by destruct (Hne _ _ H2).
    + by destruct (Hne _ _ H1).
    + by eapply L1.
  - intros s1 e [[<- <-]|[? H1]]%lookup_insert_Some; [done|]. by eapply L2.
  - intros e. cbn. rewrite elem_of_union, elem_of_singleton, L3. split.
    + intros [->|[?|[s1 H1]]]; [right; exists s; apply lookup_insert_eq|by left|right; exists s1].
      rewrite lookup_insert_ne; [done|congruence].
    + intros [?|[s1 [[_ <-]|[_ H1]]%lookup_insert_Some]]; [auto|by left|eauto].
  - intros s1 e. unfold LabRpc.endEnabled. cbn. intros [[<- <-]|[? H1]]%lookup_insert_Some.
    + rewrite !lookup_insert_eq. split; [done|]. unfold Clnts.allowedL. simpl.
      by destruct (Clnts.srvs c) as [l|]; [destruct (existsb _ l)|].
    + apply Hne in H1 as Hx. rewrite !lookup_insert_ne by done. by apply L4.
  - intros e He. unfold LabRpc.endEnabled. cbn. rewrite !lookup_insert_ne by (by intros ->). by apply L5.
  - apply lookup_insert_eq.
  - by apply insert_subseteq.
  - cbn. intros e'. rewrite elem_of_union, elem_of_singleton. tauto.
Qed.

(** The route of the [i]-th message. *)
Lemma callAll_lives l : forall c n0 n,
  lives c n0 n -> NoDup (l.*1.*1.*1) -> (forall x, x ∈ l.*1.*1.*1 -> x ∉ LabRpc.ends n) ->
  exists ms c' n', callAll l c n = Return (ms, c', n') /\ lives c' n0 n' /\
    Clnts.srvs c' = Clnts.srvs c /\ Clnts.ends c ⊆ Clnts.ends c' /\
    Forall2 (fun q m => Clnts.ends c' !! q.1.1.2 = Some (LabRpc.endname m) /\
      LabRpc.svcMeth m = q.1.2 /\ LabRpc.req_args m = q.2) l ms.
Proof.
  induction l as [|[[[name s] meth] args] l IH]; intros c n0 n L Hnd Hf; simpl.
  { exists [], c, n. split; [done|]. by split_and!. }
  apply NoDup_cons in Hnd as [Hni Hnd]. unfold Clnts.Call.
  destruct (makeEnd_lives name s c n0 n L) as (e & c1 & n1 & -> & L1 & He & Es & Hsub & Hin); [apply Hf; left|].
  cbn [mbind outcome_bind mret outcome_ret].
  destruct (IH c1 n0 n1 L1 Hnd) as (ms & c2 & n2 & -> & L2 & Es2 & Hsub2 & HF).
  { intros x Hx Hx1. apply Hin in Hx1 as [Hx1| ->]; [|done]. by apply (Hf x); [right|]. }
  cbn [mbind outcome_bind mret outcome_ret]. eexists _, c2, n2. split; [done|].
  split_and!; [done|congruence|by etrans|]. constructor; [|done]. simpl. split_and!; [|done|done].
  by eapply lookup_weaken.
Qed.

(** Removing the client's ends gives the old network back. *)
Lemma removeEnds_back l : forall n n' : Network, Clnts.removeEnds l n = Return n' ->
  (forall e, e ∉ l.*2 -> LabRpc.endEnabled n' e = LabRpc.endEnabled n e /\
     LabRpc.connections n' !! e = LabRpc.connections n !! e) /\
  LabRpc.servers n' = LabRpc.servers n.
Proof.
  induction l as [|[s e] l IH]; intros n n'; simpl; [by intros [= <-]|].
  intros (n1 & H1 & Hr)%bind_Return. destruct (IH _ _ Hr) as [Ha Hb]. unfold LabRpc.DeleteEnd in H1.
  case_decide; [done|]. injection H1 as <-. split; [|done]. intros e' [Hne Hni]%not_elem_of_cons.
  destruct (Ha e' Hni) as [-> ->]. unfold LabRpc.endEnabled. cbn. by rewrite !lookup_delete_ne.
Qed.

Lemma DeleteClient_lives a m c n0 n :
  m !! a = Some c -> lives c n0 n ->
  exists n', Clnts.DeleteClient a (Some m) n = Return (Some (delete a m), n') /\
    LabRpc.ends n' = LabRpc.ends n0 /\ LabRpc.servers n' = LabRpc.servers n0 /\
    forall e, e ∈ LabRpc.ends n0 -> LabRpc.endEnabled n' e = LabRpc.endEnabled n0 e /\
      LabRpc.connections n' !! e = LabRpc.connections n0 !! e.
Proof.
  intros Ha L. unfold Clnts.DeleteClient, Clnts.remove. rewrite Ha.
  assert (forall e, e ∈ (map_to_list (Clnts.ends c)).*2 <-> exists s, Clnts.ends c !! s = Some e) as Hin
    by (intros e; apply (Config.endNames_spec c e)).
  destruct (Clnts.removeEnds_spec (map_to_list (Clnts.ends c)) n) as (n' & Hr & He).
  { eapply Clnts.wf_names, lives_wf, L. }
  { intros e [s Hs]%Hin. apply (lv_ends _ _ _ L). right. by exists s. }
  rewrite Hr. exists n'. split; [done|]. destruct (removeEnds_back _ _ _ Hr) as [Hs Hsv]. split_and!.
  - rewrite He. apply set_eq. intros e. rewrite elem_of_difference, elem_of_list_to_set, Hin.
    rewrite (lv_ends _ _ _ L). split; [tauto|]. intros H. split; [by left|]. intros [s Hs'].
    by eapply (lv_new _ _ _ L).
  - rewrite Hsv. apply L.
  - intros e H0. destruct (Hs e) as [-> ->]; [|by apply L].
    rewrite Hin. intros [s Hs']. by eapply (lv_new _ _ _ L).
Qed.

(** ** The calls of several clients *)

(** Another client makes its end, in the network and in the one below [c]. *)
Lemma makeEnd_other name s c2 c n0 n :
  lives c n0 n -> name ∉ LabRpc.ends n ->
  exists e c2' n' n0', Clnts.makeEnd name s c2 n = Return (e, c2', n') /\
    Clnts.makeEnd name s c2 n0 = Return (e, c2', n0') /\ lives c n0' n'.
Proof.
  intros L Hn. unfold Clnts.makeEnd. destruct (Clnts.ends c2 !! s) as [e|]; [by exists e, c2, n, n0|].
  destruct L as [L1 L2 L3 L4 L5 L6 L7]. unfold LabRpc.MakeEnd.
  assert (name ∉ LabRpc.ends n0) as Hn0 by (intros H; apply Hn, L3; by left).
  rewrite !decide_False by done. csimpl. eexists _, _, _, _. split; [done|]. split; [done|].
  assert (forall s e, Clnts.ends c !! s = Some e -> name <> e) as Hne.
  { intros s' e Hs' ->. apply Hn, L3. right. by exists s'. }
  constructor; cbn; try done.
  - intros s' e Hs' [<-%elem_of_singleton|Hin]%elem_of_union; [by eapply Hne|by eapply L2].
  - intros e. rewrite !elem_of_union, L3. tauto.
  - intros s' e Hs'. unfold LabRpc.endEnabled. cbn. pose proof (Hne s' e Hs').
    rewrite !lookup_insert_ne by done. by apply L4.
  - intros e. unfold LabRpc.endEnabled. cbn. rewrite elem_of_union, elem_of_singleton.
    destruct (decide (e = name)) as [->|Hne']; [by rewrite !lookup_insert_eq|].
    rewrite !lookup_insert_ne by done. intros [?|?]; [done|by apply L5].
Qed.

(** A call over the client at address [x]; calls in turn. *)
Definition clientCall (x : nat) (q : string * string * string * string) (m : gmap nat Clnts.Clnt) (n : Network)
    : outcome (LabRpc.reqMsg * gmap nat Clnts.Clnt * Network) :=
  match m !! x with
  | None => Panic "nil pointer dereference"
  | Some c => '(msg, c, n) ← Clnts.Call q.1.1.1 q.1.1.2 q.1.2 q.2 c n; mret (msg, <[x := c]> m, n)
  end.
Fixpoint clientCalls (l : list (nat * (string * string * string * string))) (m : gmap nat Clnts.Clnt) (n : Network)
    : outcome (list LabRpc.reqMsg * gmap nat Clnts.Clnt * Network) :=
  match l with
  | [] => Return ([], m, n)
  | (x, q) :: l =>
      '(msg, m, n) ← clientCall x q m n;
      '(ms, m, n) ← clientCalls l m n;
      mret (msg :: ms, m, n)
  end.

(** A client's first call makes an end. *)
Lemma first_client_call x q m n :
  m !! x = Some (Clnts.makeClntTo None) -> q.1.1.1 ∉ LabRpc.ends n ->
  exists msg m' n', clientCall x q m n = Return (msg, m', n') /\ LabRpc.ends n' = {[q.1.1.1]} ∪ LabRpc.ends n.
Proof.
  intros Hx Hq. unfold clientCall, Clnts.Call, Clnts.makeEnd. rewrite Hx. cbn [Clnts.ends Clnts.makeClntTo].
  rewrite lookup_empty. unfold LabRpc.MakeEnd. rewrite decide_False by done. by eexists _, _, _.
Qed.

(** The clients [xs] have made their ends; [m2] and [n2] are the clients and the
    network had the client [x0] made no call; [n0] is the network before. *)
Record living (xs : list nat) (x0 : nat) (n0 : Network) (m : gmap nat Clnts.Clnt) (n : Network)
    (m2 : gmap nat Clnts.Clnt) (n2 : Network) : Prop := {
  li_client x : x ∈ xs -> exists c b, m !! x = Some c /\ Clnts.srvs c = None /\ lives c b n;
  li_main : exists c, m !! x0 = Some c /\ lives c n2 n;
  li_same x : x <> x0 -> m2 !! x = m !! x;
  li_net : LabRpc.servers n = LabRpc.servers n0 /\ LabRpc.reliable n = LabRpc.reliable n0 /\
    LabRpc.longReordering n = LabRpc.longReordering n0
}.

Lemma lives_net c n0 n n' c' : lives c n0 n -> lives c' n0 n' ->
  LabRpc.servers n' = LabRpc.servers n /\ LabRpc.reliable n' = LabRpc.reliable n /\
    LabRpc.longReordering n' = LabRpc.longReordering n.
Proof. intros [_ _ _ _ _ S [F G]] [_ _ _ _ _ S' [F' G']]. by rewrite S, S', F, F', G, G'. Qed.

(** The client [x] makes an end, or uses one. *)
Lemma living_clients (xs : list nat) x c b (q : string * string * string * string) (m : gmap nat Clnts.Clnt) n e c' n' :
  m !! x = Some c -> lives c b n -> lives c' b n' -> Clnts.srvs c' = None ->
  Clnts.makeEnd q.1.1.1 q.1.1.2 c n = Return (e, c', n') -> q.1.1.1 ∉ LabRpc.ends n ->
  (forall y, y ∈ xs -> exists c b, m !! y = Some c /\ Clnts.srvs c = None /\ lives c b n) ->
  forall y, y ∈ xs -> exists cy by_, (<[x := c']> m) !! y = Some cy /\ Clnts.srvs cy = None /\ lives cy by_ n'.
Proof.
  intros Hx L L' Es He Hq Hall y Hy. destruct (decide (y = x)) as [->|Hne].
  - exists c', b. by rewrite lookup_insert_eq.
  - destruct (Hall y Hy) as (cy & by_ & Hcy & Ey & Ly).
    destruct (makeEnd_other q.1.1.1 q.1.1.2 c cy by_ n Ly Hq) as (e1 & c1 & n1 & b1 & E1 & _ & L1).
    rewrite He in E1. injection E1 as <- <- <-. exists cy, b1. by rewrite lookup_insert_ne.
Qed.

Lemma living_call xs x0 n0 m n m2 n2 x q :
  living xs x0 n0 m n m2 n2 -> x ∈ xs -> q.1.1.1 ∉ LabRpc.ends n ->
  exists msg m' n' c, clientCall x q m n = Return (msg, m', n') /\ m' !! x = Some c /\
    Clnts.ends c !! q.1.1.2 = Some (LabRpc.endname msg) /\
    (forall y cy, m !! y = Some cy -> exists cy', m' !! y = Some cy' /\ Clnts.ends cy ⊆ Clnts.ends cy') /\
    (forall e, e ∈ LabRpc.ends n' -> e ∈ LabRpc.ends n \/ e = q.1.1.1) /\
    (forall y, y ∉ xs -> m' !! y = m !! y) /\
    exists m2' n2', (if decide (x <> x0) then clientCall x q m2 n2 = Return (msg, m2', n2') else m2' = m2 /\ n2' = n2) /\
      living xs x0 n0 m' n' m2' n2'.
Proof.
  intros [H1 (c0 & Hc0 & L0) H3 H4] Hx Hq. destruct (H1 x Hx) as (c & b & Hc & Es & L).
  destruct (makeEnd_lives q.1.1.1 q.1.1.2 c b n L Hq) as (e & c' & n' & He & L' & Hs & Es' & Hsub & Hin).
  set (msg := {| LabRpc.endname := e; LabRpc.svcMeth := q.1.2; LabRpc.req_args := q.2 |}).
  exists msg, (<[x := c']> m), n', c'.
  split. { unfold clientCall, Clnts.Call. by rewrite Hc, He. }
  split; [apply lookup_insert_eq|]. split; [done|]. split.
  { intros y cy Hy. destruct (decide (y = x)) as [->|Hne]; [exists c'; rewrite lookup_insert_eq; by simplify_eq|].
    exists cy. by rewrite lookup_insert_ne. }
  split; [exact Hin|]. split; [intros y Hy; rewrite lookup_insert_ne; [done|]; by intros ->|].
  assert (forall y, y ∈ xs -> exists cy by_, (<[x := c']> m) !! y = Some cy /\ Clnts.srvs cy = None /\ lives cy by_ n')
    as H1' by (eapply living_clients; [exact Hc|exact L|exact L'|congruence|exact He|exact Hq|exact H1]).
  destruct (lives_net _ _ _ _ _ L L') as (N1 & N2 & N3).
  destruct (decide (x <> x0)) as [Hne|Heq%dec_stable].
  - destruct (makeEnd_other q.1.1.1 q.1.1.2 c c0 n2 n L0 Hq) as (e1 & c1 & n1 & b1 & E1 & E2 & L1).
    rewrite He in E1. injection E1 as <- <- <-. exists (<[x := c']> m2), b1. split.
    + unfold clientCall, Clnts.Call. by rewrite (H3 x Hne), Hc, E2.
    + constructor; [exact H1'| | |by rewrite N1, N2, N3].
      * exists c0. by rewrite lookup_insert_ne.
      * intros y Hy. destruct (decide (y = x)) as [->|]; [by rewrite !lookup_insert_eq|].
        rewrite !lookup_insert_ne by done. by apply H3.
  - subst x0. exists m2, n2. split; [done|]. constructor; [exact H1'| | |by rewrite N1, N2, N3].
    + assert (c0 = c) as -> by congruence.
      destruct (makeEnd_lives q.1.1.1 q.1.1.2 c n2 n L0 Hq) as (e1 & c1 & n1 & E1 & L1 & _).
      rewrite He in E1. injection E1 as <- <- <-. exists c'. by rewrite lookup_insert_eq.
    + intros y Hy. rewrite lookup_insert_ne by done. by apply H3.
Qed.

(** The calls over other clients than [x0]. *)
Definition others (x0 : nat) (l : list (nat * (string * string * string * string))) :=
  filter (fun q => q.1 <> x0) l.

Lemma living_calls xs x0 n0 l : forall m n m2 n2,
  living xs x0 n0 m n m2 n2 -> Forall (fun q => q.1 ∈ xs) l -> NoDup (l.*2.*1.*1.*1) ->
  (forall e, e ∈ l.*2.*1.*1.*1 -> e ∉ LabRpc.ends n) ->
  exists ms m' n' ms2 m2' n2', clientCalls l m n = Return (ms, m', n') /\
    clientCalls (others x0 l) m2 n2 = Return (ms2, m2', n2') /\ living xs x0 n0 m' n' m2' n2' /\
    (forall y cy, m !! y = Some cy -> exists cy', m' !! y = Some cy' /\ Clnts.ends cy ⊆ Clnts.ends cy') /\
    (forall y, y ∉ xs -> m' !! y = m !! y) /\
    Forall2 (fun q msg => exists c, m' !! q.1 = Some c /\ Clnts.ends c !! q.2.1.1.2 = Some (LabRpc.endname msg)) l ms.
Proof.
  induction l as [|[x q] l IH]; intros m n m2 n2 HL Hxs Hnd Hf; cbn [clientCalls].
  { exists [], m, n, [], m2, n2. split_and!; try done; eauto. }
  apply Forall_cons in Hxs as [Hx Hxs]. apply NoDup_cons in Hnd as [Hni Hnd].
  destruct (living_call xs x0 n0 m n m2 n2 x q HL Hx) as (msg & m1 & n1 & c & E & Hc & He & Hmon & Hin & Hout & m21 & n21 & E2 & HL1);
    [apply Hf; left|].
  destruct (IH m1 n1 m21 n21 HL1 Hxs Hnd) as (ms & m' & n' & ms2 & m2' & n2' & E3 & E4 & HL' & Hmon' & Hout' & HF).
  { intros e' Hin' [Hn| ->]%Hin; [|by apply Hni]. by apply (Hf e'); [right|]. }
  rewrite E. cbn [mbind outcome_bind]. rewrite E3. cbn [mbind outcome_bind mret outcome_ret].
  assert (exists ms3, clientCalls (others x0 ((x, q) :: l)) m2 n2 = Return (ms3, m2', n2')) as [ms3 E5].
  { unfold others. rewrite filter_cons. cbn [fst]. destruct (decide (x <> x0)).
    - cbn [clientCalls]. rewrite E2. cbn [mbind outcome_bind]. unfold others in E4. rewrite E4. by eexists.
    - destruct E2 as [-> ->]. by eexists. }
  exists (msg :: ms), m', n', ms3, m2', n2'. split; [done|]. split; [done|]. split; [done|]. split.
  { intros y cy Hy. destruct (Hmon y cy Hy) as (c1 & H1 & S1). destruct (Hmon' y c1 H1) as (c2 & H2 & S2).
    exists c2. split; [done|]. by etrans. }
  split; [intros y Hy; by rewrite Hout', Hout|].
  constructor; [|done]. simpl. destruct (Hmon' x c Hc) as (c2 & H2 & S2). exists c2. split; [done|].
  by eapply lookup_weaken.
Qed.

(** ** Clerks *)

Section Setup.
Context {state : Type}.
Let Config : Type := Config.Config state.

(** A clerk and the address of its client. *)
Record TestClerk {clerk : Type} := { IKVClerk : clerk; Clnt : nat }.
Arguments TestClerk : clear implicits.

(** What a test provides to the bodies of the tests; it embeds its
    configuration.  [a k] is the address of the [k]-th client that is made, and
    [clients] the clients that the calls of a clerk go over. *)
Class IClerkMaker (test clerk : Type) := {
  cfgOf : test -> Config;
  set_cfg : test -> Config -> test;
  clients : TestClerk clerk -> list nat;
  MakeClerk : (nat -> nat) -> test -> outcome (TestClerk clerk * test);
  DeleteClerk : TestClerk clerk -> test -> outcome test
}.

(** [cfg'] is [cfg] with new clients at addresses of [a]. *)
Definition newClients (a : nat -> nat) (cfg cfg' : Config) (m m' : gmap nat Clnts.Clnt) : Prop :=
  Config.clnts cfg' = Some m' /\ Config.groups cfg' = Config.groups cfg /\ m ⊆ m' /\
  forall x c, m' !! x = Some c -> m !! x = Some c \/ (exists k, x = a k) /\ c = Clnts.makeClntTo None.

(** The promise: a test that is ready makes a clerk whose clients are new and may
    reach every server, and deletes the clerk's own client. *)
Class ClerkMakerLaws {test clerk : Type} (mk : IClerkMaker test clerk) (ready : test -> Prop) := {
  cm_lens ts c : cfgOf (set_cfg ts c) = c;
  cm_make a ts m : ready ts -> Config.clnts (cfgOf ts) = Some m -> (forall k, m !! a k = None) ->
    (forall k k', a k = a k' -> k = k') ->
    exists tck ts' m', MakeClerk a ts = Return (tck, ts') /\ newClients a (cfgOf ts) (cfgOf ts') m m' /\
      Clnt tck ∈ clients tck /\
      Forall (fun x => m' !! x = Some (Clnts.makeClntTo None) /\ exists k, x = a k) (clients tck);
  cm_delete tck ts : DeleteClerk tck ts
    = (c ← Config.DeleteClient (Clnt tck) (cfgOf ts); mret (set_cfg ts c))
}.

(** How the network routes a message to [server]. *)
Definition routed (n0 n : Network) (on : bool) (server : string) (m : LabRpc.reqMsg) : Prop :=
  LabRpc.readEndnameInfo n (LabRpc.endname m)
  = (on, Some server, LabRpc.serverOf n0 server, LabRpc.reliable n0, LabRpc.longReordering n0).

Lemma lives_routed c n0 n s m :
  lives c n0 n -> Clnts.ends c !! s = Some (LabRpc.endname m) -> routed n0 n (Clnts.allowedL c s) s m.
Proof.
  intros L Hs. destruct (lv_route _ _ _ L _ _ Hs) as [Hc He]. destruct (lv_flags _ _ _ L) as [F1 F2].
  unfold routed, LabRpc.readEndnameInfo, LabRpc.serverOf. rewrite Hc, He, F1, F2. simpl.
  by rewrite (lv_servers _ _ _ L).
Qed.

(** A new client with the restriction [to] calls servers. *)
Lemma client_calls to n calls :
  NoDup (calls.*1.*1.*1) -> (forall x, x ∈ calls.*1.*1.*1 -> x ∉ LabRpc.ends n) ->
  exists ms c n', callAll calls (Clnts.makeClntTo to) n = Return (ms, c, n') /\ lives c n n' /\
    Forall2 (fun q m => routed n n' (Clnts.allowedL (Clnts.makeClntTo to) q.1.1.2) q.1.1.2 m /\
      LabRpc.svcMeth m = q.1.2 /\ LabRpc.req_args m = q.2) calls ms.
Proof.
  intros Hnd Hf. destruct (callAll_lives calls _ n n (lives_new to n) Hnd Hf)
    as (ms & c & n' & E & L & Es & _ & HF).
  exists ms, c, n'. split; [done|]. split; [done|]. eapply Forall2_impl; [exact HF|].
  intros q m (H1 & H2 & H3). split; [|done]. apply (lives_routed _ _ _ _ _ L) in H1.
  unfold Clnts.allowedL in *. rewrite Es in H1. exact H1.
Qed.

(** The configuration with the clients [m] and the network [n]. *)
Definition cfgWith (m : gmap nat Clnts.Clnt) (n : Network) (cfg : Config) : Config :=
  Config.set_clnts (Config.set_net cfg n) (Some m).

Lemma living_new xs x0 m n :
  x0 ∈ xs -> Forall (fun x => m !! x = Some (Clnts.makeClntTo None)) xs -> living xs x0 n m n m n.
Proof.
  intros Hx Hall. rewrite Forall_forall in Hall. constructor; try done.
  - intros x Hin. exists (Clnts.makeClntTo None), n. split; [by apply Hall|]. split; [done|apply lives_new].
  - exists (Clnts.makeClntTo None). split; [by apply Hall|apply lives_new].
Qed.

(** The messages are routed to the servers that the calls name. *)
Lemma living_routed xs x0 n0 m n m2 n2 x c s msg :
  living xs x0 n0 m n m2 n2 -> x ∈ xs -> m !! x = Some c -> Clnts.ends c !! s = Some (LabRpc.endname msg) ->
  routed n0 n true s msg.
Proof.
  intros [H1 _ _ (N1 & N2 & N3)] Hx Hc He. destruct (H1 x Hx) as (c' & b & Hc' & Es & L).
  assert (c' = c) as -> by congruence. destruct (lv_route _ _ _ L _ _ He) as [Hco Hen].
  unfold routed, LabRpc.readEndnameInfo, LabRpc.serverOf. rewrite Hco, Hen, N2, N3. unfold Clnts.allowedL.
  rewrite Es. simpl. by rewrite N1.
Qed.

(** C39: A clerk's life on the network.  For every test that keeps the promise of
    [IClerkMaker]: any number of calls to any servers can be made over the
    clerk's clients -- its own and, in the sharded tests, its controller's -- in
    any order, and each is routed over an enabled end to the server it names.
    Deleting the clerk removes its own client and gives back the network as if
    only the calls over the other clients had been made: same ends, connected
    and enabled alike.  So a clerk with no other client leaves no trace, and
    what calls over a controller's client have made stays. *)
Theorem clerk_lifecycle {test clerk : Type} (mk : IClerkMaker test clerk) (ready : test -> Prop)
    `{!ClerkMakerLaws mk ready} a ts m :
  ready ts -> Config.clnts (cfgOf ts) = Some m -> (forall k, m !! a k = None) ->
  (forall k k', a k = a k' -> k = k') ->
  exists tck ts1 m1, MakeClerk a ts = Return (tck, ts1) /\ Config.clnts (cfgOf ts1) = Some m1 /\
   Config.net (cfgOf ts1) = Config.net (cfgOf ts) /\
   forall calls, Forall (fun q => q.1 ∈ clients tck) calls -> NoDup (calls.*2.*1.*1.*1) ->
    (forall x, x ∈ calls.*2.*1.*1.*1 -> x ∉ LabRpc.ends (Config.net (cfgOf ts))) ->
    exists ms m2 n2 mso mo no ts' m',
     clientCalls calls m1 (Config.net (cfgOf ts)) = Return (ms, m2, n2) /\
     Forall2 (fun q msg => routed (Config.net (cfgOf ts)) n2 true q.2.1.1.2 msg) calls ms /\
     clientCalls (others (Clnt tck) calls) m1 (Config.net (cfgOf ts)) = Return (mso, mo, no) /\
     DeleteClerk tck (set_cfg ts1 (cfgWith m2 n2 (cfgOf ts1))) = Return ts' /\
     LabRpc.ends (Config.net (cfgOf ts')) = LabRpc.ends no /\
     (forall e, e ∈ LabRpc.ends no -> LabRpc.endEnabled (Config.net (cfgOf ts')) e = LabRpc.endEnabled no e /\
        LabRpc.connections (Config.net (cfgOf ts')) !! e = LabRpc.connections no !! e) /\
     Config.clnts (cfgOf ts') = Some m' /\ m' !! Clnt tck = None /\ m ⊆ m'.
Proof.
  intros Hrd Hm Hfr Hinj.
  destruct (cm_make a ts m Hrd Hm Hfr Hinj) as (tck & ts1 & m1 & Hmk & (Hm1 & Hg & Hsub & _) & Hck & Hcls).
  assert (Config.net (cfgOf ts1) = Config.net (cfgOf ts)) as En by (unfold Config.net; by rewrite Hg).
  exists tck, ts1, m1. split; [exact Hmk|]. split; [exact Hm1|]. split; [exact En|]. intros calls Hxs Hnd Hf.
  set (n := Config.net (cfgOf ts)) in *.
  assert (living (clients tck) (Clnt tck) n m1 n m1 n) as HL0.
  { apply living_new; [done|]. eapply Forall_impl; [exact Hcls|]. by intros x [? _]. }
  destruct (living_calls _ _ _ calls m1 n m1 n HL0 Hxs Hnd Hf)
    as (ms & m2 & n2 & mso & mo & no & Hc & Hco & HL & _ & Hout & HF).
  pose proof (li_main _ _ _ _ _ _ _ HL) as (c & Hcm & L).
  destruct (DeleteClient_lives (Clnt tck) m2 c no n2 Hcm L) as (n' & Hd & He & _ & Hs).
  assert (DeleteClerk tck (set_cfg ts1 (cfgWith m2 n2 (cfgOf ts1))) = Return
    (set_cfg (set_cfg ts1 (cfgWith m2 n2 (cfgOf ts1)))
      (Config.set_clnts (Config.set_net (cfgWith m2 n2 (cfgOf ts1)) n') (Some (delete (Clnt tck) m2))))) as Hdel.
  { rewrite cm_delete, !cm_lens. unfold Config.DeleteClient, cfgWith. simpl. simpl in Hd. change (Config.net (Config.set_clnts (Config.set_net (cfgOf ts1) n2) (Some m2))) with n2. by rewrite Hd. }
  exists ms, m2, n2, mso, mo, no. eexists _, _. split; [exact Hc|]. split.
  { rewrite Forall_forall in Hxs. apply Forall2_same_length_lookup in HF as [Hlen HF].
    apply Forall2_same_length_lookup. split; [done|]. intros i q msg Hq Hmsg.
    destruct (HF i q msg Hq Hmsg) as (cq & H1 & H2). eapply living_routed; [exact HL| |exact H1|exact H2].
    by eapply Hxs, list_elem_of_lookup_2. }
  split; [exact Hco|]. split; [exact Hdel|]. rewrite !cm_lens. split; [exact He|]. split; [exact Hs|].
  split; [reflexivity|]. split; [apply lookup_delete_eq|]. apply map_subseteq_spec. intros x cl Hx.
  assert (x ∉ clients tck) as Hni.
  { intros Hin. rewrite Forall_forall in Hcls. destruct (Hcls x Hin) as [_ [k ->]]. by rewrite Hfr in Hx. }
  rewrite lookup_delete_ne by (intros E; by rewrite E in Hck). rewrite (Hout x Hni). by eapply lookup_weaken.
Qed.

End Setup.
Arguments TestClerk : clear implicits.
Arguments IClerkMaker : clear implicits.

(** ** kvsrv1 *)

Module KvSrvTest.
Section KvSrvTest.
Context {state : Type}.

Record TestKV := { Test_ : KvCheck.Test state; reliable : bool }.

Definition set_cfg (ts : TestKV) (c : Config.Config state) : TestKV :=
  {| Test_ := KvCheck.set_Config (Test_ ts) c; reliable := reliable ts |}.

(** One server; [e] is the name of its only end. *)
Definition MakeTestKV (e : string) (b : nat -> Groups.boot state) (heap : gmap nat (LabRpc.Server state))
    (st : Persister.store) (an : Annotation.Annotation) (now : Z) (rel : bool) : outcome TestKV :=
  cfg ← Config.MakeConfig [[e]] rel b heap st an now;
  mret {| Test_ := KvCheck.MakeTest cfg false; reliable := rel |}.

Definition MakeClerk (a : nat -> nat) (ts : TestKV) : outcome (TestClerk KvServers.KvSrv.Clerk * TestKV) :=
  cfg ← Config.MakeClient (a 0) (KvCheck.Config_ (Test_ ts));
  let ck := KvServers.KvSrv.MakeClerk (a 0) (Group.ServerName Config.GRP0 0) in
  mret ({| IKVClerk := ck; Clnt := a 0 |}, set_cfg ts cfg).

Definition DeleteClerk (tck : TestClerk KvServers.KvSrv.Clerk) (ts : TestKV) : outcome TestKV :=
  cfg ← Config.DeleteClient (Clnt tck) (KvCheck.Config_ (Test_ ts)); mret (set_cfg ts cfg).

#[export] Instance srvMaker : IClerkMaker state TestKV KvServers.KvSrv.Clerk :=
  {| KvSetup.cfgOf ts := KvCheck.Config_ (Test_ ts); KvSetup.set_cfg := set_cfg;
     clients tck := [Clnt tck]; KvSetup.MakeClerk := MakeClerk; KvSetup.DeleteClerk := DeleteClerk |}.

End KvSrvTest.
Arguments TestKV : clear implicits.
End KvSrvTest.

(** ** kvraft1 *)

Module KvRaftTest.
Section KvRaftTest.
Context {state : Type}.

Record Test := {
  Test_ : KvCheck.Test state;
  part : string;
  nclients : Z;
  nservers : Z;
  crash : bool;
  partitions : bool;
  maxraftstate : Z;
  randomkeys : bool
}.

Definition set_cfg (ts : Test) (c : Config.Config state) : Test :=
  {| Test_ := KvCheck.set_Config (Test_ ts) c; part := part ts; nclients := nclients ts;
     nservers := nservers ts; crash := crash ts; partitions := partitions ts;
     maxraftstate := maxraftstate ts; randomkeys := randomkeys ts |}.

(** The configuration that the test embeds. *)
Definition cfg (ts : Test) : Config.Config state := KvCheck.Config_ (Test_ ts).

Definition Gid : Z := Config.GRP0.

Definition makeTitle (ts : Test) : string :=
  let title := "Test: " in
  let title := if crash ts then title +:+ "restarts, " else title in
  let title := if partitions ts then title +:+ "partitions, " else title in
  let title := if decide (maxraftstate ts <> -1)%Z then title +:+ "snapshots, " else title in
  let title := if randomkeys ts then title +:+ "random keys, " else title in
  let title := if decide (nclients ts > 1)%Z then title +:+ "many clients" else title +:+ "one client" in
  title +:+ " (" +:+ part ts +:+ ")".

(** [names] has the ends of the [nservers] servers; the line that [Begin]
    prints is returned too.  [t0] is the time at which the test begins. *)
Definition MakeTest (p : string) (ncl : Z) (names : list (list string)) (rel cr parts : bool) (maxraft : Z)
    (rk : bool) (b : nat -> Groups.boot state) (heap : gmap nat (LabRpc.Server state))
    (st : Persister.store) (an : Annotation.Annotation) (now t0 : Z) : outcome (string * Test) :=
  cfg ← Config.MakeConfig names rel b heap st an now;
  let ts := {| Test_ := KvCheck.MakeTest cfg rk; part := p; nclients := ncl;
               nservers := Z.of_nat (length names); crash := cr; partitions := parts;
               maxraftstate := maxraft; randomkeys := rk |} in
  let '(line, cfg) := Config.Begin t0 (makeTitle ts) cfg in
  mret (line, set_cfg ts cfg).

(** The function with which the configuration starts a server. *)
Definition StartKVServer (useRaftStateMachine : bool) (ts : Test) (servers : list string) (gid me : Z)
    (persister : nat) (st : Persister.store) :=
  KvServers.KvRaft.StartKVServer useRaftStateMachine servers gid me persister (maxraftstate ts) st.

(** [ts.Group(Gid)]: a method called on a nil group panics. *)
Definition theGroup (ts : Test) : outcome Group.ServerGrp :=
  match Config.Group Gid (KvCheck.Config_ (Test_ ts)) with
  | None => Panic "nil pointer dereference"
  | Some sg => Return sg
  end.

Definition MakeClerk (a : nat -> nat) (ts : Test) : outcome (TestClerk KvServers.KvRaft.Clerk * Test) :=
  cfg ← Config.MakeClient (a 0) (KvCheck.Config_ (Test_ ts));
  let ts := set_cfg ts cfg in
  sg ← theGroup ts;
  let ck := KvServers.KvRaft.MakeClerk (a 0) (Groups.SrvNames sg) in
  mret ({| IKVClerk := ck; Clnt := a 0 |}, ts).

Definition DeleteClerk (tck : TestClerk KvServers.KvRaft.Clerk) (ts : Test) : outcome Test :=
  cfg ← Config.DeleteClient (Clnt tck) (KvCheck.Config_ (Test_ ts)); mret (set_cfg ts cfg).

Definition MakeClerkTo (a : nat -> nat) (to : list Z) (ts : Test)
    : outcome (TestClerk KvServers.KvRaft.Clerk * Test) :=
  sg ← theGroup ts;
  ns ← Group.SrvNamesTo sg to;
  cfg ← Config.MakeClientTo (a 0) (Some ns) (KvCheck.Config_ (Test_ ts));
  let ts := set_cfg ts cfg in
  sg ← theGroup ts;
  let ck := KvServers.KvRaft.MakeClerk (a 0) (Groups.SrvNames sg) in
  mret ({| IKVClerk := ck; Clnt := a 0 |}, ts).

(** [cleanup]: the test's [Cleanup]. *)
Definition cleanup (env : KvCheck.visEnv) (now t t' : Z) (order : list (string * Annotation.Continuous))
    (ts : Test) : outcome (option Config.report * option (list Annotation.annot) * KvCheck.Test state) :=
  KvCheck.Cleanup env now t t' order (Test_ ts).

#[export] Instance raftMaker : IClerkMaker state Test KvServers.KvRaft.Clerk :=
  {| KvSetup.cfgOf ts := KvCheck.Config_ (Test_ ts); KvSetup.set_cfg := set_cfg;
     clients tck := [Clnt tck]; KvSetup.MakeClerk := MakeClerk; KvSetup.DeleteClerk := DeleteClerk |}.

End KvRaftTest.
Arguments Test : clear implicits.
End KvRaftTest.

(** ** Both tests keep the promise *)

Section Laws.
Context {state : Type}.

(** Making one client without restrictions. *)
Lemma one_client (cfg : Config.Config state) a m :
  Config.clnts cfg = Some m -> (forall k, m !! a k = None) ->
  exists cfg', Config.MakeClient (a 0) cfg = Return cfg' /\
    newClients a cfg cfg' m (<[a 0 := Clnts.makeClntTo None]> m).
Proof.
  intros Hm Hf. unfold Config.MakeClient, Config.MakeClientTo, Clnts.MakeClientTo. rewrite Hm.
  eexists. split; [done|]. split; [done|]. split; [done|]. split.
  - apply insert_subseteq, Hf.
  - intros x c [[<- <-]|[_ ?]]%lookup_insert_Some; [right|by left]. split; [by exists 0|done].
Qed.

#[export] Instance srvLaws :
  ClerkMakerLaws (KvSrvTest.srvMaker (state := state)) (fun _ => True).
Proof.
  constructor; [done| |done]. intros a ts m _ Hm Hf _. simpl in *. unfold KvSrvTest.MakeClerk.
  destruct (one_client _ a m Hm Hf) as (cfg' & -> & Hn). eexists _, _, _. split; [done|].
  split; [exact Hn|]. split; [left|]. constructor; [|done]. split; [apply lookup_insert_eq|]. by exists 0.
Qed.

Definition raftReady (ts : KvRaftTest.Test state) : Prop :=
  is_Some (Config.Group KvRaftTest.Gid (KvCheck.Config_ (KvRaftTest.Test_ ts))).

#[export] Instance raftLaws : ClerkMakerLaws (KvRaftTest.raftMaker (state := state)) raftReady.
Proof.
  constructor; [done| |done]. intros a ts m [sg Hsg] Hm Hf _. simpl in *. unfold KvRaftTest.MakeClerk.
  destruct (one_client _ a m Hm Hf) as (cfg' & -> & Hn). cbn [mbind outcome_bind].
  unfold KvRaftTest.theGroup, Config.Group in *. simpl. rewrite (proj1 (proj2 Hn)), Hsg.
  eexists _, _, _. split; [done|]. split; [exact Hn|]. split; [left|]. constructor; [|done]. split; [apply lookup_insert_eq|]. by exists 0.
Qed.

(** ** The servers that a kvraft clerk reaches *)

Lemma SrvNamesTo_ok sg n to :
  Group.servernames sg = (fun i => Group.ServerName (Group.gid sg) (Z.of_nat i)) <$> seq 0 n ->
  Forall (fun i => i < n) to ->
  Group.SrvNamesTo sg (Z.of_nat <$> to)
  = Return ((fun i => Group.ServerName (Group.gid sg) (Z.of_nat i)) <$> to).
Proof.
  intros Hn. induction 1 as [|i to Hi _ IH]; [done|]. cbn [fmap list_fmap Group.SrvNamesTo].
  unfold Group.SrvName. rewrite Hn.
  rewrite (slice_get_Some _ _ (Group.ServerName (Group.gid sg) (Z.of_nat i))).
  - cbn [mbind outcome_bind]. by rewrite IH.
  - rewrite list_lookup_fmap, lookup_seq_lt by lia. done.
Qed.

Lemma SrvNamesTo_panics sg to i :
  i ∈ to -> (i < 0 \/ i >= Z.of_nat (length (Group.servernames sg)))%Z ->
  exists msg, Group.SrvNamesTo sg to = Panic msg.
Proof.
  intros Hi Hr. induction Hi as [i to|i j to _ IH]; cbn [Group.SrvNamesTo]; unfold Group.SrvName, slice_get.
  - case_decide; [|by eexists]. rewrite lookup_ge_None_2 by lia. by eexists.
  - destruct (IH Hr) as [msg ->]. case_decide; [|by eexists]. case_match; by eexists.
Qed.

Lemma allowed_names g to i :
  Clnts.allowedL (Clnts.makeClntTo (Some ((fun i => Group.ServerName g (Z.of_nat i)) <$> to)))
    (Group.ServerName g (Z.of_nat i)) = bool_decide (i ∈ to).
Proof.
  apply eq_true_iff_eq. rewrite bool_decide_eq_true. unfold Clnts.makeClntTo. rewrite Clnts.allowedL_spec.
  rewrite list_elem_of_fmap. split; [|eauto]. intros (j & [_ ->]%Groups.ServerName_inj & Hj). done.
Qed.

(** Clerks of a kvraft test reach the servers they should.  With fresh random
    names [MakeTest] returns a test of [n] servers.  [MakeClerkTo(to)], with
    indices of servers, makes a clerk that knows all [n] servers; each of its
    calls is routed to the labrpc server of the server it names, over an end
    that is enabled exactly when that server is in [to], on a network that is
    reliable as asked.  An index out of range makes [MakeClerkTo] panic. *)
Theorem kvraft_clerk_routes p ncl names rel cr parts maxraft rk b
    (heap : gmap nat (LabRpc.Server state)) st an now t0 :
  Groups.startOk names b (Groups.newGroups LabRpc.MakeNetwork heap st) ->
  exists line ts, KvRaftTest.MakeTest p ncl names rel cr parts maxraft rk b heap st an now t0
                  = Return (line, ts) /\
  (forall a to, Forall (fun i => i < length names) to ->
   exists tck ts1 m cl, KvRaftTest.MakeClerkTo a (Z.of_nat <$> to) ts = Return (tck, ts1) /\
    KvServers.KvRaft.servers (IKVClerk tck)
    = (fun i => Group.ServerName KvRaftTest.Gid (Z.of_nat i)) <$> seq 0 (length names) /\
    Config.clnts (KvRaftTest.cfg ts1) = Some m /\ m !! Clnt tck = Some cl /\
    forall calls, NoDup (calls.*1.*1.*1) ->
     (forall x, x ∈ calls.*1.*1.*1 -> x ∉ LabRpc.ends (Config.net (KvRaftTest.cfg ts1))) ->
     exists ms c net, callAll calls cl (Config.net (KvRaftTest.cfg ts1)) = Return (ms, c, net) /\
      Forall2 (fun q msg => forall i, i < length names ->
        q.1.1.2 = Group.ServerName KvRaftTest.Gid (Z.of_nat i) ->
        exists lr, LabRpc.readEndnameInfo net (LabRpc.endname msg)
          = (bool_decide (i ∈ to), Some (q.1.1.2), Some (Groups.b_sid (b i)), rel, lr)) calls ms) /\
  (forall a to i, i ∈ to -> (i < 0 \/ i >= Z.of_nat (length names))%Z ->
   exists msg, KvRaftTest.MakeClerkTo a to ts = Panic msg).
Proof.
  intros Hok. unfold KvRaftTest.MakeTest.
  destruct (Config.MakeConfig_ok names rel b heap st an now Hok) as (cfg & w & -> & Hm & Eg & _ & Ec & _).
  cbn [mbind outcome_bind]. destruct (Config.Begin _ _ cfg) as [line cfg1] eqn:Hb. injection Hb as <- <-.
  eexists _, _. split; [reflexivity|].
  pose proof Hm as [(sg & Es & Egid & _) Hreg _ _ _ _ _ _ _ Hnm].
  assert (Groups.grps w !! Config.GRP0 = Some sg) as Hsg by (rewrite Es; apply lookup_insert_eq).
  specialize (Hnm sg Hsg).
  assert (forall ts, Config.groups (KvCheck.Config_ (KvRaftTest.Test_ ts)) = Config.groups cfg ->
    KvRaftTest.theGroup ts = Return sg) as Hgrp.
  { intros ts E. unfold KvRaftTest.theGroup, Config.Group, Groups.lookupGroup. rewrite E, Eg. simpl.
    unfold KvRaftTest.Gid. by rewrite Hsg. }
  split.
  - intros a to Hto. unfold KvRaftTest.MakeClerkTo. rewrite Hgrp by done. cbn [mbind outcome_bind].
    rewrite (SrvNamesTo_ok sg (length names) to); [|by rewrite Egid|done].
    cbn [mbind outcome_bind]. unfold Config.MakeClientTo, Clnts.MakeClientTo. simpl. rewrite Ec. simpl.
    rewrite Hgrp by done. simpl. eexists _, _, _, _. split; [done|]. split; [exact Hnm|].
    split; [done|]. split; [apply lookup_insert_eq|]. intros calls Hnd Hf.
    destruct (client_calls (Some ((fun i => Group.ServerName (Group.gid sg) (Z.of_nat i)) <$> to)) _ calls Hnd Hf)
      as (ms & c & n & E & _ & HF).
    exists ms, c, n. split; [exact E|]. eapply Forall2_impl; [exact HF|].
    intros q msg [Hr _] i Hi Hq. eexists. unfold routed in Hr. rewrite Hr, Hq, Egid, allowed_names.
    unfold Config.net. simpl. rewrite Eg. unfold LabRpc.serverOf. simpl.
    unfold KvRaftTest.Gid. rewrite (Hreg i Hi). done.
  - intros a to i Hi Hr. unfold KvRaftTest.MakeClerkTo. rewrite Hgrp by done. cbn [mbind outcome_bind].
    enough (exists msg, Group.SrvNamesTo sg to = Panic msg) as [msg ->] by (by exists msg).
    apply (SrvNamesTo_panics sg to i Hi). rewrite Hnm, length_fmap, length_seq. done.
Qed.

End Laws.

(** ** Witnesses *)

Definition exTest : KvRaftTest.Test Z :=
  {| KvRaftTest.Test_ := KvCheck.MakeTest Config.exCfg false; KvRaftTest.part := "4B";
     KvRaftTest.nclients := 1; KvRaftTest.nservers := 2; KvRaftTest.crash := true;
     KvRaftTest.partitions := false; KvRaftTest.maxraftstate := -1; KvRaftTest.randomkeys := false |}.

Example exTitle : KvRaftTest.makeTitle exTest = "Test: restarts, one client (4B)".
Proof. reflexivity. Qed.

Lemma kvraft_clerk_routes_witness :
  exists line ts tck ts1,
    KvRaftTest.MakeTest "4B" 1 (Groups.exNames "a") true false true (-1) false (Groups.exBoot "b" 1) ∅
      Persister.empty_store Annotation.mkAnnotation 0 1 = Return (line, ts) /\
    KvRaftTest.MakeClerkTo (fun k => k) [0%Z] ts = Return (tck, ts1) /\
    KvServers.KvRaft.servers (IKVClerk tck) = ["server-0-0"; "server-0-1"].
Proof.
  destruct (kvraft_clerk_routes "4B" 1 (Groups.exNames "a") true false true (-1) false (Groups.exBoot "b" 1) ∅
      Persister.empty_store Annotation.mkAnnotation 0 1) as (line & ts & H1 & H2 & _).
  - apply Groups.startOk_dec. vm_compute. reflexivity.
  - destruct (H2 (fun k => k) [0]) as (tck & ts1 & m & cl & H3 & H4 & _); [repeat constructor|].
    exists line, ts, tck, ts1. split; [exact H1|]. split; [exact H3|]. exact H4.
Defined.

End KvSetup.
