(* ===== verification/ShardTest.v ===== *)
(** * The tests of the sharded key/value service

    Models [src/src/shardkv1/test.go]: the test's configuration, its clerks and
    shard controllers, the groups that join and leave, and the checks that the
    data is sharded and that a controller recovers.  Groups of servers are those
    of [Groups] and [Config], configurations those of [ShardCfg], clerks those
    of [KvSetup] and [KvServers].

    The shard controller is still to be written in the repository: what the
    tests use of it is the class [Controller], what its comments promise the
    class [ControllerLaws].  The iteration orders over maps, random names, the
    addresses of clients and the servers that start are arguments. *)

From S2P Require Import Prelude ShardCfg LabRpc Persister Group Groups Raft Clnts Rsm KvServers Annotation Config KvTest KvCheck KvSetup.

Module ShardTest.
Import LabRpc(Network).
Import KvServers KvSetup.
Import ShardCfg(ShardConfig).

Set Default Proof Using "Type".

Definition Controler : Z := 0.
Definition NSRV : nat := 3.
Definition INTERGRPDELAY : Z := 200.

(** ** Controllers *)

(** The operations of a controller [sck] on what the controllers keep in the
    kvsrv of group 0; [Query] returns [None] for a nil configuration. *)
Class Controller (K : Type) := {
  InitController : ShardCtrler.ShardCtrler -> K -> K;
  InitConfig : ShardConfig -> ShardCtrler.ShardCtrler -> K -> K;
  ChangeConfigTo : ShardConfig -> ShardCtrler.ShardCtrler -> K -> K;
  Query : ShardCtrler.ShardCtrler -> K -> option ShardConfig
}.

(** As documented: the first configuration and each next one become the
    current one, which every controller returns. *)
Class ControllerLaws (K : Type) `{!Controller K} := {
  init_query sck sck' c k : Query sck' (InitConfig c sck k) = Some c;
  change_query sck sck' c c' k :
    Query sck k = Some c -> ShardCfg.Num c' = wrap64 (ShardCfg.Num c + 1) ->
    Query sck' (ChangeConfigTo c' sck k) = Some c';
  query_same sck sck' k : Query sck k = Query sck' k
}.

(** [ChangeConfigTo] in two parts: the change is recorded in the kvsrv, and it is
    done.  A controller that is cut off in between leaves it pending. *)
Class Interruptible (K : Type) := {
  BeginChange : ShardConfig -> ShardCtrler.ShardCtrler -> K -> K;
  EndChange : ShardCtrler.ShardCtrler -> K -> K;
  pending : K -> option ShardConfig
}.

(** As documented: the configuration is the old one until the change is done, and
    a controller that starts first finishes what is pending. *)
Class RecoveryLaws (K : Type) `{!Controller K, !Interruptible K} := {
  begin_change sck sck' c c' k :
    Query sck k = Some c -> pending k = None -> ShardCfg.Num c' = wrap64 (ShardCfg.Num c + 1) ->
    Query sck' (BeginChange c' sck k) = Some c /\ pending (BeginChange c' sck k) = Some c';
  end_change sck sck' c' k :
    pending k = Some c' -> Query sck' (EndChange sck k) = Some c' /\ pending (EndChange sck k) = None;
  init_recovers sck sck' c k :
    Query sck k = Some c -> Query sck' (InitController sck k) = Some (default c (pending k)) /\
    pending (InitController sck k) = None
}.

(** As documented: a controller that was superseded bails out, because its change
    was finished for it. *)
Class SupersededLaws (K : Type) `{!Controller K, !Interruptible K} := {
  end_superseded sck sck' k :
    pending k = None -> Query sck' (EndChange sck k) = Query sck' k /\ pending (EndChange sck k) = None
}.

(** The controller of the repository. *)
Definition skeleton : Controller unit :=
  {| InitController _ k := k; InitConfig _ _ k := k; ChangeConfigTo _ _ k := k;
     Query sck _ := ShardCtrler.Query sck |}.

(** ** Membership *)

(** A group is a member when it has a shard: [IsMember] looks at the shards. *)
Lemma IsMember_spec c g : ShardCfg.IsMember c g = true <-> g ∈ ShardCfg.Shards c.
Proof.
  unfold ShardCfg.IsMember. rewrite existsb_exists. setoid_rewrite <-list_elem_of_In.
  split; [by intros (x & Hx & ->%Z.eqb_eq)|]. intros Hg. exists g. by rewrite Z.eqb_refl.
Qed.

Lemma count_elem (g : Z) l : g ∈ l <-> 0 < count (fun x => x = g) l.
Proof.
  induction l as [|x l IH]; [split; [by intros ?%elem_of_nil|simpl; unfold count; simpl; lia]|].
  rewrite elem_of_cons, IH, count_cons. case_decide; intuition (subst; try done; lia).
Qed.

Lemma count_NoDup (l : list Z) : (forall g, count (fun x => x = g) l <= 1) -> NoDup l.
Proof.
  induction l as [|x l IH]; intros H; constructor.
  - intros Hx%count_elem. specialize (H x). rewrite count_cons, decide_True in H by done. lia.
  - apply IH. intros g. specialize (H g). rewrite count_cons in H. lia.
Qed.

(** With at most as many groups as shards every group has one. *)
Lemma small_member c g :
  ShardCfg.good c -> is_Some (ShardCfg.Groups c !! g) -> size (ShardCfg.Groups c) <= ShardCfg.NShards ->
  g ∈ ShardCfg.Shards c.
Proof.
  intros (Hl & _ & Hne) Hg Hsz. destruct Hne as [Ha Hb].
  { intros E. rewrite E in Hg. destruct Hg as [x Hx]. by rewrite lookup_empty in Hx. }
  destruct (decide (g ∈ ShardCfg.Shards c)) as [|Hni]; [done|exfalso].
  assert (ShardCfg.load c g = 0) as H0.
  { unfold ShardCfg.load. destruct (count _ _) eqn:E; [done|]. destruct Hni. apply count_elem. lia. }
  assert (NoDup (ShardCfg.Shards c)) as Hnd.
  { apply count_NoDup. intros x. change (ShardCfg.load c x <= 1).
    destruct (ShardCfg.Groups c !! x) eqn:Hx.
    - specialize (Hb x g ltac:(by rewrite Hx) Hg). lia.
    - rewrite (ShardCfg.load_not_assigned c x Ha Hx). lia. }
  assert ((list_to_set (ShardCfg.Shards c) : gset Z) ⊆ dom (ShardCfg.Groups c) ∖ {[g]}) as Hsub.
  { intros x. rewrite elem_of_list_to_set, elem_of_difference, elem_of_dom, elem_of_singleton. intros Hx.
    split; [|by intros ->]. unfold ShardCfg.assigned in Ha. rewrite Forall_forall in Ha. by apply Ha. }
  apply subseteq_size in Hsub. rewrite size_list_to_set, Hl in Hsub by done.
  rewrite size_difference in Hsub by (by apply singleton_subseteq_l, elem_of_dom).
  rewrite size_singleton, size_dom in Hsub. unfold ShardCfg.NShards in *. lia.
Qed.

(** With at least as many groups as shards no group has two. *)
Lemma full_loads c g :
  ShardCfg.good c -> ShardCfg.NShards <= size (ShardCfg.Groups c) -> is_Some (ShardCfg.Groups c !! g) ->
  ShardCfg.load c g <= 1.
Proof.
  intros (Hl & _ & Hne) Hsz Hg. destruct Hne as [Ha Hb].
  { intros E. rewrite E in Hg. destruct Hg as [x Hx]. by rewrite lookup_empty in Hx. }
  destruct (decide (ShardCfg.load c g <= 1)) as [|Hgt]; [done|exfalso].
  assert (g ∈ ShardCfg.Shards c) as Hin by (apply count_elem; unfold ShardCfg.load in Hgt; lia).
  apply list_elem_of_split in Hin as (l1 & l2 & Hs).
  assert (dom (ShardCfg.Groups c) ⊆ (list_to_set (l1 ++ l2) : gset Z)) as Hsub.
  { intros x Hx%elem_of_dom. rewrite elem_of_list_to_set. apply count_elem.
    pose proof (Hb g x Hg Hx) as Hgx. unfold ShardCfg.load in *. rewrite Hs, !count_app, !count_cons in *.
    destruct (decide (g = x)) as [->|]; [rewrite decide_True in Hgt by done|]; lia. }
  apply subseteq_size in Hsub. rewrite size_dom in Hsub.
  assert (forall l : list Z, size (list_to_set l : gset Z) <= length l) as Hle.
  { induction l as [|x l IH]; simpl; [done|].
    pose proof (size_union_alt ({[x]} : gset Z) (list_to_set l)) as Hu. rewrite size_singleton in Hu.
    pose proof (subseteq_size (list_to_set l ∖ {[x]} : gset Z) (list_to_set l) ltac:(set_solver)). lia. }
  specialize (Hle (l1 ++ l2)).
  rewrite Hs in Hl. rewrite length_app in *. simpl in Hl. unfold ShardCfg.NShards in *. lia.
Qed.

Lemma assignLoop_id ord gs : forall k s c,
  Forall (fun g => is_Some (ShardCfg.Groups c !! g)) gs -> ShardCfg.assignLoop ord k s gs c = (k, c).
Proof.
  induction gs as [|g gs IH]; intros k s c; simpl; [done|]. intros [[x ->] H]%Forall_cons. by apply IH.
Qed.

Lemma moveLoop_done f ord k c mg mn lg ln :
  ShardCfg.analyze (ord k) c = (mg, mn, lg, ln) -> (mn < ln + 2)%Z ->
  ShardCfg.moveLoop (S f) ord k c = Some c.
Proof. intros E H. cbn [ShardCfg.moveLoop]. rewrite E. by rewrite decide_True. Qed.

(** Then rebalancing moves nothing. *)
Lemma full_stays ord c :
  ShardCfg.assigned c -> length (ShardCfg.Shards c) = ShardCfg.NShards -> ShardCfg.Groups c <> ∅ ->
  (forall k, ShardCfg.iterates (ord k) (ShardCfg.Groups c)) ->
  (forall g, is_Some (ShardCfg.Groups c !! g) -> ShardCfg.load c g <= 1) -> ShardCfg.Rebalance ord c = Some c.
Proof.
  intros Ha Hl Hne Ho H1. unfold ShardCfg.Rebalance. rewrite decide_False.
  2: { intros Hs. apply Hne, map_size_empty_iff. lia. }
  rewrite assignLoop_id by done.
  destruct (ShardCfg.analyze_spec c (ord 0) Hl Hne (Ho 0)) as (mg & lg & E & Hm & _ & _).
  specialize (H1 mg Hm). eapply moveLoop_done; [exact E|lia].
Qed.

(** ** Joining and leaving, on configurations *)

Lemma JoinBalance_one ord c gid srvs :
  ShardCfg.good c -> ShardCfg.Groups c !! gid = None -> ShardCfg.sharesServer c srvs = false ->
  (forall k, ShardCfg.iterates (ord k) (<[gid := srvs]> (ShardCfg.Groups c))) ->
  exists c', ShardCfg.JoinBalance [(gid, srvs)] ord c = Return (Some (true, c')) /\ ShardCfg.good c' /\
    ShardCfg.Groups c' = <[gid := srvs]> (ShardCfg.Groups c) /\
    ShardCfg.Num c' = wrap64 (ShardCfg.Num c + 1) /\
    (ShardCfg.NShards <= size (ShardCfg.Groups c) -> ShardCfg.Shards c' = ShardCfg.Shards c).
Proof.
  intros Hg Hn Hs Ho. unfold ShardCfg.JoinBalance, ShardCfg.Join. cbn [ShardCfg.joinLoop]. rewrite Hn, Hs.
  cbn [mbind outcome_bind mret outcome_ret].
  set (c1 := ShardCfg.set_Num _ _).
  destruct (ShardCfg.Rebalance_good ord c1) as (c' & Hr & HG & HN & Hgood); [apply Hg|done|].
  exists c'. unfold ShardCfg.thenRebalance. simpl negb. cbn [ShardCfg.set_Num] in *. rewrite Hr.
  split_and!; try done. intros Hfull. destruct Hg as (Hl & He & Hne).
  destruct (Hne) as [Ha Hb]; [intros E; rewrite E, map_size_empty in Hfull; unfold ShardCfg.NShards in Hfull; lia|].
  assert (ShardCfg.Rebalance ord c1 = Some c1) as Hst;
    [|rewrite Hst in Hr; by injection Hr as <-]. apply full_stays; try done.
  - apply Forall_forall. intros g Hgin. unfold ShardCfg.assigned in Ha. rewrite Forall_forall in Ha.
    destruct (Ha g Hgin) as [x Hx]. simpl. destruct (decide (g = gid)) as [->|]; [by rewrite lookup_insert_eq|].
    by rewrite lookup_insert_ne, Hx.
  - apply insert_non_empty.
  - intros g [x Hx]. change (ShardCfg.load c1 g) with (ShardCfg.load c g). simpl in Hx.
    apply lookup_insert_Some in Hx as [[<- _]|[_ Hx]].
    + rewrite (ShardCfg.load_not_assigned c gid Ha Hn). lia.
    + apply full_loads; [by split_and!|done|by rewrite Hx].
Qed.

Lemma LeaveBalance_one ord c gid srvs :
  ShardCfg.good c -> ShardCfg.Groups c !! gid = Some srvs ->
  (forall k, ShardCfg.iterates (ord k) (delete gid (ShardCfg.Groups c))) ->
  exists c', ShardCfg.LeaveBalance [gid] ord c = Return (Some (true, c')) /\ ShardCfg.good c' /\
    ShardCfg.Groups c' = delete gid (ShardCfg.Groups c) /\ ShardCfg.Num c' = wrap64 (ShardCfg.Num c + 1).
Proof.
  intros Hg Hn Ho. unfold ShardCfg.LeaveBalance, ShardCfg.Leave. cbn [ShardCfg.leaveLoop]. rewrite Hn.
  cbn [mbind outcome_bind mret outcome_ret]. set (c1 := ShardCfg.set_Num _ _).
  destruct (ShardCfg.Rebalance_good ord c1) as (c' & Hr & HG & HN & Hgood); [apply Hg|done|].
  exists c'. unfold ShardCfg.thenRebalance. simpl negb. rewrite Hr. by split_and!.
Qed.

(** A group that is not in the configuration has no shard. *)
Lemma gone_member c g :
  ShardCfg.good c -> ShardCfg.Groups c !! g = None -> g <> 0%Z -> g ∉ ShardCfg.Shards c.
Proof.
  intros (_ & He & Hne) Hg H0 Hin. destruct (decide (ShardCfg.Groups c = ∅)) as [E|E].
  - specialize (He E). rewrite Forall_forall in He. by apply H0, He.
  - destruct (Hne E) as [Ha _]. unfold ShardCfg.assigned in Ha. rewrite Forall_forall in Ha.
    destruct (Ha g Hin). congruence.
Qed.

(** The names of the servers of a group. *)
Definition srvNames (g : Z) : list string :=
  (fun i => Group.ServerName g (Z.of_nat i)) <$> seq 0 NSRV.

Lemma shares_none c g :
  ShardCfg.Groups c !! g = None -> (forall g' srvs, ShardCfg.Groups c !! g' = Some srvs -> srvs = srvNames g') ->
  ShardCfg.sharesServer c (srvNames g) = false.
Proof.
  intros Hg Hn. apply not_true_is_false. unfold ShardCfg.sharesServer. rewrite existsb_exists.
  intros ([g' xs] & Hin & Hx). apply list_elem_of_In, elem_of_map_to_list in Hin.
  rewrite (Hn g' xs Hin), existsb_exists in Hx. destruct Hx as (s1 & H1 & H2).
  rewrite existsb_exists in H2. destruct H2 as (s2 & H2 & ->%String.eqb_eq).
  apply list_elem_of_In, list_elem_of_fmap in H1 as (i & -> & _).
  apply list_elem_of_In, list_elem_of_fmap in H2 as (j & [-> _]%Groups.ServerName_inj & _). congruence.
Qed.

(** ** Running groups *)

Section Running.
Context {state : Type}.

(** The servers of group [g] are registered with the network. *)
Record running (w : Groups.world state) (g : Z) : Prop := {
  rn_grp : exists sg, Groups.grps w !! g = Some sg /\ Group.servernames sg = srvNames g /\
    length (Group.srvs sg) = NSRV;
  rn_up i : i < NSRV -> exists sid rs,
    LabRpc.servers (Groups.wnet w) !! Group.ServerName g (Z.of_nat i) = Some (Some sid) /\
    Groups.wheap w !! sid = Some rs
}.

Lemma running_made g names b w w' :
  Groups.groupMade g names b w w' -> length names = NSRV ->
  running w' g /\ forall g', g' <> g -> running w g' -> running w' g'.
Proof.
  intros [(sg & Hg & _ & _ & Hl & _) Hr Hsv _ _ _ Hh Hn _ Hnm] Hlen. split.
  - assert (Groups.grps w' !! g = Some sg) as Hsg by (rewrite Hg; apply lookup_insert_eq). split.
    + exists sg. split; [done|]. rewrite (Hnm sg Hsg), Hlen. split; [done|congruence].
    + intros i Hi. rewrite <-Hlen in Hi. exists (Groups.b_sid (b i)), (Groups.labsrv (b i)). auto.
  - intros g' Hne [(sg' & Hg' & Hx) Hu]. split.
    + exists sg'. by rewrite Hg, lookup_insert_ne.
    + intros i Hi. destruct (Hu i Hi) as (sid & rs & H1 & H2). exists sid, rs. split; [|by apply Hh].
      rewrite Hsv; [done|]. by intros j _ [? _]%Groups.ServerName_inj.
Qed.

(** A group that is shut down has no servers; the others keep running. *)
Lemma shutdown_ok g w :
  Groups.winv w -> running w g ->
  exists w' sg, Groups.on_group g Groups.Shutdown w = Return w' /\ Groups.winv w' /\
    (forall g', g' <> g -> running w g' -> running w' g') /\
    (forall i, i < NSRV -> LabRpc.serverOf (Groups.wnet w') (Group.ServerName g (Z.of_nat i)) = None) /\
    Groups.grps w' !! g = Some sg /\ Group.servernames sg = srvNames g /\ length (Group.srvs sg) = NSRV /\
    LabRpc.ends (Groups.wnet w') = LabRpc.ends (Groups.wnet w) /\ Groups.wheap w' = Groups.wheap w.
Proof.
  intros Hw [(sg & Hg & Hn & Hl) _]. destruct (Groups.Shutdown_ok g sg w Hw Hg) as (c' & w1 & _ & Hh & H1 & H2 & ->).
  destruct (Groups.wi_grp _ Hw g sg Hg) as [Eg _].
  destruct Hh as [HL _ _ _ Hgone Hsv [_ Hends] _ _ _ Hheap _ Hnm]. simpl in *.
  eexists _, (Group.grp c'). split; [exact H1|]. split; [exact H2|]. simpl. split_and!.
  - intros g' Hne [(sg' & Hg' & Hx) Hu]. split; simpl.
    + exists sg'. by rewrite lookup_insert_ne.
    + intros i Hi. destruct (Hu i Hi) as (sid & rs & E1 & E2). exists sid, rs. rewrite Hheap. split; [|done].
      rewrite Hsv; [done|]. intros j _ E. rewrite Eg in E. by apply Groups.ServerName_inj in E as [? _].
  - intros i Hi. unfold LabRpc.serverOf. rewrite <-Eg, Hgone; [done|]. apply elem_of_seq. lia.
  - apply lookup_insert_eq.
  - congruence.
  - congruence.
  - done.
  - done.
Qed.

(** [ExitGroup] leaves the other groups running. *)
Lemma running_exit g w :
  Groups.winv w -> running w g ->
  exists w', Groups.ExitGroup g w = Return w' /\ Groups.winv w' /\
    forall g', g' <> g -> running w g' -> running w' g'.
Proof.
  intros Hw Hr. destruct (shutdown_ok g w Hw Hr) as (w1 & sg & H1 & H2 & Ho & _).
  unfold Groups.ExitGroup. rewrite H1. cbn [mbind outcome_bind]. eexists. split; [reflexivity|].
  split; [by apply Groups.winv_delete|]. intros g' Hne Hg'. destruct (Ho g' Hne Hg') as [(sg' & E & Hx) Hu].
  split; simpl; [|exact Hu]. exists sg'. by rewrite lookup_delete_ne.
Qed.

(** Starting the servers of a group again. *)
Lemma restart_ok g sg b w :
  Groups.winv w -> Groups.grps w !! g = Some sg -> Group.servernames sg = srvNames g ->
  length (Group.srvs sg) = NSRV -> Groups.bootsOk (seq 0 NSRV) b NSRV (Groups.wnet w) ->
  (forall i, i < NSRV -> Groups.wheap w !! Groups.b_sid (b i) = None) ->
  exists w', Groups.on_group g (Groups.StartServers b) w = Return w' /\ Groups.winv w' /\ running w' g /\
    forall g', g' <> g -> running w g' -> running w' g'.
Proof.
  intros Hw Hg Hn Hl Hb Hfr. destruct (Groups.wi_grp _ Hw g sg Hg) as [Eg Hc].
  set (c := {| Group.grp := sg; Group.cnet := Groups.wnet w; Group.cheap := Groups.wheap w;
               Group.pst := Groups.wpst w; Group.killed := Groups.wkilled w |}).
  destruct (Groups.StartServers_ok b c NSRV Hc Hl Hb) as
    (c1 & c' & Hs & L & (_ & Es & Eg' & En') & (F1 & F2 & F3 & F4) & Eh & Ep & _ & Hc' & _).
  pose proof (Groups.bo_fresh _ _ _ _ Hb) as Hfresh.
  pose proof L as [Ll (Lg & _ & Ln) _ _ Lr Lu Lh Lh' Le Lsame Lp _].
  unfold c in Ll, Lg, Ln, Lr, Lu, Lh', Le, Lsame, Lp.
  cbn [Group.grp Group.cnet Group.cheap Group.pst] in Ll, Lg, Ln, Lr, Lu, Lh', Le, Lsame, Lp.
  edestruct (Groups.winv_on_group g sg (Groups.StartServers b) w c') as (w' & Ho & Hi & ->);
    [done|done|exact Hs|done|congruence|..].
  - rewrite F3, Le. set_solver.
  - intros e Hown. right. apply Hfresh. eapply (Groups.launched_own NSRV b c c1 e L); [done|].
    by apply (Groups.own_same _ _ e Es).
  - intros e He _. rewrite F2. apply Lsame. intros Hin. by apply (Hfresh e Hin).
  - by rewrite Ep.
  - eexists. split; [exact Ho|]. split; [exact Hi|]. split.
    + split; simpl.
      * exists (Group.grp c'). rewrite lookup_insert_eq. split; [done|]. split; [congruence|]. by rewrite Es, Ll.
      * intros i Hi'. exists (Groups.b_sid (b i)), (Groups.labsrv (b i)). rewrite F1, Eh, <-Eg.
        split; [apply Lr|apply Lh]; apply elem_of_seq; lia.
    + intros g' Hne [(sg' & Hg' & Hx) Hu]. split; simpl.
      * exists sg'. by rewrite lookup_insert_ne.
      * intros i Hi'. destruct (Hu i Hi') as (sid & rs & E1 & E2). exists sid, rs. rewrite F1, Eh, Lu, Lh'.
        { done. }
        { intros j [_ Hj]%elem_of_seq ->. by rewrite Hfr in E2. }
        { intros j _ E. rewrite Eg in E. by apply Groups.ServerName_inj in E as [? _]. }
Qed.
End Running.

Section Test.
Context {state K : Type} `{!Controller K}.

(** The iteration over a map of groups: by [Copy] (with the values), and in each
    call of [analyze] (the keys). *)
Context (copyOrd : gmap Z (list string) -> list (Z * list string)).
Context (ordOf : gmap Z (list string) -> nat -> list Z).

(** [sck] is nil until [setupKVService]; [part] is never assigned; [ctl] is what
    the controllers keep in the kvsrv and [finfo] the annotations' server
    status. *)
Record Test := {
  Test_ : KvCheck.Test state;
  sck : option ShardCtrler.ShardCtrler;
  part : string;
  partition : bool;
  maxraftstate : Z;
  ngid : Z;
  finfo : option Annotation.FrameworkInfo;
  ctl : K
}.

Definition cfg (ts : Test) : Config.Config state := KvCheck.Config_ (Test_ ts).
Definition set_cfg (ts : Test) (c : Config.Config state) : Test :=
  {| Test_ := KvCheck.set_Config (Test_ ts) c; sck := sck ts; part := part ts; partition := partition ts;
     maxraftstate := maxraftstate ts; ngid := ngid ts; finfo := finfo ts; ctl := ctl ts |}.
Definition set_sck (ts : Test) (s : option ShardCtrler.ShardCtrler) : Test :=
  {| Test_ := Test_ ts; sck := s; part := part ts; partition := partition ts;
     maxraftstate := maxraftstate ts; ngid := ngid ts; finfo := finfo ts; ctl := ctl ts |}.
Definition set_ngid (ts : Test) (g : Z) : Test :=
  {| Test_ := Test_ ts; sck := sck ts; part := part ts; partition := partition ts;
     maxraftstate := maxraftstate ts; ngid := g; finfo := finfo ts; ctl := ctl ts |}.
Definition set_ctl (ts : Test) (k : K) : Test :=
  {| Test_ := Test_ ts; sck := sck ts; part := part ts; partition := partition ts;
     maxraftstate := maxraftstate ts; ngid := ngid ts; finfo := finfo ts; ctl := k |}.

(** ** Making a test *)

(** [e] is the end of the only server of group 0, [t] the time of the
    annotation and [t0] that of [Begin]; the line [Begin] prints is returned. *)
Definition MakeTestMaxRaft (e : string) (b : nat -> Groups.boot state)
    (heap : gmap nat (LabRpc.Server state)) (st : Persister.store) (an : Annotation.world) (k : K)
    (now t t0 : Z) (p : string) (reliable part_ : bool) (maxraft : Z) : outcome (string * Test) :=
  cfg ← Config.MakeConfig [[e]] reliable b heap st (Annotation.annotation an) now;
  let ts := {| Test_ := KvCheck.MakeTest cfg false; sck := None; part := ""; partition := part_;
               maxraftstate := maxraft; ngid := wrap64 (ShardCfg.Gid1 + 1); finfo := Annotation.finfo an;
               ctl := k |} in
  an ← Annotation.AnnotateTest t p 1 an;
  let cfg := Config.set_annotation cfg (Annotation.annotation an) in
  let '(line, cfg) := Config.Begin t0 p cfg in
  let ts := set_cfg ts cfg in
  mret (line, {| Test_ := Test_ ts; sck := sck ts; part := part ts; partition := partition ts;
                 maxraftstate := maxraftstate ts; ngid := ngid ts; finfo := Annotation.finfo an; ctl := ctl ts |}).

Definition MakeTest e b heap st an k now t t0 p reliable :=
  MakeTestMaxRaft e b heap st an k now t t0 p reliable false (-1).
Definition MakeTestLeases e b heap st an k now t t0 p reliable :=
  MakeTestMaxRaft e b heap st an k now t t0 p reliable true (-1).

(** ** Clerks and controllers *)

(** The client of the new controller is at [a]. *)
Definition makeShardCtrlerClnt (a : nat) (ts : Test) : outcome (ShardCtrler.ShardCtrler * nat * Test) :=
  c ← Config.MakeClient a (cfg ts);
  mret (ShardCtrler.MakeShardCtrler a, a, set_cfg ts c).
Definition makeShardCtrler (a : nat) (ts : Test) : outcome (ShardCtrler.ShardCtrler * Test) :=
  '(ck, _, ts) ← makeShardCtrlerClnt a ts; mret (ck, ts).

(** A clerk has two clients, its own and its controller's. *)
Definition MakeClerk (a : nat -> nat) (ts : Test) : outcome (TestClerk ShardKv.Clerk * Test) :=
  c ← Config.MakeClient (a 0) (cfg ts);
  '(s, ts) ← makeShardCtrler (a 1) (set_cfg ts c);
  let ck := ShardKv.MakeClerk (a 0) s in
  mret ({| IKVClerk := ck; Clnt := a 0 |}, ts).

Definition DeleteClerk (tck : TestClerk ShardKv.Clerk) (ts : Test) : outcome Test :=
  c ← Config.DeleteClient (Clnt tck) (cfg ts); mret (set_cfg ts c).

Definition ShardCtrler (ts : Test) : option ShardCtrler.ShardCtrler := sck ts.

(** A clerk for the kvsrv of group 0. *)
Definition makeKVClerk (a : nat) (ts : Test) : outcome (KvSrv.Clerk * Test) :=
  let srv := Group.ServerName Config.GRP0 0 in
  c ← Config.MakeClient a (cfg ts);
  mret (KvSrv.MakeClerk a srv, set_cfg ts c).

(** ** Group identifiers *)

Definition newGid (ts : Test) : Z * Test := (ngid ts, set_ngid ts (wrap64 (ngid ts + 1))).

Fixpoint groups (n : nat) (ts : Test) : list Z * Test :=
  match n with
  | 0 => ([], ts)
  | S n => let '(g, ts) := newGid ts in let '(gs, ts) := groups n ts in (g :: gs, ts)
  end.

(** ** Groups that join and leave *)

(** A method called on a nil group panics. *)
Definition theGroup (g : Z) (ts : Test) : outcome Group.ServerGrp :=
  match Config.Group g (cfg ts) with
  | None => Panic "nil pointer dereference"
  | Some sg => Return sg
  end.
Definition on_cfg (f : Config.Config state -> outcome (Config.Config state)) (ts : Test) : outcome Test :=
  c ← f (cfg ts); mret (set_cfg ts c).
(** A method on the servers of group [g]. *)
Definition on_servers (g : Z) (f : Group.cluster state -> outcome (Group.cluster state)) (ts : Test)
    : outcome Test :=
  on_cfg (fun c => w ← Groups.on_group g f (Config.groups c); mret (Config.set_groups c w)) ts.

(** The balanced configuration, with the fuel of [Rebalance]. *)
Definition balanced {A} (r : option A) : outcome A :=
  match r with None => Panic "out of fuel" | Some a => Return a end.
(** A method called on a nil configuration panics. *)
Definition current (s : ShardCtrler.ShardCtrler) (ts : Test) : outcome ShardConfig :=
  match Query s (ctl ts) with None => Panic "nil pointer dereference" | Some c => Return c end.

(** [names] and [b] are what the environment provides for the [NSRV] servers. *)
Definition setupKVService (a : nat) (names : list (list string)) (b : nat -> Groups.boot state) (ts : Test)
    : outcome (Z * Test) :=
  '(s, ts) ← makeShardCtrler a ts;
  let ts := set_sck ts (Some s) in
  let scfg := ShardCfg.MakeShardConfig in
  ts ← on_cfg (Config.MakeGroupStart ShardCfg.Gid1 names b) ts;
  sg ← theGroup ShardCfg.Gid1 ts;
  r ← ShardCfg.JoinBalance [(ShardCfg.Gid1, Groups.SrvNames sg)]
        (ordOf (<[ShardCfg.Gid1 := Groups.SrvNames sg]> (ShardCfg.Groups scfg))) scfg;
  '(_, scfg) ← balanced r;
  mret (ShardCfg.Gid1, set_ctl ts (InitConfig scfg s (ctl ts))).

(** The function with which the configuration starts a server of a group. *)
Definition StartServerShardGrp (useRaftStateMachine : bool) (ts : Test) (servers : list string) (gid me : Z)
    (persister : nat) (st : Persister.store) :=
  ShardGrp.StartServerShardGrp useRaftStateMachine servers gid me persister (maxraftstate ts) st.

Definition checkMember (s : ShardCtrler.ShardCtrler) (gid : Z) (ts : Test) : outcome bool :=
  c ← current s ts; mret (ShardCfg.IsMember c gid).

Definition join (s : ShardCtrler.ShardCtrler) (gid : Z) (srvs : list string) (ts : Test) : outcome Test :=
  c ← current s ts;
  let newcfg := ShardCfg.Copy (copyOrd (ShardCfg.Groups c)) c in
  r ← ShardCfg.JoinBalance [(gid, srvs)] (ordOf (<[gid := srvs]> (ShardCfg.Groups newcfg))) newcfg;
  '(ok, newcfg) ← balanced r;
  if negb ok then Fatal "join: group is already present"
  else mret (set_ctl ts (ChangeConfigTo newcfg s (ctl ts))).

(** The body of the loop of [joinGroups]. *)
Definition joinOne (s : ShardCtrler.ShardCtrler) (gid : Z) (names : list (list string))
    (b : nat -> Groups.boot state) (ts : Test) : outcome (bool * Test) :=
  ts ← on_cfg (Config.MakeGroupStart gid names b) ts;
  sg ← theGroup gid ts;
  ts ← join s gid (Groups.SrvNames sg) ts;
  ok ← checkMember s gid ts;
  mret (ok, ts).

(** Each group comes with the environment's choices for its servers. *)
Fixpoint joinGroups (s : ShardCtrler.ShardCtrler)
    (gids : list (Z * (list (list string) * (nat -> Groups.boot state)))) (ts : Test)
    : outcome (bool * Test) :=
  match gids with
  | [] => Return (true, ts)
  | (gid, (names, b)) :: gids =>
      '(ok, ts) ← joinOne s gid names b ts;
      if negb ok then Return (false, ts) else joinGroups s gids ts
  end.

Definition leave (s : ShardCtrler.ShardCtrler) (gid : Z) (ts : Test) : outcome Test :=
  c ← current s ts;
  let newcfg := ShardCfg.Copy (copyOrd (ShardCfg.Groups c)) c in
  r ← ShardCfg.LeaveBalance [gid] (ordOf (delete gid (ShardCfg.Groups newcfg))) newcfg;
  '(ok, newcfg) ← balanced r;
  if negb ok then Fatal "leave: group is already not present"
  else mret (set_ctl ts (ChangeConfigTo newcfg s (ctl ts))).

Fixpoint leaveGroups (s : ShardCtrler.ShardCtrler) (gids : list Z) (ts : Test) : outcome (bool * Test) :=
  match gids with
  | [] => Return (true, ts)
  | gid :: gids =>
      ts ← leave s gid ts;
      ok ← checkMember s gid ts;
      if (ok : bool) then Return (false, ts)
      else ts ← on_cfg (Config.ExitGroup gid) ts; leaveGroups s gids ts
  end.

(** Shuts down the server whose Raft peer leads; [raftOf] is the Raft peer that a
    service is, if it is one. *)
Definition disconnectClntFromLeader {rfT} `{!Raft.RaftApi rfT Rsm.any} (raftOf : nat -> option rfT)
    (gid : Z) (ts : Test) : outcome (Z * Test) :=
  sg ← theGroup gid ts;
  let '(ok, l) := Rsm.Leader 0 ((fun ss : list nat => raftOf <$> ss) <$> Groups.Services sg) in
  if negb ok then Fatal "Leader failed"
  else ts ← on_servers gid (Group.ShutdownServer l) ts; mret (l, ts).

(** ** Is the data sharded? *)

(** [for xi := 0; xi < n; xi++ { ck1 := ts.MakeClerk() ... }]; the clients of
    clerk [xi] are at [a xi 0] and [a xi 1]. *)
Fixpoint makeClerks (a : nat -> nat -> nat) (xs : list nat) (ts : Test) : outcome Test :=
  match xs with
  | [] => Return ts
  | xi :: xs => '(_, ts) ← MakeClerk (a xi) ts; makeClerks a xs ts
  end.

(** The results that arrive before two seconds pass without any: the index of
    the [Get] and the value it returned. *)
Fixpoint completions (va : list string) (l : list (nat * string)) (ndone : Z) : outcome Z :=
  match l with
  | [] => Return ndone
  | (i, v) :: l =>
      w ← slice_get va (Z.of_nat i);
      if decide (v <> w) then Fatal "Get: expected, received"
      else completions va l (ndone + 1)
  end.

(** The test while it waits for the [Get]s: the group is down, and there is a clerk
    for each key. *)
Definition waitShutdown (down : Z) (ka : list string) (a : nat -> nat -> nat) (ts : Test) : outcome Test :=
  ts ← on_servers down Groups.Shutdown ts;
  makeClerks a (seq 0 (length ka)) ts.

(** [ka] are the keys and [va] their values; [b] is for the restart. *)
Definition checkShutdownSharding (down : Z) (ka va : list string) (a : nat -> nat -> nat)
    (l : list (nat * string)) (b : nat -> Groups.boot state) (ts : Test) : outcome Test :=
  let n := len ka in
  ts ← waitShutdown down ka a ts;
  ndone ← completions va l 0;
  if decide (ndone >= n)%Z then Fatal "expected less completions with shard down"
  else on_servers down (Groups.StartServers b) ts.

(** ** Recovery *)

Definition JOIN : Z := 1.
Definition LEAVE : Z := 2.

(** The checks of [partitionCtrler] on the configuration of the second
    controller; the result is whether it has to remove the group. *)
Definition checkRecovery (num st g : Z) (c : ShardConfig) : outcome bool :=
  if decide (ShardCfg.Num c <= num)%Z then Fatal "didn't recover; expected"
  else
    let present := ShardCfg.IsMember c g in
    if (bool_decide (st = JOIN) && negb present) || (bool_decide (st = LEAVE) && present)
    then Fatal "didn't recover correctly"
    else mret (bool_decide (st = JOIN) && present).

(** ** What the test maintains *)

Section Invariant.
Context `{!ControllerLaws K}.
Context (HcopyOrd : forall m, copyOrd m ≡ₚ map_to_list m).
Context (HordOf : forall m k, ShardCfg.iterates (ordOf m k) m).

(** The current configuration is [c]: it is balanced, and its groups are running
    groups of the test with identifiers that were handed out. *)
Record inv (c : ShardConfig) (ts : Test) : Prop := {
  iv_world : Groups.winv (Config.groups (cfg ts));
  iv_query s : Query s (ctl ts) = Some c;
  iv_good : ShardCfg.good c;
  iv_names g srvs : ShardCfg.Groups c !! g = Some srvs -> srvs = srvNames g;
  iv_running g : is_Some (ShardCfg.Groups c !! g) -> running (Config.groups (cfg ts)) g;
  iv_range g : is_Some (ShardCfg.Groups c !! g) -> (1 <= g < ngid ts)%Z
}.

(** What the environment provides for one group. *)
Definition bootOk (names : list (list string)) (b : nat -> Groups.boot state) (ts : Test) : Prop :=
  length names = NSRV /\ Groups.startOk names b (Config.groups (cfg ts)).

Lemma Copy_current c : ShardCfg.Copy (copyOrd (ShardCfg.Groups c)) c = c.
Proof using HcopyOrd. by apply ShardCfg.Copy_id. Qed.

(** A group is started. *)
Lemma start_ok gid names b ts :
  Groups.winv (Config.groups (cfg ts)) -> bootOk names b ts ->
  exists w sg, on_cfg (Config.MakeGroupStart gid names b) ts = Return (set_cfg ts (Config.set_groups (cfg ts) w)) /\
    Groups.winv w /\ theGroup gid (set_cfg ts (Config.set_groups (cfg ts) w)) = Return sg /\
    Groups.SrvNames sg = srvNames gid /\ running w gid /\
    forall g, g <> gid -> running (Config.groups (cfg ts)) g -> running w g.
Proof.
  intros Hw [Hl Hok]. destruct (Groups.MakeGroupStart_ok gid names b _ Hok) as (w & Hm & Hmade).
  destruct (running_made _ _ _ _ _ Hmade Hl) as [Hr Hothers].
  pose proof (rn_grp _ _ Hr) as (sg & Hsg & Hn & _). exists w, sg.
  unfold on_cfg, Config.MakeGroupStart. rewrite Hm. split; [done|].
  split; [by eapply Groups.winv_made|]. split; [|done].
  unfold theGroup, Config.Group, Groups.lookupGroup. simpl. by rewrite Hsg.
Qed.

Lemma joinOne_ok s gid names b c ts :
  inv c ts -> bootOk names b ts -> ShardCfg.Groups c !! gid = None -> (1 <= gid < ngid ts)%Z ->
  exists c' ts', joinOne s gid names b ts = Return (bool_decide (size (ShardCfg.Groups c) < ShardCfg.NShards), ts') /\
    inv c' ts' /\ ShardCfg.Groups c' = <[gid := srvNames gid]> (ShardCfg.Groups c) /\
    ngid ts' = ngid ts /\
    (ShardCfg.NShards <= size (ShardCfg.Groups c) -> ShardCfg.Shards c' = ShardCfg.Shards c).
Proof using All.
  intros [Iw Iq Ig In Ir Irg] Hb Hn Hrg.
  destruct (start_ok gid names b ts Iw Hb) as (w & sg & Hst & Hw & Hsg & Hnm & Hrun & Hoth).
  destruct (JoinBalance_one (ordOf (<[gid := srvNames gid]> (ShardCfg.Groups c))) c gid (srvNames gid)) as
    (c' & Hj & Hg' & HG & HN & Hfull); [done|done|by apply shares_none|by intros k; apply HordOf|].
  unfold joinOne. rewrite Hst. cbn [mbind outcome_bind]. rewrite Hsg. cbn [mbind outcome_bind]. rewrite Hnm.
  unfold join, current. cbn [ctl set_cfg]. rewrite Iq. cbn [mbind outcome_bind].
  rewrite Copy_current, Hj. cbn [mbind outcome_bind balanced mret outcome_ret negb].
  unfold checkMember, current. cbn [ctl set_ctl]. rewrite (change_query s s c c' _ (Iq s) HN).
  cbn [mbind outcome_bind mret outcome_ret].
  assert (ShardCfg.IsMember c' gid = bool_decide (size (ShardCfg.Groups c) < ShardCfg.NShards)) as ->.
  { apply eq_true_iff_eq. rewrite bool_decide_eq_true, IsMember_spec. split.
    - intros Hin. destruct (decide (size (ShardCfg.Groups c) < ShardCfg.NShards)) as [|Hge]; [done|].
      rewrite Hfull in Hin by lia. by apply (gone_member c gid) in Hin; [|..|lia].
    - intros Hlt. apply small_member; [done| |]; rewrite HG; [by rewrite lookup_insert_eq|].
      rewrite map_size_insert_None by done. lia. }
  eexists c', _. split; [reflexivity|]. split; [|done]. constructor; simpl; try done.
  - intros s'. by rewrite (change_query s s' c c' _ (Iq s) HN).
  - intros g srvs. rewrite HG. intros [[<- <-]|[_ H]]%lookup_insert_Some; [done|]. by apply In.
  - intros g. rewrite HG. intros [x [[<- _]|[? H]]%lookup_insert_Some]; [done|]. apply Hoth; [done|].
    apply Ir. by rewrite H.
  - intros g. rewrite HG. intros [x [[<- _]|[? H]]%lookup_insert_Some]; [done|]. apply Irg. by rewrite H.
Qed.

(** The environment provides for each group in turn. *)
Fixpoint bootsOk (s : ShardCtrler.ShardCtrler)
    (l : list (Z * (list (list string) * (nat -> Groups.boot state)))) (ts : Test) : Prop :=
  match l with
  | [] => True
  | (gid, (names, b)) :: l =>
      bootOk names b ts /\ forall ok ts', joinOne s gid names b ts = Return (ok, ts') -> bootsOk s l ts'
  end.

(** All groups join, as long as there is a shard for each. *)
Lemma joinGroups_ok s l : forall c ts,
  inv c ts -> bootsOk s l ts -> NoDup l.*1 ->
  Forall (fun g => ShardCfg.Groups c !! g = None /\ (1 <= g < ngid ts)%Z) l.*1 ->
  size (ShardCfg.Groups c) + length l <= ShardCfg.NShards ->
  exists c' ts', joinGroups s l ts = Return (true, ts') /\ inv c' ts' /\ ngid ts' = ngid ts /\
    dom (ShardCfg.Groups c') = dom (ShardCfg.Groups c) ∪ list_to_set l.*1.
Proof using All.
  induction l as [|[gid [names b]] l IH]; intros c ts Hi Hb Hnd Hf Hsz; simpl.
  { exists c, ts. split_and!; try done. set_solver. }
  simpl in *. destruct Hb as [Hb Hbs]. apply NoDup_cons in Hnd as [Hni Hnd].
  apply Forall_cons in Hf as [[Hn Hrg] Hf].
  destruct (joinOne_ok s gid names b c ts Hi Hb Hn Hrg) as (c1 & ts1 & Hj & Hi1 & HG & Eng & _).
  rewrite Hj, bool_decide_eq_true_2 by lia. cbn [mbind outcome_bind negb].
  destruct (IH c1 ts1) as (c' & ts' & Hjs & Hi' & Eng' & HD); [done|by eapply Hbs|done|..].
  - rewrite Forall_forall in Hf |- *. intros g Hg. destruct (Hf g Hg). rewrite Eng, HG. split; [|done].
    rewrite lookup_insert_ne; [done|]. by intros <-.
  - rewrite HG, map_size_insert_None by done. lia.
  - exists c', ts'. split_and!; [done|done|congruence|]. rewrite HD, HG, dom_insert_L. set_solver.
Qed.

Lemma leaveGroups_ok s l : forall c ts,
  inv c ts -> NoDup l -> Forall (fun g => is_Some (ShardCfg.Groups c !! g)) l ->
  exists c' ts', leaveGroups s l ts = Return (true, ts') /\ inv c' ts' /\ ngid ts' = ngid ts /\
    dom (ShardCfg.Groups c') = dom (ShardCfg.Groups c) ∖ list_to_set l.
Proof using All.
  induction l as [|gid l IH]; intros c ts Hi Hnd Hf; simpl.
  { exists c, ts. split_and!; try done. set_solver. }
  apply NoDup_cons in Hnd as [Hni Hnd]. apply Forall_cons in Hf as [[srvs Hg] Hf].
  pose proof Hi as [Iw Iq Ig In Ir Irg].
  destruct (LeaveBalance_one (ordOf (delete gid (ShardCfg.Groups c))) c gid srvs Ig Hg) as
    (c1 & Hj & Hg1 & HG & HN); [by intros k; apply HordOf|].
  pose proof (Irg gid ltac:(by rewrite Hg)) as Hrg.
  unfold leave, current. rewrite Iq. cbn [mbind outcome_bind]. rewrite Copy_current, Hj.
  cbn [mbind outcome_bind balanced mret outcome_ret negb]. unfold checkMember, current. cbn [ctl set_ctl].
  rewrite (change_query s s c c1 _ (Iq s) HN). cbn [mbind outcome_bind mret outcome_ret].
  destruct (ShardCfg.IsMember c1 gid) eqn:Hm.
  { apply IsMember_spec in Hm. by apply gone_member in Hm; [|done|rewrite HG; apply lookup_delete_eq|lia]. }
  destruct (running_exit gid (Config.groups (cfg ts)) Iw) as (w & Hx & Hw & Hoth); [apply Ir; by rewrite Hg|].
  unfold on_cfg, Config.ExitGroup. change (Config.groups (cfg (set_ctl ts _))) with (Config.groups (cfg ts)).
  rewrite Hx. cbn [mbind outcome_bind mret outcome_ret].
  edestruct (IH c1) as (c' & ts' & Hjs & Hi' & Eng' & HD); [|done| |exists c', ts'; split; [exact Hjs|]].
  - constructor; simpl; try done.
    + intros s'. by rewrite (change_query s s' c c1 _ (Iq s) HN).
    + intros g x. rewrite HG. intros [_ H]%lookup_delete_Some. by apply In.
    + intros g. rewrite HG. intros [x [? H]%lookup_delete_Some]. apply Hoth; [done|]. apply Ir. by rewrite H.
    + intros g. rewrite HG. intros [x [_ H]%lookup_delete_Some]. apply Irg. by rewrite H.
  - rewrite Forall_forall in Hf |- *. intros g Hgl. rewrite HG, lookup_delete_ne; [by apply Hf|]. by intros <-.
  - split_and!; [done|done|]. rewrite HD, HG, dom_delete_L. set_solver.
Qed.

End Invariant.

(** ** Whole tests *)

Lemma MakeTest_ok e b (heap : gmap nat (LabRpc.Server state)) st an k now t t0 p rel part_ maxraft :
  Groups.startOk [[e]] b (Groups.newGroups LabRpc.MakeNetwork heap st) ->
  exists line ts, MakeTestMaxRaft e b heap st an k now t t0 p rel part_ maxraft = Return (line, ts) /\
    Groups.winv (Config.groups (cfg ts)) /\ Config.clnts (cfg ts) = Some ∅ /\ ngid ts = 2%Z /\
    LabRpc.reliable (Config.net (cfg ts)) = rel.
Proof.
  intros Hok. unfold MakeTestMaxRaft.
  destruct (Config.MakeConfig_ok [[e]] rel b heap st (Annotation.annotation an) now Hok)
    as (c & w & -> & _ & Eg & Hw & Hc & _).
  cbn [mbind outcome_bind]. unfold Annotation.AnnotateTest, Annotation.mkFrameworkInfo, go_make. simpl.
  eexists _, _. split; [reflexivity|]. split; [exact Hw|]. split; [exact Hc|]. split; [done|].
  unfold Config.net. simpl. by rewrite Eg.
Qed.

Lemma Gid1_only g1 c :
  ShardCfg.good c -> ShardCfg.Groups c = {[g1 := srvNames g1]} ->
  ShardCfg.Shards c = replicate ShardCfg.NShards g1.
Proof.
  intros (Hl & _ & Hne) HG. rewrite HG in Hne. destruct Hne as [Ha _]; [apply insert_non_empty|].
  symmetry. apply replicate_as_Forall_2; [done|]. unfold ShardCfg.assigned in Ha.
  eapply Forall_impl; [exact Ha|]. intros g [x Hx]. rewrite HG in Hx.
  by apply lookup_singleton_Some in Hx as [<- _].
Qed.

Lemma first_join g1 ord c0 :
  c0 = ShardCfg.MakeShardConfig ->
  (forall k, ShardCfg.iterates (ord k) (<[g1 := srvNames g1]> (ShardCfg.Groups c0))) ->
  exists c, ShardCfg.JoinBalance [(g1, srvNames g1)] ord c0 = Return (Some (true, c)) /\
    ShardCfg.good c /\ ShardCfg.Groups c = {[g1 := srvNames g1]}.
Proof.
  intros E0 Ho. assert (ShardCfg.Groups c0 = ∅) as EG by (by rewrite E0).
  destruct (JoinBalance_one ord c0 g1 (srvNames g1)) as (c & Hj & Hg & HG & _).
  - rewrite E0. apply ShardCfg.creachable_good, ShardCfg.creach_make.
  - rewrite EG. apply lookup_empty.
  - apply shares_none; rewrite EG; [apply lookup_empty|]. intros g srvs H. by rewrite lookup_empty in H.
  - exact Ho.
  - exists c. split; [exact Hj|]. split; [exact Hg|]. by rewrite HG, EG.
Qed.

Lemma bind_ret {A B} (x : A) (f : A -> outcome B) : (Return x ≫= f) = f x.
Proof. done. Qed.

Lemma makeShardCtrler_ok a ts m :
  Config.clnts (cfg ts) = Some m ->
  exists ts', makeShardCtrler a ts = Return (ShardCtrler.MakeShardCtrler a, ts') /\
    Config.groups (cfg ts') = Config.groups (cfg ts) /\ ngid ts' = ngid ts /\ ctl ts' = ctl ts /\
    is_Some (Config.clnts (cfg ts')).
Proof.
  intros Hm. unfold makeShardCtrler, makeShardCtrlerClnt, Config.MakeClient, Config.MakeClientTo,
    Clnts.MakeClientTo. rewrite Hm. eexists. split; [done|]. by split_and!.
Qed.

Section Tests.
Context `{!ControllerLaws K}.
Context (HcopyOrd : forall m, copyOrd m ≡ₚ map_to_list m).
Context (HordOf : forall m k, ShardCfg.iterates (ordOf m k) m).

(** The service starts with one group that owns every shard. *)
Lemma setup_ok a names b ts m :
  Groups.winv (Config.groups (cfg ts)) -> Config.clnts (cfg ts) = Some m -> ngid ts = 2%Z -> bootOk names b ts ->
  exists c ts', setupKVService a names b ts = Return (ShardCfg.Gid1, ts') /\ inv c ts' /\ ngid ts' = 2%Z /\
    ShardCfg.Groups c = {[ShardCfg.Gid1 := srvNames ShardCfg.Gid1]} /\
    ShardCfg.Shards c = replicate ShardCfg.NShards ShardCfg.Gid1.
Proof using All.
  intros Hw Hm Hng Hb. unfold setupKVService. remember ShardCfg.MakeShardConfig as c0 eqn:E0.
  remember ShardCfg.Gid1 as g1 eqn:E1.
  destruct (makeShardCtrler_ok a ts m Hm) as (ts0 & Hmk & Eg0 & Eng0 & _). rewrite Hmk, bind_ret. simpl fst. cbv zeta.
  set (ts1 := set_sck ts0 _).
  assert (Config.groups (cfg ts1) = Config.groups (cfg ts)) as Eg1 by exact Eg0.
  assert (ngid ts1 = 2%Z) as Hng1 by (rewrite <-Hng; exact Eng0). clearbody ts1.
  assert (Groups.winv (Config.groups (cfg ts1))) as Hw1 by (by rewrite Eg1).
  assert (bootOk names b ts1) as Hb1 by (unfold bootOk; by rewrite Eg1).
  destruct (start_ok g1 names b ts1 Hw1 Hb1) as (w & sg & Hst & Hw' & Hsg & Hnm & Hrun & _).
  rewrite Hst, bind_ret, Hsg, bind_ret, Hnm.
  destruct (first_join g1 (ordOf (<[g1 := srvNames g1]> (ShardCfg.Groups c0))) c0 E0)
    as (c & Hj & Hg & HG); [intros k; apply HordOf|].
  rewrite Hj, bind_ret. clear Hj. cbn [mbind outcome_bind balanced mret outcome_ret].
  assert (forall g x, ShardCfg.Groups c !! g = Some x -> g = g1 /\ x = srvNames g1) as Honly.
  { intros g x. rewrite HG. by intros [-> ->]%lookup_singleton_Some. }
  eexists c, _. split; [reflexivity|]. split; [|split; [exact Hng1|split; [done|by apply (Gid1_only g1)]]].
  constructor; simpl; try done.
  - intros s. apply init_query.
  - intros g srvs H. by destruct (Honly g srvs H) as [-> ->].
  - intros g [x H]. destruct (Honly g x H) as [-> _]. exact Hrun.
  - intros g [x H]. destruct (Honly g x H) as [-> _]. rewrite Hng1. unfold ShardCfg.Gid1 in E1. lia.
Qed.

(** The identifiers that are handed out. *)
Lemma groups_ids n : forall ts, (0 <= ngid ts)%Z -> (ngid ts + Z.of_nat n <= int_max)%Z ->
  groups n ts = (seqZ (ngid ts) (Z.of_nat n), set_ngid ts (ngid ts + Z.of_nat n)).
Proof.
  induction n as [|n IH]; intros ts H0 Hn; cbn [groups newGid].
  { simpl. rewrite Z.add_0_r. by destruct ts. }
  rewrite (wrap64_small (ngid ts + 1)) by (unfold int_min, int_max in *; lia).
  rewrite IH by (cbn [ngid set_ngid]; lia). rewrite (seqZ_cons (ngid ts)) by lia.
  replace (Z.succ (ngid ts)) with (ngid ts + 1)%Z by lia.
  replace (Z.pred (Z.of_nat (S n))) with (Z.of_nat n) by lia. unfold set_ngid. cbn -[Z.of_nat Z.add seqZ].
  by replace (ngid ts + 1 + Z.of_nat n)%Z with (ngid ts + Z.of_nat (S n))%Z by lia.
Qed.

(** C40: A group too many joins, but is reported not to have joined.  When there are
    as many groups as shards already, [joinGroups] starts the next group and
    the controllers' configuration has it among its groups, but no shard moves
    (the loads are balanced), so that [checkMember], which looks for the group
    among the owners of shards, fails: [joinGroups] returns false and leaves the
    group running. *)
Theorem join_beyond_shards s gid names b l c ts :
  inv c ts -> bootOk names b ts -> ShardCfg.Groups c !! gid = None -> (1 <= gid < ngid ts)%Z ->
  ShardCfg.NShards <= size (ShardCfg.Groups c) ->
  exists c' ts', joinGroups s ((gid, (names, b)) :: l) ts = Return (false, ts') /\
    (forall s', Query s' (ctl ts') = Some c') /\
    ShardCfg.Groups c' = <[gid := srvNames gid]> (ShardCfg.Groups c) /\
    ShardCfg.Shards c' = ShardCfg.Shards c /\ running (Config.groups (cfg ts')) gid.
Proof using All.
  intros Hi Hb Hn Hrg Hsz.
  destruct (joinOne_ok HcopyOrd HordOf s gid names b c ts Hi Hb Hn Hrg) as (c' & ts' & Hj & Hi' & HG & _ & Hs).
  exists c', ts'. simpl. rewrite Hj, bool_decide_eq_false_2 by lia. split_and!; try done.
  - apply Hi'.
  - by apply Hs.
  - apply (iv_running _ _ Hi'). by rewrite HG, lookup_insert_eq.
Qed.

(** ** Sequences of joins and leaves *)

(** What the bodies of the tests do: let new groups join, or groups leave. *)
Inductive top :=
| TJoin (bs : list (list (list string) * (nat -> Groups.boot state)))
| TLeave (gids : list Z).

Definition runTop (s : ShardCtrler.ShardCtrler) (o : top) (ts : Test) : outcome (bool * Test) :=
  match o with
  | TJoin bs => let '(gids, ts) := groups (length bs) ts in joinGroups s (zip gids bs) ts
  | TLeave gids => leaveGroups s gids ts
  end.
Fixpoint runTops (s : ShardCtrler.ShardCtrler) (os : list top) (ts : Test) : outcome (list bool * Test) :=
  match os with
  | [] => Return ([], ts)
  | o :: os => '(ok, ts) ← runTop s o ts; '(oks, ts) ← runTops s os ts; mret (ok :: oks, ts)
  end.

(** The specification: a set of members and the next identifier. *)
Definition specStep (o : top) (a : gset Z * Z) : gset Z * Z :=
  match o with
  | TJoin bs => (a.1 ∪ list_to_set (seqZ a.2 (len bs)), (a.2 + len bs)%Z)
  | TLeave gids => (a.1 ∖ list_to_set gids, a.2)
  end.
Definition spec (os : list top) : gset Z * Z := foldl (fun a o => specStep o a) ({[ShardCfg.Gid1]}, 2%Z) os.

(** Joins leave at most a shard per group and identifiers within an [int];
    members leave, once. *)
Definition validTop (s : ShardCtrler.ShardCtrler) (o : top) (a : gset Z * Z) (ts : Test) : Prop :=
  match o with
  | TJoin bs => size a.1 + length bs <= ShardCfg.NShards /\ (a.2 + len bs <= int_max)%Z /\
      bootsOk s (zip (seqZ a.2 (len bs)) bs) (set_ngid ts (a.2 + len bs))
  | TLeave gids => NoDup gids /\ Forall (fun g => g ∈ a.1) gids
  end.
Fixpoint validTops (s : ShardCtrler.ShardCtrler) (os : list top) (a : gset Z * Z) (ts : Test) : Prop :=
  match os with
  | [] => True
  | o :: os => validTop s o a ts /\
      forall ok ts', runTop s o ts = Return (ok, ts') -> validTops s os (specStep o a) ts'
  end.

(** The test is in the specification's state [a]. *)
Definition refines (a : gset Z * Z) (c : ShardConfig) (ts : Test) : Prop :=
  inv c ts /\ dom (ShardCfg.Groups c) = a.1 /\ ngid ts = a.2 /\ (1 <= a.2)%Z.

Lemma inv_ngid c ts n : inv c ts -> (ngid ts <= n)%Z -> inv c (set_ngid ts n).
Proof.
  intros [] Hn. constructor; try done. intros g Hg. specialize (iv_range0 g Hg). simpl. lia.
Qed.

Lemma runTop_refines s o a c ts :
  refines a c ts -> validTop s o a ts ->
  exists c' ts', runTop s o ts = Return (true, ts') /\ refines (specStep o a) c' ts'.
Proof using All.
  intros (Hi & HD & Hn & H1) Hv. destruct a as [S n], o as [bs|gids]; cbn [specStep runTop validTop fst snd] in *.
  - destruct Hv as (Hsz & Hmax & Hb). unfold len in *. rewrite groups_ids by lia. rewrite Hn.
    set (gids := seqZ n (Z.of_nat (length bs))) in *.
    assert (length gids = length bs) as Hlen by (unfold gids; rewrite length_seqZ; lia).
    assert ((zip gids bs).*1 = gids) as Hfst by (apply fst_zip; lia).
    destruct (joinGroups_ok HcopyOrd HordOf s (zip gids bs) c (set_ngid ts (n + Z.of_nat (length bs))))
      as (c' & ts' & Hj & Hi' & Hn' & HD').
    + apply inv_ngid; [done|lia].
    + done.
    + rewrite Hfst. apply NoDup_seqZ.
    + rewrite Hfst, Forall_forall. intros g [Hg1 Hg2]%elem_of_seqZ. simpl. split; [|lia].
      destruct (ShardCfg.Groups c !! g) eqn:E; [|done].
      pose proof (iv_range _ _ Hi g ltac:(by rewrite E)). lia.
    + rewrite <-size_dom, HD, length_zip_with. lia.
    + exists c', ts'. split; [done|]. split; [done|]. rewrite HD', HD, Hfst. split; [done|].
      split; [done|]. cbn [snd]. lia.
  - destruct Hv as [Hnd Hin]. destruct (leaveGroups_ok HcopyOrd HordOf s gids c ts Hi Hnd)
      as (c' & ts' & Hl & Hi' & Hn' & HD').
    + eapply Forall_impl; [exact Hin|]. intros g Hg. cbn in Hg. by rewrite <-elem_of_dom, HD.
    + exists c', ts'. split; [done|]. split; [done|]. rewrite HD', HD. split; [done|]. by rewrite Hn', Hn.
Qed.

Lemma runTops_refines s os : forall a c ts,
  refines a c ts -> validTops s os a ts ->
  exists c' ts', runTops s os ts = Return (replicate (length os) true, ts') /\
    refines (foldl (fun a o => specStep o a) a os) c' ts'.
Proof using All.
  induction os as [|o os IH]; intros a c ts Hr Hv; simpl; [by exists c, ts|].
  destruct Hv as [Hv Hvs]. destruct (runTop_refines s o a c ts Hr Hv) as (c1 & ts1 & Ho & Hr1). rewrite Ho.
  destruct (IH _ c1 ts1 Hr1 (Hvs _ _ Ho)) as (c' & ts' & E & Hr'). cbn [mbind outcome_bind]. rewrite E.
  by exists c', ts'.
Qed.

(** C11: Joining and leaving implement the set of members.  With a controller that
    keeps its promises and fresh random names, making a test and
    [setupKVService] return, with one group that owns all shards; then any
    sequence of joins (of groups with new identifiers) and leaves returns, every
    [joinGroups] and [leaveGroups] reports success as long as there are at most
    as many groups as shards, and every controller reads the same balanced
    configuration, whose groups are exactly the members of the specification;
    every server of every member is registered with the network, and every key
    has such servers unless all groups have left. *)
Theorem membership_refined e b0 (heap : gmap nat (LabRpc.Server state)) st an k now t t0 p rel part_ maxraft
    a names b s os :
  Groups.startOk [[e]] b0 (Groups.newGroups LabRpc.MakeNetwork heap st) ->
  exists line ts0, MakeTestMaxRaft e b0 heap st an k now t t0 p rel part_ maxraft = Return (line, ts0) /\
  (bootOk names b ts0 ->
   exists ts1, setupKVService a names b ts0 = Return (ShardCfg.Gid1, ts1) /\
   (validTops s os ({[ShardCfg.Gid1]}, 2%Z) ts1 ->
    exists ts2 c, runTops s os ts1 = Return (replicate (length os) true, ts2) /\
     (forall s', Query s' (ctl ts2) = Some c) /\ ShardCfg.good c /\
     dom (ShardCfg.Groups c) = (spec os).1 /\
     (forall g, g ∈ (spec os).1 -> running (Config.groups (cfg ts2)) g) /\
     ((spec os).1 <> ∅ -> forall key, exists g, g ∈ (spec os).1 /\
        ShardCfg.GidServers c (ShardCfg.Key2Shard key) = Return (g, srvNames g, true)))).
Proof using All.
  intros Hok. destruct (MakeTest_ok e b0 heap st an k now t t0 p rel part_ maxraft Hok)
    as (line & ts0 & -> & Hw & Hc & Hn & _).
  exists line, ts0. split; [done|]. intros Hb.
  destruct (setup_ok a names b ts0 ∅ Hw Hc Hn Hb) as (c1 & ts1 & -> & Hi & Hn1 & HG & _).
  exists ts1. split; [done|]. intros Hv.
  assert (refines ({[ShardCfg.Gid1]}, 2%Z) c1 ts1) as Hr.
  { split; [done|]. rewrite HG, dom_singleton_L. simpl. split; [done|]. split; [done|lia]. }
  destruct (runTops_refines s os _ c1 ts1 Hr Hv) as (c & ts2 & -> & (Hi2 & HD & _)).
  exists ts2, c. split; [done|]. split; [apply Hi2|]. split; [apply Hi2|]. split; [exact HD|].
  change (foldl _ _ os) with (spec os) in HD. split.
  - intros g Hg. apply (iv_running _ _ Hi2), elem_of_dom. by rewrite HD.
  - intros Hne key. destruct (ShardCfg.good_key_servers c key (iv_good _ _ Hi2)) as (g & srvs & Hgs & Hin & _).
    { intros E. apply Hne. by rewrite <-HD, E, dom_empty_L. }
    exists g. split; [rewrite <-HD; by apply elem_of_dom_2 in Hin|]. by rewrite Hgs, (iv_names _ _ Hi2 g srvs Hin).
Qed.

End Tests.

End Test.
Arguments Test : clear implicits.

End ShardTest.
