(* ===== verification/ShardChecks.v ===== *)
(** * What the checks of the sharded service's tests decide

    Theorems about the clerks and checks of [ShardTest]
    ([src/src/shardkv1/test.go]): the check that data is sharded, the check
    that a controller recovered, the clients that clerks leave behind, the
    tests run with the repository's controller; and a concrete test, the
    witness of the theorems here and in [ShardTest]. *)

From S2P Require Import Prelude ShardCfg LabRpc Persister Group Groups Clnts KvServers Annotation Config KvTest KvCheck KvSetup ShardTest.

Module ShardChecks.
Import LabRpc(Network).
Import ShardCfg(ShardConfig).
Import KvServers KvSetup ShardTest.

Set Default Proof Using "Type".

Section Checks.
Context {state K : Type} `{!Controller K}.

(** ** Shutting a group down *)

Lemma completions_spec va l : forall n,
  Forall (fun q : nat * string => q.1 < length va) l ->
  (Forall (fun q : nat * string => va !! q.1 = Some q.2) l -> completions va l n = Return (n + len l)%Z) /\
  (~ Forall (fun q : nat * string => va !! q.1 = Some q.2) l -> exists e, completions va l n = Fatal e).
Proof.
  induction l as [|[i v] l IH]; intros n Hr; cbn [completions].
  { split; [|intros []; constructor]. intros _. unfold len. simpl. f_equal. lia. }
  apply Forall_cons in Hr as [Hi Hr]. cbn [fst] in Hi. destruct (lookup_lt_is_Some_2 va i Hi) as [w Hw].
  rewrite (slice_get_Some _ _ _ Hw). cbn [mbind outcome_bind]. destruct (IH (n + 1)%Z Hr) as [IH1 IH2].
  case_decide as Hv.
  - split; [|by eexists]. intros [E _]%Forall_cons. simpl in E. congruence.
  - subst w. split.
    + intros [_ H]%Forall_cons. rewrite IH1 by done. unfold len. simpl length. f_equal. lia.
    + intros Hn. apply IH2. intros H. apply Hn. by constructor.
Qed.

Lemma makeClerks_ok a xs : forall (ts : Test state K) m,
  Config.clnts (cfg ts) = Some m ->
  exists ts' m', makeClerks a xs ts = Return ts' /\ Config.clnts (cfg ts') = Some m' /\
    Config.groups (cfg ts') = Config.groups (cfg ts) /\ ctl ts' = ctl ts /\ ngid ts' = ngid ts.
Proof.
  induction xs as [|x xs IH]; intros ts m Hm; cbn [makeClerks]; [by exists ts, m|].
  unfold MakeClerk, makeShardCtrler, makeShardCtrlerClnt, Config.MakeClient, Config.MakeClientTo,
    Clnts.MakeClientTo. rewrite Hm. simpl. edestruct IH as (ts' & m' & -> & H); [reflexivity|].
  by exists ts', m'.
Qed.

Lemma inv_groups c (ts ts' : Test state K) :
  inv c ts -> ctl ts' = ctl ts -> ngid ts' = ngid ts -> Groups.winv (Config.groups (cfg ts')) ->
  (forall g, is_Some (ShardCfg.Groups c !! g) -> running (Config.groups (cfg ts')) g) -> inv c ts'.
Proof. intros [] Ec En Hw Hr. constructor; try done; rewrite ?Ec, ?En; done. Qed.

(** What the check wants of the [Get]s that completed: the values are those that
    were put, and some key could not be read. *)
Definition dataSharded (ka va : list string) (l : list (nat * string)) : Prop :=
  Forall (fun q => va !! q.1 = Some q.2) l /\ length l < length ka.

(** With the group [down] gone and the others running, a key has no server exactly
    when its shard belongs to [down]. *)
Lemma waiting_servers c (ts ts1 : Test state K) down :
  inv c ts -> is_Some (ShardCfg.Groups c !! down) ->
  (forall i, i < NSRV -> LabRpc.serverOf (Config.net (cfg ts1)) (Group.ServerName down (Z.of_nat i)) = None) ->
  (forall g, g <> down -> is_Some (ShardCfg.Groups c !! g) -> running (Config.groups (cfg ts1)) g) ->
  (forall g, g <> down -> is_Some (ShardCfg.Groups c !! g) -> running (Config.groups (cfg ts1)) g) /\
  forall key, exists g srvs, ShardCfg.GidServers c (ShardCfg.Key2Shard key) = Return (g, srvs, true) /\
    (Forall (fun s => LabRpc.serverOf (Config.net (cfg ts1)) s = None) srvs <-> g = down).
Proof.
  intros Hi [x Hd] Hgone Hrun. split; [exact Hrun|]. intros key.
  destruct (ShardCfg.good_key_servers c key (iv_good _ _ Hi)) as (g & srvs & Hg & Hin & _).
  { intros E. rewrite E, lookup_empty in Hd. done. }
  exists g, srvs. split; [done|]. rewrite (iv_names _ _ Hi g srvs Hin). split.
  - intros Hf. destruct (decide (g = down)) as [|Hne]; [done|exfalso].
    destruct (rn_up _ _ (Hrun g Hne ltac:(by eexists)) 0) as (sid & rs & Hs & _); [unfold NSRV; lia|].
    unfold srvNames, NSRV in Hf. apply Forall_inv in Hf. unfold LabRpc.serverOf in Hf.
    change (Config.net (cfg ts1)) with (Groups.wnet (Config.groups (cfg ts1))) in Hf. by rewrite Hs in Hf.
  - intros ->. apply Forall_fmap, Forall_forall. intros i [_ Hi']%elem_of_seq. by apply Hgone.
Qed.

(** C38: The shutdown check decides whether the data is sharded.  For a running group
    [down] of the current configuration: in the state in which the check waits for
    its [Get]s no server of [down] is registered and every other group runs, so
    that a key has no server exactly when its shard belongs to [down]; with the
    [Get]s of [l] completing, the check passes exactly when each returned the value that was
    put and not all keys could be read, and otherwise fails the test; when it
    passes, all groups of the configuration run again, [down] too. *)
Theorem shutdown_check c (ts : Test state K) m down ka va a l b :
  inv c ts -> Config.clnts (cfg ts) = Some m -> is_Some (ShardCfg.Groups c !! down) ->
  length va = length ka -> Forall (fun q => q.1 < length ka) l ->
  Groups.bootsOk (seq 0 NSRV) b NSRV (Config.net (cfg ts)) ->
  (forall i, i < NSRV -> Groups.wheap (Config.groups (cfg ts)) !! Groups.b_sid (b i) = None) ->
  (exists ts1, waitShutdown down ka a ts = Return ts1 /\
     (forall g, g <> down -> is_Some (ShardCfg.Groups c !! g) -> running (Config.groups (cfg ts1)) g) /\
     forall key, exists g srvs, ShardCfg.GidServers c (ShardCfg.Key2Shard key) = Return (g, srvs, true) /\
       (Forall (fun s => LabRpc.serverOf (Config.net (cfg ts1)) s = None) srvs <-> g = down)) /\
  (dataSharded ka va l ->
     exists ts', checkShutdownSharding down ka va a l b ts = Return ts' /\ inv c ts') /\
  (~ dataSharded ka va l ->
     exists e, checkShutdownSharding down ka va a l b ts = Fatal e).
Proof.
  intros Hi Hm Hd Hlen Hr Hb Hfr.
  destruct (shutdown_ok down (Config.groups (cfg ts)) (iv_world _ _ Hi) (iv_running _ _ Hi _ Hd))
    as (w1 & sg & H1 & Hw1 & Hoth & Hgone & Hsg & Hnm & Hl & Hends & Hheap).
  set (ts1 := set_cfg ts (Config.set_groups (cfg ts) w1)).
  assert (on_servers down Groups.Shutdown ts = Return ts1) as E1 by (unfold on_servers, on_cfg; by rewrite H1).
  destruct (makeClerks_ok a (seq 0 (length ka)) ts1 m Hm) as (ts2 & m2 & E2 & _ & Eg2 & Ec2 & En2).
  assert (waitShutdown down ka a ts = Return ts2) as E12 by (unfold waitShutdown; by rewrite E1).
  split; [exists ts2; split; [done|]; apply (waiting_servers c ts); try done; unfold Config.net; rewrite Eg2;
    [exact Hgone|intros g Hne Hg; by apply Hoth, (iv_running _ _ Hi)]|].
  unfold checkShutdownSharding. rewrite E12.
  cbn [mbind outcome_bind]. rewrite <-Hlen in Hr. destruct (completions_spec va l 0 Hr) as [C1 C2]. split.
  - intros [Hv Hlt]. rewrite C1 by done. cbn [mbind outcome_bind]. rewrite decide_False by (unfold len; lia).
    destruct (restart_ok down sg b w1 Hw1 Hsg Hnm Hl) as (w2 & H2 & Hw2 & Hrun & Hoth2).
    { destruct Hb as [B1 B2 B3 B4]. constructor; try done. by rewrite Hends. }
    { by rewrite Hheap. }
    unfold on_servers, on_cfg. rewrite Eg2. change (Config.groups (cfg ts1)) with w1. rewrite H2.
    eexists. split; [reflexivity|]. apply (inv_groups c ts); try done; cbn.
    intros g Hg. destruct (decide (g = down)) as [->|Hne]; [done|]. by apply Hoth2, Hoth, (iv_running _ _ Hi).
  - intros Hn. destruct (decide (Forall (fun q : nat * string => va !! q.1 = Some q.2) l)) as [Hv|Hv].
    + rewrite C1 by done. cbn [mbind outcome_bind]. rewrite decide_True; [by eexists|].
      destruct (decide (length l < length ka)); [by destruct Hn|]. unfold len. lia.
    + destruct (C2 Hv) as [e ->]. by eexists.
Qed.

(** ** Recovery *)

(** The recovery check is exact: it passes when the second controller's
    configuration is newer than the one before the partition and has the group
    exactly when it was joining ([JOIN]) and not when it was leaving
    ([LEAVE]); the group is then removed only if it had joined. *)
Lemma checkRecovery_iff num st g c r :
  st = JOIN \/ st = LEAVE ->
  checkRecovery num st g c = Return r <->
  (num < ShardCfg.Num c)%Z /\ (g ∈ ShardCfg.Shards c <-> st = JOIN) /\ r = bool_decide (st = JOIN).
Proof.
  intros Hst. unfold checkRecovery. rewrite <-IsMember_spec. case_decide as Hn; [intuition (done || lia)|].
  destruct Hst as [-> | ->]; rewrite ?(bool_decide_eq_true_2 (JOIN = JOIN)), ?(bool_decide_eq_true_2 (LEAVE = LEAVE)),
    ?(bool_decide_eq_false_2 (LEAVE = JOIN)), ?(bool_decide_eq_false_2 (JOIN = LEAVE)) by done;
    destruct (ShardCfg.IsMember c g); cbn [andb orb negb mret outcome_ret].
  - split; [intros [= <-]; split; [lia|done]|]. by intros (_ & _ & ->).
  - split; [done|]. intros (_ & [_ H] & _). by specialize (H eq_refl).
  - split; [done|]. intros (_ & [H _] & _). by specialize (H eq_refl).
  - split; [intros [= <-]; split; [lia|by split]|]. by intros (_ & _ & ->).
Qed.

(** ** Clerks *)

#[export] Instance shardMaker : IClerkMaker state (Test state K) ShardKv.Clerk :=
  {| KvSetup.cfgOf := cfg; KvSetup.set_cfg := set_cfg;
     clients tck := [Clnt tck; ShardCtrler.clnt (ShardKv.sck (IKVClerk tck))]; KvSetup.MakeClerk := ShardTest.MakeClerk;
     KvSetup.DeleteClerk := ShardTest.DeleteClerk |}.

(** The two clients that a clerk's making registers. *)
Lemma MakeClerk_two a (ts : Test state K) m :
  Config.clnts (cfg ts) = Some m ->
  exists ts', ShardTest.MakeClerk a ts
      = Return ({| IKVClerk := ShardKv.MakeClerk (a 0) (ShardCtrler.MakeShardCtrler (a 1)); Clnt := a 0 |}, ts') /\
    Config.groups (cfg ts') = Config.groups (cfg ts) /\
    Config.clnts (cfg ts') = Some (<[a 1 := Clnts.makeClntTo None]> (<[a 0 := Clnts.makeClntTo None]> m)).
Proof.
  intros Hm. unfold ShardTest.MakeClerk, makeShardCtrler, makeShardCtrlerClnt, Config.MakeClient,
    Config.MakeClientTo, Clnts.MakeClientTo. rewrite Hm. by eexists.
Qed.

#[export] Instance shardLaws : ClerkMakerLaws shardMaker (fun _ => True).
Proof.
  constructor; [done| |done]. intros a ts m _ Hm Hf Hinj. cbn [cfgOf shardMaker] in Hm.
  destruct (MakeClerk_two a ts m Hm) as (ts' & E & Eg & Ec). eexists _, ts', _.
  split; [exact E|]. split; [split; [exact Ec|split; [exact Eg|split]]|].
  - etrans; [apply (insert_subseteq m (a 0)), Hf|]. apply insert_subseteq.
    rewrite lookup_insert_ne by (by intros ?%Hinj). apply Hf.
  - intros x c [[<- <-]|[_ [[<- <-]|[_ H]]%lookup_insert_Some]]%lookup_insert_Some; [right|right|by left].
    + split; [by exists 1|done].
    + split; [by exists 0|done].
  - split; [left|]. simpl. constructor; [|constructor; [|done]].
    + split; [|by exists 0]. rewrite lookup_insert_ne by (by intros ?%Hinj). apply lookup_insert_eq.
    + split; [apply lookup_insert_eq|by exists 1].
Qed.

(** A clerk leaves its controller's client behind.  [MakeClerk] registers two
    clients, one for the clerk and one for its controller, and [DeleteClerk]
    deletes the first only: after making and deleting a clerk the test has one
    more client than before, until the test is cleaned up. *)
Theorem clerk_leaves_client a (ts : Test state K) m :
  Config.clnts (cfg ts) = Some m -> (forall k, m !! a k = None) -> a 0 <> a 1 ->
  exists tck ts1 ts', ShardTest.MakeClerk a ts = Return (tck, ts1) /\
    ShardTest.DeleteClerk tck ts1 = Return ts' /\
    Config.clnts (cfg ts') = Some (<[a 1 := Clnts.makeClntTo None]> m) /\ m !! a 1 = None.
Proof.
  intros Hm Hf Hne. destruct (MakeClerk_two a ts m Hm) as (ts1 & E & _ & Ec).
  eexists _, ts1, _. split; [exact E|]. unfold ShardTest.DeleteClerk, Config.DeleteClient. simpl. rewrite Ec.
  unfold Clnts.DeleteClient. rewrite lookup_insert_ne by done. rewrite lookup_insert_eq.
  unfold Clnts.remove. simpl. rewrite map_to_list_empty. split; [reflexivity|]. simpl. split; [|apply Hf].
  rewrite delete_insert_ne by done. by rewrite delete_insert_id.
Qed.

End Checks.

(** ** The repository's controller *)

(** With the controller of the repository, whose [Query] returns nil, the first
    join panics. *)
Lemma skeleton_panics {state} copyOrd ordOf s gid srvs (ts : Test state unit) :
  join (Controller0 := skeleton) copyOrd ordOf s gid srvs ts = Panic "nil pointer dereference".
Proof. done. Qed.

(** ** A concrete test *)

(** A controller that keeps its promises: the current configuration. *)
#[local] Instance memCtl : Controller (option ShardConfig) :=
  {| InitController _ k := k; InitConfig c _ _ := Some c; ChangeConfigTo c _ _ := Some c; Query _ k := k |}.
#[local] Instance memLaws : ControllerLaws (option ShardConfig).
Proof. by constructor. Qed.

Definition exCopyOrd (m : gmap Z (list string)) : list (Z * list string) := map_to_list m.
Definition exOrdOf (m : gmap Z (list string)) (_ : nat) : list Z := (map_to_list m).*1.

Lemma exCopyOrd_ok m : exCopyOrd m ≡ₚ map_to_list m.
Proof. unfold exCopyOrd. reflexivity. Qed.
Lemma exOrdOf_ok m k : ShardCfg.iterates (exOrdOf m k) m.
Proof. unfold ShardCfg.iterates, exOrdOf. reflexivity. Qed.

(** [n] servers whose end names start with [pre]. *)
Definition exNames (n : nat) (pre : string) : list (list string) :=
  (fun i => (fun j => pre +:+ Itoa (Z.of_nat i) +:+ Itoa (Z.of_nat j)) <$> seq 0 n) <$> seq 0 n.
Definition exBoot (n : nat) (pre : string) (sid i : nat) : Groups.boot Z :=
  {| Groups.b_names := (fun j => pre +:+ Itoa (Z.of_nat i) +:+ Itoa (Z.of_nat j)) <$> seq 0 n;
     Groups.b_mks := ([10 * sid + i], [LabRpc.counterService]); Groups.b_sid := sid + i |}.
Definition exGroup (k : nat) : list (list string) * (nat -> Groups.boot Z) :=
  (exNames 3 ("n" +:+ Itoa (Z.of_nat k) +:+ "."), exBoot 3 ("b" +:+ Itoa (Z.of_nat k) +:+ ".") (10 * k)).

(** The conditions of the theorems, by computation. *)
Definition exT : Type := Test Z (option ShardConfig).
Definition bootOk_b {K} (g : list (list string) * (nat -> Groups.boot Z)) (ts : Test Z K) : bool :=
  Nat.eqb (length g.1) NSRV && Groups.startOk_b g.1 g.2 (Config.groups (cfg ts)).
Definition exJoinOne := joinOne (state := Z) (K := option ShardConfig) exCopyOrd exOrdOf.
Definition exRunTop := runTop (state := Z) (K := option ShardConfig) exCopyOrd exOrdOf.
Definition exRunTops := runTops (state := Z) (K := option ShardConfig) exCopyOrd exOrdOf.
Fixpoint bootsOk_b (s : ShardCtrler.ShardCtrler)
    (l : list (Z * (list (list string) * (nat -> Groups.boot Z)))) (ts : exT) : bool :=
  match l with
  | [] => true
  | (gid, g) :: l =>
      bootOk_b g ts && match exJoinOne s gid g.1 g.2 ts with Return (_, ts) => bootsOk_b s l ts | _ => true end
  end.
Definition validTop_b (s : ShardCtrler.ShardCtrler) (o : top (state := Z)) (a : gset Z * Z) (ts : exT) : bool :=
  match o with
  | TJoin bs => bool_decide (size a.1 + length bs <= ShardCfg.NShards) &&
      bool_decide (a.2 + len bs <= int_max)%Z &&
      bootsOk_b s (zip (seqZ a.2 (len bs)) bs) (set_ngid ts (a.2 + len bs))
  | TLeave gids => bool_decide (NoDup gids) && forallb (fun g => bool_decide (g ∈ a.1)) gids
  end.
Fixpoint validTops_b (s : ShardCtrler.ShardCtrler) (os : list (top (state := Z))) (a : gset Z * Z) (ts : exT) : bool :=
  match os with
  | [] => true
  | o :: os => validTop_b s o a ts &&
      match exRunTop s o ts with Return (_, ts) => validTops_b s os (specStep o a) ts | _ => true end
  end.

Lemma bootOk_dec {K} g (ts : Test Z K) : bootOk_b g ts = true -> bootOk g.1 g.2 ts.
Proof. intros [H1%Nat.eqb_eq H2]%andb_true_iff. split; [done|]. by apply Groups.startOk_dec. Qed.

Lemma bootsOk_dec s l : forall ts, bootsOk_b s l ts = true -> bootsOk exCopyOrd exOrdOf s l ts.
Proof.
  induction l as [|[gid [names b]] l IH]; intros ts; simpl; [done|]. intros [H1 H2]%andb_true_iff.
  split; [exact (bootOk_dec (names, b) ts H1)|]. intros ok ts' E. unfold exJoinOne in H2. rewrite E in H2. by apply IH.
Qed.

Lemma validTop_dec s o a ts : validTop_b s o a ts = true -> validTop exCopyOrd exOrdOf s o a ts.
Proof.
  destruct o as [bs|gids]; simpl.
  - intros [[H1%bool_decide_eq_true H2%bool_decide_eq_true]%andb_true_iff H3]%andb_true_iff.
    split_and!; try done. by apply bootsOk_dec.
  - intros [H1%bool_decide_eq_true H2]%andb_true_iff. split; [done|]. apply Forall_forall. intros g Hg.
    rewrite forallb_forall in H2. apply (bool_decide_eq_true_1 _), H2. by apply list_elem_of_In.
Qed.

Lemma validTops_dec s os : forall a ts, validTops_b s os a ts = true -> validTops exCopyOrd exOrdOf s os a ts.
Proof.
  induction os as [|o os IH]; intros a ts; simpl; [done|]. intros [H1 H2]%andb_true_iff.
  split; [by apply validTop_dec|]. intros ok ts' E. unfold exRunTop in H2. rewrite E in H2. by apply IH.
Qed.

Definition exMakeWith {K} (k : K) : outcome (string * Test Z K) :=
  MakeTestMaxRaft "e" (exBoot 1 "f" 1) ∅ Persister.empty_store
    {| Annotation.annotation := Annotation.mkAnnotation; Annotation.finfo := None |} k 0 1 2 "5A" true false (-1).
Definition exSetup {K} `{!Controller K} (m : outcome (string * Test Z K)) : outcome (Z * Test Z K) :=
  '(_, ts) ← m; setupKVService exOrdOf 0 (exGroup 1).1 (exGroup 1).2 ts.
Definition exMake : outcome (string * exT) := exMakeWith None.
Definition exS : ShardCtrler.ShardCtrler := ShardCtrler.MakeShardCtrler 0.
Definition exOps : list (top (state := Z)) := [TJoin [exGroup 2; exGroup 3]; TLeave [1%Z]; TJoin [exGroup 4]].

(** Two groups join, the first one leaves and another joins. *)
Lemma membership_refined_witness :
  exists ts1 ts2 c, exSetup exMake = Return (1%Z, ts1) /\
    exRunTops exS exOps ts1 = Return ([true; true; true], ts2) /\ Query exS (ctl ts2) = Some c /\
    dom (ShardCfg.Groups c) = {[2%Z; 3%Z; 4%Z]} /\ running (Config.groups (cfg ts2)) 4.
Proof.
  destruct (membership_refined exCopyOrd exOrdOf exCopyOrd_ok exOrdOf_ok "e" (exBoot 1 "f" 1) ∅
    Persister.empty_store {| Annotation.annotation := Annotation.mkAnnotation; Annotation.finfo := None |} None
    0 1 2 "5A" true false (-1) 0 (exGroup 1).1 (exGroup 1).2 exS exOps) as (line & ts0 & H0 & H1).
  { apply Groups.startOk_dec. vm_compute. reflexivity. }
  assert (exMake = Return (line, ts0)) as E0 by exact H0.
  destruct H1 as (ts1 & H1 & H2).
  { apply bootOk_dec. apply (check_Return exMake (fun x => bootOk_b (exGroup 1) x.2) _ E0). vm_compute. reflexivity. }
  assert (exSetup exMake = Return (1%Z, ts1)) as E1 by (unfold exSetup; rewrite E0; exact H1).
  destruct H2 as (ts2 & c & H2 & Hq & _ & HD & Hr & _).
  { apply validTops_dec.
    apply (check_Return (exSetup exMake) (fun x => validTops_b exS exOps ({[1%Z]}, 2%Z) x.2) _ E1).
    vm_compute. reflexivity. }
  assert ((spec exOps).1 = {[2%Z; 3%Z; 4%Z]}) as Es by (apply (bool_decide_eq_true_1 _); vm_compute; reflexivity).
  rewrite Es in HD, Hr. exists ts1, ts2, c. split; [exact E1|]. split; [exact H2|]. split; [apply Hq|].
  split; [exact HD|]. apply Hr. set_solver.
Defined.

(** Twelve groups. *)
Definition exFull : list (top (state := Z)) := [TJoin (exGroup <$> seq 2 11)].

(** The service after [setupKVService], with any controller. *)
Lemma exSetup_state {K} `{!Controller K, !ControllerLaws K} (k : K) :
  exists c ts, exSetup (exMakeWith k) = Return (1%Z, ts) /\ inv c ts /\ ngid ts = 2%Z /\
    ShardCfg.Groups c = {[1%Z := srvNames 1]}.
Proof.
  destruct (MakeTest_ok "e" (exBoot 1 "f" 1) ∅ Persister.empty_store
    {| Annotation.annotation := Annotation.mkAnnotation; Annotation.finfo := None |} k
    0 1 2 "5A" true false (-1)) as (line & ts0 & E0 & Hw & Hc & Hn & _).
  { apply Groups.startOk_dec. vm_compute. reflexivity. }
  change (exMakeWith k = Return (line, ts0)) in E0.
  destruct (setup_ok exCopyOrd exOrdOf exCopyOrd_ok exOrdOf_ok 0 (exGroup 1).1 (exGroup 1).2 ts0 ∅ Hw Hc Hn)
    as (c1 & ts1 & E1 & Hi & Hn1 & HG & _).
  { apply bootOk_dec. apply (check_Return (exMakeWith k) (fun x => bootOk_b (exGroup 1) x.2) _ E0).
    vm_compute. reflexivity. }
  exists c1, ts1. split; [unfold exSetup; rewrite E0; exact E1|]. done.
Qed.

Lemma exFull_state :
  exists c ts, inv c ts /\ bootOk (exGroup 13).1 (exGroup 13).2 (set_ngid ts 14) /\ ngid ts = 13%Z /\
    size (ShardCfg.Groups c) = 12 /\ ShardCfg.Groups c !! 13%Z = None.
Proof.
  assert (check (exSetup exMake) (fun x => check (exRunTops exS exFull x.2) (fun y => bootOk_b (exGroup 13) y.2)) = true)
    as Hchk by (vm_compute; reflexivity).
  destruct (exSetup_state (None : option ShardConfig)) as (c1 & ts1 & E1' & Hi & Hn1 & HG).
  destruct (runTops_refines exCopyOrd exOrdOf exCopyOrd_ok exOrdOf_ok exS exFull ({[ShardCfg.Gid1]}, 2%Z) c1 ts1)
    as (c & ts & E2 & Hi2 & HD & Hn2 & _).
  { split; [done|]. rewrite HG, dom_singleton_L. simpl. split; [done|]. split; [done|lia]. }
  { apply validTops_dec.
    apply (check_Return (exSetup exMake) (fun x => validTops_b exS exFull ({[1%Z]}, 2%Z) x.2) _ E1').
    vm_compute. reflexivity. }
  exists c, ts. split; [exact Hi2|]. split; [|split; [rewrite Hn2; reflexivity|split]].
  - change (bootOk (exGroup 13).1 (exGroup 13).2 ts). apply bootOk_dec.
    apply (check_Return (exRunTops exS exFull ts1) (fun y => bootOk_b (exGroup 13) y.2) _ E2).
    exact (check_Return (exSetup exMake) _ _ E1' Hchk).
  - rewrite <-size_dom, HD. vm_compute. reflexivity.
  - apply not_elem_of_dom. rewrite HD. apply (bool_decide_eq_true_1 _). vm_compute. reflexivity.
Qed.

Lemma join_beyond_shards_witness :
  exists c ts c' ts',
    joinGroups exCopyOrd exOrdOf exS [(13%Z, exGroup 13)] ts = Return (false, ts') /\
    Query exS (ctl ts) = Some c /\ Query exS (ctl ts') = Some c' /\
    size (ShardCfg.Groups c) = 12 /\ is_Some (ShardCfg.Groups c' !! 13%Z).
Proof.
  destruct exFull_state as (c & ts & Hi & Hb & Hn & Hsz & HN).
  destruct (join_beyond_shards exCopyOrd exOrdOf exCopyOrd_ok exOrdOf_ok exS 13 (exGroup 13).1 (exGroup 13).2 [] c
    (set_ngid ts 14)) as (c' & ts' & H1 & H2 & H3 & _).
  - apply inv_ngid; [exact Hi|]. rewrite Hn. lia.
  - exact Hb.
  - exact HN.
  - cbn [ngid set_ngid]. lia.
  - rewrite Hsz. unfold ShardCfg.NShards. lia.
  - exists c, (set_ngid ts 14), c', ts'. split; [exact H1|]. split; [apply (iv_query _ _ Hi)|]. split; [apply H2|].
    split; [exact Hsz|]. rewrite H3, lookup_insert_eq. by eexists.
Defined.

(** The first group restarts with new names. *)
Definition exRestart : nat -> Groups.boot Z := exBoot 3 "r." 500.

Lemma startOk_restart names b (w : Groups.world Z) :
  length names = NSRV -> Groups.startOk names b w ->
  Groups.bootsOk (seq 0 NSRV) b NSRV (Groups.wnet w) /\
  forall i, i < NSRV -> Groups.wheap w !! Groups.b_sid (b i) = None.
Proof.
  intros Hl [S1 S2 _ S4 S5 S6]. rewrite Hl in *. apply NoDup_app in S1 as (_ & _ & S1). split; [|done].
  constructor; try done.
  - intros e He. apply S2, elem_of_app. by right.
  - intros i [_ Hi]%elem_of_seq. by apply S4.
Qed.

(** One of two keys is read while the only group is down. *)
Lemma shutdown_check_witness :
  exists ts ts', checkShutdownSharding 1 ["k"; "j"] ["v"; "w"] (fun x k => 10 + 2 * x + k) [(1, "w")] exRestart ts
                 = Return ts' /\
    exSetup exMake = Return (1%Z, ts) /\ running (Config.groups (cfg ts')) 1.
Proof.
  destruct (exSetup_state (None : option ShardConfig)) as (c & ts & E & Hi & _ & HG).
  assert (bootOk (exNames 3 "x.") exRestart ts) as [Hl Hok].
  { apply (bootOk_dec (exNames 3 "x.", exRestart)).
    apply (check_Return (exSetup exMake) (fun x => bootOk_b (exNames 3 "x.", exRestart) x.2) _ E).
    vm_compute. reflexivity. }
  assert (check (exSetup exMake) (fun x => bool_decide (is_Some (Config.clnts (cfg x.2)))) = true) as Hc
    by (vm_compute; reflexivity).
  apply (check_Return _ _ _ E), (bool_decide_eq_true_1 _) in Hc as [m Hm].
  destruct (startOk_restart _ _ _ Hl Hok) as [Hb Hh].
  destruct (shutdown_check c ts m 1 ["k"; "j"] ["v"; "w"] (fun x k => 10 + 2 * x + k) [(1, "w")] exRestart Hi Hm)
    as (_ & Hpass & _).
  - rewrite HG, lookup_singleton_eq. by eexists.
  - reflexivity.
  - repeat constructor.
  - exact Hb.
  - exact Hh.
  - destruct Hpass as (ts' & E' & Hi'); [split; [repeat constructor|simpl; lia]|].
    exists ts, ts'. split; [exact E'|]. split; [exact E|]. apply (iv_running _ _ Hi').
    rewrite HG, lookup_singleton_eq. by eexists.
Defined.

Lemma clerk_leaves_client_witness :
  exists ts m tck ts1 ts', exSetup exMake = Return (1%Z, ts) /\ Config.clnts (cfg ts) = Some m /\
    ShardTest.MakeClerk (fun k => 5 + k) ts = Return (tck, ts1) /\ ShardTest.DeleteClerk tck ts1 = Return ts' /\
    Config.clnts (cfg ts') = Some (<[6 := Clnts.makeClntTo None]> m).
Proof.
  destruct (exSetup_state (None : option ShardConfig)) as (c & ts & E & _).
  assert (check (exSetup exMake) (fun x => match Config.clnts (cfg x.2) with
    | Some m => bool_decide (dom m = {[0]}) | None => false end) = true) as Hc by (vm_compute; reflexivity).
  apply (check_Return _ _ _ E) in Hc. cbn [snd] in Hc.
  destruct (Config.clnts (cfg ts)) as [m|] eqn:Hm; [|discriminate]. apply (bool_decide_eq_true_1 _) in Hc.
  destruct (clerk_leaves_client (fun k => 5 + k) ts m Hm) as (tck & ts1 & ts' & H1 & H2 & H3 & _).
  - intros k. apply not_elem_of_dom. rewrite Hc, elem_of_singleton. lia.
  - lia.
  - exists ts, m, tck, ts1, ts'. split; [exact E|]. split; [exact Hm|]. split; [exact H1|]. split; [exact H2|exact H3].
Defined.

(** A clerk calls two servers over its own client, in between its controller asks
    for the configuration; the controller's end is left behind. *)
Definition exCalls : list (nat * (string * string * string * string)) :=
  [(5, ("x1", "server-1-1", "KVServer.Get", "k")); (6, ("x2", "server-0-0", "KVServer.Get", "config"));
   (5, ("x3", "server-1-0", "KVServer.Put", "k"))].

Lemma clerk_lifecycle_witness :
  exists ts tck ts1 m1 ms m2 n2 ts', exSetup exMake = Return (1%Z, ts) /\
    ShardTest.MakeClerk (fun k => 5 + k) ts = Return (tck, ts1) /\
    clientCalls exCalls m1 (Config.net (cfg ts)) = Return (ms, m2, n2) /\ length ms = 3 /\
    ShardTest.DeleteClerk tck (set_cfg ts1 (cfgWith m2 n2 (cfg ts1))) = Return ts' /\
    LabRpc.ends (Config.net (cfg ts')) = {["x2"]} ∪ LabRpc.ends (Config.net (cfg ts)).
Proof.
  destruct (exSetup_state (None : option ShardConfig)) as (c & ts & E & _).
  change (exSetup exMake = Return (1%Z, ts)) in E.
  assert (check (exSetup exMake) (fun x => match Config.clnts (cfg x.2) with
    | Some m => bool_decide (dom m = {[0]}) &&
        bool_decide (Forall (fun e => e ∉ LabRpc.ends (Config.net (cfg x.2))) ["x1"; "x2"; "x3"])
    | None => false end) = true) as Hc by (vm_compute; reflexivity).
  apply (check_Return _ _ _ E) in Hc. cbn [snd] in Hc.
  destruct (Config.clnts (cfg ts)) as [m|] eqn:Hm; [|discriminate].
  apply andb_true_iff in Hc as [Hdom%bool_decide_eq_true Hnew%bool_decide_eq_true]. rewrite Forall_forall in Hnew.
  assert (forall k, m !! (5 + k) = None) as Hf by (intros k; apply not_elem_of_dom; rewrite Hdom, elem_of_singleton; lia).
  destruct (MakeClerk_two (fun k => 5 + k) ts m Hm) as (ts1' & Hmk' & _ & Ec).
  destruct (clerk_lifecycle shardMaker (fun _ => True) (fun k => 5 + k) ts m I Hm Hf ltac:(cbv beta; lia))
    as (tck & ts1 & m1 & Hmk & Hm1 & En & Hall).
  assert (ShardTest.MakeClerk (fun k => 5 + k) ts = Return (tck, ts1)) as Hmk1 by exact Hmk.
  rewrite Hmk' in Hmk1. injection Hmk1 as Etck Ets.
  destruct (Hall exCalls) as (ms & m2 & n2 & mso & mo & no & ts' & m' & H1 & H2 & H3 & H4 & H5 & _).
  - rewrite <-Etck. repeat constructor; set_solver.
  - apply (bool_decide_eq_true_1 _). vm_compute. reflexivity.
  - intros x Hx. by apply Hnew.
  - exists ts, tck, ts1, m1, ms, m2, n2, ts'. split; [exact E|]. split; [exact Hmk|]. split; [exact H1|].
    split; [symmetry; exact (Forall2_length _ _ _ H2)|]. split; [exact H4|].
    rewrite <-Etck in H3. change (Config.net (cfgOf ts)) with (Config.net (cfg ts)) in H3.
    assert (m1 !! 6 = Some (Clnts.makeClntTo None)) as E6.
    { rewrite <-Ets in Hm1. assert (Config.clnts (cfg ts1') = Some m1) as Hm1' by exact Hm1. rewrite Ec in Hm1'.
      injection Hm1' as <-. apply lookup_insert_eq. }
    destruct (first_client_call 6 ("x2", "server-0-0", "KVServer.Get", "config") m1 (Config.net (cfg ts)) E6)
      as (msg & mx & nx & H6 & Hx); [apply Hnew; right; left|].
    etrans; [exact H5|]. change (others _ exCalls) with [(6, ("x2", "server-0-0", "KVServer.Get", "config"))] in H3.
    cbn [clientCalls] in H3. rewrite H6 in H3. injection H3 as _ _ <-. exact Hx.
Defined.

End ShardChecks.
