(* ===== verification/ShardConcur.v ===== *)
(** * Concurrent shard controllers

    Models [concurCtrler] of [src/src/shardkv1/test.go]: goroutines that each
    make a controller, let a new group join and leave again, until they are
    told to stop.  Their calls of the controller, which recover, read the
    current configuration, record a change and complete it, are interleaved in
    any way, so that a change may be superseded midway and finished by another
    goroutine's controller; what a controller promises then is the class
    [ConcurrentLaws].  A goroutine's state says how far it is in the bodies of
    [joinGroups] and [leaveGroups] of [ShardTest]. *)

From S2P Require Import Prelude ShardCfg LabRpc Persister Group Groups Clnts KvServers Annotation Config KvTest KvCheck KvSetup ShardTest ShardChecks.

Module ShardConcur.
Import ShardCfg(ShardConfig).
Import KvServers KvSetup ShardTest.

Set Default Proof Using "Type".

(** An operation that leaves the configuration and what is pending alone, or
    finishes what is pending. *)
Definition harmless {K} `{!Controller K, !Interruptible K} (k k' : K) : Prop :=
  (forall sck, Query sck k' = Query sck k) /\ pending k' = pending k \/
  exists c', pending k = Some c' /\ (forall sck, Query sck k' = Some c') /\ pending k' = None.

(** What the comments promise of controllers that run at the same time: a change
    that follows the current configuration is recorded if no other change is
    pending; one that was superseded is not, though its controller may finish
    what is pending; completing a change, which somebody else may have finished
    meanwhile, and the recovery of a controller that starts do no more than
    finish what is pending. *)
Class ConcurrentLaws (K : Type) `{!Controller K, !Interruptible K} := {
  begin_recorded sck sck' c c' k :
    Query sck k = Some c -> pending k = None -> ShardCfg.Num c' = wrap64 (ShardCfg.Num c + 1) ->
    Query sck' (BeginChange c' sck k) = Some c /\ pending (BeginChange c' sck k) = Some c';
  begin_superseded sck c c' k :
    Query sck k = Some c -> ~ (pending k = None /\ ShardCfg.Num c' = wrap64 (ShardCfg.Num c + 1)) ->
    harmless k (BeginChange c' sck k);
  end_harmless sck c k : Query sck k = Some c -> harmless k (EndChange sck k);
  init_harmless sck c k : Query sck k = Some c -> harmless k (InitController sck k)
}.

(** Controllers that recover as [RecoveryLaws] and [SupersededLaws] say are such
    controllers, if they do not record changes that were superseded. *)
Lemma recovery_concurrent {K} `{!Controller K, !Interruptible K, !ControllerLaws K, !RecoveryLaws K, !SupersededLaws K} :
  (forall sck c c' k, Query sck k = Some c -> ~ (pending k = None /\ ShardCfg.Num c' = wrap64 (ShardCfg.Num c + 1)) ->
     harmless k (BeginChange c' sck k)) -> ConcurrentLaws K.
Proof.
  intros Hb. constructor; [apply begin_change|exact Hb|..].
  - intros sck c k _. destruct (pending k) as [c'|] eqn:Hp.
    + right. exists c'. split; [done|]. split; [intros s; by apply (end_change sck s c')|by apply (end_change sck sck c')].
    + left. split; [intros s; by apply end_superseded|]. rewrite Hp. by apply (end_superseded sck sck).
  - intros sck c k Hq. assert (forall s, Query s (InitController sck k) = Some (default c (pending k))) as Hi
      by (intros s; by apply init_recovers).
    destruct (init_recovers sck sck c k Hq) as [_ Hn]. destruct (pending k) as [c'|] eqn:Hp.
    + right. by exists c'.
    + left. split; [|by rewrite Hp]. intros s. by rewrite Hi, <-(query_same sck s k), Hq.
Qed.

(** Where a goroutine is: at the head of its loop; it has a new identifier; it has
    made a controller, which has recovered; its group was started; it has read
    the configuration and computed the next one; the change is recorded; it is
    completed; after the check of [joinGroups]; its group is a member; the same
    for leaving; about to let the group exit; stopped. *)
Inductive cpc :=
| CIdle
| CGid (g : Z)
| CNew (g : Z) (s : ShardCtrler.ShardCtrler)
| CInit (g : Z) (s : ShardCtrler.ShardCtrler)
| CMade (g : Z) (s : ShardCtrler.ShardCtrler)
| CJoining (g : Z) (s : ShardCtrler.ShardCtrler) (c : ShardConfig)
| CInJoin (g : Z) (s : ShardCtrler.ShardCtrler)
| CJoined (g : Z) (s : ShardCtrler.ShardCtrler)
| CChecked (g : Z) (s : ShardCtrler.ShardCtrler)
| CMember (g : Z) (s : ShardCtrler.ShardCtrler)
| CLeaving (g : Z) (s : ShardCtrler.ShardCtrler) (c : ShardConfig)
| CInLeave (g : Z) (s : ShardCtrler.ShardCtrler)
| CLeft (g : Z) (s : ShardCtrler.ShardCtrler)
| CExit (g : Z) (s : ShardCtrler.ShardCtrler)
| CStopped.

(** The group of a goroutine's turn, and whether it was started. *)
Definition gidOf (pc : cpc) : option Z :=
  match pc with
  | CIdle | CStopped => None
  | CGid g | CNew g _ | CInit g _ | CMade g _ | CJoining g _ _ | CInJoin g _ | CJoined g _ | CChecked g _
  | CMember g _ | CLeaving g _ _ | CInLeave g _ | CLeft g _ | CExit g _ => Some g
  end.
Definition started (pc : cpc) : bool :=
  match pc with CIdle | CStopped | CGid _ | CNew _ _ | CInit _ _ => false | _ => true end.

(** The environment can always provide the servers of a new group. *)
Lemma bootOk_exists {state K} (ts : Test state K) : exists names b, bootOk names b ts.
Proof.
  set (X := LabRpc.ends (Groups.wnet (Config.groups (cfg ts)))).
  set (H := Groups.wheap (Config.groups (cfg ts))).
  pose proof (NoDup_fresh_list 18 X) as Hnd. pose proof (fresh_list_is_fresh 18 X) as Hfr.
  pose proof (NoDup_fresh_list 3 (dom H)) as Hsd. pose proof (fresh_list_is_fresh 3 (dom H)) as Hsf.
  pose proof (length_fresh_list 18 X) as Hl. pose proof (length_fresh_list 3 (dom H)) as Hsl.
  set (l := fresh_list 18 X) in *. set (sids := fresh_list 3 (dom H)) in *. clearbody l sids.
  do 18 (destruct l as [|? l]; [discriminate|]). destruct l; [|discriminate].
  do 3 (destruct sids as [|? sids]; [discriminate|]). destruct sids; [|discriminate].
  exists [[s; s0; s1]; [s2; s3; s4]; [s5; s6; s7]],
    (fun i => {| Groups.b_names := nth i [[s8; s9; s10]; [s11; s12; s13]; [s14; s15; s16]] [];
                 Groups.b_mks := ([], []); Groups.b_sid := nth i [n; n0; n1] 0 |}).
  split; [done|]. constructor; simpl.
  - exact Hnd.
  - intros e He. by apply (Hfr e).
  - by repeat constructor.
  - intros i Hi. by do 3 (destruct i as [|i]; [done|]); lia.
  - exact Hsd.
  - intros i Hi. apply not_elem_of_dom, Hsf. do 3 (destruct i as [|i]; [simpl; set_solver|]). lia.
Qed.

Section Concur.
Context {state K : Type} `{!Controller K, !Interruptible K}.
Context (copyOrd : gmap Z (list string) -> list (Z * list string)).
Context (ordOf : gmap Z (list string) -> nat -> list Z).

(** One operation of a goroutine on the test.  [join] and [leave] are split where
    they call the controller, and the change of the configuration where another
    controller may come between; their [log.Fatalf] is not a step. *)
Inductive pstep : cpc -> Test state K -> cpc -> Test state K -> Prop :=
| p_stop ts : pstep CIdle ts CStopped ts
| p_gid g ts ts' : newGid ts = (g, ts') -> pstep CIdle ts (CGid g) ts'
| p_make a g s ts ts' : makeShardCtrler a ts = Return (s, ts') -> pstep (CGid g) ts (CNew g s) ts'
| p_init g s ts : pstep (CNew g s) ts (CInit g s) (set_ctl ts (InitController s (ctl ts)))
| p_start names b g s ts ts' :
    bootOk names b ts -> on_cfg (Config.MakeGroupStart g names b) ts = Return ts' ->
    pstep (CInit g s) ts (CMade g s) ts'
| p_join g s sg c c' ts :
    theGroup g ts = Return sg -> current s ts = Return c ->
    ShardCfg.JoinBalance [(g, Groups.SrvNames sg)] (ordOf (<[g := Groups.SrvNames sg]> (ShardCfg.Groups c)))
      (ShardCfg.Copy (copyOrd (ShardCfg.Groups c)) c) = Return (Some (true, c')) ->
    pstep (CMade g s) ts (CJoining g s c') ts
| p_record g s c ts : pstep (CJoining g s c) ts (CInJoin g s) (set_ctl ts (BeginChange c s (ctl ts)))
| p_joined g s ts : pstep (CInJoin g s) ts (CJoined g s) (set_ctl ts (EndChange s (ctl ts)))
| p_check g s ok ts : checkMember s g ts = Return ok -> pstep (CJoined g s) ts (CChecked g s) ts
| p_member g s ok ts :
    checkMember s g ts = Return ok -> pstep (CChecked g s) ts (if ok then CMember g s else CIdle) ts
| p_leave g s c c' ts :
    current s ts = Return c ->
    ShardCfg.LeaveBalance [g] (ordOf (delete g (ShardCfg.Groups c)))
      (ShardCfg.Copy (copyOrd (ShardCfg.Groups c)) c) = Return (Some (true, c')) ->
    pstep (CMember g s) ts (CLeaving g s c') ts
| p_record_leave g s c ts : pstep (CLeaving g s c) ts (CInLeave g s) (set_ctl ts (BeginChange c s (ctl ts)))
| p_left g s ts : pstep (CInLeave g s) ts (CLeft g s) (set_ctl ts (EndChange s (ctl ts)))
| p_gone g s ok ts :
    checkMember s g ts = Return ok -> pstep (CLeft g s) ts (if ok then CIdle else CExit g s) ts
| p_exit g s ts ts' :
    on_cfg (Config.ExitGroup g) ts = Return ts' -> pstep (CExit g s) ts CIdle ts'.

(** The goroutines in any interleaving. *)
Inductive cstep : Test state K * list cpc -> Test state K * list cpc -> Prop :=
| c_step i pc pc' ts ts' ps :
    ps !! i = Some pc -> pstep pc ts pc' ts' -> cstep (ts, ps) (ts', <[i := pc']> ps).

(** The step of a goroutine as a function, given the client's address and the
    servers of a new group, or that it was told to stop. *)
Definition plan : Type := option (nat * (list (list string) * (nat -> Groups.boot state))).
Definition pnext (d : plan) (pc : cpc) (ts : Test state K) : outcome (cpc * Test state K) :=
  match pc with
  | CIdle =>
      match d with
      | None => Return (CStopped, ts)
      | Some _ => let '(g, ts) := newGid ts in Return (CGid g, ts)
      end
  | CGid g =>
      match d with
      | None => Fatal "no client"
      | Some (a, _) => '(s, ts) ← makeShardCtrler a ts; mret (CNew g s, ts)
      end
  | CNew g s => Return (CInit g s, set_ctl ts (InitController s (ctl ts)))
  | CInit g s =>
      match d with
      | None => Fatal "no servers"
      | Some (_, (names, b)) => ts ← on_cfg (Config.MakeGroupStart g names b) ts; mret (CMade g s, ts)
      end
  | CMade g s =>
      sg ← theGroup g ts;
      c ← current s ts;
      r ← ShardCfg.JoinBalance [(g, Groups.SrvNames sg)] (ordOf (<[g := Groups.SrvNames sg]> (ShardCfg.Groups c)))
            (ShardCfg.Copy (copyOrd (ShardCfg.Groups c)) c);
      match r with
      | Some (true, c) => Return (CJoining g s c, ts)
      | _ => Fatal "join: group is already present"
      end
  | CJoining g s c => Return (CInJoin g s, set_ctl ts (BeginChange c s (ctl ts)))
  | CInJoin g s => Return (CJoined g s, set_ctl ts (EndChange s (ctl ts)))
  | CJoined g s => _ ← checkMember s g ts; mret (CChecked g s, ts)
  | CChecked g s => ok ← checkMember s g ts; mret (match ok with true => CMember g s | false => CIdle end, ts)
  | CMember g s =>
      c ← current s ts;
      r ← ShardCfg.LeaveBalance [g] (ordOf (delete g (ShardCfg.Groups c))) (ShardCfg.Copy (copyOrd (ShardCfg.Groups c)) c);
      match r with
      | Some (true, c) => Return (CLeaving g s c, ts)
      | _ => Fatal "leave: group is already not present"
      end
  | CLeaving g s c => Return (CInLeave g s, set_ctl ts (BeginChange c s (ctl ts)))
  | CInLeave g s => Return (CLeft g s, set_ctl ts (EndChange s (ctl ts)))
  | CLeft g s => ok ← checkMember s g ts; mret (match ok with true => CIdle | false => CExit g s end, ts)
  | CExit g s => ts ← on_cfg (Config.ExitGroup g) ts; mret (CIdle, ts)
  | CStopped => Fatal "stopped"
  end.

(** A new group's servers are fresh in the state where the goroutine starts it. *)
Definition planOk (d : plan) (pc : cpc) (ts : Test state K) : Prop :=
  match pc, d with
  | CInit _ _, Some (_, (names, b)) => bootOk names b ts
  | _, _ => True
  end.

Lemma pnext_step d pc ts pc' ts' : planOk d pc ts -> pnext d pc ts = Return (pc', ts') -> pstep pc ts pc' ts'.
Proof.
  destruct pc as [|g|g s|g s|g s|g s c|g s|g s|g s|g s|g s c|g s|g s|g s|]; cbn [pnext planOk];
    try (intros _ [= <- <-]; by constructor); try (intros _ (ok & Eok & [= <- <-])%bind_Return; by econstructor).
  - destruct d as [x|]; intros _ [= <- <-]; [by apply p_gid|apply p_stop].
  - destruct d as [[a x]|]; [|done]. intros _ ([s ts1] & Es & [= <- <-])%bind_Return. by eapply p_make.
  - destruct d as [[a [names b]]|]; [|done]. intros Hok (ts1 & E & [= <- <-])%bind_Return. by eapply p_start.
  - intros _ (sg & Esg & H)%bind_Return. apply bind_Return in H as (c & Ec & H).
    apply bind_Return in H as ([[[] c']|] & Ej & H); try discriminate. injection H as <- <-. by eapply p_join.
  - intros _ (c & Ec & H)%bind_Return. apply bind_Return in H as ([[[] c']|] & Ej & H); try discriminate.
    injection H as <- <-. by eapply p_leave.
Qed.

(** ** What holds of every interleaving *)

Section Safe.
Context `{!ConcurrentLaws K}.
Context (HcopyOrd : forall m, copyOrd m ≡ₚ map_to_list m).
Context (HordOf : forall m k, ShardCfg.iterates (ordOf m k) m).
(** The first identifier that a goroutine gets. *)
Context (lo : Z) (Hlo : (1 <= lo)%Z).

Definition out (c : ShardConfig) (g : Z) : Prop := ShardCfg.Groups c !! g = None.
Definition member (c : ShardConfig) (g : Z) : Prop := is_Some (ShardCfg.Groups c !! g).

(** A configuration that a goroutine has computed follows the one with the number
    before it. *)
Definition follows (c c' : ShardConfig) (G : gmap Z (list string)) : Prop :=
  (ShardCfg.Num c' <= ShardCfg.Num c + 1)%Z /\
  (ShardCfg.Num c' = ShardCfg.Num c + 1 -> ShardCfg.good c' /\ ShardCfg.Groups c' = G)%Z.

(** What holds of a goroutine when [c] is the configuration and [p] the one that is
    pending, or [c] if none is. *)
Definition settled (c p : ShardConfig) (pc : cpc) : Prop :=
  match pc with
  | CIdle | CStopped => True
  | CGid g | CNew g _ | CInit g _ | CMade g _ | CExit g _ => out c g /\ out p g
  | CJoining g _ c' => (out c g /\ out p g) /\ follows c c' (<[g := srvNames g]> (ShardCfg.Groups c))
  | CInJoin g _ | CJoined g _ | CChecked g _ => member c g -> member p g
  | CMember g _ => member c g /\ member p g
  | CLeaving g _ c' => (member c g /\ member p g) /\ follows c c' (delete g (ShardCfg.Groups c))
  | CInLeave g _ | CLeft g _ => out c g -> out p g
  end.

(** A configuration that can become the current one. *)
Record ready (c : ShardConfig) (ts : Test state K) : Prop := {
  rd_good : ShardCfg.good c;
  rd_names g srvs : ShardCfg.Groups c !! g = Some srvs -> srvs = srvNames g;
  rd_running g : member c g -> running (Config.groups (cfg ts)) g;
  rd_range g : member c g -> (1 <= g < ngid ts)%Z
}.

(** The change from [c] to [p] is pending, or none is. *)
Definition between (c p : ShardConfig) (k : K) : Prop :=
  pending k = None /\ p = c \/ pending k = Some p /\ ShardCfg.Num p = (ShardCfg.Num c + 1)%Z.

Record cinv (c p : ShardConfig) (ts : Test state K) (ps : list cpc) : Prop := {
  ci_inv : inv c ts;
  ci_ready : ready p ts;
  ci_pend : between c p (ctl ts);
  ci_num : (0 <= ShardCfg.Num c)%Z;
  ci_clnts : is_Some (Config.clnts (cfg ts));
  ci_ngid : (lo <= ngid ts)%Z;
  ci_gid i pc g : ps !! i = Some pc -> gidOf pc = Some g ->
    (lo <= g < ngid ts)%Z /\ (started pc = true -> running (Config.groups (cfg ts)) g) /\ settled c p pc;
  ci_disj i j pc pc' g : ps !! i = Some pc -> ps !! j = Some pc' -> gidOf pc = Some g -> gidOf pc' = Some g -> i = j;
  ci_low g : (g < lo)%Z -> ShardCfg.Groups p !! g = ShardCfg.Groups c !! g
}.

(** The bounds within which the goroutines are safe: a shard per group, and
    numbers within an [int]. *)
Definition bounded (ts : Test state K) : Prop :=
  (ngid ts < int_max)%Z /\
  forall s c, Query s (ctl ts) = Some c -> size (ShardCfg.Groups c) <= ShardCfg.NShards /\ (ShardCfg.Num c < int_max)%Z.

Lemma inv_ready c ts : inv c ts -> ready c ts.
Proof. intros []. by constructor. Qed.

(** What one goroutine does keeps what holds of the others. *)
Lemma goroutine_frame c p ts ps i pc c' p' ts' pc' :
  cinv c p ts ps -> ps !! i = Some pc -> inv c' ts' -> ready p' ts' -> between c' p' (ctl ts') ->
  (0 <= ShardCfg.Num c')%Z -> is_Some (Config.clnts (cfg ts')) -> (ngid ts <= ngid ts')%Z ->
  (forall g, (g < lo)%Z -> ShardCfg.Groups p' !! g = ShardCfg.Groups c' !! g) ->
  (forall g, gidOf pc' = Some g -> (gidOf pc = Some g \/ (ngid ts <= g)%Z) /\
     (lo <= g < ngid ts')%Z /\ (started pc' = true -> running (Config.groups (cfg ts')) g) /\ settled c' p' pc') ->
  (forall g, gidOf pc <> Some g -> (g < ngid ts)%Z -> running (Config.groups (cfg ts)) g ->
     running (Config.groups (cfg ts')) g) ->
  (forall pcj g, gidOf pcj = Some g -> gidOf pc <> Some g -> settled c p pcj -> settled c' p' pcj) ->
  cinv c' p' ts' (<[i := pc']> ps).
Proof.
  intros [Hi Hrd Hpd Hn Hc Hg Hgid Hd Hl] Hpc Hi' Hrd' Hpd' Hn' Hc' Hle Hl' Hnew Hrun Hset.
  pose proof (lookup_lt_Some _ _ _ Hpc) as Hlt.
  assert (forall j pcj g, j <> i -> ps !! j = Some pcj -> gidOf pcj = Some g -> gidOf pc <> Some g) as Hother.
  { intros j pcj g Hne Hj Hgj Hgp. apply Hne. by eapply Hd. }
  constructor; try done; [lia|..].
  - intros j pcj g. rewrite list_lookup_insert. case_decide as Hj.
    + destruct Hj as [-> _]. intros [= <-] Hgj. by apply Hnew.
    + intros Hpj Hgj. destruct (Hgid j pcj g Hpj Hgj) as (Hr & Hru & Hs).
      assert (gidOf pc <> Some g) by (eapply Hother; [|done|done]; naive_solver).
      split; [lia|]. split; [intros Hst; apply Hrun; [done|lia|by apply Hru]|]. by eapply Hset.
  - intros j k pcj pck g. rewrite !list_lookup_insert. case_decide as Hj; case_decide as Hk.
    + by destruct Hj as [-> _], Hk as [-> _].
    + destruct Hj as [-> _]. intros [= <-] Hpk Hgj Hgk. exfalso.
      destruct (Hgid k pck g Hpk Hgk) as ([_ ?] & _). destruct (Hnew g Hgj) as ([Hgp|?] & _); [|lia].
      eapply Hother; [|exact Hpk|exact Hgk|exact Hgp]. naive_solver.
    + destruct Hk as [-> _]. intros Hpj [= <-] Hgj Hgk. exfalso.
      destruct (Hgid j pcj g Hpj Hgj) as ([_ ?] & _). destruct (Hnew g Hgk) as ([Hgp|?] & _); [|lia].
      eapply Hother; [|exact Hpj|exact Hgj|exact Hgp]. naive_solver.
    + by apply Hd.
Qed.

(** A step that changes the goroutine only. *)
Lemma cinv_same c p ts ps i pc pc' :
  cinv c p ts ps -> ps !! i = Some pc ->
  (forall g, gidOf pc' = Some g -> gidOf pc = Some g) -> (started pc' = true -> started pc = true) ->
  (is_Some (gidOf pc') -> settled c p pc -> settled c p pc') ->
  cinv c p ts (<[i := pc']> ps).
Proof.
  intros Hc Hpc Hg Hst Hs. eapply goroutine_frame; try done; try apply Hc.
  intros g Hg'. destruct (ci_gid _ _ _ _ Hc i pc g Hpc (Hg g Hg')) as (H1 & H2 & H3). split; [left; by apply Hg|].
  split_and!; try lia; [auto|]. apply Hs; [by rewrite Hg'|done].
Qed.

Lemma current_inv s c c' (ts : Test state K) : inv c ts -> current s ts = Return c' -> c' = c.
Proof. intros Hi. unfold current. rewrite (iv_query _ _ Hi s). by intros [= ->]. Qed.

Lemma checkMember_inv s g c (ts : Test state K) ok : inv c ts -> checkMember s g ts = Return ok -> ok = ShardCfg.IsMember c g.
Proof. intros Hi. unfold checkMember, current. rewrite (iv_query _ _ Hi s). by intros [= <-]. Qed.

(** ** Steps of the controllers *)

(** What is pending has become the configuration. *)
Lemma settled_finished c p pc : ShardCfg.Num p = (ShardCfg.Num c + 1)%Z -> settled c p pc -> settled p p pc.
Proof.
  intros HN. destruct pc; cbn [settled]; try done; try (by intros [_ ?]).
  all: intros [[_ ?] [Hf _]]; split; [done|]; split; [lia|intros E; exfalso; lia].
Qed.

(** The pending configuration stays, and is the current one if it was finished. *)
Lemma cinv_harmless c p ts ps i pc pc' k :
  cinv c p ts ps -> ps !! i = Some pc -> harmless (ctl ts) k ->
  (forall g, gidOf pc' = Some g -> gidOf pc = Some g) -> (started pc' = true -> started pc = true) ->
  (forall c p, settled c p pc -> settled c p pc') ->
  exists c', (c' = c \/ c' = p) /\ cinv c' p (set_ctl ts k) (<[i := pc']> ps).
Proof.
  intros Hc Hpc Hk Hg Hst Hs. pose proof Hc as [Hi Hrd Hpd Hn Hcl Hng Hgid Hd Hl].
  assert (exists c', (c' = c \/ c' = p) /\ (forall s, Query s k = Some c') /\ between c' p k /\
    (0 <= ShardCfg.Num c')%Z /\ inv c' (set_ctl ts k) /\ (forall pc, settled c p pc -> settled c' p pc) /\
    forall g, (g < lo)%Z -> ShardCfg.Groups p !! g = ShardCfg.Groups c' !! g) as (c' & Hor & Hq & Hb & H0 & Hi' & Hset & Hl').
  { destruct Hk as [[Hq Hp]|(c' & Hp & Hq & Hp')].
    - exists c. assert (forall s, Query s k = Some c) as Hq' by (intros s; rewrite Hq; apply Hi).
      split; [by left|]. split_and!; try done; [by unfold between in *; rewrite Hp|]. by destruct Hi.
    - destruct Hpd as [[E _]|[E HN]]; rewrite Hp in E; [done|]. injection E as ->.
      exists p. split; [by right|]. split_and!; try done; [by left|lia| |].
      + destruct Hi, Hrd. by constructor.
      + intros pcj. by apply settled_finished. }
  exists c'. split; [done|]. eapply goroutine_frame; try done; [by destruct Hrd| |by intros pcj g _ _; apply Hset].
  intros g Hg'. destruct (Hgid i pc g Hpc (Hg g Hg')) as (H1 & H2 & H3). split; [left; by apply Hg|].
  split_and!; try (cbn; lia); [auto|]. by apply Hs, Hset.
Qed.

(** A goroutine records its change. *)
Lemma settled_recorded c p g pc g' :
  gidOf pc = Some g' -> g' <> g -> (forall g', g' <> g -> ShardCfg.Groups p !! g' = ShardCfg.Groups c !! g') ->
  settled c c pc -> settled c p pc.
Proof.
  intros Hg Hne HG. specialize (HG g' Hne).
  destruct pc; cbn [gidOf] in Hg; try discriminate; injection Hg as ->; cbn [settled]; unfold out, member;
    rewrite ?HG; tauto.
Qed.

Lemma cinv_record c ts ps i pc pc' g s c' G :
  cinv c c ts ps -> pending (ctl ts) = None -> ShardCfg.Num c' = (ShardCfg.Num c + 1)%Z ->
  ShardCfg.Num c' = wrap64 (ShardCfg.Num c + 1) -> ps !! i = Some pc -> gidOf pc = Some g -> gidOf pc' = Some g ->
  started pc = true -> follows c c' G ->
  (forall g', g' <> g -> G !! g' = ShardCfg.Groups c !! g') -> (forall srvs, G !! g = Some srvs -> srvs = srvNames g) ->
  settled c c' pc' -> cinv c c' (set_ctl ts (BeginChange c' s (ctl ts))) (<[i := pc']> ps).
Proof using All.
  intros Hc Hp HN Hw Hpc Hg Hg' Hst [_ Hf] HG HGg Hs. pose proof Hc as [Hi Hrd Hpd Hn Hcl Hng Hgid Hd Hl].
  destruct (Hf HN) as [Hgood HGc]. destruct (Hgid i pc g Hpc Hg) as (Hrg & Hru & _). specialize (Hru Hst).
  pose proof (fun s' => begin_recorded s s' c c' (ctl ts) (iv_query _ _ Hi s) Hp Hw) as Hb.
  assert (forall g', g' <> g -> ShardCfg.Groups c' !! g' = ShardCfg.Groups c !! g') as HGo by (by rewrite HGc).
  eapply goroutine_frame; try done.
  - destruct Hi as [Iw Iq Ig In Ir Irg]. constructor; try done. intros s'. apply Hb.
  - destruct Hrd as [Rg Rn Rr Rrg]. unfold member in *. constructor; try done; unfold member; cbn [ngid set_ctl].
    + intros g1 srvs. destruct (decide (g1 = g)) as [->|]; [rewrite HGc; apply HGg|]. rewrite HGo by done. apply Rn.
    + intros g1. destruct (decide (g1 = g)) as [->|]; [done|]. rewrite HGo by done. apply Rr.
    + intros g1. destruct (decide (g1 = g)) as [->|]; [intros _; lia|]. rewrite HGo by done. apply Rrg.
  - right. split; [by apply (Hb s)|done].
  - intros g1 H1. apply HGo. lia.
  - intros g1 Hg1. rewrite Hg' in Hg1. injection Hg1 as <-. split; [by left|]. split; [exact Hrg|]. split; [by intros _|exact Hs].
  - intros pcj gj Hgj Hne. apply (settled_recorded c c' g pcj gj); [done|congruence|done].
Qed.

(** The controller is asked to change the configuration: the change is recorded, or
    it was superseded. *)
Lemma cinv_begin_change c p ts ps i pc pc' g s c' G :
  cinv c p ts ps -> bounded ts -> ps !! i = Some pc -> gidOf pc = Some g -> gidOf pc' = Some g ->
  started pc = true -> follows c c' G ->
  (forall g', g' <> g -> G !! g' = ShardCfg.Groups c !! g') -> (forall srvs, G !! g = Some srvs -> srvs = srvNames g) ->
  (forall p', settled c p' pc') -> (forall c p, settled c p pc -> settled c p pc') ->
  exists c1 p1, (c1 = c \/ c1 = p) /\ cinv c1 p1 (set_ctl ts (BeginChange c' s (ctl ts))) (<[i := pc']> ps).
Proof using All.
  intros Hc [_ Hb] Hpc Hg Hg' Hst Hf HG HGg Hs1 Hs2. pose proof (ci_inv _ _ _ _ Hc) as Hi.
  destruct (Hb s c (iv_query _ _ Hi s)) as [_ Hmax]. pose proof (ci_num _ _ _ _ Hc) as H0.
  assert (wrap64 (ShardCfg.Num c + 1) = ShardCfg.Num c + 1)%Z as Hw
    by (apply wrap64_small; unfold int_min, int_max in *; lia).
  destruct (decide (pending (ctl ts) = None /\ ShardCfg.Num c' = wrap64 (ShardCfg.Num c + 1))) as [[Hp HN]|Hne].
  - assert (p = c) as ->. { destruct (ci_pend _ _ _ _ Hc) as [[_ ?]|[E _]]; [done|congruence]. }
    assert (cinv c c' (set_ctl ts (BeginChange c' s (ctl ts))) (<[i := pc']> ps)) as Hc'
      by (eapply cinv_record; try done; by rewrite HN).
    exists c, c'. split; [by left|done].
  - destruct (cinv_harmless c p ts ps i pc pc' (BeginChange c' s (ctl ts)) Hc Hpc) as (c1 & Hor & Hc1).
    + exact (begin_superseded s c c' _ (iv_query _ _ Hi s) Hne).
    + congruence.
    + done.
    + done.
    + by exists c1, p.
Qed.

(** ** Computing the next configuration *)

Lemma settled_join c p ts ps i g s sg :
  cinv c p ts ps -> bounded ts -> ps !! i = Some (CMade g s) -> theGroup g ts = Return sg ->
  exists c1, ShardCfg.JoinBalance [(g, Groups.SrvNames sg)] (ordOf (<[g := Groups.SrvNames sg]> (ShardCfg.Groups c)))
      (ShardCfg.Copy (copyOrd (ShardCfg.Groups c)) c) = Return (Some (true, c1)) /\ settled c p (CJoining g s c1).
Proof using All.
  intros Hc [_ Hb] Hpc Hsg. pose proof (ci_inv _ _ _ _ Hc) as Hi. pose proof (ci_num _ _ _ _ Hc) as H0.
  destruct (ci_gid _ _ _ _ Hc i _ g Hpc eq_refl) as (Hrg & Hru & Hs).
  destruct (Hru eq_refl) as [(sg' & Hg' & Hnm & _) _].
  unfold theGroup, Config.Group, Groups.lookupGroup in Hsg. rewrite Hg' in Hsg. injection Hsg as ->.
  unfold Groups.SrvNames. rewrite Hnm. rewrite (Copy_current copyOrd HcopyOrd).
  destruct (JoinBalance_one (ordOf (<[g := srvNames g]> (ShardCfg.Groups c))) c g (srvNames g)) as
    (c1 & Hj & Hg1 & HG & HN & _); [apply Hi|apply Hs|apply shares_none; [apply Hs|apply Hi]|by intros k; apply HordOf|].
  exists c1. split; [exact Hj|]. split; [exact Hs|]. destruct (Hb s c (iv_query _ _ Hi s)) as [_ Hmax].
  rewrite wrap64_small in HN by (unfold int_min, int_max in *; lia). split; [lia|done].
Qed.

Lemma settled_leave c p ts ps i g s :
  cinv c p ts ps -> bounded ts -> ps !! i = Some (CMember g s) ->
  exists c1, ShardCfg.LeaveBalance [g] (ordOf (delete g (ShardCfg.Groups c)))
      (ShardCfg.Copy (copyOrd (ShardCfg.Groups c)) c) = Return (Some (true, c1)) /\ settled c p (CLeaving g s c1).
Proof using All.
  intros Hc [_ Hb] Hpc. pose proof (ci_inv _ _ _ _ Hc) as Hi. pose proof (ci_num _ _ _ _ Hc) as H0.
  destruct (ci_gid _ _ _ _ Hc i _ g Hpc eq_refl) as (Hrg & _ & Hs). pose proof Hs as [[srvs Hg] _].
  rewrite (Copy_current copyOrd HcopyOrd).
  destruct (LeaveBalance_one (ordOf (delete g (ShardCfg.Groups c))) c g srvs) as (c1 & Hj & Hg1 & HG & HN);
    [apply Hi|exact Hg|by intros k; apply HordOf|].
  exists c1. split; [exact Hj|]. split; [exact Hs|]. destruct (Hb s c (iv_query _ _ Hi s)) as [_ Hmax].
  rewrite wrap64_small in HN by (unfold int_min, int_max in *; lia). split; [lia|done].
Qed.

(** ** Steps on the groups and clients *)

Lemma ready_mono c (ts ts' : Test state K) :
  ready c ts -> (ngid ts <= ngid ts')%Z ->
  (forall g, member c g -> running (Config.groups (cfg ts)) g -> running (Config.groups (cfg ts')) g) -> ready c ts'.
Proof.
  intros [R1 R2 R3 R4] Hle Hr. constructor; try done; [auto|]. intros g Hg. specialize (R4 g Hg). lia.
Qed.

Lemma cinv_gid c p ts ps i g ts' :
  cinv c p ts ps -> bounded ts -> ps !! i = Some CIdle -> newGid ts = (g, ts') -> cinv c p ts' (<[i := CGid g]> ps).
Proof using All.
  intros Hc [Hmax _] Hpc [= <- <-]. pose proof Hc as [Hi Hrd Hpd Hn Hcl Hng _ _ Hl].
  rewrite (wrap64_small (ngid ts + 1)) by (unfold int_min, int_max in *; lia).
  assert (forall x : ShardConfig, ready x ts -> out x (ngid ts)) as Hout.
  { intros x Hx. unfold out. destruct (ShardCfg.Groups x !! ngid ts) eqn:E; [|done].
    pose proof (rd_range _ _ Hx (ngid ts) ltac:(by eexists)). lia. }
  eapply goroutine_frame; try done.
  - destruct Hi as [Iw Iq Ig In Ir Irg]. constructor; try done. intros g Hg. specialize (Irg g Hg). simpl. lia.
  - eapply ready_mono; [done|simpl; lia|done].
  - simpl. lia.
  - intros g [= <-]. split; [by right|]. split; [simpl; lia|]. split; [done|].
    split; apply Hout; [by apply inv_ready|done].
Qed.

Lemma cinv_make c p ts ps i g a s ts' :
  cinv c p ts ps -> ps !! i = Some (CGid g) -> makeShardCtrler a ts = Return (s, ts') ->
  cinv c p ts' (<[i := CNew g s]> ps).
Proof using All.
  intros Hc Hpc Hmk. pose proof Hc as [Hi Hrd Hpd Hn [m Hm] Hng Hgid _ Hl].
  destruct (makeShardCtrler_ok a ts m Hm) as (ts1 & Hmk' & Eg & En & Ek & Ec). rewrite Hmk in Hmk'.
  injection Hmk' as -> <-. destruct (Hgid i _ g Hpc eq_refl) as (Hrg & _ & Hs).
  eapply goroutine_frame; try done; rewrite ?Ek, ?En; try done.
  - destruct Hi as [Iw Iq Ig In Ir Irg]. constructor; rewrite ?Eg, ?En, ?Ek; done.
  - eapply ready_mono; [done|by rewrite En|by rewrite Eg].
  - intros g1 [= <-]. split; [by left|]. by split_and!; try lia.
  - by rewrite Eg.
Qed.

(** A goroutine's group is started or exits. *)
Lemma cinv_world c p ts ps i pc pc' g w :
  cinv c p ts ps -> ps !! i = Some pc -> gidOf pc = Some g -> out c g -> out p g -> Groups.winv w ->
  (forall g', g' <> g -> running (Config.groups (cfg ts)) g' -> running w g') ->
  (forall g', gidOf pc' = Some g' -> g' = g /\ running w g /\ settled c p pc') ->
  cinv c p (set_cfg ts (Config.set_groups (cfg ts) w)) (<[i := pc']> ps).
Proof using All.
  intros Hc Hpc Hg Hoc Hop Hw Hr Hnew. pose proof Hc as [Hi Hrd Hpd Hn Hcl Hng Hgid _ Hl].
  assert (forall x : ShardConfig, out x g -> forall g', member x g' -> g' <> g) as Hne.
  { intros x Hx g' [y Hy] ->. unfold out in Hx. congruence. }
  eapply goroutine_frame; try done.
  - destruct Hi as [Iw Iq Ig In Ir Irg]. constructor; try done. intros g' Hg'. apply Hr; [by apply (Hne c)|by apply Ir].
  - eapply ready_mono; [done|done|]. intros g' Hg'. apply Hr. by apply (Hne p).
  - intros g' Hg'. destruct (Hnew g' Hg') as (-> & H1 & H2). split; [by left|].
    destruct (Hgid i pc g Hpc Hg) as (? & _). split_and!; try (simpl; lia); done.
  - intros g' Hg' _. apply Hr. congruence.
Qed.

Lemma cinv_start c p ts ps i g s names b ts' :
  cinv c p ts ps -> ps !! i = Some (CInit g s) -> bootOk names b ts ->
  on_cfg (Config.MakeGroupStart g names b) ts = Return ts' -> cinv c p ts' (<[i := CMade g s]> ps).
Proof using All.
  intros Hc Hpc Hb Hst. destruct (ci_gid _ _ _ _ Hc i _ g Hpc eq_refl) as (_ & _ & Hs).
  destruct (start_ok g names b ts (iv_world _ _ (ci_inv _ _ _ _ Hc)) Hb) as (w & sg & Hst' & Hw & _ & _ & Hrun & Hoth).
  rewrite Hst in Hst'. injection Hst' as ->. eapply cinv_world; try done; [apply Hs..|]. by intros g' [= <-].
Qed.

Lemma cinv_exit c p ts ps i g s ts' :
  cinv c p ts ps -> ps !! i = Some (CExit g s) -> on_cfg (Config.ExitGroup g) ts = Return ts' ->
  cinv c p ts' (<[i := CIdle]> ps).
Proof using All.
  intros Hc Hpc Hx. destruct (ci_gid _ _ _ _ Hc i _ g Hpc eq_refl) as (_ & Hru & Hs).
  destruct (running_exit g _ (iv_world _ _ (ci_inv _ _ _ _ Hc)) (Hru eq_refl)) as (w & Hw & Hwi & Hoth).
  unfold on_cfg, Config.ExitGroup in Hx. rewrite Hw in Hx. injection Hx as <-.
  eapply cinv_world; try done; apply Hs.
Qed.

(** A group is a member exactly when [IsMember] says so, within the bounds. *)
Lemma IsMember_iff c (ts : Test state K) g :
  inv c ts -> bounded ts -> (1 <= g)%Z -> ShardCfg.IsMember c g = true <-> member c g.
Proof.
  intros Hi [_ Hb] H1. rewrite IsMember_spec. split.
  - intros Hm. unfold member. destruct (ShardCfg.Groups c !! g) eqn:E; [by eexists|].
    by apply (gone_member c g (iv_good _ _ Hi) E) in Hm; [|lia].
  - intros Hm. apply small_member; [apply Hi|done|].
    destruct (Hb (ShardCtrler.MakeShardCtrler 0) c (iv_query _ _ Hi _)) as [? _]. done.
Qed.

(** The configuration [c'] has the groups that were there before. *)
Definition kept (c c' : ShardConfig) : Prop := forall g, (g < lo)%Z -> ShardCfg.Groups c' !! g = ShardCfg.Groups c !! g.

Lemma cinv_kept c p ts ps c' : cinv c p ts ps -> c' = c \/ c' = p -> kept c c'.
Proof. by intros Hc [->| ->]; [|exact (ci_low _ _ _ _ Hc)]. Qed.

(** The steps that ask the controller for a change. *)
Lemma cinv_join c p ts ps i g s c' :
  cinv c p ts ps -> bounded ts -> ps !! i = Some (CJoining g s c') ->
  exists c1 p1, cinv c1 p1 (set_ctl ts (BeginChange c' s (ctl ts))) (<[i := CInJoin g s]> ps) /\ kept c c1.
Proof using All.
  intros Hc Hb Hpc. destruct (ci_gid _ _ _ _ Hc i _ g Hpc eq_refl) as (_ & _ & [[Ho _] Hf]).
  destruct (cinv_begin_change c p ts ps i _ (CInJoin g s) g s c' (<[g := srvNames g]> (ShardCfg.Groups c)) Hc Hb Hpc)
    as (c1 & p1 & Hor & Hc1); try done.
  - intros g' Hne. by rewrite lookup_insert_ne.
  - intros srvs. rewrite lookup_insert_eq. by intros [= <-].
  - intros p'. cbn [settled]. intros [x Hx]. unfold out in Ho. congruence.
  - intros c2 p2 [[Ho2 _] _]. cbn [settled]. intros [x Hx]. unfold out in Ho2. congruence.
  - exists c1, p1. split; [done|by eapply cinv_kept].
Qed.

Lemma cinv_leave c p ts ps i g s c' :
  cinv c p ts ps -> bounded ts -> ps !! i = Some (CLeaving g s c') ->
  exists c1 p1, cinv c1 p1 (set_ctl ts (BeginChange c' s (ctl ts))) (<[i := CInLeave g s]> ps) /\ kept c c1.
Proof using All.
  intros Hc Hb Hpc. destruct (ci_gid _ _ _ _ Hc i _ g Hpc eq_refl) as (_ & _ & [[[x0 Ho] _] Hf]).
  destruct (cinv_begin_change c p ts ps i _ (CInLeave g s) g s c' (delete g (ShardCfg.Groups c)) Hc Hb Hpc)
    as (c1 & p1 & Hor & Hc1); try done.
  - intros g' Hne. by rewrite lookup_delete_ne.
  - intros srvs. by rewrite lookup_delete_eq.
  - intros p'. cbn [settled]. unfold out. congruence.
  - intros c2 p2 [[[x Hx] _] _]. cbn [settled]. unfold out. congruence.
  - exists c1, p1. split; [done|by eapply cinv_kept].
Qed.

(** The checks whether the group is a member. *)
Lemma cinv_member c p ts ps i g s :
  cinv c p ts ps -> bounded ts -> ps !! i = Some (CChecked g s) ->
  cinv c p ts (<[i := if ShardCfg.IsMember c g then CMember g s else CIdle]> ps).
Proof using All.
  intros Hc Hb Hpc. pose proof (ci_inv _ _ _ _ Hc) as Hi. destruct (ci_gid _ _ _ _ Hc i _ g Hpc eq_refl) as (Hrg & _).
  destruct (ShardCfg.IsMember c g) eqn:Hm; [|by eapply cinv_same]. eapply cinv_same; try done. intros _ Hset.
  apply (IsMember_iff c ts g Hi Hb) in Hm; [|lia]. split; [done|by apply Hset].
Qed.

Lemma cinv_gone c p ts ps i g s :
  cinv c p ts ps -> bounded ts -> ps !! i = Some (CLeft g s) ->
  cinv c p ts (<[i := if ShardCfg.IsMember c g then CIdle else CExit g s]> ps).
Proof using All.
  intros Hc Hb Hpc. pose proof (ci_inv _ _ _ _ Hc) as Hi. destruct (ci_gid _ _ _ _ Hc i _ g Hpc eq_refl) as (Hrg & _).
  destruct (ShardCfg.IsMember c g) eqn:Hm; [by eapply cinv_same|]. eapply cinv_same; try done. intros _ Hset.
  assert (out c g) as Ho; [|split; [done|by apply Hset]]. unfold out. destruct (ShardCfg.Groups c !! g) eqn:E; [|done].
  assert (ShardCfg.IsMember c g = true); [|congruence]. apply (IsMember_iff c ts g Hi Hb); [lia|by eexists].
Qed.

(** A step keeps the invariant, and the groups that were there before. *)
Lemma pstep_cinv c p ts ps i pc pc' ts' :
  cinv c p ts ps -> bounded ts -> ps !! i = Some pc -> pstep pc ts pc' ts' ->
  exists c' p', cinv c' p' ts' (<[i := pc']> ps) /\ kept c c'.
Proof using All.
  intros Hc Hb Hpc Hs. pose proof (ci_inv _ _ _ _ Hc) as Hi.
  assert (forall pc' k, harmless (ctl ts) k -> (forall g, gidOf pc' = Some g -> gidOf pc = Some g) ->
    (started pc' = true -> started pc = true) -> (forall c p, settled c p pc -> settled c p pc') ->
    exists c' p', cinv c' p' (set_ctl ts k) (<[i := pc']> ps) /\ kept c c') as Hharm.
  { intros pc1 k Hk Hg Hst Hset. destruct (cinv_harmless c p ts ps i pc pc1 k Hc Hpc Hk Hg Hst Hset) as (c1 & Hor & Hc1).
    exists c1, p. split; [done|by eapply cinv_kept]. }
  destruct Hs as [ts|g ts ts' H1|a g s ts ts' H1|g s ts|names b g s ts ts' H1 H2|g s sg c0 c' ts H1 H2 H3|g s c' ts|g s ts|
    g s ok ts H1|g s ok ts H1|g s c0 c' ts H1 H2|g s c' ts|g s ts|g s ok ts H1|g s ts ts' H1].
  4: by apply Hharm; [exact (init_harmless s c _ (iv_query _ _ Hi s))|..].
  6: by apply (cinv_join c p).
  6: by apply Hharm; [exact (end_harmless s c _ (iv_query _ _ Hi s))|..].
  9: by apply (cinv_leave c p).
  9: by apply Hharm; [exact (end_harmless s c _ (iv_query _ _ Hi s))|..].
  all: exists c, p; split; [|done].
  - by eapply cinv_same.
  - by eapply cinv_gid.
  - by eapply cinv_make.
  - by eapply cinv_start.
  - apply (current_inv _ _ _ _ Hi) in H2 as ->.
    destruct (settled_join c p ts ps i g s sg Hc Hb Hpc H1) as (c1 & Hj & Hset). rewrite H3 in Hj. injection Hj as <-.
    eapply cinv_same; eauto.
  - by eapply cinv_same.
  - apply (checkMember_inv _ _ _ _ _ Hi) in H1 as ->. by apply cinv_member.
  - apply (current_inv _ _ _ _ Hi) in H1 as ->.
    destruct (settled_leave c p ts ps i g s Hc Hb Hpc) as (c1 & Hj & Hset). rewrite H2 in Hj. injection Hj as <-.
    eapply cinv_same; eauto.
  - apply (checkMember_inv _ _ _ _ _ Hi) in H1 as ->. by apply cinv_gone.
  - by eapply cinv_exit.
Qed.

(** In a state that keeps the invariant no goroutine is stuck or fails. *)
Lemma pstep_progress c p ts ps i pc :
  cinv c p ts ps -> bounded ts -> ps !! i = Some pc -> pc <> CStopped -> exists pc' ts', pstep pc ts pc' ts'.
Proof using All.
  intros Hc Hb Hpc Hne. pose proof (ci_inv _ _ _ _ Hc) as Hi.
  assert (forall s g, checkMember s g ts = Return (ShardCfg.IsMember c g)) as Hck.
  { intros s g. unfold checkMember, current. by rewrite (iv_query _ _ Hi s). }
  assert (forall s, current s ts = Return c) as Hcur by (intros s; unfold current; by rewrite (iv_query _ _ Hi s)).
  destruct pc as [|g|g s|g s|g s|g s c'|g s|g s|g s|g s|g s c'|g s|g s|g s|]; 
    try (by eexists _, _; first [apply p_stop|apply p_init|apply p_record|apply p_joined|apply p_record_leave|apply p_left]).
  - destruct (ci_clnts _ _ _ _ Hc) as [m Hm]. destruct (makeShardCtrler_ok 0 ts m Hm) as (ts1 & Hmk & _).
    eexists _, _. by eapply p_make.
  - destruct (bootOk_exists ts) as (names & b & Hok).
    destruct (start_ok g names b ts (iv_world _ _ Hi) Hok) as (w & sg & Hst & _). eexists _, _. by eapply p_start.
  - destruct (ci_gid _ _ _ _ Hc i _ g Hpc eq_refl) as (_ & Hru & _). destruct (Hru eq_refl) as [(sg & Hg & _) _].
    assert (theGroup g ts = Return sg) as Hsg by (unfold theGroup, Config.Group, Groups.lookupGroup; by rewrite Hg).
    destruct (settled_join c p ts ps i g s sg Hc Hb Hpc Hsg) as (c1 & Hj & _). eexists _, _. by eapply p_join.
  - eexists _, _. eapply p_check, Hck.
  - eexists _, _. eapply p_member, Hck.
  - destruct (settled_leave c p ts ps i g s Hc Hb Hpc) as (c1 & Hj & _). eexists _, _. by eapply p_leave.
  - eexists _, _. eapply p_gone, Hck.
  - destruct (ci_gid _ _ _ _ Hc i _ g Hpc eq_refl) as (_ & Hru & _).
    destruct (running_exit g _ (iv_world _ _ Hi) (Hru eq_refl)) as (w & Hw & _). eexists _, _. eapply p_exit.
    unfold on_cfg, Config.ExitGroup. by rewrite Hw.
  - done.
Qed.

Lemma csteps_cinv x y :
  rtc (fun x y => bounded x.1 /\ cstep x y) x y -> forall c p, cinv c p x.1 x.2 ->
  exists c' p', cinv c' p' y.1 y.2 /\ kept c c'.
Proof using All.
  induction 1 as [x|x y z [Hb Hs] _ IH]; intros c p Hc; [by exists c, p|].
  destruct Hs as [i pc pc' ts ts' ps Hpc Hp]. destruct (pstep_cinv c p ts ps i pc pc' ts' Hc Hb Hpc Hp) as (c1 & p1 & Hc1 & E1).
  destruct (IH c1 p1 Hc1) as (c2 & p2 & Hc2 & E2). exists c2, p2. split; [done|]. intros g Hg. by rewrite E2, E1.
Qed.

End Safe.

(** C12: Concurrent controllers do no harm.  Let any number of goroutines, each with a
    controller of its own, make groups join and leave in any interleaving of
    what their controllers do: recovering, reading the configuration, recording
    a change and completing it, so that changes are superseded midway and
    finished by others; as long as there are at most as many groups as shards.
    Then all controllers read the same, balanced configuration, whose groups all
    run, and so is the one that may be pending; the groups that were there
    before are still members, so that every key has running servers; and no
    goroutine panics or ends the process: as long as the bounds hold each can
    take its next step, until it has stopped. *)
Theorem controllers_safe `{!ConcurrentLaws K} n c0 (ts0 ts : Test state K) ps :
  (forall m, copyOrd m ≡ₚ map_to_list m) -> (forall m k, ShardCfg.iterates (ordOf m k) m) ->
  inv c0 ts0 -> pending (ctl ts0) = None -> (0 <= ShardCfg.Num c0)%Z -> is_Some (Config.clnts (cfg ts0)) ->
  ShardCfg.Groups c0 <> ∅ ->
  rtc (fun x y => bounded x.1 /\ cstep x y) (ts0, replicate n CIdle) (ts, ps) ->
  exists c, (forall s, Query s (ctl ts) = Some c) /\
    (forall c', c' = c \/ pending (ctl ts) = Some c' ->
       ShardCfg.good c' /\ dom (ShardCfg.Groups c0) ⊆ dom (ShardCfg.Groups c') /\
       forall g, is_Some (ShardCfg.Groups c' !! g) -> running (Config.groups (cfg ts)) g) /\
    (forall key, exists g, ShardCfg.GidServers c (ShardCfg.Key2Shard key) = Return (g, srvNames g, true) /\
       running (Config.groups (cfg ts)) g) /\
    (bounded ts -> forall i pc, ps !! i = Some pc -> pc <> CStopped -> exists pc' ts', pstep pc ts pc' ts').
Proof.
  intros Hco Hor Hi Hp0 H0 Hc Hne Hr.
  assert (1 <= ngid ts0)%Z as Hlo.
  { apply map_choose in Hne as (g & x & Hg). pose proof (iv_range _ _ Hi g ltac:(by rewrite Hg)). lia. }
  assert (cinv (ngid ts0) c0 c0 ts0 (replicate n CIdle)) as Hc0.
  { constructor; try done.
    - by apply inv_ready.
    - by left.
    - by intros i pc g [-> _]%lookup_replicate.
    - by intros i j pc pc' g [-> _]%lookup_replicate. }
  destruct (csteps_cinv Hco Hor (ngid ts0) Hlo _ _ Hr c0 c0 Hc0) as (c & p & Hcc & Elow). simpl in Hcc.
  pose proof (ci_inv _ _ _ _ _ Hcc) as Hi'. exists c.
  assert (forall c', (forall g, (g < ngid ts0)%Z -> ShardCfg.Groups c' !! g = ShardCfg.Groups c0 !! g) ->
    dom (ShardCfg.Groups c0) ⊆ dom (ShardCfg.Groups c')) as Hsub.
  { intros c' E g Hg. apply elem_of_dom in Hg as Hg'. rewrite elem_of_dom, E; [done|]. by apply (iv_range _ _ Hi). }
  split; [apply Hi'|]. split; [|split].
  - intros c' [->|Hp].
    + split; [apply Hi'|]. split; [by apply Hsub|apply Hi'].
    + assert (p = c') as -> by (destruct (ci_pend _ _ _ _ _ Hcc) as [[E _]|[E _]]; congruence).
      pose proof (ci_ready _ _ _ _ _ Hcc) as Hrd. split; [apply Hrd|]. split; [|apply Hrd]. apply Hsub. intros g Hg.
      by rewrite (ci_low _ _ _ _ _ Hcc), Elow.
  - specialize (Hsub c Elow). intros key. destruct (ShardCfg.good_key_servers c key (iv_good _ _ Hi')) as (g & srvs & Hg & Hin & _).
    { intros E. apply Hne. apply dom_empty_iff_L. rewrite E, dom_empty_L in Hsub. set_solver. }
    exists g. rewrite Hg, (iv_names _ _ Hi' g srvs Hin). split; [done|]. apply (iv_running _ _ Hi'). by rewrite Hin.
  - intros Hb i pc Hpc Hns. by eapply (pstep_progress Hco Hor (ngid ts0) Hlo).
Qed.

End Concur.

(** ** A concrete run *)

(** A controller that keeps its promises to concurrent tests: the configuration
    and the one that is pending. *)
Definition exK : Type := option ShardConfig * option ShardConfig.
Definition finish (k : exK) : exK := match k.2 with Some c => (Some c, None) | None => k end.
Definition nextNum (c : ShardConfig) (k : exK) : bool :=
  match k.1 with Some c0 => bool_decide (ShardCfg.Num c = wrap64 (ShardCfg.Num c0 + 1)) | None => false end.
#[local] Instance casCtl : Controller exK :=
  {| InitController _ k := finish k; InitConfig c _ _ := (Some c, None);
     ChangeConfigTo c _ k := if nextNum c k then (Some c, None) else k; Query _ k := k.1 |}.
#[local] Instance casInterruptible : Interruptible exK :=
  {| BeginChange c _ k := if nextNum c k && bool_decide (k.2 = None) then (k.1, Some c) else k;
     EndChange _ k := finish k; pending k := k.2 |}.

(** It keeps all of them: those for tests without concurrency, those for recovery
    and those for concurrent controllers. *)
#[local] Instance casLaws : ControllerLaws exK.
Proof.
  constructor; [done| |done]. intros s s' c c' [k1 k2] Hk HN. simpl in *. subst k1. unfold nextNum. simpl.
  by rewrite bool_decide_eq_true_2.
Qed.
#[local] Instance casRecovery : RecoveryLaws exK.
Proof.
  constructor.
  - intros s s' c c' [k1 k2] Hk Hp HN. simpl in *. subst k1 k2. unfold nextNum. simpl. by rewrite bool_decide_eq_true_2.
  - intros s s' c' [k1 k2] Hp. simpl in *. by subst k2.
  - intros s s' c [k1 [c'|]] Hk; simpl in *; by subst.
Qed.
#[local] Instance casSuperseded : SupersededLaws exK.
Proof. constructor. intros s s' [k1 k2] Hp. simpl in *. by subst. Qed.
#[local] Instance casConcurrent : ConcurrentLaws exK.
Proof.
  apply recovery_concurrent. intros s c c' [k1 k2] Hk Hne. simpl in *. subst k1. left. unfold nextNum. simpl.
  destruct (decide (k2 = None)) as [->|Hk2]; [|rewrite (bool_decide_eq_false_2 (k2 = None)) by done; by rewrite andb_false_r].
  rewrite bool_decide_eq_false_2; [done|]. intros E. by apply Hne.
Qed.

Definition exT : Type := Test Z exK.
Definition exNext := pnext (state := Z) (K := exK) ShardChecks.exCopyOrd ShardChecks.exOrdOf.
Definition exPlan : Type := plan (state := Z).
Definition exBounded_b (ts : exT) : bool :=
  bool_decide (ngid ts < int_max)%Z &&
  match (ctl ts).1 with
  | None => true
  | Some c => bool_decide (size (ShardCfg.Groups c) <= ShardCfg.NShards) && bool_decide (ShardCfg.Num c < int_max)%Z
  end.
Definition exPlanOk_b (d : exPlan) (pc : cpc) (ts : exT) : bool :=
  match pc, d with
  | CInit _ _, Some (_, g) => ShardChecks.bootOk_b g ts
  | _, _ => true
  end.

(** The run of a schedule, as far as its steps are within the bounds. *)
Fixpoint exRun (l : list (nat * exPlan)) (x : exT * list cpc) : outcome (exT * list cpc) :=
  match l with
  | [] => Return x
  | (i, d) :: l =>
      pc ← slice_get x.2 (Z.of_nat i);
      if exBounded_b x.1 && exPlanOk_b d pc x.1
      then '(pc, ts) ← exNext d pc x.1; exRun l (ts, <[i := pc]> x.2)
      else Fatal "not within the bounds"
  end.

Lemma exBounded_dec ts : exBounded_b ts = true -> bounded ts.
Proof.
  intros [H1%bool_decide_eq_true H2]%andb_true_iff. split; [done|]. intros s c Hq. simpl in Hq. rewrite Hq in H2.
  by apply andb_true_iff in H2 as [?%bool_decide_eq_true ?%bool_decide_eq_true].
Qed.

Lemma exPlanOk_dec d pc ts : exPlanOk_b d pc ts = true -> planOk d pc ts.
Proof.
  destruct pc; try done. destruct d as [[a [names b]]|]; [|done]. exact (ShardChecks.bootOk_dec (names, b) ts).
Qed.

Lemma exRun_steps l : forall x y, exRun l x = Return y ->
  rtc (fun x y => bounded x.1 /\ cstep ShardChecks.exCopyOrd ShardChecks.exOrdOf x y) x y.
Proof.
  induction l as [|[i d] l IH]; intros [ts ps] y; cbn [exRun fst snd]; [by intros [= ->]|].
  intros (pc & Epc & H)%bind_Return. destruct (exBounded_b ts && exPlanOk_b d pc ts) eqn:Hb; [|discriminate].
  apply andb_true_iff in Hb as [Hb Hd]. apply bind_Return in H as ([pc' ts'] & Ex & H).
  eapply rtc_l; [|exact (IH _ _ H)]. split; [exact (exBounded_dec ts Hb)|].
  eapply c_step; [|exact (pnext_step _ _ d pc ts pc' ts' (exPlanOk_dec d pc ts Hd) Ex)].
  unfold slice_get in Epc. rewrite decide_True, Nat2Z.id in Epc by lia. destruct (ps !! i); [by injection Epc as ->|done].
Qed.

(** The service with its first group. *)
Definition exStart : outcome (Z * exT) := ShardChecks.exSetup (ShardChecks.exMakeWith ((None, None) : exK)).

(** Goroutine 0 records its join; goroutine 1's controller finishes it while it
    starts, and records its own join, which goroutine 0's controller finishes in
    turn; then goroutine 0's group leaves and exits. *)
Definition exGo0 : nat * exPlan := (0, Some (20, ShardChecks.exGroup 2)).
Definition exGo1 : nat * exPlan := (1, Some (21, ShardChecks.exGroup 3)).
Definition exSchedule : list (nat * exPlan) :=
  replicate 5 exGo0 ++ replicate 2 exGo1 ++ [exGo0] ++ replicate 4 exGo1 ++ replicate 3 exGo0 ++ replicate 3 exGo1 ++
  replicate 5 exGo0.
Definition exFinal (x : exT * list cpc) : bool :=
  match (ctl x.1).1 with
  | Some c => bool_decide (ShardCfg.Num c = 4%Z) && bool_decide (dom (ShardCfg.Groups c) = {[1%Z; 3%Z]}) &&
      match x.2 with [CIdle; CMember 3 _] => true | _ => false end
  | None => false
  end.

Lemma controllers_safe_witness :
  exists ts0 ts ps c, exStart = Return (1%Z, ts0) /\ exRun exSchedule (ts0, replicate 2 CIdle) = Return (ts, ps) /\
    Query ShardChecks.exS (ctl ts) = Some c /\ ShardCfg.Num c = 4%Z /\ running (Config.groups (cfg ts)) 1 /\
    running (Config.groups (cfg ts)) 3.
Proof.
  assert (check exStart (fun x => check (exRun exSchedule (x.2, replicate 2 CIdle)) exFinal) = true)
    as Hchk by (vm_compute; reflexivity).
  assert (check exStart (fun x => bool_decide (is_Some (Config.clnts (cfg x.2))) && bool_decide (pending (ctl x.2) = None) &&
    match (ctl x.2).1 with Some c => bool_decide (0 <= ShardCfg.Num c)%Z | None => false end) = true) as H0
    by (vm_compute; reflexivity).
  destruct (ShardChecks.exSetup_state ((None, None) : exK)) as (c0 & ts0 & E & Hi & _ & HG).
  change (exStart = Return (1%Z, ts0)) in E. apply (check_Return _ _ _ E) in Hchk, H0.
  cbn [snd] in Hchk, H0. apply andb_true_iff in H0 as [[Hcl%bool_decide_eq_true Hp%bool_decide_eq_true]%andb_true_iff HN].
  pose proof (iv_query _ _ Hi ShardChecks.exS) as Hq. cbn [Query casCtl] in Hq. rewrite Hq in HN.
  apply bool_decide_eq_true in HN.
  apply check_inv in Hchk as ([ts ps] & Er & Hchk).
  destruct (controllers_safe ShardChecks.exCopyOrd ShardChecks.exOrdOf 2 c0 ts0 ts ps ShardChecks.exCopyOrd_ok
    ShardChecks.exOrdOf_ok Hi Hp HN Hcl) as (c & Hqc & Hrun & _).
  { rewrite HG. apply map_non_empty_singleton. }
  { exact (exRun_steps exSchedule _ _ Er). }
  unfold exFinal in Hchk. cbn [fst snd] in Hchk.
  pose proof (Hqc ShardChecks.exS) as Hqc'. cbn [Query casCtl] in Hqc'. rewrite Hqc' in Hchk.
  apply andb_true_iff in Hchk as [[Hnum%bool_decide_eq_true Hdom%bool_decide_eq_true]%andb_true_iff _].
  exists ts0, ts, ps, c. split; [exact E|]. split; [exact Er|]. split; [exact Hqc'|]. split; [exact Hnum|].
  destruct (Hrun c (or_introl eq_refl)) as (_ & _ & Hr). split; apply Hr, elem_of_dom; rewrite Hdom; set_solver.
Defined.

End ShardConcur.
