(* ===== verification/ShardPartition.v ===== *)
(** * A partitioned shard controller

    Models [partitionCtrler] of [src/src/shardkv1/test.go]: a goroutine lets a
    new group join and leave again in a loop, while the test shuts a group down,
    cuts the goroutine's controller off in the middle of what it is doing,
    restarts the group and lets a second controller recover.  The theorem says
    for every moment of the cut what the check after the recovery decides.
    What a controller leaves behind when it is cut off, and what the next one
    makes of it, are the classes [RecoveryLaws] and [SupersededLaws] of
    [ShardTest]. *)

From S2P Require Import Prelude ShardCfg LabRpc Persister Group Groups Clnts KvServers Annotation Config KvTest KvCheck KvSetup ShardTest ShardChecks ShardConcur.

Module ShardPartition.
Import ShardCfg(ShardConfig).
Import KvServers KvSetup ShardTest.
Import ShardConcur(bounded).

Set Default Proof Using "Type".

(** Where the goroutine is: at the head of its loop; it has a new identifier; it
    has set [state] to [JOIN]; the group was started; the next configuration is
    computed; its change is recorded; it is done; [joinGroups] has returned; the
    group is a member; and the same for leaving.  It returns when its group is
    not a member. *)
Inductive ppc :=
| PHead | PNew | PStart | PMade
| PJoining (c : ShardConfig) | PInJoin (c : ShardConfig) | PJoined | PChecked | PMember
| PLeave | PLeaving (c : ShardConfig) | PInLeave (c : ShardConfig) | PLeft | PExit
| PReturned.

(** What the test has done: it waits; the group is down; the controller is cut
    off; the group is restarted; the controller is connected again. *)
Inductive mpc := MRun | MDown | MCut | MUp | MHealed.

Section Partition.
Context {state K : Type} `{!Controller K, !Interruptible K}.
Context (copyOrd : gmap Z (list string) -> list (Z * list string)).
Context (ordOf : gmap Z (list string) -> nat -> list Z).

(** The test, the goroutine and the two variables they share. *)
Record sys := { s_ts : Test state K; s_pc : ppc; s_state : Z; s_ngid : Z; s_main : mpc }.

Definition goto (x : sys) (ts : Test state K) (pc : ppc) : sys :=
  {| s_ts := ts; s_pc := pc; s_state := s_state x; s_ngid := s_ngid x; s_main := s_main x |}.
Definition set_state (x : sys) (st : Z) : sys :=
  {| s_ts := s_ts x; s_pc := s_pc x; s_state := st; s_ngid := s_ngid x; s_main := s_main x |}.

(** A client's connection controls; nothing if it was deleted. *)
Definition onClnt (a : nat) (f : Clnts.Clnt -> LabRpc.Network -> Clnts.Clnt * LabRpc.Network) (ts : Test state K)
    : Test state K :=
  match Config.clnts (cfg ts) with
  | Some m =>
      match m !! a with
      | Some clnt =>
          let '(clnt, net) := f clnt (Config.net (cfg ts)) in
          set_cfg ts (Config.set_clnts (Config.set_net (cfg ts) net) (Some (<[a := clnt]> m)))
      | None => ts
      end
  | None => ts
  end.

(** The first lines: the goroutine's controller, its client and the number of the
    configuration. *)
Definition beginPartition (a : nat) (ts : Test state K) : outcome (ShardCtrler.ShardCtrler * Z * sys) :=
  '(s, _, ts) ← makeShardCtrlerClnt a ts;
  let ts := set_ctl ts (InitController s (ctl ts)) in
  match sck ts with
  | None => Panic "nil pointer dereference"
  | Some s1 =>
      c ← current s1 ts;
      mret (s, ShardCfg.Num c, {| s_ts := ts; s_pc := PHead; s_state := 0; s_ngid := 0; s_main := MRun |})
  end.

(** The calls of controller [s] get to the kvsrv of group 0: its client's end to
    that server is enabled, or will be when it is made. *)
Definition connected (s : ShardCtrler.ShardCtrler) (x : sys) : bool :=
  let cf := cfg (s_ts x) in
  let kvsrv := Group.ServerName 0 0 in
  match Config.clnts cf ≫= (fun m => m !! ShardCtrler.clnt s) with
  | Some clnt =>
      match Clnts.ends clnt !! kvsrv with
      | Some e => LabRpc.endEnabled (Config.net cf) e
      | None => Clnts.allowedL clnt kvsrv
      end
  | None => false
  end.

(** One operation of the goroutine with controller [s]; [bt] are the servers of a
    new group.  A call of a controller that is cut off does not return. *)
Definition call (s : ShardCtrler.ShardCtrler) (x : sys) (m : outcome sys) : option (outcome sys) :=
  if connected s x then Some m else None.
Definition goStep (s : ShardCtrler.ShardCtrler) (bt : list (list string) * (nat -> Groups.boot state)) (x : sys)
    : option (outcome sys) :=
  let ts := s_ts x in
  let g := s_ngid x in
  match s_pc x with
  | PHead =>
      let '(g, ts) := newGid ts in
      Some (Return {| s_ts := ts; s_pc := PNew; s_state := s_state x; s_ngid := g; s_main := s_main x |})
  | PNew => Some (Return (goto (set_state x JOIN) ts PStart))
  | PStart => Some (ts ← on_cfg (Config.MakeGroupStart g bt.1 bt.2) ts; mret (goto x ts PMade))
  | PMade => call s x (
      sg ← theGroup g ts;
      c ← current s ts;
      r ← ShardCfg.JoinBalance [(g, Groups.SrvNames sg)] (ordOf (<[g := Groups.SrvNames sg]> (ShardCfg.Groups c)))
            (ShardCfg.Copy (copyOrd (ShardCfg.Groups c)) c);
      '(ok, c) ← balanced r;
      if negb ok then Fatal "join: group is already present" else mret (goto x ts (PJoining c)))
  | PJoining c => call s x (Return (goto x (set_ctl ts (BeginChange c s (ctl ts))) (PInJoin c)))
  | PInJoin c => call s x (Return (goto x (set_ctl ts (EndChange s (ctl ts))) PJoined))
  | PJoined => call s x (_ ← checkMember s g ts; mret (goto x ts PChecked))
  | PChecked => call s x (ok ← checkMember s g ts; mret (goto x ts (match ok with true => PMember | false => PReturned end)))
  | PMember => Some (Return (goto (set_state x LEAVE) ts PLeave))
  | PLeave => call s x (
      c ← current s ts;
      r ← ShardCfg.LeaveBalance [g] (ordOf (delete g (ShardCfg.Groups c))) (ShardCfg.Copy (copyOrd (ShardCfg.Groups c)) c);
      '(ok, c) ← balanced r;
      if negb ok then Fatal "leave: group is already not present" else mret (goto x ts (PLeaving c)))
  | PLeaving c => call s x (Return (goto x (set_ctl ts (BeginChange c s (ctl ts))) (PInLeave c)))
  | PInLeave c => call s x (Return (goto x (set_ctl ts (EndChange s (ctl ts))) PLeft))
  | PLeft => call s x (ok ← checkMember s g ts; mret (goto x ts (match ok with true => PHead | false => PExit end)))
  | PExit => Some (ts ← on_cfg (Config.ExitGroup g) ts; mret (goto x ts PHead))
  | PReturned => None
  end.

(** One operation of the test on the goroutine's client [a] and the group [down],
    restarted with [b]. *)
Definition at_main (x : sys) (ts : Test state K) (m : mpc) : sys :=
  {| s_ts := ts; s_pc := s_pc x; s_state := s_state x; s_ngid := s_ngid x; s_main := m |}.
Definition mainStep (a : nat) (down : Z) (b : nat -> Groups.boot state) (x : sys) : option (outcome sys) :=
  let ts := s_ts x in
  match s_main x with
  | MRun => Some (ts ← on_servers down Groups.Shutdown ts; mret (at_main x ts MDown))
  | MDown => Some (Return (at_main x (onClnt a Clnts.DisconnectAll ts) MCut))
  | MCut => Some (ts ← on_servers down (Groups.StartServers b) ts; mret (at_main x ts MUp))
  | MUp | MHealed => None
  end.

(** The recovery by a second controller with client [a0], the check and, when the
    group had joined, its removal.  [num] is the number of the configuration
    before. *)
Definition recover (a0 : nat) (num : Z) (x : sys) : outcome (Test state K) :=
  '(s0, _, ts) ← makeShardCtrlerClnt a0 (s_ts x);
  let ts := set_ctl ts (InitController s0 (ctl ts)) in
  c ← current s0 ts;
  r ← checkRecovery num (s_state x) (s_ngid x) c;
  match r with
  | true => '(_, ts) ← leaveGroups copyOrd ordOf s0 [s_ngid x] ts; mret ts
  | false => mret ts
  end.

(** The end of the test: the old controller is connected again and both clients
    are deleted.  The reads of the keys in between are [KvTest.CheckGet]. *)
Definition reconnect (a : nat) (ts : Test state K) : Test state K :=
  if partition ts then onClnt a Clnts.ConnectAll ts else ts.
Definition heal (a a0 : nat) (ts : Test state K) : outcome (Test state K) :=
  let ts := reconnect a ts in
  c ← Config.DeleteClient a (cfg ts);
  c ← Config.DeleteClient a0 c;
  mret (set_cfg ts c).

(** The system after the check, with the test in state [ts], once the old
    controller may talk again. *)
Definition healed (a : nat) (x : sys) (ts : Test state K) : sys :=
  {| s_ts := reconnect a ts; s_pc := s_pc x; s_state := s_state x; s_ngid := s_ngid x;
     s_main := if partition ts then MHealed else s_main x |}.

(** The steps of the two; the servers that are started are fresh. *)
Inductive step (s : ShardCtrler.ShardCtrler) (a : nat) (down : Z) : sys -> sys -> Prop :=
| s_go bt x y : (s_pc x = PStart -> bootOk bt.1 bt.2 (s_ts x)) -> goStep s bt x = Some (Return y) -> step s a down x y
| s_test b x y :
    (s_main x = MCut -> Groups.bootsOk (seq 0 NSRV) b NSRV (Config.net (cfg (s_ts x))) /\
       forall i, i < NSRV -> Groups.wheap (Config.groups (cfg (s_ts x))) !! Groups.b_sid (b i) = None) ->
    mainStep a down b x = Some (Return y) -> step s a down x y.

(** The goroutine has announced what it will do and has not recorded it yet. *)
Definition announced (pc : ppc) : bool :=
  match pc with PStart | PMade | PJoining _ | PLeave | PLeaving _ => true | _ => false end.

(** ** What holds while the two run *)

Section Invariant.
Context `{!ControllerLaws K, !RecoveryLaws K}.
Context (HcopyOrd : forall m, copyOrd m ≡ₚ map_to_list m).
Context (HordOf : forall m k, ShardCfg.iterates (ordOf m k) m).
(** The configuration at the beginning, and the group that is shut down. *)
Context (c0 : ShardConfig) (down : Z).
(** The client of the goroutine's controller. *)
Context (a : nat).
Context (Hdown : is_Some (ShardCfg.Groups c0 !! down)) (Hroom : size (ShardCfg.Groups c0) < ShardCfg.NShards).

(** A group of the test, running or not. *)
Definition known (w : Groups.world state) (g : Z) : Prop :=
  exists sg, Groups.grps w !! g = Some sg /\ Group.servernames sg = srvNames g /\ length (Group.srvs sg) = NSRV.

(** The goroutine's group is not, or is, in the configuration [c]; [c'] is the
    configuration after [c] with the groups [G]. *)
Definition outside (c : ShardConfig) (g : Z) : Prop :=
  ShardCfg.Groups c = ShardCfg.Groups c0 /\ ShardCfg.Groups c0 !! g = None.
Definition inside (c : ShardConfig) (g : Z) : Prop :=
  ShardCfg.Groups c = <[g := srvNames g]> (ShardCfg.Groups c0) /\ ShardCfg.Groups c0 !! g = None.
Definition next (c c' : ShardConfig) (G : gmap Z (list string)) : Prop :=
  ShardCfg.good c' /\ ShardCfg.Groups c' = G /\ ShardCfg.Num c' = (ShardCfg.Num c + 1)%Z.

Definition atPc (c : ShardConfig) (w : Groups.world state) (pc : ppc) (st g : Z) : Prop :=
  match pc with
  | PHead => outside c g /\ (st = 0 \/ st = LEAVE /\ 1 <= g)%Z
  | PNew => outside c g /\ (1 <= g)%Z /\ (st = 0 \/ st = LEAVE)%Z
  | PStart => outside c g /\ (1 <= g)%Z /\ st = JOIN
  | PMade => outside c g /\ (1 <= g)%Z /\ st = JOIN /\ running w g
  | PJoining c' | PInJoin c' =>
      outside c g /\ (1 <= g)%Z /\ st = JOIN /\ running w g /\ next c c' (<[g := srvNames g]> (ShardCfg.Groups c0))
  | PJoined | PChecked | PMember => inside c g /\ (1 <= g)%Z /\ st = JOIN /\ running w g
  | PLeave => inside c g /\ (1 <= g)%Z /\ st = LEAVE /\ running w g
  | PLeaving c' | PInLeave c' =>
      inside c g /\ (1 <= g)%Z /\ st = LEAVE /\ running w g /\ next c c' (ShardCfg.Groups c0)
  | PLeft | PExit => outside c g /\ (1 <= g)%Z /\ st = LEAVE /\ running w g
  | PReturned => False
  end.
Definition pendingOf (pc : ppc) : option ShardConfig :=
  match pc with PInJoin c | PInLeave c => Some c | _ => None end.

(** The servers that the goroutine's client may talk to. *)
Definition allowed (m : mpc) : option (list string) :=
  match m with MRun | MDown | MHealed => None | MCut | MUp => Some [] end.

(** Everything but the running of the group that is shut down. *)
Record pinv (c : ShardConfig) (x : sys) : Prop := {
  pi_world : Groups.winv (Config.groups (cfg (s_ts x)));
  pi_query s : Query s (ctl (s_ts x)) = Some c;
  pi_good : ShardCfg.good c;
  pi_num : (0 <= ShardCfg.Num c)%Z;
  pi_names g srvs : ShardCfg.Groups c0 !! g = Some srvs -> srvs = srvNames g;
  pi_range g : is_Some (ShardCfg.Groups c0 !! g) -> (1 <= g < ngid (s_ts x))%Z;
  pi_running g : is_Some (ShardCfg.Groups c0 !! g) -> g <> down -> running (Config.groups (cfg (s_ts x))) g;
  pi_known : known (Config.groups (cfg (s_ts x))) down;
  pi_up : match s_main x with MRun | MUp => running (Config.groups (cfg (s_ts x))) down | _ => True end;
  pi_clnts : exists m, Config.clnts (cfg (s_ts x)) = Some m /\ m !! a = Some (Clnts.makeClntTo (allowed (s_main x)));
  pi_gid : (s_ngid x < ngid (s_ts x))%Z;
  pi_pend : pending (ctl (s_ts x)) = pendingOf (s_pc x);
  pi_pc : atPc c (Config.groups (cfg (s_ts x))) (s_pc x) (s_state x) (s_ngid x)
}.

Lemma running_known w g : running w g -> known w g.
Proof. by intros [? _]. Qed.

(** Only the goroutine's variables change. *)
Lemma pinv_vars c x pc st g :
  pinv c x -> pendingOf pc = pendingOf (s_pc x) -> (g < ngid (s_ts x))%Z ->
  atPc c (Config.groups (cfg (s_ts x))) pc st g ->
  pinv c {| s_ts := s_ts x; s_pc := pc; s_state := st; s_ngid := g; s_main := s_main x |}.
Proof. intros [] Hp Hg Ha. constructor; try done. simpl. congruence. Qed.

(** Only the controller's state changes. *)
Lemma pinv_ctl c x c' k pc :
  pinv c x -> (forall s, Query s k = Some c') -> pending k = pendingOf pc -> ShardCfg.good c' ->
  (0 <= ShardCfg.Num c')%Z -> atPc c' (Config.groups (cfg (s_ts x))) pc (s_state x) (s_ngid x) ->
  pinv c' (goto x (set_ctl (s_ts x) k) pc).
Proof. intros [] Hq Hp Hg H0 Ha. by constructor. Qed.

(** ** Steps on groups *)

Lemma MakeGroupStart_other g names b (w w' : Groups.world state) g' :
  Groups.MakeGroupStart g names b w = Return w' -> g' <> g -> Groups.grps w' !! g' = Groups.grps w !! g'.
Proof.
  unfold Groups.MakeGroupStart, Groups.MakeGroup, Groups.on_group. intros (w1 & H1 & H2)%bind_Return Hne.
  apply bind_Return in H1 as ([sg net] & _ & [= <-]). simpl in H2. unfold Groups.lookupGroup in H2. simpl in H2.
  rewrite lookup_insert_eq in H2. apply bind_Return in H2 as (c & _ & [= <-]). simpl. by rewrite !lookup_insert_ne.
Qed.

Lemma on_group_other g f (w w' : Groups.world state) g' :
  Groups.on_group g f w = Return w' -> g' <> g -> Groups.grps w' !! g' = Groups.grps w !! g'.
Proof.
  unfold Groups.on_group. destruct (Groups.lookupGroup g w); [|done]. intros (c & _ & [= <-])%bind_Return Hne.
  simpl. by rewrite lookup_insert_ne.
Qed.

Lemma ExitGroup_other g (w w' : Groups.world state) g' :
  Groups.ExitGroup g w = Return w' -> g' <> g -> Groups.grps w' !! g' = Groups.grps w !! g'.
Proof.
  unfold Groups.ExitGroup. intros (w1 & H1 & [= <-])%bind_Return Hne. simpl. rewrite lookup_delete_ne by done.
  by eapply on_group_other.
Qed.

Lemma ngid_pos c x : pinv c x -> (1 <= ngid (s_ts x))%Z.
Proof using All. intros Hi. pose proof (pi_range _ _ Hi down Hdown). lia. Qed.

Lemma not_down g : ShardCfg.Groups c0 !! g = None -> g <> down.
Proof using All. intros E ->. rewrite E in Hdown. by destruct Hdown. Qed.

(** A change of the groups other than [down] that keeps the running of the
    initial ones. *)
Lemma pinv_world c x w pc :
  pinv c x -> Groups.winv w -> Groups.grps w !! down = Groups.grps (Config.groups (cfg (s_ts x))) !! down ->
  (forall g, is_Some (ShardCfg.Groups c0 !! g) -> running (Config.groups (cfg (s_ts x))) g -> running w g) ->
  pendingOf pc = pendingOf (s_pc x) -> atPc c w pc (s_state x) (s_ngid x) ->
  pinv c (goto x (set_cfg (s_ts x) (Config.set_groups (cfg (s_ts x)) w)) pc).
Proof using All.
  intros [] Hw Hd Hr Hp Ha. constructor; try done; simpl.
  - intros g Hg Hne. apply Hr; [done|]. by apply pi_running0.
  - destruct pi_known0 as (sg & Hsg & ?). exists sg. by rewrite Hd.
  - destruct (s_main x); try done; by apply Hr.
  - congruence.
Qed.

Lemma pinv_new c x :
  pinv c x -> bounded (s_ts x) -> s_pc x = PHead ->
  pinv c {| s_ts := set_ngid (s_ts x) (wrap64 (ngid (s_ts x) + 1)); s_pc := PNew; s_state := s_state x;
            s_ngid := ngid (s_ts x); s_main := s_main x |}.
Proof using All.
  intros Hi [Hmax _] Hpc. pose proof (ngid_pos c x Hi) as H1. destruct Hi. rewrite Hpc in *.
  rewrite wrap64_small by (unfold int_min, int_max in *; lia). destruct pi_pc0 as [[HG _] Hst].
  constructor; try done; simpl.
  - intros g Hg. specialize (pi_range0 g Hg). lia.
  - lia.
  - split; [|split; [done|tauto]]. split; [done|]. destruct (ShardCfg.Groups c0 !! ngid (s_ts x)) eqn:E; [|done].
    specialize (pi_range0 (ngid (s_ts x)) ltac:(by rewrite E)). lia.
Qed.

Lemma pinv_start c x names b y :
  pinv c x -> s_pc x = PStart -> bootOk names b (s_ts x) ->
  on_cfg (Config.MakeGroupStart (s_ngid x) names b) (s_ts x) = Return y -> pinv c (goto x y PMade).
Proof using All.
  intros Hi Hpc Hb Hy. pose proof (pi_pc _ _ Hi) as Ha. rewrite Hpc in Ha. destruct Ha as ([HG Hn] & H1 & Hst).
  destruct (start_ok (s_ngid x) names b (s_ts x) (pi_world _ _ Hi) Hb) as (w & sg & Hs & Hw & _ & _ & Hrun & Hoth).
  assert (Groups.MakeGroupStart (s_ngid x) names b (Config.groups (cfg (s_ts x))) = Return w) as Hm.
  { unfold on_cfg, Config.MakeGroupStart in Hs. apply bind_Return in Hs as (cf & Hcf & Hs).
    apply bind_Return in Hcf as (w' & Hw' & [= <-]). injection Hs as ->. exact Hw'. }
  rewrite Hs in Hy. injection Hy as <-. apply pinv_world; try done.
  - eapply MakeGroupStart_other; [exact Hm|]. by apply not_eq_sym, not_down.
  - intros g Hg. apply Hoth. intros ->. rewrite Hn in Hg. by destruct Hg.
  - by rewrite Hpc.
Qed.

Lemma pinv_exit c x y :
  pinv c x -> s_pc x = PExit -> on_cfg (Config.ExitGroup (s_ngid x)) (s_ts x) = Return y -> pinv c (goto x y PHead).
Proof using All.
  intros Hi Hpc Hy. pose proof (pi_pc _ _ Hi) as Ha. rewrite Hpc in Ha. destruct Ha as ([HG Hn] & H1 & Hst & Hr).
  destruct (running_exit (s_ngid x) _ (pi_world _ _ Hi) Hr) as (w & Hw & Hwi & Hoth).
  unfold on_cfg, Config.ExitGroup in Hy. rewrite Hw in Hy. injection Hy as <-. apply pinv_world; try done.
  - eapply ExitGroup_other; [exact Hw|]. by apply not_eq_sym, not_down.
  - intros g Hg. apply Hoth. intros ->. rewrite Hn in Hg. by destruct Hg.
  - by rewrite Hpc.
  - split; [done|]. by right.
Qed.

(** ** Steps of the controller *)

Lemma names_in c g srvs g' :
  (forall g srvs, ShardCfg.Groups c0 !! g = Some srvs -> srvs = srvNames g) ->
  outside c g \/ inside c g -> ShardCfg.Groups c !! g' = Some srvs -> srvs = srvNames g'.
Proof.
  intros Hn [[-> _]|[-> _]]; [apply Hn|]. destruct (decide (g' = g)) as [->|]; [|rewrite lookup_insert_ne by done; apply Hn].
  rewrite lookup_insert_eq. by intros [= <-].
Qed.

Lemma num_next c x : pinv c x -> bounded (s_ts x) -> wrap64 (ShardCfg.Num c + 1) = (ShardCfg.Num c + 1)%Z.
Proof using All.
  intros Hi [_ Hb]. destruct (Hb (ShardCtrler.MakeShardCtrler 0) c (pi_query _ _ Hi _)) as [_ Hmax].
  pose proof (pi_num _ _ Hi). apply wrap64_small. unfold int_min, int_max in *. lia.
Qed.

Lemma join_next c x sg :
  pinv c x -> bounded (s_ts x) -> outside c (s_ngid x) -> running (Config.groups (cfg (s_ts x))) (s_ngid x) ->
  theGroup (s_ngid x) (s_ts x) = Return sg ->
  exists c', ShardCfg.JoinBalance [(s_ngid x, Groups.SrvNames sg)]
      (ordOf (<[s_ngid x := Groups.SrvNames sg]> (ShardCfg.Groups c))) (ShardCfg.Copy (copyOrd (ShardCfg.Groups c)) c)
      = Return (Some (true, c')) /\ next c c' (<[s_ngid x := srvNames (s_ngid x)]> (ShardCfg.Groups c0)).
Proof using All.
  intros Hi Hb [HG Hn] [(sg' & Hsg' & Hnm & _) _] Hsg.
  unfold theGroup, Config.Group, Groups.lookupGroup in Hsg. rewrite Hsg' in Hsg. injection Hsg as ->.
  unfold Groups.SrvNames. rewrite Hnm, (Copy_current copyOrd HcopyOrd).
  destruct (JoinBalance_one (ordOf (<[s_ngid x := srvNames (s_ngid x)]> (ShardCfg.Groups c))) c (s_ngid x)
    (srvNames (s_ngid x))) as (c1 & Hj & Hg1 & HG1 & HN & _); [apply Hi|by rewrite HG| |by intros k; apply HordOf|].
  - apply shares_none; [by rewrite HG|]. intros g srvs. eapply names_in; [apply Hi|by left].
  - exists c1. split; [exact Hj|]. split; [done|]. rewrite HG1, HG. split; [done|]. by rewrite HN, (num_next c x Hi Hb).
Qed.

Lemma leave_next c x :
  pinv c x -> bounded (s_ts x) -> inside c (s_ngid x) ->
  exists c', ShardCfg.LeaveBalance [s_ngid x] (ordOf (delete (s_ngid x) (ShardCfg.Groups c)))
      (ShardCfg.Copy (copyOrd (ShardCfg.Groups c)) c) = Return (Some (true, c')) /\ next c c' (ShardCfg.Groups c0).
Proof using All.
  intros Hi Hb [HG Hn]. rewrite (Copy_current copyOrd HcopyOrd).
  destruct (LeaveBalance_one (ordOf (delete (s_ngid x) (ShardCfg.Groups c))) c (s_ngid x) (srvNames (s_ngid x)))
    as (c1 & Hj & Hg1 & HG1 & HN); [apply Hi|by rewrite HG, lookup_insert_eq|by intros k; apply HordOf|].
  exists c1. split; [exact Hj|]. split; [done|]. rewrite HG1, HG, delete_insert_id by done.
  split; [done|]. by rewrite HN, (num_next c x Hi Hb).
Qed.

Lemma member_iff c g :
  ShardCfg.good c -> (1 <= g)%Z ->
  (inside c g -> ShardCfg.IsMember c g = true) /\ (outside c g -> ShardCfg.IsMember c g = false).
Proof using All.
  intros Hc H1. split.
  - intros [HG Hn]. apply IsMember_spec, small_member; [done|by rewrite HG, lookup_insert_eq|].
    rewrite HG, map_size_insert_None by done. lia.
  - intros [HG Hn]. apply not_true_is_false. rewrite IsMember_spec. apply gone_member; [done|by rewrite HG|lia].
Qed.

(** The change is recorded. *)
Lemma pinv_begin c x s c' G pc :
  pinv c x -> bounded (s_ts x) -> next c c' G -> pendingOf (s_pc x) = None -> pendingOf pc = Some c' ->
  atPc c (Config.groups (cfg (s_ts x))) pc (s_state x) (s_ngid x) ->
  pinv c (goto x (set_ctl (s_ts x) (BeginChange c' s (ctl (s_ts x)))) pc).
Proof using All.
  intros Hi Hb (_ & _ & HN) Hp Hp' Ha. pose proof (pi_pend _ _ Hi) as Hpd. rewrite Hp in Hpd.
  rewrite <-(num_next c x Hi Hb) in HN.
  apply (pinv_ctl c); try done; try apply Hi.
  - intros s'. by apply (begin_change s s' c c' _ (pi_query _ _ Hi s) Hpd).
  - rewrite Hp'. by apply (begin_change s s c c' _ (pi_query _ _ Hi s) Hpd).
Qed.

(** The change is done. *)
Lemma pinv_end c x s c' G pc :
  pinv c x -> next c c' G -> pendingOf (s_pc x) = Some c' -> pendingOf pc = None ->
  atPc c' (Config.groups (cfg (s_ts x))) pc (s_state x) (s_ngid x) ->
  pinv c' (goto x (set_ctl (s_ts x) (EndChange s (ctl (s_ts x)))) pc).
Proof using All.
  intros Hi (Hg & _ & HN) Hp Hp' Ha. pose proof (pi_pend _ _ Hi) as Hpd. rewrite Hp in Hpd.
  pose proof (pi_num _ _ Hi). apply (pinv_ctl c); try done; [..|lia].
  - intros s'. by apply (end_change s s' c').
  - rewrite Hp'. by apply (end_change s s c').
Qed.

(** The goroutine waits or takes its step, and the invariant is kept. *)
Lemma goStep_ok s bt c x :
  pinv c x -> bounded (s_ts x) -> (s_pc x = PStart -> bootOk bt.1 bt.2 (s_ts x)) ->
  goStep s bt x = None \/ exists y c', goStep s bt x = Some (Return y) /\ pinv c' y.
Proof using All.
  intros Hi Hb Hbt. pose proof (pi_pc _ _ Hi) as Ha.
  assert (forall s, current s (s_ts x) = Return c) as Hcur by (intros s'; unfold current; by rewrite (pi_query _ _ Hi s')).
  assert (forall s g, checkMember s g (s_ts x) = Return (ShardCfg.IsMember c g)) as Hck
    by (intros s' g; unfold checkMember; by rewrite Hcur).
  unfold goStep, call. destruct (s_pc x) as [| | | |c'|c'| | | | |c'|c'| | |] eqn:Hpc; cbn [atPc] in Ha.
  all: try (destruct (connected s x); [right|by left]); try (right; eexists _, _; split; [reflexivity|]);
    try (eexists _, _; split; [reflexivity|]); try done.
  - by apply pinv_new.
  - apply (pinv_vars c x PStart JOIN (s_ngid x)); try done; [by rewrite Hpc|apply (pi_gid _ _ Hi)|].
    by destruct Ha as (? & ? & ?).
  - right. destruct (start_ok (s_ngid x) bt.1 bt.2 (s_ts x) (pi_world _ _ Hi) (Hbt eq_refl)) as (w & _ & Hs & _).
    rewrite Hs. eexists _, c. split; [reflexivity|]. eapply pinv_start; eauto.
  - destruct Ha as (Ho & H1 & Hst & Hr). pose proof Hr as [(sg & Hsg & _) _].
    assert (theGroup (s_ngid x) (s_ts x) = Return sg) as Htg
      by (unfold theGroup, Config.Group, Groups.lookupGroup; by rewrite Hsg).
    destruct (join_next c x sg Hi Hb Ho Hr Htg) as (c' & Hj & Hn).
    rewrite Htg. cbn [mbind outcome_bind]. rewrite Hcur. cbn [mbind outcome_bind]. rewrite Hj.
    eexists _, c. split; [reflexivity|]. apply pinv_vars; try done; [by rewrite Hpc|apply (pi_gid _ _ Hi)].
  - destruct Ha as (Ho & H1 & Hst & Hr & Hn). eapply pinv_begin; try done. by rewrite Hpc.
  - destruct Ha as ([HG Hn0] & H1 & Hst & Hr & Hn). eapply pinv_end; try done; [by rewrite Hpc|]. cbn [atPc].
    destruct Hn as (_ & HG' & _). done.
  - rewrite Hck. eexists _, c. split; [reflexivity|]. apply pinv_vars; try done; [by rewrite Hpc|apply (pi_gid _ _ Hi)].
  - destruct Ha as (Hin & H1 & Hst & Hr). rewrite Hck, (proj1 (member_iff c (s_ngid x) (pi_good _ _ Hi) H1) Hin).
    eexists _, c. split; [reflexivity|]. apply pinv_vars; try done; [by rewrite Hpc|apply (pi_gid _ _ Hi)].
  - apply (pinv_vars c x PLeave LEAVE (s_ngid x)); try done; [by rewrite Hpc|apply (pi_gid _ _ Hi)|].
    by destruct Ha as (? & ? & _ & ?).
  - destruct Ha as (Hin & H1 & Hst & Hr). destruct (leave_next c x Hi Hb Hin) as (c' & Hj & Hn).
    rewrite Hcur. cbn [mbind outcome_bind]. rewrite Hj.
    eexists _, c. split; [reflexivity|]. apply pinv_vars; try done; [by rewrite Hpc|apply (pi_gid _ _ Hi)].
  - destruct Ha as (Ho & H1 & Hst & Hr & Hn). eapply pinv_begin; try done. by rewrite Hpc.
  - destruct Ha as ([HG Hn0] & H1 & Hst & Hr & Hn). eapply pinv_end; try done; [by rewrite Hpc|]. cbn [atPc].
    destruct Hn as (_ & HG' & _). done.
  - destruct Ha as (Hin & H1 & Hst & Hr). rewrite Hck, (proj2 (member_iff c (s_ngid x) (pi_good _ _ Hi) H1) Hin).
    eexists _, c. split; [reflexivity|]. apply pinv_vars; try done; [by rewrite Hpc|apply (pi_gid _ _ Hi)].
  - right. destruct Ha as (_ & _ & _ & Hr).
    destruct (running_exit (s_ngid x) _ (pi_world _ _ Hi) Hr) as (w & Hw & _).
    assert (exists y, on_cfg (Config.ExitGroup (s_ngid x)) (s_ts x) = Return y) as [y Hy]
      by (unfold on_cfg, Config.ExitGroup; rewrite Hw; by eexists).
    rewrite Hy. eexists _, c. split; [reflexivity|]. by apply pinv_exit.
Qed.

(** ** Steps of the test *)

Lemma atPc_world c w w' pc st g :
  (forall g, g <> down -> running w g -> running w' g) -> atPc c w pc st g -> atPc c w' pc st g.
Proof using All.
  intros Hr. destruct pc; cbn [atPc]; try done; unfold outside, inside;
    intros (H1 & H2 & H3 & H4); (split; [done|split; [done|split; [done|]]]).
  all: try (apply Hr; [by apply not_down, H1|done]).
  all: destruct H4 as [H4 H5]; split; [|done]; apply Hr; [by apply not_down, H1|done].
Qed.

(** The test changes the network, the client [a] and the group [down] only. *)
Lemma pinv_main c x cf m :
  pinv c x -> Groups.winv (Config.groups cf) ->
  (forall g, g <> down -> running (Config.groups (cfg (s_ts x))) g -> running (Config.groups cf) g) ->
  known (Config.groups cf) down ->
  match m with MRun | MUp => running (Config.groups cf) down | _ => True end ->
  (exists cs, Config.clnts cf = Some cs /\ cs !! a = Some (Clnts.makeClntTo (allowed m))) ->
  pinv c (at_main x (set_cfg (s_ts x) cf) m).
Proof using All.
  intros [] Hw Hr Hk Hu Hc. constructor; try done; simpl.
  - intros g Hg Hne. apply Hr; [done|]. by apply pi_running0.
  - by eapply atPc_world.
Qed.

Lemma enableList_same test on l : forall net,
  let net' := Clnts.enableList test on l net in
  LabRpc.ends net' = LabRpc.ends net /\ LabRpc.connections net' = LabRpc.connections net /\
  LabRpc.servers net' = LabRpc.servers net.
Proof.
  induction l as [|[srv e] l IH]; intros net; [done|]. cbn [Clnts.enableList].
  destruct (IH (if test srv then LabRpc.Enable e on net else net)) as (-> & -> & ->). by destruct (test srv).
Qed.

(** The client has no ends, so that all that changes is what it may talk to. *)
Lemma pinv_cut c x : pinv c x -> pinv c (at_main x (onClnt a Clnts.DisconnectAll (s_ts x)) MCut).
Proof using All.
  intros Hi. pose proof (pi_clnts _ _ Hi) as (m & Hm & Ha). unfold onClnt. rewrite Hm, Ha. cbn [Clnts.DisconnectAll].
  pose proof (pi_world _ _ Hi) as [W1 W2]. apply pinv_main; try done.
  - intros g _ [Hk Hu]. constructor; [exact Hk|exact Hu].
  - apply (pi_known _ _ Hi).
  - eexists. split; [done|]. apply lookup_insert_eq.
Qed.

Lemma mainStep_ok b c x :
  pinv c x ->
  (s_main x = MCut -> Groups.bootsOk (seq 0 NSRV) b NSRV (Config.net (cfg (s_ts x))) /\
     forall i, i < NSRV -> Groups.wheap (Config.groups (cfg (s_ts x))) !! Groups.b_sid (b i) = None) ->
  mainStep a down b x = None \/ exists y, mainStep a down b x = Some (Return y) /\ pinv c y.
Proof using All.
  intros Hi Hb. unfold mainStep. destruct (s_main x) eqn:Em; [right|right|right|by left..].
  - pose proof (pi_up _ _ Hi) as Hu. rewrite Em in Hu.
    destruct (shutdown_ok down _ (pi_world _ _ Hi) Hu) as (w & sg & H1 & Hw & Ho & _ & Hsg & Hnm & Hl & _).
    unfold on_servers, on_cfg. rewrite H1. eexists. split; [reflexivity|]. apply pinv_main; try done; [by exists sg|].
    pose proof (pi_clnts _ _ Hi) as Hc. by rewrite Em in Hc.
  - eexists. split; [reflexivity|]. by apply pinv_cut.
  - destruct (Hb eq_refl) as [Hb1 Hb2]. destruct (pi_known _ _ Hi) as (sg & Hsg & Hnm & Hl).
    destruct (restart_ok down sg b _ (pi_world _ _ Hi) Hsg Hnm Hl Hb1 Hb2) as (w & H1 & Hw & Hr & Ho).
    unfold on_servers, on_cfg. rewrite H1. eexists. split; [reflexivity|]. apply pinv_main; try done; [by apply running_known|].
    pose proof (pi_clnts _ _ Hi) as Hc. by rewrite Em in Hc.
Qed.

Lemma steps_pinv s x y :
  rtc (fun x y => bounded (s_ts x) /\ step s a down x y) x y -> forall c, pinv c x -> exists c', pinv c' y.
Proof using All.
  induction 1 as [x|x y z [Hb Hs] _ IH]; intros c Hc; [by exists c|].
  destruct Hs as [bt x y Hbt Hg|b x y Hbt Hg].
  - destruct (goStep_ok s bt c x Hc Hb Hbt) as [E|(y' & c' & E & Hc')]; rewrite Hg in E; [done|].
    injection E as <-. by eapply IH.
  - destruct (mainStep_ok b c x Hc Hbt) as [E|(y' & E & Hc')]; rewrite Hg in E; [done|].
    injection E as <-. by eapply IH.
Qed.

(** ** The check after the recovery *)

(** The configuration that the second controller finds. *)
Definition recovered (c : ShardConfig) (pc : ppc) : ShardConfig := default c (pendingOf pc).

Lemma verdict num c x :
  pinv c x ->
  let c' := recovered c (s_pc x) in
  ShardCfg.good c' /\
  (announced (s_pc x) = false -> (num < ShardCfg.Num c')%Z ->
     checkRecovery num (s_state x) (s_ngid x) c' = Return (bool_decide (s_state x = JOIN)) /\
     if decide (s_state x = JOIN)
     then inside c' (s_ngid x) /\ running (Config.groups (cfg (s_ts x))) (s_ngid x) /\ (1 <= s_ngid x)%Z
     else outside c' (s_ngid x)) /\
  (announced (s_pc x) = true -> exists e, checkRecovery num (s_state x) (s_ngid x) c' = Fatal e).
Proof using All.
  intros Hi c'. pose proof (pi_pc _ _ Hi) as Ha. pose proof (pi_good _ _ Hi) as Hg. subst c'.
  assert (ShardCfg.good (recovered c (s_pc x))) as Hg'.
  { destruct (s_pc x); try done; cbn [atPc] in Ha; apply Ha. }
  split; [done|]. unfold checkRecovery.
  pose proof (member_iff (recovered c (s_pc x)) (s_ngid x) Hg') as Hmem.
  destruct (s_pc x) as [| | | |c'|c'| | | | |c'|c'| | |]; cbn [atPc announced recovered pendingOf default] in *; try done.
  all: first [split; [intros _ Hlt; rewrite decide_False by lia|done] | split; [done|intros _]].
  all: try (destruct Ha as (Ho & H1 & -> & Hr);
    first [rewrite (proj1 (Hmem H1) Ho) | rewrite (proj2 (Hmem H1) Ho)]; first [done | case_decide; by eexists]).
  - destruct Ha as [Ho [->|[-> H1]]]; [done|]. by rewrite (proj2 (Hmem H1) Ho).
  - destruct Ha as (Ho & H1 & [->| ->]); [done|]. by rewrite (proj2 (Hmem H1) Ho).
  - destruct Ha as (Ho & H1 & ->). rewrite (proj2 (Hmem H1) Ho). case_decide; by eexists.
  - destruct Ha as ([HG Hn] & H1 & -> & Hr & (_ & HG' & _)). by rewrite (proj1 (Hmem H1) (conj HG' Hn)).
  - destruct Ha as ([HG Hn] & H1 & -> & _ & (_ & HG' & _)). by rewrite (proj2 (Hmem H1) (conj HG' Hn)).
Qed.

Lemma recovered_inv c x ts :
  pinv c x -> s_main x = MUp -> Config.groups (cfg ts) = Config.groups (cfg (s_ts x)) -> ngid ts = ngid (s_ts x) ->
  (forall s, Query s (ctl ts) = Some (recovered c (s_pc x))) -> ShardCfg.good (recovered c (s_pc x)) ->
  inside (recovered c (s_pc x)) (s_ngid x) /\ running (Config.groups (cfg (s_ts x))) (s_ngid x) /\ (1 <= s_ngid x)%Z \/
  outside (recovered c (s_pc x)) (s_ngid x) ->
  inv (recovered c (s_pc x)) ts.
Proof using All.
  intros Hi Em Eg En Hq Hg Hio. pose proof Hi as []. rewrite Em in pi_up0. rewrite <-Eg, <-?En in *.
  assert (forall g, is_Some (ShardCfg.Groups c0 !! g) -> running (Config.groups (cfg ts)) g) as Hr0.
  { intros g Hs. destruct (decide (g = down)) as [->|]; [done|]. by apply pi_running0. }
  constructor; try done.
  - intros g srvs. apply (names_in _ (s_ngid x) srvs g pi_names0). tauto.
  - intros g. destruct Hio as [([-> _] & Hr & _)|[-> _]]; [|apply Hr0].
    destruct (decide (g = s_ngid x)) as [->|]; [done|]. rewrite lookup_insert_ne by done. apply Hr0.
  - intros g. destruct Hio as [([-> _] & _ & H1)|[-> _]]; [|apply pi_range0].
    destruct (decide (g = s_ngid x)) as [->|]; [lia|]. rewrite lookup_insert_ne by done. apply pi_range0.
Qed.

End Invariant.

(** ** The theorem *)

Lemma beginPartition_ok `{!RecoveryLaws K} a c0 (ts : Test state K) down s num x :
  inv c0 ts -> pending (ctl ts) = None -> (0 <= ShardCfg.Num c0)%Z -> is_Some (Config.clnts (cfg ts)) ->
  is_Some (ShardCfg.Groups c0 !! down) -> beginPartition a ts = Return (s, num, x) ->
  num = ShardCfg.Num c0 /\ ShardCtrler.clnt s = a /\ pinv c0 down a c0 x.
Proof.
  intros Hi Hp H0 [m Hm] Hd. unfold beginPartition, makeShardCtrlerClnt, Config.MakeClient, Config.MakeClientTo,
    Clnts.MakeClientTo. rewrite Hm. cbn [mbind outcome_bind mret outcome_ret].
  set (s1 := ShardCtrler.MakeShardCtrler a). set (ts1 := set_cfg ts _).
  destruct (sck (set_ctl ts1 (InitController s1 (ctl ts1)))) as [s2|]; [|done]. unfold current.
  destruct (init_recovers s1 s2 c0 (ctl ts) (iv_query _ _ Hi s1)) as [Hq Hp']. rewrite Hp in Hq. cbn [default] in Hq.
  cbn [ctl set_ctl]. change (ctl ts1) with (ctl ts). rewrite Hq. cbn [mbind outcome_bind mret outcome_ret].
  intros [= <- <- <-]. split; [done|]. split; [done|]. pose proof (iv_range _ _ Hi down Hd) as Hr. destruct Hi. constructor; try done; simpl.
  - intros s'. destruct (init_recovers s1 s' c0 (ctl ts) (iv_query0 s1)) as [Hq' _]. by rewrite Hq', Hp.
  - intros g Hg _. by apply iv_running0.
  - by apply running_known, iv_running0.
  - by apply iv_running0.
  - eexists. split; [done|]. apply lookup_insert_eq.
  - lia.
  - split; [|by left]. split; [done|]. destruct (ShardCfg.Groups c0 !! 0%Z) eqn:E; [|done].
    specialize (iv_range0 0%Z ltac:(by rewrite E)). lia.
Qed.

Lemma cut_off c0 down s a c x : pinv c0 down a c x -> ShardCtrler.clnt s = a -> s_main x = MUp -> connected s x = false.
Proof. intros Hi <- Em. destruct (pi_clnts _ _ _ _ _ Hi) as (m & Hm & Ha). unfold connected. rewrite Hm. simpl. by rewrite Ha, Em. Qed.

(** C13: What the check after a partition decides.  Let the goroutine and the test run
    in any interleaving, with the goroutine's controller cut off at any moment,
    until the group that was shut down has been restarted.  No call of the
    goroutine's controller returns any more.  The second controller then finds
    the configuration with the recorded change done.  If that is newer than the one at the beginning and the goroutine is not between
    announcing a join or leave in [state] and recording it, the check passes,
    and afterwards the configuration has the groups it had at the beginning, all
    of them running.  In all other cases the check fails the test, although the
    controllers have kept their promises. *)
Theorem partition_verdict `{!ControllerLaws K, !RecoveryLaws K} a a0 down c0 (ts : Test state K) s num x0 x :
  (forall m, copyOrd m ≡ₚ map_to_list m) -> (forall m k, ShardCfg.iterates (ordOf m k) m) ->
  inv c0 ts -> pending (ctl ts) = None -> (0 <= ShardCfg.Num c0)%Z -> is_Some (Config.clnts (cfg ts)) ->
  is_Some (ShardCfg.Groups c0 !! down) -> size (ShardCfg.Groups c0) < ShardCfg.NShards ->
  beginPartition a ts = Return (s, num, x0) ->
  rtc (fun x y => bounded (s_ts x) /\ step s a down x y) x0 x -> s_main x = MUp ->
  connected s x = false /\
  exists c, (forall s0 s1, Query s1 (InitController s0 (ctl (s_ts x))) = Some c) /\ num = ShardCfg.Num c0 /\
    ((num < ShardCfg.Num c)%Z /\ announced (s_pc x) = false ->
       exists ts' c', recover a0 num x = Return ts' /\ inv c' ts' /\
         dom (ShardCfg.Groups c') = dom (ShardCfg.Groups c0)) /\
    (~ ((num < ShardCfg.Num c)%Z /\ announced (s_pc x) = false) -> exists e, recover a0 num x = Fatal e).
Proof.
  intros Hco Hor Hi0 Hp0 H0 Hc0 Hd Hroom Hb Hr Em.
  destruct (beginPartition_ok a c0 ts down s num x0 Hi0 Hp0 H0 Hc0 Hd Hb) as (-> & Es & Hpi).
  destruct (steps_pinv Hco Hor c0 down a Hd Hroom s x0 x Hr c0 Hpi) as [c Hi].
  split; [by eapply cut_off|].
  assert (forall s0 s1, Query s1 (InitController s0 (ctl (s_ts x))) = Some (recovered c (s_pc x))) as Hq.
  { intros s0 s1. destruct (init_recovers s0 s1 c (ctl (s_ts x)) (pi_query _ _ _ _ _ Hi s0)) as [E _].
    rewrite E, (pi_pend _ _ _ _ _ Hi). done. }
  exists (recovered c (s_pc x)). split; [exact Hq|]. split; [done|].
  destruct (verdict Hco Hor c0 down a Hd Hroom (ShardCfg.Num c0) c x Hi) as (Hg & Hpass & Hfail).
  unfold recover, makeShardCtrlerClnt, Config.MakeClient, Config.MakeClientTo, Clnts.MakeClientTo.
  pose proof (pi_clnts _ _ _ _ _ Hi) as (m & Hm & _). rewrite Hm. cbn [mbind outcome_bind mret outcome_ret].
  set (s0 := ShardCtrler.MakeShardCtrler a0). set (ts1 := set_cfg (s_ts x) _).
  set (ts2 := set_ctl ts1 (InitController s0 (ctl ts1))).
  assert (current s0 ts2 = Return (recovered c (s_pc x))) as -> by (unfold current; cbn [ctl ts2 set_ctl]; by rewrite Hq).
  cbn [mbind outcome_bind mret outcome_ret]. split.
  - intros [Hlt Ha]. destruct (Hpass Ha Hlt) as [-> Hio]. cbn [mbind outcome_bind].
    assert (inv (recovered c (s_pc x)) ts2) as Hinv.
    { eapply recovered_inv; try done. { intros s1. apply Hq. } case_decide; tauto. }
    destruct (decide (s_state x = JOIN)) as [Hj|Hj].
    + rewrite bool_decide_eq_true_2 by done. destruct Hio as ([HG Hn] & _).
      destruct (leaveGroups_ok copyOrd ordOf Hco Hor s0 [s_ngid x] _ ts2 Hinv) as (c' & ts' & Hl & Hinv' & _ & HD);
        [apply NoDup_singleton|by repeat constructor; rewrite HG, lookup_insert_eq|].
      rewrite Hl. exists ts', c'. split; [done|]. split; [done|]. rewrite HD, HG, dom_insert_L.
      apply not_elem_of_dom in Hn. set_solver.
    + rewrite bool_decide_eq_false_2 by done. exists ts2, (recovered c (s_pc x)). split; [done|]. split; [done|].
      by rewrite (proj1 Hio).
  - intros Hn. destruct (announced (s_pc x)) eqn:Ha; [by destruct (Hfail eq_refl) as [e ->]; eexists|].
    unfold checkRecovery. rewrite decide_True; [by eexists|].
    destruct (decide (ShardCfg.Num c0 < ShardCfg.Num (recovered c (s_pc x)))%Z); [by destruct Hn|lia].
Qed.

End Partition.

(** Healing touches the two clients only: the test goes on with the same groups
    and configuration.  The controllers' calls are not part of the test, so that
    their clients have no ends. *)
Lemma set_net_same {state} (cf : Config.Config state) : Config.groups (Config.set_net cf (Config.net cf)) = Config.groups cf.
Proof. destruct cf as [[]]. done. Qed.

Lemma heal_ok {state K} `{!Controller K} a a0 c (ts : Test state K) m to to0 :
  inv c ts -> Config.clnts (cfg ts) = Some m -> a <> a0 -> m !! a = Some (Clnts.makeClntTo to) ->
  m !! a0 = Some (Clnts.makeClntTo to0) ->
  exists ts', heal a a0 ts = Return ts' /\ inv c ts' /\ Config.clnts (cfg ts') = Some (delete a0 (delete a m)).
Proof.
  intros Hi Hm Hne Ha Ha0. unfold heal. set (ts1 := reconnect a ts).
  assert (exists m1 to1, Config.clnts (cfg ts1) = Some m1 /\ Config.groups (cfg ts1) = Config.groups (cfg ts) /\
    ctl ts1 = ctl ts /\ ngid ts1 = ngid ts /\ m1 !! a = Some (Clnts.makeClntTo to1) /\
    m1 !! a0 = Some (Clnts.makeClntTo to0) /\ delete a m1 = delete a m) as (m1 & to1 & Hm1 & Eg & Ec & En & H1 & H2 & Ed).
  { subst ts1. unfold reconnect. destruct (partition ts); [|by exists m, to]. unfold onClnt. rewrite Hm, Ha. cbn [Clnts.ConnectAll].
    eexists _, None. split; [reflexivity|]. split; [apply set_net_same|]. split; [done|]. split; [done|].
    split; [apply lookup_insert_eq|]. split; [by rewrite lookup_insert_ne|]. by rewrite delete_insert_eq. }
  clearbody ts1. unfold Config.DeleteClient, Clnts.DeleteClient. rewrite Hm1, H1.
  assert (forall t n, Clnts.remove (Clnts.makeClntTo t) n = Return n) as Hrm by done.
  rewrite Hrm. simpl. rewrite lookup_delete_ne, H2 by done. rewrite Hrm. simpl.
  eexists. split; [reflexivity|]. split; [|by rewrite Ed].
  apply (ShardChecks.inv_groups c ts); try done; cbn.
  - destruct Hi as [Hw _ _ _ _ _]. rewrite <-Eg in Hw. by destruct (cfg ts1) as [[]].
  - intros g Hg. destruct Hi as [_ _ _ _ Hr _]. specialize (Hr g Hg). rewrite <-Eg in Hr. by destruct (cfg ts1) as [[]].
Qed.

Lemma onClnt_inv {state K} `{!Controller K} a f c (ts : Test state K) :
  (forall clnt n, LabRpc.ends (f clnt n).2 = LabRpc.ends n /\ LabRpc.connections (f clnt n).2 = LabRpc.connections n /\
     LabRpc.servers (f clnt n).2 = LabRpc.servers n) ->
  inv c ts -> inv c (onClnt a f ts) /\ ctl (onClnt a f ts) = ctl ts.
Proof.
  intros Hf Hi. unfold onClnt. destruct (Config.clnts (cfg ts)) as [m|]; [|done].
  destruct (m !! a) as [clnt|]; [|done]. specialize (Hf clnt (Config.net (cfg ts))).
  destruct (f clnt (Config.net (cfg ts))) as [clnt' n]. destruct Hf as (He & Hc & Hs). simpl in *. split; [|done].
  destruct Hi as [[W1 W2] Iq Ig In Ir Irg]. constructor; try done.
  - constructor; [|exact W2]. intros g sg Hg. destruct (W1 g sg Hg) as [Eg [C1 C2 C3 C4]]. split; [done|].
    constructor; simpl; rewrite ?He, ?Hc; done.
  - intros g Hg. destruct (Ir g Hg) as [Hk Hu]. constructor; [exact Hk|]. intros i Hlt. simpl. rewrite Hs. apply (Hu i Hlt).
Qed.

Lemma reconnect_inv {state K} `{!Controller K} a c (ts : Test state K) :
  inv c ts -> inv c (reconnect a ts) /\ ctl (reconnect a ts) = ctl ts.
Proof.
  intros Hi. unfold reconnect. destruct (partition ts); [|done]. apply onClnt_inv; [|done].
  intros clnt n. apply enableList_same.
Qed.

Lemma reconnect_connected {state K} `{!Controller K, !Interruptible K} s m to (x : sys (state := state) (K := K)) (ts : Test state K) :
  partition ts = true -> Config.clnts (cfg ts) = Some m -> m !! ShardCtrler.clnt s = Some (Clnts.makeClntTo to) ->
  connected s (healed (ShardCtrler.clnt s) x ts) = true.
Proof.
  intros Hp Hm Ha. unfold connected, healed, reconnect, onClnt. cbn [s_ts]. rewrite Hp, Hm, Ha. cbn. by rewrite lookup_insert_eq.
Qed.

(** A goroutine whose group is not a member returns after its join. *)
Lemma joined_returns {state K} `{!Controller K, !Interruptible K} copyOrd ordOf s bt c (x : sys (state := state) (K := K)) :
  inv c (s_ts x) -> connected s x = true -> ShardCfg.Groups c !! s_ngid x = None -> (1 <= s_ngid x)%Z ->
  s_pc x = PJoined \/ s_pc x = PChecked ->
  exists y, rtc (fun y z => goStep copyOrd ordOf s bt y = Some (Return z)) x y /\ s_pc y = PReturned /\ inv c (s_ts y).
Proof.
  intros Hi Em Hn H1 Hpc. assert (checkMember s (s_ngid x) (s_ts x) = Return false) as Hck.
  { unfold checkMember, current. rewrite (iv_query _ _ Hi s). simpl. f_equal.
    apply not_true_is_false. rewrite IsMember_spec. apply gone_member; [apply Hi|done|lia]. }
  set (x1 := goto x (s_ts x) PChecked).
  assert (goStep copyOrd ordOf s bt x1 = Some (Return (goto x1 (s_ts x1) PReturned))) as S2.
  { unfold goStep, call. change (connected s x1) with (connected s x). rewrite Em. cbn [s_pc s_ts s_ngid goto x1]. rewrite Hck. reflexivity. }
  destruct Hpc as [Epc|Epc].
  - exists (goto x1 (s_ts x1) PReturned). split; [|done]. eapply rtc_l; [|by apply rtc_once].
    unfold goStep, call. by rewrite Epc, Em, Hck.
  - exists (goto x (s_ts x) PReturned). split; [|done]. apply rtc_once.
    unfold goStep, call. by rewrite Epc, Em, Hck.
Qed.

(** The superseded controller bails out.  After the check, with the group of the
    goroutine removed and the old controller connected again, a goroutine that
    was joining finds that its change has been finished and its group is not a
    member, and returns; the configuration and the groups stay as they are.
    If it had already seen its group as a member it goes on to remove it, and
    [leave] ends the process, because the group is gone. *)
Theorem superseded_bails_out {state K} `{!Controller K, !Interruptible K, !SupersededLaws K} copyOrd ordOf
    a s bt c (x : sys (state := state)) (ts : Test state K) :
  inv c ts -> pending (ctl ts) = None -> partition ts = true -> ShardCtrler.clnt s = a ->
  (exists m to, Config.clnts (cfg ts) = Some m /\ m !! a = Some (Clnts.makeClntTo to)) ->
  ShardCfg.Groups c !! s_ngid x = None -> (1 <= s_ngid x)%Z -> (forall m, copyOrd m ≡ₚ map_to_list m) ->
  let go y z := goStep copyOrd ordOf s bt y = Some (Return z) in
  match s_pc x with
  | PInJoin _ | PJoined | PChecked => exists y, rtc go (healed a x ts) y /\ s_pc y = PReturned /\ inv c (s_ts y)
  | PMember => exists y e, rtc go (healed a x ts) y /\ goStep copyOrd ordOf s bt y = Some (Fatal e)
  | _ => True
  end.
Proof.
  intros Hi Hp Hpart Es (m & to & Hm & Ha) Hn H1 Hco go. destruct (reconnect_inv a c ts Hi) as [Hi1 Ec].
  assert (forall x1 : sys (state := state) (K := K), inv c (s_ts x1) -> connected s x1 = true -> s_ngid x1 = s_ngid x ->
    s_pc x1 = PJoined \/ s_pc x1 = PChecked -> exists y, rtc go x1 y /\ s_pc y = PReturned /\ inv c (s_ts y)) as Hjoined.
  { intros x1 Hi2 Em En Epc. apply joined_returns; rewrite ?En; done. }
  assert (connected s (healed a x ts) = true) as Em by (subst a; by eapply reconnect_connected).
  destruct (s_pc x) as [| | | |c'|c'| | | | |c'|c'| | |] eqn:Epc; try done.
  - destruct (Hjoined (goto (healed a x ts) (set_ctl (reconnect a ts) (EndChange s (ctl (reconnect a ts)))) PJoined)) as (y & Hy & H); try done; [|by left|].
    + destruct Hi1 as [I1 I2 I3 I4 I5 I6]. constructor; try done. intros s'. cbn [ctl set_ctl s_ts goto].
      rewrite (proj1 (end_superseded s s' (ctl (reconnect a ts)) ltac:(by rewrite Ec))). apply I2.
    + exists y. split; [|done]. eapply rtc_l; [|exact Hy]. unfold go, goStep, call.
      rewrite Em. cbn [s_pc healed]. by rewrite Epc.
  - apply Hjoined; auto.
  - apply Hjoined; auto.
  - eexists (goto (set_state (healed a x ts) LEAVE) (reconnect a ts) PLeave), _. split.
    + apply rtc_once. unfold go, goStep. cbn [s_pc healed]. by rewrite Epc.
    + unfold goStep, call. change (connected s (goto _ _ _)) with (connected s (healed a x ts)).
      rewrite Em. cbn [s_pc s_main goto set_state s_ts s_ngid goto set_state healed].
      unfold current. rewrite (iv_query _ _ Hi1 s). cbn [mbind outcome_bind].
      rewrite (ShardCfg.Copy_id _ c (Hco _)). unfold ShardCfg.LeaveBalance, ShardCfg.Leave. cbn [ShardCfg.leaveLoop].
      rewrite Hn. reflexivity.
Qed.

(** ** A concrete run *)

(** A controller that keeps its promises: the current configuration and the one
    that is pending. *)
Definition exK : Type := option ShardConfig * option ShardConfig.
#[local] Instance logCtl : Controller exK :=
  {| InitController _ k := match k.2 with Some c => (Some c, None) | None => k end;
     InitConfig c _ _ := (Some c, None); ChangeConfigTo c _ _ := (Some c, None); Query _ k := k.1 |}.
#[local] Instance logInterruptible : Interruptible exK :=
  {| BeginChange c _ k := (k.1, Some c); EndChange _ k := match k.2 with Some c => (Some c, None) | None => k end;
     pending k := k.2 |}.
#[local] Instance logLaws : ControllerLaws exK.
Proof. by constructor. Qed.
#[local] Instance logRecovery : RecoveryLaws exK.
Proof.
  constructor; simpl.
  - by intros _ _ c c' [? ?] -> _ _.
  - intros _ _ c' [? ?] E. simpl in *. by rewrite E.
  - intros _ _ c [k1 [c'|]]; simpl; [done|]. by intros ->.
Qed.

#[local] Instance logSuperseded : SupersededLaws exK.
Proof. constructor. intros s s' [k1 k2] E. simpl in *. by subst. Qed.

Definition exGo := goStep (state := Z) (K := exK) ShardChecks.exCopyOrd ShardChecks.exOrdOf.
Definition exMain := mainStep (state := Z) (K := exK).
Definition exSys : Type := sys (state := Z) (K := exK).
Definition exMove : Type := (list (list string) * (nat -> Groups.boot Z)) + (list (list string) * (nat -> Groups.boot Z)).

(** The conditions on a step, by computation. *)
Definition exOk (mv : exMove) (x : exSys) : bool :=
  bool_decide (ngid (s_ts x) < int_max)%Z &&
  match (ctl (s_ts x)).1 with
  | None => true
  | Some c => bool_decide (size (ShardCfg.Groups c) <= ShardCfg.NShards) && bool_decide (ShardCfg.Num c < int_max)%Z
  end &&
  match mv, s_pc x, s_main x with
  | inl bt, PStart, _ | inr bt, _, MCut => ShardChecks.bootOk_b bt (s_ts x)
  | _, _, _ => true
  end.
Fixpoint exRun (s : ShardCtrler.ShardCtrler) (l : list exMove) (x : exSys) : outcome exSys :=
  match l with
  | [] => Return x
  | mv :: l =>
      if exOk mv x
      then match match mv with inl bt => exGo s bt x | inr bt => exMain 30 1 bt.2 x end with
           | Some m => x ← m; exRun s l x
           | None => Fatal "waits"
           end
      else Fatal "not within the bounds"
  end.

Lemma exOk_bounded mv x : exOk mv x = true -> bounded (s_ts x).
Proof.
  intros [[H1%bool_decide_eq_true H2]%andb_true_iff _]%andb_true_iff. split; [done|]. intros s c Hq. simpl in Hq.
  rewrite Hq in H2. by apply andb_true_iff in H2 as [?%bool_decide_eq_true ?%bool_decide_eq_true].
Qed.

Lemma exMoves_steps s l : forall x y, exRun s l x = Return y ->
  rtc (fun x y => bounded (s_ts x) /\ step ShardChecks.exCopyOrd ShardChecks.exOrdOf s 30 1 x y) x y.
Proof.
  induction l as [|mv l IH]; intros x y; cbn [exRun]; [by intros [= ->]|].
  destruct (exOk mv x) eqn:Hok; [|done]. pose proof (exOk_bounded mv x Hok) as Hb.
  apply andb_true_iff in Hok as [_ Hok]. destruct mv as [bt|bt].
  - destruct (exGo s bt x) as [m|] eqn:Eg; [|done]. intros (z & -> & Hz)%bind_Return.
    eapply rtc_l; [|exact (IH _ _ Hz)]. split; [exact Hb|]. apply (s_go _ _ s 30 1 bt); [|exact Eg].
    intros E. rewrite E in Hok. exact (ShardChecks.bootOk_dec bt (s_ts x) Hok).
  - destruct (exMain 30 1 bt.2 x) as [m|] eqn:Eg; [|done]. intros (z & -> & Hz)%bind_Return.
    eapply rtc_l; [|exact (IH _ _ Hz)]. split; [exact Hb|]. apply (s_test _ _ s 30 1 bt.2); [|exact Eg].
    intros E. rewrite E in Hok. apply (ShardChecks.startOk_restart bt.1 bt.2 (Config.groups (cfg (s_ts x)))).
    + by apply (ShardChecks.bootOk_dec bt (s_ts x)); destruct (s_pc x).
    + by apply (ShardChecks.bootOk_dec bt (s_ts x)); destruct (s_pc x).
Qed.

(** The goroutine's first join is cut off after it was recorded. *)
Definition exIdle : list (list string) * (nat -> Groups.boot Z) := ([], ShardChecks.exBoot 3 "i." 0).
Definition exMoves : list exMove :=
  [inl exIdle; inl exIdle; inl (ShardChecks.exGroup 2); inl exIdle; inl exIdle; inr exIdle; inr exIdle;
   inr (ShardChecks.exNames 3 "x.", ShardChecks.exRestart)].
Definition exBegin : outcome (ShardCtrler.ShardCtrler * Z * exSys) :=
  '(_, ts) ← ShardChecks.exSetup (ShardChecks.exMakeWith ((None, None) : exK)); beginPartition 30 ts.

Definition exDone (num : Z) (x : exSys) : bool :=
  match s_main x, pending (ctl (s_ts x)) with
  | MUp, Some c => negb (announced (s_pc x)) && bool_decide (num < ShardCfg.Num c)%Z && bool_decide (s_state x = JOIN)
  | _, _ => false
  end.
Lemma exDone_dec num x : exDone num x = true ->
  exists c, s_main x = MUp /\ pending (ctl (s_ts x)) = Some c /\ announced (s_pc x) = false /\
    (num < ShardCfg.Num c)%Z /\ s_state x = JOIN.
Proof.
  unfold exDone. destruct (s_main x); try done. destruct (pending (ctl (s_ts x))) as [c|]; [|done].
  intros [[Ha%negb_true_iff Hn%bool_decide_eq_true]%andb_true_iff Hst%bool_decide_eq_true]%andb_true_iff. by exists c.
Qed.

Lemma partition_verdict_witness :
  exists s num x0 x ts', exBegin = Return (s, num, x0) /\ exRun s exMoves x0 = Return x /\ s_state x = JOIN /\
    recover ShardChecks.exCopyOrd ShardChecks.exOrdOf 31 num x = Return ts' /\ running (Config.groups (cfg ts')) 1.
Proof.
  assert (check exBegin (fun y => check (exRun y.1.1 exMoves y.2) (exDone y.1.2)) = true) as Hchk by (vm_compute; reflexivity).
  assert (check (ShardChecks.exSetup (ShardChecks.exMakeWith ((None, None) : exK))) (fun y =>
    bool_decide (is_Some (Config.clnts (cfg y.2))) && bool_decide (pending (ctl y.2) = None) &&
    match (ctl y.2).1 with Some c => bool_decide (0 <= ShardCfg.Num c)%Z | None => false end) = true) as H0
    by (vm_compute; reflexivity).
  destruct (ShardChecks.exSetup_state ((None, None) : exK)) as (c0 & ts & E & Hi & _ & HG).
  apply (check_Return _ _ _ E) in H0. cbn [snd] in H0.
  apply andb_true_iff in H0 as [[Hcl%bool_decide_eq_true Hpd%bool_decide_eq_true]%andb_true_iff HN].
  pose proof (iv_query _ _ Hi ShardChecks.exS) as Hq. cbn [Query logCtl] in Hq. rewrite Hq in HN.
  apply bool_decide_eq_true in HN.
  apply check_inv in Hchk as ([[s num] x0] & Eb & Hchk). cbn [fst snd] in Hchk.
  apply check_inv in Hchk as (x & Er & Hchk).
  apply exDone_dec in Hchk as (cp & Em & Ep & Ha & Hnum & Hst).
  assert (beginPartition 30 ts = Return (s, num, x0)) as Eb' by (unfold exBegin in Eb; rewrite E in Eb; exact Eb).
  destruct (partition_verdict ShardChecks.exCopyOrd ShardChecks.exOrdOf 30 31 1 c0 ts s num x0 x ShardChecks.exCopyOrd_ok
    ShardChecks.exOrdOf_ok Hi Hpd HN Hcl) as (_ & c & Hqc & _ & Hpass & _).
  - rewrite HG, lookup_singleton_eq. by eexists.
  - rewrite HG, map_size_singleton. unfold ShardCfg.NShards. lia.
  - exact Eb'.
  - exact (exMoves_steps s exMoves _ _ Er).
  - exact Em.
  - assert (c = cp) as ->.
    { specialize (Hqc s s). cbn [Query InitController logCtl] in Hqc. cbn [pending logInterruptible] in Ep.
      rewrite Ep in Hqc. by injection Hqc. }
    destruct (Hpass (conj Hnum Ha)) as (ts' & c' & Hr & Hi' & HD). exists s, num, x0, x, ts'.
    split; [exact Eb|]. split; [exact Er|]. split; [exact Hst|]. split; [exact Hr|]. apply (iv_running _ _ Hi').
    apply elem_of_dom. rewrite HD, HG, dom_singleton_L. set_solver.
Defined.

(** After one whole turn the goroutine is cut off between announcing its second
    join and recording it: the check fails the test. *)
Definition exUnlucky : list exMove :=
  [inl exIdle; inl exIdle; inl (ShardChecks.exGroup 2)] ++ replicate 13 (inl exIdle) ++
  [inr exIdle; inr exIdle; inr (ShardChecks.exNames 3 "x.", ShardChecks.exRestart)].
Example unlucky_cut :
  check exBegin (fun y => check (exRun y.1.1 exUnlucky y.2) (fun x =>
    match s_pc x, recover ShardChecks.exCopyOrd ShardChecks.exOrdOf 31 y.1.2 x with
    | PStart, Fatal e => String.eqb e "didn't recover correctly"
    | _, _ => false
    end)) = true.
Proof. vm_compute. reflexivity. Qed.

End ShardPartition.
