(* ===== verification/KvDrive.v ===== *)
(** * Driving a key/value test

    Models the concurrent drivers of [src/src/kvtest1/kvtest.go]: the partitioner,
    which splits a group at random again and again, and [SpawnClientsAndWait]
    with [runClient], which starts the clients, tells them to stop and collects
    their results.  The drivers' channels are unbuffered: a send and a receive
    are one step. *)

From S2P Require Import Prelude LabRpc Group Models KvTest Annotation.

Module KvDrive.
Import LabRpc(Network).
Import Group(ServerGrp).

Set Default Proof Using "Type".

(** ** The partitioner *)

(** The loop that fills [pa[i]]: the indices [j] with [a[j] == i]. *)
Fixpoint side (i : Z) (j : Z) (a : list Z) : list Z :=
  match a with
  | [] => []
  | x :: a => if decide (x = i) then j :: side i (j + 1) a else side i (j + 1) a
  end.

(** The random side of every server; [rnd] gives the numbers drawn. *)
Definition sides (rnd : nat -> Z) (n : nat) : list Z := (fun i => (rnd i mod 2)%Z) <$> seq 0 n.

(** What the partitioner changes: the group, the network and the annotations. *)
Definition pstate : Type := ServerGrp * Network * Annotation.world.

(** One turn of the loop; [t] is the time of the annotation. *)
Definition partitionRound (t : Z) (rnd : nat -> Z) (s : pstate) : outcome pstate :=
  let '(sg, net, w) := s in
  let a := sides rnd (length (Group.srvs sg)) in
  let pa0 := side 0 0 a in
  let pa1 := side 1 0 a in
  '(sg, net) ← Group.Partition pa0 pa1 sg net;
  mret (sg, net, Annotation.AnnotateTwoPartitions t pa0 pa1 w).

(** The turns before the partitioner is told to stop. *)
Fixpoint Partitioner (rounds : list (Z * (nat -> Z))) (s : pstate) : outcome pstate :=
  match rounds with
  | [] => Return s
  | (t, rnd) :: rounds => s ← partitionRound t rnd s; Partitioner rounds s
  end.

Definition sideN (i : Z) (rnd : nat -> Z) (n : nat) : list nat :=
  filter (fun j => (rnd j mod 2)%Z = i) (seq 0 n).

Lemma side_spec i rnd n : side i 0 (sides rnd n) = Z.of_nat <$> sideN i rnd n.
Proof.
  unfold sides, sideN. change 0%Z with (Z.of_nat 0). generalize 0 as j.
  induction n as [|n IH]; intros j; [done|]. csimpl. rewrite filter_cons.
  replace (Z.of_nat j + 1)%Z with (Z.of_nat (S j)) by lia. rewrite IH. by case_decide.
Qed.

Lemma elem_of_sideN i rnd n x : x ∈ sideN i rnd n <-> (rnd x mod 2)%Z = i /\ x < n.
Proof. unfold sideN. rewrite list_elem_of_filter, elem_of_seq. intuition lia. Qed.

Lemma side_two (z : Z) : (z mod 2 = 0 \/ z mod 2 = 1)%Z.
Proof. pose proof (Z.mod_pos_bound z 2). lia. Qed.

(** The text that the annotation shows. *)
Definition splitText (rnd : nat -> Z) (n : nat) : string :=
  "partition = " +:+ Annotation.fmtInts (Z.of_nat <$> sideN 0 rnd n) +:+ " "
    +:+ Annotation.fmtInts (Z.of_nat <$> sideN 1 rnd n).

Lemma partitionRound_spec t rnd sg net w :
  Group.wf sg ->
  exists sg' net' w', partitionRound t rnd (sg, net, w) = Return (sg', net', w') /\
    Group.wf sg' /\ Group.srvs sg' = Group.srvs sg /\
    (forall x y, x < length (Group.srvs sg) -> y < length (Group.srvs sg) ->
       Group.linked sg' net' x y <-> (rnd x mod 2 = rnd y mod 2)%Z) /\
    Annotation.c_desp <$> Annotation.continuous (Annotation.annotation w') !! Annotation.TAG_PARTITION
    = Some (splitText rnd (length (Group.srvs sg))).
Proof.
  intros Hw. set (n := length (Group.srvs sg)).
  assert (forall i, Group.inRange sg (sideN i rnd n)) as Hr.
  { intros i. apply Forall_forall. intros x [_ ?]%elem_of_sideN. done. }
  destruct (Group.Partition_spec sg net (sideN 0 rnd n) (sideN 1 rnd n) Hw (Hr _) (Hr _))
    as (sg' & net' & E & Hw' & Es & L0 & L1 & X & _).
  { intros x. rewrite !elem_of_sideN. lia. }
  eexists sg', net', _. split; [unfold partitionRound; cbv zeta; fold n; rewrite !side_spec, E; reflexivity|].
  split_and!; [done|done| |].
  - intros x y Hx Hy. specialize (L0 x y). specialize (L1 x y). pose proof (X x y) as Xxy.
    pose proof (X y x) as Xyx. rewrite !elem_of_sideN in *.
    destruct (side_two (rnd x)) as [E1|E1], (side_two (rnd y)) as [E2|E2]; rewrite E1, E2 in *.
    + split; [done|]. intros _. by apply L0.
    + split; [|lia]. intros ?. by destruct Xxy.
    + split; [|lia]. intros ?. by destruct Xyx.
    + split; [done|]. intros _. by apply L1.
  - unfold Annotation.AnnotateTwoPartitions, Annotation.annotateContinuousColor. simpl.
    repeat case_match; simpl; by rewrite lookup_insert_eq.
Qed.

(** C23: the partitioner keeps splitting the group.  On a well-formed group it never
    panics; after any number of turns, the last with the random numbers
    [rnd], two servers can talk to each other exactly when their numbers have
    the same parity, whatever was connected before, and the annotation shows
    that split. *)
Theorem partitioner_splits rounds t rnd sg net w :
  Group.wf sg ->
  exists sg' net' w', Partitioner (rounds ++ [(t, rnd)]) (sg, net, w) = Return (sg', net', w') /\
    Group.wf sg' /\ Group.srvs sg' = Group.srvs sg /\
    (forall x y, x < length (Group.srvs sg) -> y < length (Group.srvs sg) ->
       Group.linked sg' net' x y <-> (rnd x mod 2 = rnd y mod 2)%Z) /\
    Annotation.c_desp <$> Annotation.continuous (Annotation.annotation w') !! Annotation.TAG_PARTITION
    = Some (splitText rnd (length (Group.srvs sg))).
Proof.
  revert sg net w. induction rounds as [|[t1 r1] rounds IH]; intros sg net w Hw; cbn [app Partitioner].
  - destruct (partitionRound_spec t rnd sg net w Hw) as (sg' & net' & w' & -> & H). by exists sg', net', w'.
  - destruct (partitionRound_spec t1 r1 sg net w Hw) as (sg1 & net1 & w1 & -> & Hw1 & E1 & _).
    destruct (IH sg1 net1 w1 Hw1) as (sg' & net' & w' & E & Hw' & Es & H). rewrite E1 in Es, H.
    exists sg', net', w'. cbn [mbind outcome_bind]. by split; [exact E|].
Qed.

(** ** Spawning clients *)

(** A client: started; with its clerk, running [fn]; told to stop; blocked on
    sending its result; with its result taken; its clerk deleted. *)
Inductive cst := Spawned | Working | Told | Finished | Sent | Gone.

#[local] Instance cst_eq_dec : EqDecision cst.
Proof. solve_decision. Defined.

Section Spawn.
(** [res] are the results of [fn]; [takes i] is whether the [fn] of client [i]
    receives from [done] before it returns. *)
Context (res : nat -> KvTest.ClntRes) (takes : nat -> bool).

(** [signals] are the sends on [done] so far and [rs] the results received. *)
Record spawn := { signals : nat; rs : list KvTest.ClntRes; cl : list cst }.

Definition SpawnClients (nclnt : nat) : spawn :=
  {| signals := 0; rs := []; cl := replicate nclnt Spawned |}.

(** The steps of [SpawnClientsAndWait] and of [runClient]; the first sends
    [nclnt] signals and then receives the results in order.  What a client does
    between its start and its return is one step. *)
Inductive sstep (s : spawn) : spawn -> Prop :=
| ss_clerk i :
    cl s !! i = Some Spawned ->
    sstep s {| signals := signals s; rs := rs s; cl := <[i := Working]> (cl s) |}
| ss_signal i :
    signals s < length (cl s) -> cl s !! i = Some Working -> takes i = true ->
    sstep s {| signals := signals s + 1; rs := rs s; cl := <[i := Told]> (cl s) |}
| ss_finish i :
    cl s !! i = Some (if takes i then Told else Working) ->
    sstep s {| signals := signals s; rs := rs s; cl := <[i := Finished]> (cl s) |}
| ss_result :
    signals s = length (cl s) -> cl s !! length (rs s) = Some Finished ->
    sstep s {| signals := signals s; rs := rs s ++ [res (length (rs s))];
               cl := <[length (rs s) := Sent]> (cl s) |}
| ss_delete i :
    cl s !! i = Some Sent ->
    sstep s {| signals := signals s; rs := rs s; cl := <[i := Gone]> (cl s) |}.

(** It has returned when it has a result of every client. *)
Definition returned (s : spawn) : Prop := length (rs s) = length (cl s).

(** ** Counting clients *)

Definition weigh (w : nat -> cst -> nat) (l : list cst) : nat := sum_list (imap w l).

Lemma weigh_insert w : forall (l : list cst) i c c', l !! i = Some c ->
  weigh w (<[i := c']> l) + w i c = weigh w l + w i c'.
Proof.
  intros l. revert w. induction l as [|x l IH]; intros w [|i] c c' Hi; unfold weigh in *; simpl in *;
    [done|done|injection Hi as ->; lia|].
  specialize (IH (w ∘ S) i c c' Hi). simpl in IH. lia.
Qed.

Lemma weigh_pos w l i c : l !! i = Some c -> w i c <= weigh w l.
Proof.
  revert w i. induction l as [|x l IH]; intros w [|i] Hi; unfold weigh in *; simpl in *;
    [done|done|injection Hi as ->; lia|]. specialize (IH (w ∘ S) i Hi). simpl in IH. lia.
Qed.

(** The steps that a client has left, and the signals that can still be taken. *)
Definition rank (c : cst) : nat :=
  match c with Spawned => 5 | Working => 4 | Told => 3 | Finished => 2 | Sent => 1 | Gone => 0 end.
Definition early (c : cst) : bool := match c with Spawned | Working => true | _ => false end.
Definition late (c : cst) : bool := match c with Sent | Gone => true | _ => false end.
Definition toTake (i : nat) (c : cst) : nat := if takes i && early c then 1 else 0.

Record SInv (nclnt : nat) (s : spawn) : Prop := {
  si_len : length (cl s) = nclnt;
  si_sig : signals s + weigh toTake (cl s) = weigh toTake (replicate nclnt Spawned);
  si_rs : rs s = res <$> seq 0 (length (rs s));
  si_late i c : cl s !! i = Some c -> late c = bool_decide (i < length (rs s));
  si_max : signals s <= nclnt /\ length (rs s) <= nclnt;
  si_first : rs s = [] \/ signals s = nclnt
}.

Lemma SInv_init n : SInv n (SpawnClients n).
Proof.
  constructor; simpl; [apply length_replicate|done|done| |lia|by left].
  intros i c [-> _]%lookup_replicate. done.
Qed.

Lemma sstep_rank s s' : sstep s s' -> weigh (fun _ => rank) (cl s') < weigh (fun _ => rank) (cl s).
Proof.
  intros []; simpl; match goal with H : cl s !! ?i = Some _ |- context [<[?i := ?c]> _] =>
    pose proof (weigh_insert (fun _ => rank) _ _ _ c H) end; try destruct (takes i); simpl in *; lia.
Qed.

Lemma SInv_step n s s' : sstep s s' -> SInv n s -> SInv n s'.
Proof.
  intros Hs [I1 I2 I3 I4 I5 I6].
  assert (forall i c c', cl s !! i = Some c -> late c = late c' -> forall j d,
    <[i := c']> (cl s) !! j = Some d -> late d = bool_decide (j < length (rs s))) as Hl.
  { intros i c c' Hi E j d [(<- & <- & _)|[_ Hj]]%list_lookup_insert_Some; [|by eapply I4].
    rewrite <-E. by eapply I4. }
  destruct Hs as [i Hi|i Hlt Hi Ht|i Hi|Hall Hi|i Hi]; constructor; simpl; rewrite ?length_insert; try done.
  all: try (match goal with |- context [<[?i := ?c]> _] => pose proof (weigh_insert toTake _ _ _ c Hi) as Hw end;
    unfold toTake in Hw at 2 4; try rewrite Ht in Hw; try destruct (takes _); simpl in Hw; lia).
  all: try (intros j d; by eapply Hl; [done|try destruct (takes i)]).
  - lia.
  - left. destruct I6; [done|lia].
  - rewrite length_app, seq_app, fmap_app, <-I3. done.
  - intros j d Hj. rewrite length_app. simpl. apply list_lookup_insert_Some in Hj as [(<- & <- & _)|[Hne Hj]].
    + by rewrite bool_decide_eq_true_2 by lia.
    + rewrite (I4 j d Hj). apply bool_decide_ext. lia.
  - rewrite length_app. apply lookup_lt_Some in Hi. simpl. lia.
  - right. lia.
Qed.

Lemma SInv_steps n s s' : rtc sstep s s' -> SInv n s -> SInv n s'.
Proof. induction 1 as [|x y z Hs _ IH]; [done|]. intros HI. apply IH. by eapply SInv_step. Qed.

Lemma weigh_const w k l : (forall i c, l !! i = Some c -> w i c = k) -> weigh w l = k * length l.
Proof.
  revert w. induction l as [|c l IH]; intros w H; unfold weigh in *; simpl; [lia|].
  rewrite (H 0 c) by done. rewrite (IH (w ∘ S)); [lia|]. intros i d Hi. by apply (H (S i)).
Qed.

Lemma weigh_at_most w l : (forall i c, w i c <= 1) -> weigh w l <= length l.
Proof.
  revert w. induction l as [|c l IH]; intros w H; unfold weigh in *; simpl; [lia|].
  pose proof (H 0 c). specialize (IH (w ∘ S) (fun i => H (S i))). lia.
Qed.

Lemma weigh_less w l i c :
  (forall i c, w i c <= 1) -> l !! i = Some c -> w i c = 0 -> weigh w l < length l.
Proof.
  revert w i. induction l as [|d l IH]; intros w i H Hi H0; [done|].
  pose proof (H 0 d). pose proof (weigh_at_most (w ∘ S) l (fun i => H (S i))) as Hm.
  unfold weigh in *. simpl. destruct i as [|i]; simpl in Hi.
  - injection Hi as ->. lia.
  - specialize (IH (w ∘ S) i (fun i => H (S i)) Hi H0). lia.
Qed.

Lemma sstep_bound k s s' : nsteps sstep k s s' -> k + weigh (fun _ => rank) (cl s') <= weigh (fun _ => rank) (cl s).
Proof.
  induction 1 as [|k x y z Hs _ IH]; [lia|]. apply sstep_rank in Hs. lia.
Qed.

(** When every client takes its signal, a run that cannot go on is finished. *)
Lemma spawn_progress n s :
  SInv n s -> (forall i, i < n -> takes i = true) -> (forall s', ~ sstep s s') ->
  rs s = res <$> seq 0 n /\ cl s = replicate n Gone.
Proof.
  intros HI Ht Hno. pose proof HI as [I1 I2 I3 I4 I5 _].
  assert (weigh toTake (replicate n Spawned) = n) as Hall.
  { rewrite (weigh_const _ 1), length_replicate; [lia|].
    intros i c [-> Hi]%lookup_replicate. unfold toTake. by rewrite Ht. }
  assert (forall i c, cl s !! i = Some c -> takes i = true) as Htk.
  { intros i c Hi. apply Ht. rewrite <-I1. by eapply lookup_lt_Some. }
  assert (forall i c, cl s !! i = Some c -> c = Finished \/ c = Sent \/ c = Gone) as H1.
  { intros i c Hi. specialize (Htk i c Hi). destruct c; auto; exfalso.
    - eapply Hno. by apply (ss_clerk _ i).
    - destruct (decide (signals s < length (cl s))) as [Hlt|Hge].
      + eapply Hno. by apply (ss_signal _ i).
      + pose proof (weigh_pos toTake _ _ _ Hi) as Hw. unfold toTake in Hw at 1. rewrite Htk in Hw.
        simpl in Hw. lia.
    - eapply Hno. apply (ss_finish _ i). by rewrite Htk. }
  assert (signals s = n) as Hs.
  { assert (weigh toTake (cl s) = 0) as Hz; [|lia]. rewrite (weigh_const _ 0); [done|].
    intros i c Hi. unfold toTake. by destruct (H1 i c Hi) as [->|[->| ->]]; rewrite andb_false_r. }
  assert (length (rs s) = n) as Hr.
  { destruct (decide (length (rs s) < n)) as [Hlt|Hge].
    - exfalso. destruct (lookup_lt_is_Some_2 (cl s) (length (rs s))) as [c Hc]; [lia|].
      pose proof (I4 _ _ Hc) as Hl. rewrite bool_decide_eq_false_2 in Hl by lia.
      destruct (H1 _ _ Hc) as [->|[->| ->]]; [|done|done]. eapply Hno. apply ss_result; [lia|done].
    - lia. }
  split; [by rewrite I3, Hr|]. symmetry. apply replicate_as_elem_of. split; [done|]. intros c [i Hi]%list_elem_of_lookup_1.
  pose proof (I4 _ _ Hi) as Hl. apply lookup_lt_Some in Hi as Hlt.
  rewrite bool_decide_eq_true_2 in Hl by lia.
  destruct (H1 _ _ Hi) as [->|[->| ->]]; [done| |done]. exfalso. eapply Hno. by apply (ss_delete _ i).
Qed.


(** C24: [SpawnClientsAndWait] collects every client's result.  Its runs are finite,
    with at most five steps for each client.  When every client receives one
    signal before it returns, a run can only end with the result of client [i]
    at index [i] and every clerk deleted; when some client returns without
    taking its signal, [SpawnClientsAndWait] never returns. *)
Theorem spawn_collects nclnt k s :
  nsteps sstep k (SpawnClients nclnt) s ->
  k <= 5 * nclnt /\
  ((forall i, i < nclnt -> takes i = true) -> (forall s', ~ sstep s s') ->
   rs s = res <$> seq 0 nclnt /\ cl s = replicate nclnt Gone) /\
  ((exists i, i < nclnt /\ takes i = false) -> ~ returned s).
Proof.
  intros Hk. pose proof (sstep_bound _ _ _ Hk) as Hb. cbn [SpawnClients cl] in Hb.
  rewrite (weigh_const _ 5 (replicate nclnt Spawned)), length_replicate in Hb by (by intros i c [-> _]%lookup_replicate).
  assert (SInv nclnt s) as HI by (eapply SInv_steps; [by eapply rtc_nsteps_2|apply SInv_init]).
  split; [lia|]. split; [by apply spawn_progress|]. intros (i & Hi & Ht) Hr.
  assert (signals s < nclnt) as Hlt.
  { pose proof (weigh_less toTake (replicate nclnt Spawned) i Spawned) as Hw. rewrite length_replicate in Hw.
    destruct HI as [_ I2 _ _ _ _]. assert (weigh toTake (replicate nclnt Spawned) < nclnt); [|lia]. apply Hw.
    - intros j c. unfold toTake. case_match; lia.
    - by apply lookup_replicate_2.
    - unfold toTake. by rewrite Ht. }
  destruct HI as [I1 _ _ _ _ [E|E]]; [|lia]. unfold returned in Hr. rewrite E in Hr. simpl in Hr. lia.
Qed.

End Spawn.

(** ** Witnesses *)

(** Servers 0 and 1 against server 2, after another split. *)
Lemma partitioner_splits_witness :
  exists sg net sg' net' w', Group.wf sg /\
    Partitioner [(1, Z.of_nat); (2, fun i => Z.of_nat (i + i * i + i / 2))]%Z (sg, net, Annotation.init)
    = Return (sg', net', w') /\
    Group.linked sg' net' 0 1 /\ ~ Group.linked sg' net' 1 2.
Proof.
  destruct Group.names3_ok as (H1 & H2 & H3).
  destruct (Group.makeSrvGrp_spec 0 Group.names3 LabRpc.MakeNetwork H1 H2 H3) as (sg & net & _ & Hw & Hn & _).
  exists sg, net.
  destruct (partitioner_splits [(1%Z, Z.of_nat)] 2 (fun i => Z.of_nat (i + i * i + i / 2)) sg net Annotation.init Hw)
    as (sg' & net' & w' & He & _ & _ & Hl & _).
  assert (length (Group.srvs sg) = 3) as E by (rewrite Hn; reflexivity).
  exists sg', net', w'. split; [exact Hw|]. split; [exact He|]. split.
  - apply Hl; [lia|lia|reflexivity].
  - rewrite Hl by lia. vm_compute. discriminate.
Defined.

Definition exRes (i : nat) : KvTest.ClntRes := {| KvTest.Nok := Z.of_nat i; KvTest.Nmaybe := 0 |}.

Lemma spawn_collects_witness :
  exists s, nsteps (sstep exRes (fun _ => true)) 5 (SpawnClients 1) s /\ rs s = [exRes 0].
Proof.
  eassert (nsteps (sstep exRes (fun _ => true)) 5 (SpawnClients 1) {| signals := 1; rs := [exRes 0]; cl := [Gone] |})
    as Hr.
  { eapply nsteps_l; [by apply (ss_clerk _ _ _ 0)|].
    eapply nsteps_l; [apply (ss_signal _ _ _ 0); [simpl; lia|done|done]|].
    eapply nsteps_l; [by apply (ss_finish _ _ _ 0)|].
    eapply nsteps_l; [by apply ss_result|].
    eapply nsteps_l; [by apply (ss_delete _ _ _ 0)|]. apply nsteps_O. }
  eexists. split; [exact Hr|].
  destruct (spawn_collects exRes (fun _ => true) 1 5 _ Hr) as (_ & H & _). destruct H as [-> _]; [done| |reflexivity].
  intros s' Hs. inversion Hs as [[|i] Hi|[|i] ? Hi|[|i] Hi|? Hi|[|i] Hi]; discriminate Hi.
Defined.

End KvDrive.
