(* ===== verification/Labgob.v ===== *)
(** * The checked encoder

    Models [src/src/labgob/labgob.go], the wrapper around [encoding/gob] that
    warns about lower-case fields (which gob does not send) and about decoding
    into values that are not zero (which gob may not overwrite): the checks.  The
    encoder and the decoder around gob are in [LabgobIo].

    A [reflect.Type] is an identifier into a finite table of type definitions,
    so that recursive types are covered; the global variables [checked] and
    [errorCount] and the printed messages are the state.  A value is the tree
    that reflection unfolds. *)

From S2P Require Import Prelude GoLib MrApps.

Set Default Proof Using "Type".
Set Warnings "-register-all".

Module Labgob.

(** [reflect.Type]: what [checkType] distinguishes. *)
Inductive tydef :=
| Struct (name : string) (fields : list (string * nat))
| Slice (elem : nat) | Array (elem : nat) | Ptr (elem : nat)
| Map (key elem : nat)
| Other (name : string).

Record state := { checked : gset nat; errorCount : Z; printed : list string }.
Definition init : state := {| checked := ∅; errorCount := 0; printed := [] |}.

Definition mark (t : nat) (st : state) : state :=
  {| checked := {[t]} ∪ checked st; errorCount := errorCount st; printed := printed st |}.
Definition complain (msg : string) (st : state) : state :=
  {| checked := checked st; errorCount := errorCount st + 1; printed := printed st ++ [msg] |}.

Section Labgob.
(** [unicode.IsUpper] above Latin-1, and the program's types. *)
Context (highUpper : Z -> bool) (types : gmap nat tydef).

Definition IsUpper (r : Z) : bool :=
  if decide (r <= 0xFF)%Z then
    bool_decide (0x41 <= r <= 0x5A)%Z ||
    (bool_decide (0xC0 <= r <= 0xDE)%Z && bool_decide (r <> 0xD7)%Z)
  else highUpper r.

Definition capital (name : string) : bool := IsUpper (decodeRune name).1.

Definition lowerMsg (field ty : string) : string :=
  "labgob error: lower-case field " +:+ field +:+ " of " +:+ ty
  +:+ " in RPC or persist/snapshot will break your Raft".

(** The loop over the fields of a struct; [check] is the recursive call. *)
Fixpoint checkFields (check : nat -> state -> option state) (name : string)
    (fields : list (string * nat)) (st : state) : option state :=
  match fields with
  | [] => Some st
  | (field, ft) :: fields =>
      let st := if capital field then st else complain (lowerMsg field name) st in
      st ← check ft st; checkFields check name fields st
  end.

(** [checkType] recurses into the types it has not seen yet; [None] is running
    out of fuel. *)
Fixpoint checkType (fuel : nat) (t : nat) (st : state) : option state :=
  match fuel with
  | 0 => None
  | S fuel =>
      if decide (t ∈ checked st) then Some st
      else
        let st := mark t st in
        match types !! t with
        | Some (Struct name fields) => checkFields (checkType fuel) name fields st
        | Some (Slice e) | Some (Array e) | Some (Ptr e) => checkType fuel e st
        | Some (Map k e) => st ← checkType fuel e st; checkType fuel k st
        | Some (Other _) | None => Some st
        end
  end.

(** The types left to check bound the depth of the recursion. *)
Definition enough (st : state) : nat := S (size (dom types ∖ checked st)).

(** [checkValue]: [None] is the nil interface, whose type is nil. *)
Definition checkValue (value : option nat) (st : state) : outcome (option state) :=
  match value with
  | Some t => Return (checkType (enough st) t st)
  | None => Panic "nil pointer dereference"
  end.

(** ** Decoding into non-zero values *)

(** A [reflect.Value]: fields carry their names, a basic value its type's name
    and whether it is the zero value. *)
Inductive value :=
| VStruct (fields : list (string * value))
| VPtr (elem : option value)
| VBasic (tyname : string) (isZero : bool)
| VOther.

Definition defaultMsg (what : string) : string :=
  "labgob warning: Decoding into a non-default variable/field " +:+ what +:+ " may not work".

Definition warn (what : string) (st : state) : state :=
  {| checked := checked st; errorCount := errorCount st + 1;
     printed := if decide (errorCount st < 1)%Z then printed st ++ [defaultMsg what] else printed st |}.

(** [checkDefault1]: [ro] says that the value was reached through an unexported
    field, in which case reflection refuses to read it as an interface. *)
Fixpoint checkDefault1 (ro : bool) (v : value) (depth : Z) (name : string) (st : state) : outcome state :=
  if decide (3 < depth)%Z then Return st
  else
    match v with
    | VStruct fields =>
        (fix loop (fields : list (string * value)) (st : state) : outcome state :=
           match fields with
           | [] => Return st
           | (field, vv) :: fields =>
               let name1 := if decide (name = "") then field else name +:+ "." +:+ field in
               st ← checkDefault1 (ro || negb (capital field)) vv (depth + 1) name1 st;
               loop fields st
           end) fields st
    | VPtr None => Return st
    | VPtr (Some v) => checkDefault1 ro v (depth + 1) name st
    | VBasic ty isZero =>
        if ro then Panic "reflect.Value.Interface: cannot return value obtained from unexported field or method"
        else if isZero then Return st
        else Return (warn (if decide (name = "") then ty else name) st)
    | VOther => Return st
    end.

Definition checkDefault (v : option value) (st : state) : outcome state :=
  match v with None => Return st | Some v => checkDefault1 false v 1 "" st end.

(** ** What a type refers to *)

Definition children (t : nat) : list nat :=
  match types !! t with
  | Some (Struct _ fields) => fields.*2
  | Some (Slice e) | Some (Array e) | Some (Ptr e) => [e]
  | Some (Map k e) => [e; k]
  | _ => []
  end.

Definition lowerFields (t : nat) : Z :=
  match types !! t with
  | Some (Struct _ fields) => Z.of_nat (count (fun f => capital f.1 = false) fields)
  | _ => 0
  end.

Definition refers (t u : nat) : Prop := u ∈ children t.

(** The lower-case fields of a set of types. *)
Definition lowerIn (X : gset nat) : Z := foldr Z.add 0%Z (lowerFields <$> elements X).

Lemma foldr_add_perm (l l' : list Z) : l ≡ₚ l' -> foldr Z.add 0%Z l = foldr Z.add 0%Z l'.
Proof. induction 1; simpl; lia. Qed.

Lemma foldr_add_app (l l' : list Z) :
  foldr Z.add 0%Z (l ++ l') = (foldr Z.add 0 l + foldr Z.add 0 l')%Z.
Proof. induction l; simpl; lia. Qed.

Lemma lowerIn_union X Y : X ## Y -> lowerIn (X ∪ Y) = (lowerIn X + lowerIn Y)%Z.
Proof.
  intros H. unfold lowerIn. rewrite <-foldr_add_app, <-fmap_app.
  apply foldr_add_perm. by rewrite elements_disj_union.
Qed.

Lemma lowerIn_singleton t : lowerIn {[t]} = lowerFields t.
Proof. unfold lowerIn. rewrite elements_singleton. simpl. lia. Qed.

Lemma lowerIn_nonneg X : (0 <= lowerIn X)%Z.
Proof.
  unfold lowerIn. induction (elements X) as [|t l IH]; [done|]. rewrite fmap_cons. cbn [foldr].
  assert (0 <= lowerFields t)%Z; [|lia]. unfold lowerFields. destruct (types !! t) as [[]|]; unfold len; lia.
Qed.

Lemma lowerIn_empty : lowerIn ∅ = 0%Z.
Proof. done. Qed.

(** ** Visiting types

    [visits l e st st']: starting from [st], every type of [l] is checked, the
    newly checked types are referred to from [l] and have their own references
    checked too, and [e] plus one error per lower-case field of a new type was
    counted. *)
Record visits (l : list nat) (e : Z) (st st' : state) : Prop := {
  v_mono : checked st ⊆ checked st';
  v_all t : t ∈ l -> t ∈ checked st';
  v_closed t u : t ∈ checked st' -> t ∉ checked st -> refers t u -> u ∈ checked st';
  v_reach t : t ∈ checked st' -> t ∉ checked st -> exists r, r ∈ l /\ rtc refers r t;
  v_errors : errorCount st' = (errorCount st + e + lowerIn (checked st' ∖ checked st))%Z
}.

Lemma visits_nil st : visits [] 0 st st.
Proof.
  split; [done|intros t Ht; by apply elem_of_nil in Ht|done|done|].
  rewrite difference_diag_L, lowerIn_empty. lia.
Qed.

Lemma visits_app l1 l2 e1 e2 st st1 st2 :
  visits l1 e1 st st1 -> visits l2 e2 st1 st2 -> visits (l1 ++ l2) (e1 + e2) st st2.
Proof.
  intros [M1 A1 C1 R1 E1] [M2 A2 C2 R2 E2]. split.
  - set_solver.
  - intros t [Ht|Ht]%elem_of_app; [apply M2|]; auto.
  - intros t u Ht Hn Hr. destruct (decide (t ∈ checked st1)); [apply M2|]; eauto.
  - intros t Ht Hn. destruct (decide (t ∈ checked st1)) as [H|H].
    + destruct (R1 t H Hn) as (r & ? & ?). exists r. set_solver.
    + destruct (R2 t Ht H) as (r & ? & ?). exists r. set_solver.
  - rewrite E2, E1.
    replace (checked st2 ∖ checked st) with ((checked st1 ∖ checked st) ∪ (checked st2 ∖ checked st1)).
    + rewrite lowerIn_union by set_solver. lia.
    + apply set_eq. intros t. rewrite !elem_of_union, !elem_of_difference.
      destruct (decide (t ∈ checked st1)); naive_solver.
Qed.

(** Complaining before a visit only adds to the count. *)
Lemma visits_complain l e msg st st' : visits l e (complain msg st) st' -> visits l (1 + e) st st'.
Proof. intros [M A C R E]. split; simpl in *; try done. lia. Qed.

Lemma checkFields_visits check name fields st st' :
  (forall t st st', check t st = Some st' -> visits [t] 0 st st') ->
  checkFields check name fields st = Some st' ->
  visits fields.*2 (Z.of_nat (count (fun f => capital f.1 = false) fields)) st st'.
Proof.
  intros Hc. revert st. induction fields as [|[field ft] fields IH]; intros st H; simpl in H.
  { simplify_eq. apply visits_nil. }
  destruct (check ft _) as [st1|] eqn:E; [|done]. simpl in H. apply IH in H. apply Hc in E.
  rewrite fmap_cons, count_cons. simpl. destruct (capital field) eqn:Ef.
  - rewrite decide_False by done. change (ft :: fields.*2) with ([ft] ++ fields.*2).
    rewrite Nat.add_0_l. by eapply (visits_app _ _ 0).
  - rewrite decide_True by done. apply visits_complain in E.
    replace (Z.of_nat (1 + _)) with (1 + 0 + Z.of_nat (count (fun f => capital f.1 = false) fields))%Z by lia.
    change (ft :: fields.*2) with ([ft] ++ fields.*2). by eapply visits_app.
Qed.

(** A type that was not checked: mark it, then visit what it refers to. *)
Lemma visits_mark t st st' :
  t ∉ checked st -> visits (children t) (lowerFields t) (mark t st) st' -> visits [t] 0 st st'.
Proof.
  intros Ht [M A C R E]. simpl in *. assert (t ∈ checked st') as Ht' by set_solver. split.
  - set_solver.
  - intros u Hu. apply list_elem_of_singleton in Hu as ->. done.
  - intros u v Hu Hn Hr. destruct (decide (u = t)) as [->|]; [by apply A|].
    apply (C u); [done|set_solver|done].
  - intros u Hu Hn. exists t. split; [by left|]. destruct (decide (u = t)) as [->|]; [done|].
    destruct (R u) as (r & Hr & Hru); [done|set_solver|]. by eapply rtc_l.
  - rewrite E. replace (checked st' ∖ checked st) with ({[t]} ∪ (checked st' ∖ ({[t]} ∪ checked st))).
    + rewrite lowerIn_union, lowerIn_singleton by set_solver. lia.
    + apply set_eq. intros u. destruct (decide (u = t)); set_solver.
Qed.

Lemma checkType_visits fuel t st st' : checkType fuel t st = Some st' -> visits [t] 0 st st'.
Proof.
  revert t st st'. induction fuel as [|fuel IH]; intros t st st' H; [done|]. simpl in H.
  case_decide as Hd.
  { simplify_eq. split; [done| |done|done|rewrite difference_diag_L, lowerIn_empty; lia].
    intros u Hu. by apply list_elem_of_singleton in Hu as ->. }
  apply visits_mark; [done|]. unfold children, lowerFields.
  destruct (types !! t) as [[name fields|e|e|e|k e|name]|] eqn:Et.
  - by eapply checkFields_visits.
  - by apply IH.
  - by apply IH.
  - by apply IH.
  - destruct (checkType fuel e (mark t st)) as [st1|] eqn:E1; [|done]. simpl in H.
    apply (visits_app [e] [k] 0 0 _ st1); eauto.
  - simplify_eq. apply visits_nil.
  - simplify_eq. apply visits_nil.
Qed.

(** ** Termination *)

Definition left_ (st : state) : nat := size (dom types ∖ checked st).

Lemma left_mono st st' : checked st ⊆ checked st' -> left_ st' <= left_ st.
Proof. intros H. unfold left_. apply subseteq_size. set_solver. Qed.

Lemma left_mark t st : t ∉ checked st -> t ∈ dom types -> left_ (mark t st) < left_ st.
Proof. intros H Ht. unfold left_. apply subset_size. simpl. set_solver. Qed.

Lemma checkFields_total check name fields st n :
  (forall t st, left_ st <= n -> exists st', check t st = Some st' /\ checked st ⊆ checked st') ->
  left_ st <= n -> exists st', checkFields check name fields st = Some st'.
Proof.
  intros Hc. revert st. induction fields as [|[field ft] fields IH]; intros st Hst; simpl; [eauto|].
  destruct (Hc ft (if capital field then st else complain (lowerMsg field name) st)) as (st1 & -> & Hm).
  { by destruct (capital field). }
  simpl. apply IH. etrans; [|exact Hst]. apply left_mono. by destruct (capital field).
Qed.

Lemma checkType_total fuel t st : left_ st < fuel -> exists st', checkType fuel t st = Some st'.
Proof.
  revert t st. induction fuel as [|fuel IH]; intros t st Hf; [lia|]. simpl.
  case_decide as Hd; [eauto|].
  assert (forall t st', left_ st' < fuel ->
    exists st'', checkType fuel t st' = Some st'' /\ checked st' ⊆ checked st'') as Hrec.
  { intros u st' Hu. destruct (IH u st' Hu) as [st'' H]. exists st''. split; [done|].
    by apply checkType_visits in H as []. }
  destruct (types !! t) as [ty|] eqn:Et; [|eauto].
  assert (left_ (mark t st) < fuel) as Hm.
  { assert (left_ (mark t st) < left_ st); [|lia]. apply left_mark; [done|]. by apply elem_of_dom_2 in Et. }
  destruct ty as [name fields|e|e|e|k e|name]; eauto.
  - apply (checkFields_total _ _ _ _ (left_ (mark t st))); [|done].
    intros u st' Hu. apply Hrec. lia.
  - destruct (Hrec e (mark t st) Hm) as (st1 & -> & Hm1). simpl. apply IH.
    apply left_mono in Hm1. lia.
Qed.

(** Everything a checked type refers to is checked. *)
Definition closed (st : state) : Prop :=
  forall t u, t ∈ checked st -> refers t u -> u ∈ checked st.

(** ** Values *)

(** The basic values [checkDefault1] looks at, with whether they were reached
    through an unexported field and whether they are zero. *)
Fixpoint leaves (ro : bool) (v : value) (depth : Z) : list (bool * bool) :=
  if decide (3 < depth)%Z then []
  else
    match v with
    | VStruct fields =>
        (fix loop (fields : list (string * value)) : list (bool * bool) :=
           match fields with
           | [] => []
           | (field, vv) :: fields =>
               leaves (ro || negb (capital field)) vv (depth + 1) ++ loop fields
           end) fields
    | VPtr (Some v) => leaves ro v (depth + 1)
    | VBasic _ isZero => [(ro, isZero)]
    | _ => []
    end.

Lemma value_nested_ind (P : value -> Prop) :
  (forall fields, Forall (fun f => P f.2) fields -> P (VStruct fields)) ->
  P (VPtr None) -> (forall v, P v -> P (VPtr (Some v))) ->
  (forall ty z, P (VBasic ty z)) -> P VOther -> forall v, P v.
Proof.
  intros HS HN HP HB HO. fix IH 1. intros [fields|[v|]|ty z|].
  - apply HS. induction fields as [|[f v] fields IHf]; constructor; [apply IH|exact IHf].
  - apply HP, IH.
  - exact HN.
  - apply HB.
  - exact HO.
Qed.

(** What looking at a list of basic values does to the state: it fails on an
    unreadable one, counts those that are not zero, and prints once at most. *)
Definition looked (l : list (bool * bool)) (st : state) (r : outcome state) : Prop :=
  match r with
  | Return st' =>
      Forall (fun x => x.1 = false) l /\ checked st' = checked st /\
      errorCount st' = (errorCount st + Z.of_nat (count (fun x => x.2 = false) l))%Z /\
      ((0 < errorCount st)%Z -> printed st' = printed st) /\
      (errorCount st = 0%Z -> 0 < count (fun x => x.2 = false) l ->
         exists what, printed st' = printed st ++ [defaultMsg what]) /\
      (count (fun x => x.2 = false) l = 0 -> printed st' = printed st)
  | Fatal _ => False
  | Panic _ => Exists (fun x => x.1 = true) l
  end.

Lemma looked_nil st : looked [] st (Return st).
Proof. unfold looked, count. simpl. split_and!; try done; [lia|]. intros _. lia. Qed.

Lemma looked_app l1 l2 st r (k : state -> outcome state) :
  (0 <= errorCount st)%Z -> looked l1 st r ->
  (forall st', (0 <= errorCount st')%Z -> looked l2 st' (k st')) -> looked (l1 ++ l2) st (r ≫= k).
Proof.
  intros H0 H1 H2. destruct r as [st1|m|m]; simpl in *; [|done|by apply Exists_app; left].
  destruct H1 as (F1 & C1 & E1 & P1 & Q1 & R1). specialize (H2 st1 ltac:(lia)). unfold looked in *.
  destruct (k st1) as [st2|m|m]; [|done|by apply Exists_app; right].
  destruct H2 as (F2 & C2 & E2 & P2 & Q2 & R2). rewrite count_app, Forall_app, E2, E1, C2.
  split_and!; try done; [lia| | |].
  - intros H. rewrite P2 by lia. auto.
  - intros Hz Hc. destruct (decide (count (fun x => x.2 = false) l1 = 0)) as [Hn|Hn].
    + rewrite <-(R1 Hn). apply Q2; lia.
    + rewrite P2 by lia. apply Q1; [done|lia].
  - intros Hc. rewrite R2, R1 by lia. done.
Qed.

Lemma checkDefault1_looked v : forall ro depth name st,
  (0 <= errorCount st)%Z -> looked (leaves ro v depth) st (checkDefault1 ro v depth name st).
Proof.
  induction v as [fields IH| |v IH|ty z|] using value_nested_ind;
    intros ro depth name st H0; simpl; (case_decide; [apply looked_nil|]).
  - revert st H0. induction IH as [|[field vv] fields Hv _ IHf]; intros st H0; [apply looked_nil|].
    apply looked_app; [done|by apply Hv|done].
  - apply looked_nil.
  - by apply IH.
  - destruct ro; [by constructor|]. unfold looked, count. rewrite filter_cons, filter_nil. simpl.
    destruct z; simpl.
    + split_and!; try done; [by repeat constructor|lia|lia].
    + split_and!; try done; [by repeat constructor| |].
      * intros. by rewrite decide_False by lia.
      * intros Hz _. rewrite decide_True by lia. eauto.
  - apply looked_nil.
Qed.

(** ** Theorems *)

(** Every lower-case field is reported, once.  Whatever was checked before,
    checking a value terminates; afterwards the checked types are those from
    before and all types the value's type refers to, directly or not (through
    recursive types too), and the error count has grown by the number of
    lower-case fields of the types that are new. *)
Theorem check_value_complains t st :
  closed st ->
  exists st', checkValue (Some t) st = Return (Some st') /\ closed st' /\
    (forall u, u ∈ checked st' <-> u ∈ checked st \/ rtc refers t u) /\
    errorCount st' = (errorCount st + lowerIn (checked st' ∖ checked st))%Z.
Proof.
  intros Hc. destruct (checkType_total (enough st) t st) as [st' H]; [unfold enough, left_; lia|].
  exists st'. unfold checkValue. rewrite H. apply checkType_visits in H as [M A C R E].
  assert (closed st') as Hc'.
  { intros x u Hx Hr. destruct (decide (x ∈ checked st)); [|by eapply C]. apply M. by eapply Hc. }
  split_and!; [done|done| |lia]. intros u. split.
  - intros Hu. destruct (decide (u ∈ checked st)) as [|Hn]; [by left|right].
    destruct (R u Hu Hn) as (r & Hr & Hru). by apply list_elem_of_singleton in Hr as ->.
  - intros [Hu|Hu]; [by apply M|]. assert (t ∈ checked st') as Ht by (apply A; by left).
    clear -Hu Ht Hc'. induction Hu; eauto.
Qed.

(** Decoding into a used variable is noticed.  [checkDefault] returns exactly
    when no basic value within depth three sits under an unexported field
    (otherwise reflection panics); it then counts the values that are not
    zero, and prints a warning only if there is one and none was counted
    before. *)
Theorem check_default_counts v st :
  (0 <= errorCount st)%Z ->
  let l := leaves false v 1 in
  ((exists st', checkDefault (Some v) st = Return st') <-> Forall (fun x => x.1 = false) l) /\
  (forall m, checkDefault (Some v) st <> Fatal m) /\
  forall st', checkDefault (Some v) st = Return st' ->
    errorCount st' = (errorCount st + Z.of_nat (count (fun x => x.2 = false) l))%Z /\
    length (printed st') = length (printed st) +
      (if decide (errorCount st = 0%Z /\ 0 < count (fun x => x.2 = false) l) then 1 else 0).
Proof.
  intros H0 l. pose proof (checkDefault1_looked v false 1 "" st H0) as Hl. fold l in Hl.
  simpl. destruct (checkDefault1 false v 1 "" st) as [st1|m|m]; simpl in Hl; [|done|].
  - destruct Hl as (F & _ & E & P & Q & R). split_and!; [naive_solver|done|].
    intros st' [= <-]. split; [done|]. case_decide as Hd.
    + destruct Hd as [Hz Hc]. destruct (Q Hz Hc) as [what ->]. by rewrite length_app.
    + destruct (decide (errorCount st = 0%Z)).
      * rewrite R; [lia|]. lia.
      * rewrite P by lia. lia.
  - split_and!; [|done|done]. split; [by intros [??]|]. intros F. exfalso.
    apply Exists_exists in Hl as (x & Hx & Hx1). rewrite Forall_forall in F.
    specialize (F _ Hx). congruence.
Qed.

End Labgob.

(** ** Examples and witnesses *)

(** A recursive struct type with a lower-case field, and a slice of it. *)
Definition exTypes : gmap nat tydef :=
  {[ 0 := Struct "Node" [("Val", 2); ("next", 1)]; 1 := Ptr 0; 2 := Other "int"; 3 := Slice 0 ]}.

Example recursive_once :
  errorCount <$> checkType (fun _ => false) exTypes 9 3 init = Some 1%Z.
Proof. vm_compute. reflexivity. Qed.

Lemma check_value_complains_witness :
  exists st', checkValue (fun _ => false) exTypes (Some 3) init = Return (Some st') /\
    closed exTypes st' /\ 0 ∈ checked st' /\ errorCount st' = 1%Z.
Proof.
  destruct (check_value_complains (fun _ => false) exTypes 3 init) as (st' & H & Hc & Hr & _).
  { intros t u Ht. by apply not_elem_of_empty in Ht. }
  exists st'. split_and!; [exact H|exact Hc| |].
  - apply Hr. right. apply rtc_once. vm_compute. by left.
  - vm_compute in H. injection H as <-. reflexivity.
Defined.

(** Decoding into a struct with a lower-case field: reflection panics. *)
Definition exLower : value := VStruct [("Val", VBasic "int" true); ("secret", VBasic "int" true)].
Example lower_case_panics :
  checkDefault (fun _ => false) (Some exLower) init
  = Panic "reflect.Value.Interface: cannot return value obtained from unexported field or method".
Proof. vm_compute. reflexivity. Qed.

Definition exUsed : value :=
  VPtr (Some (VStruct [("Term", VBasic "int" false); ("Ok", VBasic "bool" false)])).

Lemma check_default_counts_witness :
  exists st', checkDefault (fun _ => false) (Some exUsed) init = Return st' /\
    errorCount st' = 2%Z /\ length (printed st') = 1.
Proof.
  destruct (check_default_counts (fun _ => false) exUsed init) as (_ & _ & H); [done|].
  eexists. split; [vm_compute; reflexivity|].
  destruct (H _ ltac:(vm_compute; reflexivity)) as [He Hp].
  split; [exact He|exact Hp].
Defined.

End Labgob.
