(* ===== verification/LabgobIo.v ===== *)
(** * Encoding and decoding through labgob

    Models the encoder and the decoder of [src/src/labgob/labgob.go]: each
    operation makes the checks of [Labgob] and hands the value to
    [encoding/gob].  That package is a parameter, the class [GobLib]; what its
    documentation promises of a stream of values is the class [GobLaws], with
    the integers of [Gob] as an instance.  A Go value passed as an
    [interface{}] has a type [V]; [typeOf] and [valueOf] are what reflection
    says of it. *)

From S2P Require Import Prelude GoLib MrApps Gob Labgob.

Set Default Proof Using "Type".

Module LabgobIo.
Import Labgob.

(** The operations of [encoding/gob] that labgob calls: an encoder with what it has
    written, a decoder of a stream, and the names registered with the package.
    An error is its text; [None] is the nil error. *)
Class GobLib (V enc dec reg : Type) := {
  gob_NewEncoder : list Z -> enc;
  gob_written : enc -> list Z;
  gob_Encode : V -> enc -> option string * enc;
  gob_NewDecoder : list Z -> dec;
  gob_Decode : V -> dec -> option string * V * dec;
  gob_Register : V -> reg -> outcome reg;
  gob_RegisterName : string -> V -> reg -> outcome reg
}.

(** As documented: a decoder reads back the values in the order in which an
    encoder wrote them.  [sent vs] is an encoder that has written [vs] and
    [unread vs] a decoder that has [vs] left to read; [fits e v]: [e] is a
    pointer into which [v] can be decoded, and [holds e v]: [e] points to [v]. *)
Class GobLaws {V enc dec reg : Type} (lib : GobLib V enc dec reg) (sendable : V -> Prop)
    (fits holds : V -> V -> Prop) (sent : list V -> enc -> Prop) (unread : list V -> dec -> Prop) := {
  sent_new : sent [] (gob_NewEncoder []);
  sent_encode vs v g :
    sent vs g -> sendable v -> exists g', gob_Encode v g = (None, g') /\ sent (vs ++ [v]) g';
  unread_new vs g : sent vs g -> unread vs (gob_NewDecoder (gob_written g));
  unread_decode v vs e d :
    unread (v :: vs) d -> fits e v -> exists e' d', gob_Decode e d = (None, e', d') /\ holds e' v /\ unread vs d'
}.

Section Io.
Context (highUpper : Z -> bool) (types : gmap nat tydef).
Context {V enc dec reg : Type} `{lib : !GobLib V enc dec reg}.
Context (typeOf : V -> option nat) (valueOf : V -> option value).

Record LabEncoder := { enc_gob : enc }.
Record LabDecoder := { dec_gob : dec }.

Definition NewEncoder (w : list Z) : LabEncoder := {| enc_gob := gob_NewEncoder w |}.
Definition NewDecoder (r : list Z) : LabDecoder := {| dec_gob := gob_NewDecoder r |}.

(** The check of a value's type, with the fuel of [checkType]. *)
Definition checkAny (e : V) (st : state) : outcome state :=
  r ← checkValue highUpper types (typeOf e) st;
  match r with Some st => Return st | None => Panic "out of fuel" end.

Definition Encode (e : V) (x : LabEncoder) (st : state) : outcome (option string * LabEncoder * state) :=
  st ← checkAny e st;
  let '(err, g) := gob_Encode e (enc_gob x) in
  mret (err, {| enc_gob := g |}, st).

(** [EncodeValue] gets a [reflect.Value], here the value it wraps. *)
Definition EncodeValue (v : V) (x : LabEncoder) (st : state) : outcome (option string * LabEncoder * state) :=
  st ← checkAny v st;
  let '(err, g) := gob_Encode v (enc_gob x) in
  mret (err, {| enc_gob := g |}, st).

(** The variable that [e] points to is overwritten. *)
Definition Decode (e : V) (x : LabDecoder) (st : state) : outcome (option string * V * LabDecoder * state) :=
  st ← checkAny e st;
  st ← checkDefault highUpper (valueOf e) st;
  let '(err, e, g) := gob_Decode e (dec_gob x) in
  mret (err, e, {| dec_gob := g |}, st).

Definition Register (v : V) (rg : reg) (st : state) : outcome (reg * state) :=
  st ← checkAny v st; rg ← gob_Register v rg; mret (rg, st).
Definition RegisterName (name : string) (v : V) (rg : reg) (st : state) : outcome (reg * state) :=
  st ← checkAny v st; rg ← gob_RegisterName name v rg; mret (rg, st).

(** ** Streams *)

Fixpoint encodeAll (vs : list V) (x : LabEncoder) (st : state) : outcome (list (option string) * LabEncoder * state) :=
  match vs with
  | [] => Return ([], x, st)
  | v :: vs =>
      '(err, x, st) ← Encode v x st;
      '(errs, x, st) ← encodeAll vs x st;
      mret (err :: errs, x, st)
  end.

Fixpoint decodeAll (es : list V) (x : LabDecoder) (st : state)
    : outcome (list (option string) * list V * LabDecoder * state) :=
  match es with
  | [] => Return ([], [], x, st)
  | e :: es =>
      '(err, e, x, st) ← Decode e x st;
      '(errs, es, x, st) ← decodeAll es x st;
      mret (err :: errs, e :: es, x, st)
  end.

(** What checking the types of values does to the state: their types and all they
    refer to have been checked, and every lower-case field of a type that was
    not checked before was counted once. *)
Record typesChecked (l : list V) (st st' : state) : Prop := {
  tc_closed : closed types st';
  tc_checked u : u ∈ checked st' <->
    u ∈ checked st \/ exists v t, v ∈ l /\ typeOf v = Some t /\ rtc (refers types) t u;
  tc_errors : errorCount st' = (errorCount st + lowerIn highUpper types (checked st' ∖ checked st))%Z
}.

Lemma typesChecked_nil st : closed types st -> typesChecked [] st st.
Proof.
  intros Hc. constructor; [done| |by rewrite difference_diag_L, lowerIn_empty; lia].
  intros u. split; [by left|]. intros [?|(v & t & Hv & _)]; [done|]. by apply not_elem_of_nil in Hv.
Qed.

Lemma typesChecked_app l1 l2 st st1 st2 :
  typesChecked l1 st st1 -> typesChecked l2 st1 st2 -> typesChecked (l1 ++ l2) st st2.
Proof.
  clear valueOf. intros [C1 E1 N1] [C2 E2 N2]. constructor; [done| |].
  - intros u. rewrite E2, E1. setoid_rewrite elem_of_app. naive_solver.
  - assert (checked st ⊆ checked st1) as S1 by (intros u Hu; apply E1; by left).
    assert (checked st1 ⊆ checked st2) as S2 by (intros u Hu; apply E2; by left).
    replace (checked st2 ∖ checked st) with ((checked st1 ∖ checked st) ∪ (checked st2 ∖ checked st1)).
    + rewrite lowerIn_union by set_solver. lia.
    + apply set_eq. intros u. destruct (decide (u ∈ checked st1)); set_solver.
Qed.

Lemma checkAny_ok v t st :
  closed types st -> typeOf v = Some t -> exists st', checkAny v st = Return st' /\ typesChecked [v] st st'.
Proof.
  intros Hc Ht. unfold checkAny. rewrite Ht.
  destruct (check_value_complains highUpper types t st Hc) as (st' & -> & Hc' & He & HN).
  exists st'. split; [done|]. constructor; [done| |done]. intros u. rewrite He. split.
  - intros [?|?]; [by left|]. right. exists v, t. split; [by left|done].
  - intros [?|(v' & t' & ->%list_elem_of_singleton & Ht' & Hr)]; [by left|]. right. congruence.
Qed.

(** A variable that can be decoded into: its fields are exported and zero. *)
Definition clean (e : V) : Prop :=
  match valueOf e with
  | None => True
  | Some v => Forall (fun x => x = (false, true)) (leaves highUpper false v 1)
  end.

Lemma checkDefault_clean e st : (0 <= errorCount st)%Z -> clean e -> exists st',
  checkDefault highUpper (valueOf e) st = Return st' /\ checked st' = checked st /\ errorCount st' = errorCount st.
Proof.
  unfold clean, checkDefault. intros H0. destruct (valueOf e) as [v|]; [|by exists st]. intros Hl.
  pose proof (checkDefault1_looked highUpper v false 1 "" st H0) as Hk. unfold looked in Hk.
  destruct (checkDefault1 highUpper false v 1 "" st) as [st'|m|m]; [|done|].
  - destruct Hk as (_ & Hc & He & _). exists st'. split; [done|]. split; [done|]. rewrite He.
    enough (count (fun x : bool * bool => x.2 = false) (leaves highUpper false v 1) = 0) as -> by lia.
    clear -Hl. induction Hl as [|x l -> _ IH]; [done|]. unfold count in *. by rewrite filter_cons_False.
  - exfalso. apply Exists_exists in Hk as (x & Hx & E). rewrite Forall_forall in Hl.
    rewrite (Hl x Hx) in E. done.
Qed.

(** The laws of gob, for a group of lemmas. *)
Section Laws.
Context {sendable : V -> Prop} {fits holds : V -> V -> Prop} {sent : list V -> enc -> Prop} {unread : list V -> dec -> Prop}.
Context `{!GobLaws lib sendable fits holds sent unread}.

Lemma encodeAll_ok vs : forall vs0 x st,
  sent vs0 (enc_gob x) -> Forall sendable vs -> Forall (fun v => is_Some (typeOf v)) vs -> closed types st ->
  exists x' st', encodeAll vs x st = Return (replicate (length vs) None, x', st') /\
    sent (vs0 ++ vs) (enc_gob x') /\ typesChecked vs st st'.
Proof using All.
  induction vs as [|v vs IH]; intros vs0 x st Hs Hv Ht Hc; cbn [encodeAll length replicate].
  { exists x, st. rewrite app_nil_r. split; [done|]. split; [done|]. by apply typesChecked_nil. }
  apply Forall_cons in Hv as [Hv Hvs]. apply Forall_cons in Ht as [[t Ht] Hts].
  destruct (checkAny_ok v t st Hc Ht) as (st1 & E1 & T1). destruct (sent_encode vs0 v (enc_gob x) Hs Hv) as (g & E2 & Hs').
  destruct (IH (vs0 ++ [v]) {| enc_gob := g |} st1 Hs' Hvs Hts (tc_closed _ _ _ T1)) as (x' & st' & E3 & Hs3 & T3).
  exists x', st'. unfold Encode. rewrite E1. cbn [mbind outcome_bind]. rewrite E2. cbn [mbind outcome_bind mret outcome_ret].
  rewrite E3. split; [done|]. rewrite <-app_assoc in Hs3. split; [done|]. by apply (typesChecked_app [v] vs _ st1).
Qed.

Lemma decodeAll_ok es : forall vs x st,
  unread vs (dec_gob x) -> Forall2 fits es vs -> Forall clean es -> Forall (fun e => is_Some (typeOf e)) es ->
  closed types st -> (0 <= errorCount st)%Z ->
  exists es' x' st', decodeAll es x st = Return (replicate (length es) None, es', x', st') /\
    Forall2 holds es' vs /\ typesChecked es st st'.
Proof using All.
  induction es as [|e es IH]; intros vs x st Hu Hf Hcl Ht Hc H0; cbn [decodeAll length replicate].
  { apply Forall2_nil_inv_l in Hf as ->. exists [], x, st. split; [done|]. split; [done|]. by apply typesChecked_nil. }
  apply Forall2_cons_inv_l in Hf as (v & vs' & Hf & Hfs & ->). apply Forall_cons in Hcl as [Hcl Hcls].
  apply Forall_cons in Ht as [[t Ht] Hts].
  destruct (checkAny_ok e t st Hc Ht) as (st1 & E1 & T1). pose proof T1 as [C1 _ N1].
  pose proof (lowerIn_nonneg highUpper types (checked st1 ∖ checked st)).
  destruct (checkDefault_clean e st1 ltac:(lia) Hcl) as (st2 & E2 & Ec & Ee).
  destruct (unread_decode v vs' e (dec_gob x) Hu Hf) as (e' & d & E3 & Hh & Hu').
  assert (typesChecked [e] st st2) as T2.
  { destruct T1 as [A B C]. constructor; [unfold closed; rewrite Ec; exact A|rewrite Ec; exact B|rewrite Ec, Ee; exact C]. }
  destruct (IH vs' {| dec_gob := d |} st2 Hu' Hfs Hcls Hts (tc_closed _ _ _ T2)) as (es' & x' & st' & E4 & Hhs & T4); [lia|].
  exists (e' :: es'), x', st'. unfold Decode. rewrite E1. cbn [mbind outcome_bind]. rewrite E2. cbn [mbind outcome_bind].
  rewrite E3. cbn [mbind outcome_bind mret outcome_ret]. rewrite E4. split; [done|]. split; [by constructor|].
  by apply (typesChecked_app [e] es _ st2).
Qed.

(** C29: Values make it through labgob.  Let an encoder write any values to an empty
    buffer and a decoder of that buffer read into as many fitting variables,
    which are zero and have exported fields only.  No operation panics or
    returns an error, and the variables then hold the values that were sent, in
    order.  Over the whole exchange the checks have seen exactly the types of
    the values and of the variables and all types these refer to, and have
    counted each lower-case field of the types that were new once, however
    often a type was sent. *)
Theorem labgob_roundtrip vs es st :
  closed types st -> (0 <= errorCount st)%Z ->
  Forall sendable vs -> Forall (fun v => is_Some (typeOf v)) vs ->
  Forall2 fits es vs -> Forall clean es -> Forall (fun e => is_Some (typeOf e)) es ->
  exists x st1 es' y st2,
    encodeAll vs (NewEncoder []) st = Return (replicate (length vs) None, x, st1) /\
    decodeAll es (NewDecoder (gob_written (enc_gob x))) st1 = Return (replicate (length es) None, es', y, st2) /\
    Forall2 holds es' vs /\ typesChecked (vs ++ es) st st2.
Proof using All.
  intros Hc H0 Hs Ht Hf Hcl Hte.
  destruct (encodeAll_ok vs [] (NewEncoder []) st sent_new Hs Ht Hc) as (x & st1 & E1 & Hx & T1).
  pose proof T1 as [C1 _ N1]. pose proof (lowerIn_nonneg highUpper types (checked st1 ∖ checked st)).
  destruct (decodeAll_ok es vs (NewDecoder (gob_written (enc_gob x))) st1 (unread_new _ _ Hx) Hf Hcl Hte C1)
    as (es' & y & st2 & E2 & Hh & T2); [lia|].
  exists x, st1, es', y, st2. split; [done|]. split; [done|]. split; [done|]. by eapply typesChecked_app.
Qed.

End Laws.

End Io.

(** ** Integers *)

(** An [int] and a pointer to an [int] variable, with gob's stream of them. *)
Inductive goInt := Int (z : Z) | PtrInt (z : Z).
Definition intTypes : gmap nat tydef := {[ 0 := Other "int"; 1 := Ptr 0 ]}.
Definition intType (v : goInt) : option nat := Some (match v with Int _ => 0 | PtrInt _ => 1 end).
Definition intValue (v : goInt) : option value :=
  Some (match v with
        | Int z => VBasic "int" (bool_decide (z = 0%Z))
        | PtrInt z => VPtr (Some (VBasic "int" (bool_decide (z = 0%Z))))
        end).

#[export] Instance gobInts : GobLib goInt (list Z) (list Z) unit := {|
  gob_NewEncoder w := w;
  gob_written g := g;
  gob_Encode v g := (None, g ++ match v with Int z | PtrInt z => Gob.Encode z end);
  gob_NewDecoder r := r;
  gob_Decode e d :=
    match e with
    | Int _ => (Some "gob: attempt to decode into a non-pointer", e, d)
    | PtrInt _ =>
        match Gob.DecodeNext d with
        | Some (z, d) => (None, PtrInt z, d)
        | None => (Some "EOF", e, d)
        end
    end;
  gob_Register _ rg := Return rg;
  gob_RegisterName _ _ rg := Return rg
|}.

Definition isInt (v : goInt) : Prop := match v with Int z => (int_min <= z <= int_max)%Z | PtrInt _ => False end.
Definition intFits (e v : goInt) : Prop := match e with PtrInt _ => True | Int _ => False end.
Definition intHolds (e v : goInt) : Prop := match e, v with PtrInt z, Int z' => z = z' | _, _ => False end.
Definition intBytes (vs : list goInt) : list Z :=
  concat ((fun v => match v with Int z | PtrInt z => Gob.Encode z end) <$> vs).
Definition intStream (vs : list goInt) (l : list Z) : Prop := Forall isInt vs /\ l = intBytes vs.

#[export] Instance gobIntLaws : GobLaws gobInts isInt intFits intHolds intStream intStream.
Proof.
  constructor; simpl.
  - by split.
  - intros vs v g [Hv ->] Hi. eexists. split; [done|]. split; [by apply Forall_app_2, Forall_singleton|].
    unfold intBytes. rewrite fmap_app, concat_app. cbn. by rewrite app_nil_r.
  - done.
  - intros v vs e d [Hv ->] He. apply Forall_cons in Hv as [Hv Hvs]. destruct e as [|z]; [done|].
    destruct v as [z'|]; [|done]. unfold intBytes. rewrite fmap_cons. cbn [concat].
    rewrite Gob.gob_next_roundtrip by exact Hv. by eexists _, _.
Qed.

(** Three integers are sent. *)
Lemma labgob_roundtrip_witness :
  exists x st1 es' y st2,
    encodeAll (fun _ => false) intTypes intType [Int 7; Int (-300); Int 0] (NewEncoder []) init
      = Return ([None; None; None], x, st1) /\
    decodeAll (fun _ => false) intTypes intType intValue [PtrInt 0; PtrInt 0; PtrInt 0]
      (NewDecoder (gob_written (enc_gob x))) st1 = Return ([None; None; None], es', y, st2) /\
    es' = [PtrInt 7; PtrInt (-300); PtrInt 0] /\ errorCount st2 = 0%Z.
Proof.
  destruct (labgob_roundtrip (fun _ => false) intTypes intType intValue [Int 7; Int (-300); Int 0]
    [PtrInt 0; PtrInt 0; PtrInt 0] init) as (x & st1 & es' & y & st2 & E1 & E2 & Hh & _).
  - intros t u Ht. by apply not_elem_of_empty in Ht.
  - reflexivity.
  - repeat constructor; unfold int_min, int_max; lia.
  - repeat constructor; by eexists.
  - repeat constructor.
  - repeat constructor.
  - repeat constructor; by eexists.
  - exists x, st1, es', y, st2. split; [exact E1|]. split; [exact E2|]. split.
    + repeat (apply Forall2_cons_inv_r in Hh as ([] & ? & Hz & Hh & ->); [done|]; cbn in Hz; subst).
      by apply Forall2_nil_inv_r in Hh as ->.
    + vm_compute in E1. injection E1 as <- <-. vm_compute in E2. by injection E2 as _ _ <-.
Defined.

End LabgobIo.
