(* ===== verification/RaftTest.v ===== *)
(** * The Raft tester

    Models [src/src/raft1/server.go] and [src/src/raft1/test.go]: the tester's
    side of every Raft server, which reads the committed entries from the
    apply channel, compares them with what the other servers committed and
    makes snapshots; and the checkers of the tests (one leader, terms, number
    of servers that committed, agreement).

    The Raft implementation itself is not part of the repository: what it
    sends on the apply channel and what its [Start] and [GetState] answer are
    arguments.  A Go value in an interface ([any]) is [option cmd], [None]
    being nil; [labgob]'s encoding of a snapshot is an argument with its round
    trip as an interface ([SnapCodec]).  Instances of a server live on a heap,
    because a superseded instance may still run. *)

From S2P Require Import Prelude Persister.

Set Default Proof Using "Type".

Module RaftTest.

Definition SnapShotInterval : Z := 10.

(** What the tester needs of [labgob]: decoding an encoded snapshot gives the
    index and the log back. *)
Class SnapCodec {any : Type} (encodeSnap : Z -> list any -> string)
    (decodeSnap : string -> option (Z * list any)) : Prop :=
  snap_roundtrip i xlog : decodeSnap (encodeSnap i xlog) = Some (i, xlog).

Section RaftTest.
Context {cmd : Type} `{!EqDecision cmd}.
Abbreviation any := (option cmd).
(** The [%v] verb on a value, and [labgob] on a snapshot. *)
Context (fmtV : any -> string).
Context (encodeSnap : Z -> list any -> string) (decodeSnap : string -> option (Z * list any)).

(** ** Data *)

Record ApplyMsg := {
  CommandValid : bool; Command : any; CommandIndex : Z;
  SnapshotValid : bool; Snapshot : option string; SnapshotTerm : Z; SnapshotIndex : Z
}.

(** [raft] says whether the field is not nil. *)
Record rfsrv := {
  me : Z; applyErr : string; lastApplied : Z; persister : option nat;
  raft : bool; logs : gmap Z any
}.

Record Test := {
  srvs : list (option nat); heap : gmap nat rfsrv;
  finished : bool; maxIndex : Z; snapshot : bool
}.

Definition set_logs (rs : rfsrv) (l : gmap Z any) (last : Z) : rfsrv :=
  {| me := me rs; applyErr := applyErr rs; lastApplied := last; persister := persister rs;
     raft := raft rs; logs := l |}.
Definition set_raft (rs : rfsrv) (r : bool) : rfsrv :=
  {| me := me rs; applyErr := applyErr rs; lastApplied := lastApplied rs;
     persister := persister rs; raft := r; logs := logs rs |}.
Definition set_heap (ts : Test) (a : nat) (rs : rfsrv) (mi : Z) : Test :=
  {| srvs := srvs ts; heap := <[a := rs]> (heap ts); finished := finished ts;
     maxIndex := mi; snapshot := snapshot ts |}.
Definition set_finished (ts : Test) : Test :=
  {| srvs := srvs ts; heap := heap ts; finished := true; maxIndex := maxIndex ts;
     snapshot := snapshot ts |}.
Definition set_srv (ts : Test) (l : list (option nat)) : Test :=
  {| srvs := l; heap := heap ts; finished := finished ts; maxIndex := maxIndex ts;
     snapshot := snapshot ts |}.

(** Dereferencing a possibly nil pointer to an instance. *)
Definition deref (ts : Test) (o : option nat) : outcome rfsrv :=
  match o ≫= (heap ts !!.) with
  | Some rs => Return rs
  | None => Panic "nil pointer dereference"
  end.

Definition makeTest (n : nat) (snap : bool) : Test :=
  {| srvs := replicate n None; heap := ∅; finished := false; maxIndex := 0; snapshot := snap |}.

Definition Logs (rs : rfsrv) (i : Z) : option any := logs rs !! i.

(** ** Checking what a server commits *)

(** The loop of [checkLogs]: the last disagreement is the one reported. *)
Fixpoint compareLogs (ts : Test) (i : Z) (m : ApplyMsg) (j : Z) (l : list (option nat))
    (err_msg : string) : outcome string :=
  match l with
  | [] => Return err_msg
  | o :: l =>
      rs ← deref ts o;
      compareLogs ts i m (j + 1) l
        match Logs rs (CommandIndex m) with
        | Some old =>
            if decide (old = Command m) then err_msg
            else "commit index=" +:+ Itoa (CommandIndex m) +:+ " server=" +:+ Itoa i +:+ " "
                 +:+ fmtV (Command m) +:+ " != server=" +:+ Itoa j +:+ " " +:+ fmtV old
        | None => err_msg
        end
  end.

(** Compares with every current server, then records the entry with the
    current instance of server [i] (which may have superseded the caller). *)
Definition checkLogs (i : Z) (m : ApplyMsg) (ts : Test) : outcome ((string * bool) * Test) :=
  o ← slice_get (srvs ts) i;
  err_msg ← compareLogs ts i m 0 (srvs ts) "";
  rs ← deref ts o;
  let prevok := bool_decide (is_Some (logs rs !! (CommandIndex m - 1)%Z)) in
  match o with
  | Some a =>
      Return ((err_msg, prevok),
        set_heap ts a (set_logs rs (<[CommandIndex m := Command m]> (logs rs)) (lastApplied rs))
          (if decide (maxIndex ts < CommandIndex m)%Z then CommandIndex m else maxIndex ts))
  | None => Panic "nil pointer dereference"
  end.

Definition outOfOrder (i idx : Z) : string :=
  "server " +:+ Itoa i +:+ " apply out of order " +:+ Itoa idx.

(** One message of [applier], run by the instance at [a].  The assignments that
    follow [log.Fatalf] in the source are unreachable; what other goroutines
    see between the recording of a value that disagrees and the exit of the
    process is not a state here. *)
Definition applier (a : nat) (m : ApplyMsg) (ts : Test) : outcome Test :=
  rs ← deref ts (Some a);
  if negb (CommandValid m) then Return ts
  else
    r ← checkLogs (me rs) m ts;
    let err_msg := if bool_decide (1 < CommandIndex m)%Z && negb r.1.2
                   then outOfOrder (me rs) (CommandIndex m) else r.1.1 in
    if decide (err_msg = "") then Return r.2 else Fatal ("apply error: " +:+ err_msg).

(** [ingestSnap] replaces the instance's log by the snapshot's. *)
Definition ingestSnap (a : nat) (snap : option string) (index : Z) (ts : Test)
    : outcome (string * Test) :=
  rs ← deref ts (Some a);
  match snap with
  | None => Fatal "nil snapshot"
  | Some b =>
      match decodeSnap b with
      | None => Fatal "snapshot decode error"
      | Some (lastIncludedIndex, xlog) =>
          if decide (index <> -1 /\ index <> lastIncludedIndex)%Z
          then Return ("server " +:+ Itoa (me rs) +:+ " snapshot doesn't match m.SnapshotIndex", ts)
          else Return ("", set_heap ts a
                 (set_logs rs (list_to_map (zip (Z.of_nat <$> seq 0 (length xlog)) xlog))
                    lastIncludedIndex) (maxIndex ts))
      end
  end.

(** [for j := 0; j <= idx; j++ { xlog = append(xlog, rs.logs[j]) }]: a missing
    entry reads as nil. *)
Definition snapLog (rs : rfsrv) (idx : Z) : list any :=
  (fun j => default None (logs rs !! Z.of_nat j)) <$> seq 0 (Z.to_nat (idx + 1)).

(** One message of [applierSnap]; the result also says which snapshot it handed
    to Raft.  The goroutine of an instance that is made without a Raft returns
    at once; here it may process messages too, so that what holds of every
    execution below holds of fewer messages. *)
Definition applierSnap (a : nat) (m : ApplyMsg) (ts : Test)
    : outcome (Test * option (Z * string)) :=
  rs ← deref ts (Some a);
  r ← (if SnapshotValid m then
         r ← ingestSnap a (Snapshot m) (SnapshotIndex m) ts;
         Return (r.1, r.2, None)
       else if CommandValid m then
         let idx := CommandIndex m in
         r ← (if decide (idx <> lastApplied rs + 1)%Z then
                Return ("server " +:+ Itoa (me rs) +:+ " apply out of order, expected index "
                        +:+ Itoa (lastApplied rs + 1) +:+ ", got " +:+ Itoa idx, ts)
              else
                r ← checkLogs (me rs) m ts;
                Return (if bool_decide (1 < idx)%Z && negb r.1.2 then outOfOrder (me rs) idx
                        else r.1.1, r.2));
         rs ← deref r.2 (Some a);
         let ts := set_heap r.2 a (set_logs rs (logs rs) idx) (maxIndex r.2) in
         if decide (Z.rem (idx + 1) SnapShotInterval = 0)%Z then
           if raft rs then Return (r.1, ts, Some (idx, encodeSnap idx (snapLog rs idx)))
           else Panic "nil pointer dereference"
         else Return (r.1, ts, None)
       else Return ("", ts, None));
  if decide (r.1.1 = "") then Return (r.1.2, r.2) else Fatal ("apply error: " +:+ r.1.1).

(** ** Starting and killing servers *)

(** [newRfsrv]: the new instance at [a]; [Make] gives a Raft unless another one
    is plugged in. *)
Definition newRfsrv (useRaftStateMachine : bool) (a : nat) (srv : Z) (p : nat)
    (st : Persister.store) (ts : Test) : outcome (Test * Persister.store) :=
  let ts := set_heap ts a
    {| me := srv; applyErr := ""; lastApplied := 0; persister := Some p;
       raft := negb useRaftStateMachine; logs := ∅ |} (maxIndex ts) in
  if snapshot ts then
    r ← Persister.ReadSnapshot p st;
    let b := Persister.bytes r.2 r.1 in
    match r.1 with
    | Some _ =>
        if decide (0 < String.length b)%nat then
          i ← ingestSnap a (Some b) (-1) ts;
          if decide (i.1 = "") then Return (i.2, r.2) else Fatal i.1
        else Return (ts, r.2)
    | None => Return (ts, r.2)
    end
  else Return (ts, st).

Definition mksrv (useRaftStateMachine : bool) (a : nat) (srv : Z) (p : nat)
    (st : Persister.store) (ts : Test) : outcome (Test * Persister.store) :=
  r ← newRfsrv useRaftStateMachine a srv p st ts;
  l ← slice_set (srvs r.1) srv (Some a);
  Return (set_srv r.1 l, r.2).

(** [Kill] writes the persister's contents back to it. *)
Definition Kill (a : nat) (st : Persister.store) (ts : Test) : outcome (Test * Persister.store) :=
  rs ← deref ts (Some a);
  let ts := set_heap ts a (set_raft rs false) (maxIndex ts) in
  match persister rs with
  | Some p =>
      r1 ← Persister.ReadRaftState p st;
      r2 ← Persister.ReadSnapshot p r1.2;
      st ← Persister.Save p r1.1 r2.1 r2.2;
      Return (ts, st)
  | None => Return (ts, st)
  end.

(** [rs.raft.GetState()]: [answer] is what the peer answers; a nil peer panics. *)
Definition GetState (answer : Z * bool) (rs : rfsrv) : outcome (Z * bool) :=
  if raft rs then Return answer else Panic "nil pointer dereference".
Definition rfsrv_Raft (rs : rfsrv) : bool := raft rs.

Definition checkFinished (ts : Test) : bool := finished ts.

(** ** The checkers

    What a checker sees of the servers: for every server, [None] when the
    tester has it disconnected and otherwise what its [GetState] answered. *)
Definition view : Type := list (option (Z * bool)).

(** [leaders[term] = append(leaders[term], i)] for every connected leader. *)
Fixpoint leadersOf (i : Z) (v : view) (leaders : gmap Z (list Z)) : gmap Z (list Z) :=
  match v with
  | [] => leaders
  | Some (term, true) :: v =>
      leadersOf (i + 1) v (<[term := default [] (leaders !! term) ++ [i]]> leaders)
  | _ :: v => leadersOf (i + 1) v leaders
  end.

Fixpoint scanTerms (order : list Z) (leaders : gmap Z (list Z)) (lastTermWithLeader : Z) : outcome Z :=
  match order with
  | [] => Return lastTermWithLeader
  | term :: order =>
      let ls := default [] (leaders !! term) in
      if decide (1 < len ls)%Z
      then Fatal ("term " +:+ Itoa term +:+ " has " +:+ Itoa (len ls) +:+ " (>1) leaders")
      else scanTerms order leaders
             (if decide (lastTermWithLeader < term)%Z then term else lastTermWithLeader)
  end.

(** [checkOneLeader] looks at the servers up to ten times; [order] is the
    iteration order over the map of leaders. *)
Fixpoint oneLeaderLoop (order : gmap Z (list Z) -> list Z) (views : list view) : outcome Z :=
  match views with
  | [] => Fatal "expected one leader, got none"
  | v :: views =>
      let leaders := leadersOf 0 v ∅ in
      last ← scanTerms (order leaders) leaders (-1);
      if decide (leaders <> ∅) then slice_get (default [] (leaders !! last)) 0
      else oneLeaderLoop order views
  end.

Definition checkOneLeader (order : gmap Z (list Z) -> list Z) (views : nat -> view) : outcome Z :=
  oneLeaderLoop order (views <$> seq 0 10).

Fixpoint checkTermsLoop (v : view) (term : Z) : outcome Z :=
  match v with
  | [] => Return term
  | Some (xterm, _) :: v =>
      if decide (term = -1)%Z then checkTermsLoop v xterm
      else if decide (term <> xterm) then Fatal "servers disagree on term"
      else checkTermsLoop v term
  | None :: v => checkTermsLoop v term
  end.
Definition checkTerms (v : view) : outcome Z := checkTermsLoop v (-1).

Fixpoint checkNoLeader (i : Z) (v : view) : outcome unit :=
  match v with
  | [] => Return tt
  | Some (_, true) :: v => Fatal ("leader = " +:+ Itoa i)
  | _ :: v => checkNoLeader (i + 1) v
  end.

(** How many servers have an entry at [index], and the entry. *)
Fixpoint nCommittedLoop (ts : Test) (index : Z) (l : list (option nat)) (count : Z) (c : any)
    : outcome (Z * any) :=
  match l with
  | [] => Return (count, c)
  | o :: l =>
      rs ← deref ts o;
      if decide (applyErr rs <> "") then Fatal (applyErr rs)
      else
        match Logs rs index with
        | Some c1 =>
            if decide (0 < count /\ c <> c1)%Z
            then Fatal ("committed values at index " +:+ Itoa index +:+ " do not match ("
                        +:+ fmtV c +:+ " != " +:+ fmtV c1 +:+ ")")
            else nCommittedLoop ts index l (count + 1) c1
        | None => nCommittedLoop ts index l count c
        end
  end.
Definition nCommitted (index : Z) (ts : Test) : outcome (Z * any) :=
  nCommittedLoop ts index (srvs ts) 0 None.

Definition checkNoAgreement (index : Z) (ts : Test) : outcome unit :=
  r ← nCommitted index ts;
  if decide (0 < r.1)%Z then Fatal (Itoa r.1 +:+ " committed but no majority") else Return tt.

(** ** Agreement on one command

    [one] runs while the servers do: [attempts] lists its rounds until the ten
    seconds are over or the test is finished; in a round, [at_start s] is what
    [Start] answers on server [s] ([Some index] when it says it is leader) and
    [at_polls] are the states its calls of [nCommitted] find until the two
    seconds of waiting are over. *)
Record attempt := {
  at_connected : nat -> bool; at_raft : nat -> bool; at_start : nat -> option Z;
  at_polls : list Test
}.

(** [for range ts.srvs { starts = (starts + 1) % n; ... }]: the next server that
    takes the command, and the index it gave it (-1 when none did). *)
Fixpoint tryServers (a : attempt) (n k starts : nat) : nat * Z :=
  match k with
  | 0 => (starts, -1)%Z
  | S k =>
      let starts := (starts + 1) `mod` n in
      if at_connected a starts && at_raft a starts then
        match at_start a starts with
        | Some index => (starts, index)
        | None => tryServers a n k starts
        end
      else tryServers a n k starts
  end.

Fixpoint pollLoop (c : any) (expectedServers index : Z) (polls : list Test) : outcome bool :=
  match polls with
  | [] => Return false
  | ts :: polls =>
      r ← nCommitted index ts;
      if decide (0 < r.1 /\ expectedServers <= r.1 /\ r.2 = c)%Z then Return true
      else pollLoop c expectedServers index polls
  end.

Fixpoint oneLoop (n : nat) (c : any) (expectedServers : Z) (retry : bool)
    (attempts : list attempt) (finished : bool) (starts : nat) : outcome Z :=
  match attempts with
  | [] => if finished then Return (-1)%Z
          else Fatal ("one(" +:+ fmtV c +:+ ") failed to reach agreement")
  | a :: attempts =>
      let '(starts, index) := tryServers a n n starts in
      if decide (index <> -1)%Z then
        found ← pollLoop c expectedServers index (at_polls a);
        if found : bool then Return index
        else if retry then oneLoop n c expectedServers retry attempts finished starts
        else Fatal ("one(" +:+ fmtV c +:+ ") failed to reach agreement")
      else oneLoop n c expectedServers retry attempts finished starts
  end.

Definition one (n : nat) (c : any) (expectedServers : Z) (retry : bool)
    (attempts : list attempt) (finished : bool) : outcome Z :=
  oneLoop n c expectedServers retry attempts finished 0.

(** [wait] polls at most thirty times, the [k]th time in state [polls k] and then
    looking at the terms [terms k]; [None] stands for the -1 it returns when a
    server has moved past [startTerm]. *)
Fixpoint waitLoop (index n startTerm : Z) (polls : nat -> Test) (terms : nat -> list Z)
    (k iters : nat) : outcome (option nat) :=
  match iters with
  | 0 => Return (Some k)
  | S iters =>
      r ← nCommitted index (polls k);
      if decide (n <= r.1)%Z then Return (Some (S k))
      else if decide (-1 < startTerm /\ Exists (fun t => startTerm < t) (terms k))%Z then Return None
      else waitLoop index n startTerm polls terms (S k) iters
  end.

Definition wait (index n startTerm : Z) (polls : nat -> Test) (terms : nat -> list Z)
    : outcome (option any) :=
  k ← waitLoop index n startTerm polls terms 0 30;
  match k with
  | None => Return None
  | Some k =>
      r ← nCommitted index (polls k);
      if decide (r.1 < n)%Z
      then Fatal ("only " +:+ Itoa r.1 +:+ " decided for index " +:+ Itoa index +:+ "; wanted " +:+ Itoa n)
      else Return (Some r.2)
  end.

(** ** Executions

    Any instance, current or superseded, may process a message; servers are
    started and killed at any time.  A fatal error ends the test, so only steps
    that return are steps. *)
Inductive step (ts : Test) : Test -> Prop :=
| step_applier a m ts' : snapshot ts = false -> applier a m ts = Return ts' -> step ts ts'
| step_applierSnap a m ts' s :
    snapshot ts = true -> applierSnap a m ts = Return (ts', s) -> step ts ts'
| step_mksrv u a i p st ts' st' :
    heap ts !! a = None -> mksrv u a i p st ts = Return (ts', st') -> step ts ts'
| step_Kill a st ts' st' : Kill a st ts = Return (ts', st') -> step ts ts'
| step_cleanup : step ts (set_finished ts).

Definition reachable (n : nat) (snap : bool) (ts : Test) : Prop := rtc step (makeTest n snap) ts.

(** A current instance. *)
Definition current (ts : Test) (rs : rfsrv) : Prop :=
  exists a, Some a ∈ srvs ts /\ heap ts !! a = Some rs.

(** What the appliers establish when there are no snapshots. *)
Record Agreed (ts : Test) : Prop := {
  agreed_mode : snapshot ts = false;
  agreed_live a : Some a ∈ srvs ts -> is_Some (heap ts !! a);
  agreed_err a rs : heap ts !! a = Some rs -> applyErr rs = "";
  agreed_logs r1 r2 i v w : current ts r1 -> current ts r2 ->
    logs r1 !! i = Some v -> logs r2 !! i = Some w -> v = w;
  agreed_gap rs i : current ts rs -> is_Some (logs rs !! i) -> (1 < i)%Z ->
    is_Some (logs rs !! (i - 1)%Z);
  agreed_max rs i : current ts rs -> is_Some (logs rs !! i) -> (i <= maxIndex ts)%Z
}.

Lemma deref_inv ts o rs : deref ts o = Return rs -> exists a, o = Some a /\ heap ts !! a = Some rs.
Proof. unfold deref. destruct o as [a|]; simpl; [|done]. destruct (heap ts !! a) eqn:E; naive_solver. Qed.

Lemma compareLogs_agree ts i m j l e :
  compareLogs ts i m j l e = Return "" ->
  e = "" /\ Forall (fun o => exists rs, deref ts o = Return rs /\
    forall old, logs rs !! CommandIndex m = Some old -> old = Command m) l.
Proof.
  revert j e. induction l as [|o l IH]; intros j e H; simpl in H; [by simplify_eq|].
  apply bind_Return in H as (x & Hd & H). apply IH in H as [He Hl]. unfold Logs in He.
  destruct (logs x !! CommandIndex m) as [old|] eqn:Eo; [case_decide|]; simplify_eq/=;
    (split; [done|constructor; [|done]; exists x; split; [done|congruence]]).
Qed.

Lemma checkLogs_inv i m ts err prevok ts' :
  checkLogs i m ts = Return (err, prevok, ts') ->
  exists a rs, Some a ∈ srvs ts /\ heap ts !! a = Some rs /\
    srvs ts !! Z.to_nat i = Some (Some a) /\
    prevok = bool_decide (is_Some (logs rs !! (CommandIndex m - 1)%Z)) /\
    ts' = set_heap ts a (set_logs rs (<[CommandIndex m := Command m]> (logs rs)) (lastApplied rs))
            (Z.max (maxIndex ts) (CommandIndex m)) /\
    (err = "" -> forall r old, current ts r -> logs r !! CommandIndex m = Some old -> old = Command m).
Proof.
  unfold checkLogs. intros H. apply bind_Return in H as (o & E & H).
  apply bind_Return in H as (e & E0 & H). apply bind_Return in H as (x1 & E1 & H).
  apply slice_get_inv in E as [_ E]. apply deref_inv in E1 as (a & -> & Ha). simplify_eq/=.
  exists a, x1. split_and!; try done.
  - by eapply list_elem_of_lookup_2.
  - f_equal. case_decide; lia.
  - intros -> r old (b & Hb & Hr) Hold. apply compareLogs_agree in E0 as [_ Hall].
    rewrite Forall_forall in Hall. destruct (Hall _ Hb) as (r' & Hd & Hag).
    apply deref_inv in Hd as (? & ? & ?). simplify_eq. eauto.
Qed.

(** Steps that leave the logs of the current instances alone, or start from
    empty ones, keep what was agreed. *)
Lemma Agreed_keep ts ts' :
  Agreed ts -> snapshot ts' = snapshot ts -> (maxIndex ts <= maxIndex ts')%Z ->
  (forall a, Some a ∈ srvs ts' -> is_Some (heap ts' !! a)) ->
  (forall a rs, heap ts' !! a = Some rs -> applyErr rs = "") ->
  (forall r', current ts' r' -> logs r' = ∅ \/ exists r, current ts r /\ logs r' = logs r) ->
  Agreed ts'.
Proof.
  intros [Hm _ _ Hl Hg Hx] Hs Hmax Hlive Herr Hcur.
  split; [congruence|done|done| | |].
  - intros r1 r2 i v w H1 H2 Hv Hw.
    destruct (Hcur _ H1) as [E|(q1 & Hq1 & E1)]; [rewrite E in Hv; by simplify_map_eq|].
    destruct (Hcur _ H2) as [E|(q2 & Hq2 & E2)]; [rewrite E in Hw; by simplify_map_eq|].
    rewrite E1 in Hv. rewrite E2 in Hw. eauto.
  - intros rs i Hr Hi. destruct (Hcur _ Hr) as [E|(q & Hq & E)]; rewrite E in *; [|eauto].
    by apply lookup_empty_is_Some in Hi.
  - intros rs i Hr Hi. destruct (Hcur _ Hr) as [E|(q & Hq & E)]; rewrite E in Hi.
    + by apply lookup_empty_is_Some in Hi.
    + etrans; [|done]. eauto.
Qed.

Lemma Agreed_makeTest n : Agreed (makeTest n false).
Proof.
  assert (forall a, Some a ∉ @replicate (option nat) n None) as Hn
    by (intros a H; apply elem_of_replicate in H as [? _]; done).
  split; simpl; [done|intros a H; by apply Hn in H|done| | |];
    intros; repeat match goal with H : current _ _ |- _ => destruct H as (? & H & _); by apply Hn in H end.
Qed.

Lemma Agreed_applier a m ts ts' : Agreed ts -> applier a m ts = Return ts' -> Agreed ts'.
Proof. clear encodeSnap decodeSnap.
  intros HA H. unfold applier in H. apply bind_Return in H as (rs & _ & H).
  destruct (negb (CommandValid m)); [by simplify_eq|].
  apply bind_Return in H as ([[err prevok] ts1] & Hc & H). simpl in H.
  apply checkLogs_inv in Hc as (b & rb & Hb & Hrb & _ & Hp & -> & Hag).
  case_decide as Herr; [|done]. injection H as <-.
  destruct (bool_decide (1 < CommandIndex m)%Z && negb prevok) eqn:Eo; [done|].
  specialize (Hag Herr). destruct HA as [Hm Hlive Herrs Hl Hg Hx].
  assert (current ts rb) as Hcb by by exists b.
  assert (forall r, current (set_heap ts b (set_logs rb (<[CommandIndex m := Command m]> (logs rb))
      (lastApplied rb)) (Z.max (maxIndex ts) (CommandIndex m))) r ->
      logs r = <[CommandIndex m := Command m]> (logs rb) \/ current ts r) as Hcur.
  { intros r (b' & Hb' & Hr). simpl in *. apply lookup_insert_Some in Hr as [[<- <-]|[? Hr]]; [by left|].
    right. by exists b'. }
  split; simpl; [done| | | | |].
  - intros c Hc. destruct (decide (b = c)) as [->|]; simplify_map_eq; eauto.
  - intros c r. rewrite lookup_insert_Some. intros [[_ <-]|[_ Hr]]; simpl; eauto.
  - intros r1 r2 i v w H1 H2 Hv Hw.
    destruct (Hcur _ H1) as [E1|C1]; [rewrite E1 in Hv|];
      (destruct (Hcur _ H2) as [E2|C2]; [rewrite E2 in Hw|]);
      rewrite ?lookup_insert_Some in Hv; rewrite ?lookup_insert_Some in Hw; naive_solver.
  - intros r i Hr Hi Hlt. destruct (Hcur _ Hr) as [E|C]; [|eauto]. rewrite E in *.
    apply lookup_insert_is_Some' in Hi as [<-|Hi]; apply lookup_insert_is_Some'; right; [|eauto].
    rewrite bool_decide_eq_true_2 in Eo by done. simpl in Eo.
    apply negb_false_iff in Eo. rewrite Hp in Eo. by apply bool_decide_eq_true in Eo.
  - intros r i Hr Hi. destruct (Hcur _ Hr) as [E|C].
    + rewrite E in Hi. apply lookup_insert_is_Some' in Hi as [<-|Hi]; [lia|].
      specialize (Hx _ _ Hcb Hi). lia.
    + specialize (Hx _ _ C Hi). lia.
Qed.

Lemma Agreed_mksrv u a i p st ts ts' st' :
  Agreed ts -> heap ts !! a = None -> mksrv u a i p st ts = Return (ts', st') -> Agreed ts'.
Proof.
  intros HA Ha H. unfold mksrv, newRfsrv in H. simpl in H. rewrite (agreed_mode _ HA) in H.
  simpl in H. apply bind_Return in H as (l & Hl & H). simplify_eq/=.
  unfold slice_set in Hl. case_decide; simplify_eq.
  assert (forall b, Some b ∈ <[Z.to_nat i := Some a]> (srvs ts) -> b = a \/ Some b ∈ srvs ts) as Hin.
  { intros b (k & Hk)%list_elem_of_lookup. apply list_lookup_insert_Some in Hk as [(_ & [= ->] & _)|[_ Hk]];
      [by left|right; by eapply list_elem_of_lookup_2]. }
  apply (Agreed_keep ts); simpl; [done|done|done| | |].
  - intros b [-> | Hb]%Hin; [by simplify_map_eq|].
    destruct (decide (a = b)) as [->|]; simplify_map_eq; [done|]. by apply (agreed_live _ HA).
  - intros b rs. rewrite lookup_insert_Some. intros [[_ <-]|[_ Hb]]; [done|]. by apply (agreed_err _ HA b).
  - intros r (b & Hb & Hr). simpl in *. apply lookup_insert_Some in Hr as [[<- <-]|[Hne Hr]]; [by left|].
    right. apply Hin in Hb as [-> | Hb]; [done|]. exists r. split; [by exists b|done].
Qed.

Lemma Agreed_Kill a st ts ts' st' : Agreed ts -> Kill a st ts = Return (ts', st') -> Agreed ts'.
Proof.
  intros HA H. unfold Kill in H. apply bind_Return in H as (rs & Hd & H).
  apply deref_inv in Hd as (? & [= <-] & Ha).
  assert (ts' = set_heap ts a (set_raft rs false) (maxIndex ts)) as ->.
  { destruct (persister rs); [|congruence].
    apply bind_Return in H as (? & _ & H). apply bind_Return in H as (? & _ & H).
    apply bind_Return in H as (? & _ & H). congruence. }
  apply (Agreed_keep ts); simpl; [done|done|done| | |].
  - intros b Hb. destruct (decide (a = b)) as [->|]; simplify_map_eq; [done|]. by apply (agreed_live _ HA).
  - intros b r. rewrite lookup_insert_Some.
    intros [[_ <-]|[_ Hb]]; simpl; by eapply (agreed_err _ HA).
  - intros r (b & Hb & Hr). simpl in *. right.
    apply lookup_insert_Some in Hr as [[<- <-]|[Hne Hr]]; eexists; (split; [eexists; split; [exact Hb|eassumption]|done]).
Qed.

Lemma Agreed_step ts ts' : step ts ts' -> Agreed ts -> Agreed ts'.
Proof.
  intros Hs HA. destruct Hs.
  - by eapply Agreed_applier.
  - pose proof (agreed_mode _ HA). congruence.
  - by eapply Agreed_mksrv.
  - by eapply Agreed_Kill.
  - apply (Agreed_keep ts); simpl; try done.
    + apply (agreed_live _ HA).
    + apply (agreed_err _ HA).
    + intros r Hr. right. by exists r.
Qed.

Lemma Agreed_reachable n ts : reachable n false ts -> Agreed ts.
Proof.
  unfold reachable. intros Hr.
  remember (makeTest n false) as t0 eqn:Ht. assert (Agreed t0) as H0 by (subst; apply Agreed_makeTest).
  clear Ht. induction Hr; eauto using Agreed_step.
Qed.

(** ** Counting commits *)

(** What a server has at an index. *)
Definition entryOf (ts : Test) (index : Z) (o : option nat) : option any :=
  rs ← o ≫= (heap ts !!.); logs rs !! index.

Definition committed (ts : Test) (index : Z) : nat :=
  count (fun o => is_Some (entryOf ts index o)) (srvs ts).

Lemma entryOf_deref ts index o rs : deref ts o = Return rs -> entryOf ts index o = logs rs !! index.
Proof. intros (a & -> & Ha)%deref_inv. unfold entryOf. simpl. by rewrite Ha. Qed.

Lemma nCommittedLoop_inv ts index l n c n' c' :
  nCommittedLoop ts index l n c = Return (n', c') -> (0 <= n)%Z ->
  n' = (n + Z.of_nat (count (fun o => is_Some (entryOf ts index o)) l))%Z /\
  ((0 < n)%Z -> c' = c) /\ forall o v, o ∈ l -> entryOf ts index o = Some v -> v = c'.
Proof.
  revert n c. induction l as [|o l IH]; intros n c H Hn; simpl in H.
  { simplify_eq. split_and!; [unfold count; simpl; lia|done|]. intros o v Ho. by apply elem_of_nil in Ho. }
  apply bind_Return in H as (rs & Hd & H). case_decide; [done|].
  rewrite count_cons. pose proof (entryOf_deref _ index _ _ Hd) as He. unfold Logs in H.
  destruct (logs rs !! index) as [c1|] eqn:Ec.
  - case_decide as Hc; [done|]. apply IH in H as (-> & Hc' & Hall); [|lia].
    specialize (Hc' ltac:(lia)) as ->. split_and!.
    + rewrite decide_True by (rewrite He; eauto). lia.
    + intros Hlt. destruct (decide (c = c1)); [done|]. by destruct Hc.
    + intros o' v [-> | Ho]%elem_of_cons Hv; [congruence|eauto].
  - apply IH in H as (-> & Hc' & Hall); [|done]. split_and!; [|done|].
    + rewrite decide_False by (rewrite He; by intros [??]). lia.
    + intros o' v [-> | Ho]%elem_of_cons Hv; [congruence|eauto].
Qed.

Lemma nCommitted_inv ts index n c :
  nCommitted index ts = Return (n, c) ->
  n = Z.of_nat (committed ts index) /\ forall o v, o ∈ srvs ts -> entryOf ts index o = Some v -> v = c.
Proof. intros H. apply nCommittedLoop_inv in H as (-> & _ & ?); [|done]. by split; [unfold committed; lia|]. Qed.

Lemma nCommittedLoop_ok ts index l n c :
  (forall o, o ∈ l -> exists rs, deref ts o = Return rs /\ applyErr rs = "") ->
  (forall o o' v w, o ∈ l -> o' ∈ l -> entryOf ts index o = Some v -> entryOf ts index o' = Some w -> v = w) ->
  (forall o v, o ∈ l -> entryOf ts index o = Some v -> (0 < n)%Z -> c = v) ->
  exists r, nCommittedLoop ts index l n c = Return r.
Proof.
  revert n c. induction l as [|o l IH]; intros n c Hd Hag Hc; simpl; [eauto|].
  destruct (Hd o) as (rs & Ho & Herr); [by left|]. rewrite Ho. simpl.
  rewrite decide_False by naive_solver. unfold Logs.
  pose proof (entryOf_deref _ index _ _ Ho) as He.
  destruct (logs rs !! index) as [c1|] eqn:Ec.
  - rewrite decide_False.
    + apply IH; [intros; apply Hd; by right| |].
      * intros o1 o2 v w H1 H2. apply Hag; by right.
      * intros o1 v H1 Hv _. eapply (Hag o o1); [by left|by right|done|done].
    + intros [Hn Hne]. apply Hne. eapply Hc; [by left|done|done].
  - apply IH; [intros; apply Hd; by right| |].
    + intros o1 o2 v w H1 H2. apply Hag; by right.
    + intros o1 v H1. apply Hc. by right.
Qed.

Lemma nCommitted_ok ts index :
  Agreed ts -> Forall is_Some (srvs ts) -> exists r, nCommitted index ts = Return r.
Proof.
  intros HA Hall. rewrite Forall_forall in Hall.
  assert (forall o, o ∈ srvs ts -> exists rs, deref ts o = Return rs /\ current ts rs) as Hd.
  { intros o Ho. destruct (Hall _ Ho) as [a ->]. destruct (agreed_live _ HA _ Ho) as [rs Hrs].
    exists rs. split; [unfold deref; simpl; by rewrite Hrs|by exists a]. }
  apply nCommittedLoop_ok.
  - intros o Ho. destruct (Hd _ Ho) as (rs & Hr & a & _ & Ha). exists rs. split; [done|].
    by apply (agreed_err _ HA a).
  - intros o o' v w (r1 & D1 & C1)%Hd (r2 & D2 & C2)%Hd.
    rewrite (entryOf_deref _ _ _ _ D1), (entryOf_deref _ _ _ _ D2).
    by apply (agreed_logs _ HA).
  - lia.
Qed.

(** ** Agreement *)

Lemma tryServers_inv a n k starts starts' index :
  tryServers a n k starts = (starts', index) -> index <> (-1)%Z -> 0 < n ->
  starts' < n /\ at_connected a starts' = true /\ at_raft a starts' = true /\
  at_start a starts' = Some index.
Proof. clear encodeSnap.
  intros H Hi Hn. revert starts H. induction k as [|k IH]; intros starts H; simpl in H; [naive_solver|].
  destruct (at_connected a _ && at_raft a _) eqn:Ec; [|eauto].
  apply andb_true_iff in Ec as [Hc Hr].
  destruct (at_start a ((starts + 1) `mod` n)) as [i|] eqn:Es; [|eauto]. simplify_eq.
  split_and!; [by apply Nat.mod_upper_bound; lia|done|done|done].
Qed.

Lemma pollLoop_inv c expected index polls :
  pollLoop c expected index polls = Return true ->
  exists ts, ts ∈ polls /\ (expected <= Z.of_nat (committed ts index))%Z /\ 0 < committed ts index /\
    forall o v, o ∈ srvs ts -> entryOf ts index o = Some v -> v = c.
Proof.
  induction polls as [|ts polls IH]; simpl; [done|]. intros H.
  apply bind_Return in H as ([n c1] & Hn & H). simpl in H.
  apply nCommitted_inv in Hn as [-> Hall]. case_decide as Hd.
  - destruct Hd as (H0 & He & ->). exists ts. split_and!; [by left|done|lia|done].
  - destruct (IH H) as (ts' & Hin & ?). exists ts'. split; [by right|done].
Qed.

Lemma oneLoop_inv n c expected retry attempts fin starts index :
  oneLoop n c expected retry attempts fin starts = Return index -> 0 < n -> index <> (-1)%Z ->
  exists a s ts, a ∈ attempts /\ s < n /\ at_connected a s = true /\ at_raft a s = true /\
    at_start a s = Some index /\ ts ∈ at_polls a /\
    (expected <= Z.of_nat (committed ts index))%Z /\ 0 < committed ts index /\
    forall o v, o ∈ srvs ts -> entryOf ts index o = Some v -> v = c.
Proof. clear encodeSnap decodeSnap.
  intros H Hn Hi. revert starts H. induction attempts as [|a attempts IH]; intros starts H; simpl in H.
  { destruct fin; naive_solver. }
  destruct (tryServers a n n starts) as [s i] eqn:Et. case_decide as Hd.
  - apply bind_Return in H as (found & Hp & H). destruct found.
    + simplify_eq. apply tryServers_inv in Et as (? & ? & ? & ?); [|done|done].
      apply pollLoop_inv in Hp as (ts & ? & ? & ? & ?). exists a, s, ts. split_and!; try done. by left.
    + destruct retry; [|done]. destruct (IH _ H) as (a' & s' & ts & Ha & ?).
      exists a', s', ts. split; [by right|done].
  - destruct (IH _ H) as (a' & s' & ts & Ha & ?). exists a', s', ts. split; [by right|done].
Qed.

Lemma wait_committed index n startTerm polls terms c :
  wait index n startTerm polls terms = Return (Some c) ->
  exists k, k <= 30 /\ (n <= Z.of_nat (committed (polls k) index))%Z /\
    forall o v, o ∈ srvs (polls k) -> entryOf (polls k) index o = Some v -> v = c.
Proof.
  unfold wait. intros H. apply bind_Return in H as (k & Hk & H).
  assert (forall it j k, waitLoop index n startTerm polls terms j it = Return (Some k) -> k <= j + it) as Hle.
  { clear. intros it. induction it as [|it IH]; intros j k H; simpl in H; [injection H; lia|].
    apply bind_Return in H as (r & _ & H). case_decide; [injection H; lia|].
    case_decide; [done|]. apply IH in H. lia. }
  destruct k as [k|]; [|done]. apply Hle in Hk. apply bind_Return in H as ([m v] & Hn & H). simpl in H.
  case_decide as Hd; [done|]. injection H as ->. apply nCommitted_inv in Hn as [-> Hall].
  exists k. split_and!; [lia|lia|done].
Qed.

(** ** Leaders *)

(** Connected server [j] says it is leader of term [t]. *)
Definition isLeader (v : view) (j : nat) (t : Z) : Prop := v !! j = Some (Some (t, true)).

Definition onePerTerm (v : view) : Prop :=
  forall j j' t, isLeader v j t -> isLeader v j' t -> j = j'.

Fixpoint leadersAt (i : Z) (v : view) (t : Z) : list Z :=
  match v with
  | [] => []
  | o :: v => (if decide (o = Some (t, true)) then [i] else []) ++ leadersAt (i + 1) v t
  end.

Lemma leadersAt_elem i v t z :
  z ∈ leadersAt i v t <-> exists j, z = (i + Z.of_nat j)%Z /\ isLeader v j t.
Proof.
  unfold isLeader. revert i. induction v as [|o v IH]; intros i; simpl.
  { rewrite elem_of_nil. split; [done|]. by intros (j & _ & ?). }
  rewrite elem_of_app, IH. split.
  - intros [H|(j & -> & Hj)].
    + case_decide; [|by apply elem_of_nil in H]. apply list_elem_of_singleton in H as ->. exists 0. subst. split; [lia|done].
    + exists (S j). split; [lia|done].
  - intros ([|j] & -> & Hj); simpl in Hj.
    + simplify_eq. left. rewrite decide_True by done. apply list_elem_of_singleton. lia.
    + right. exists j. split; [lia|done].
Qed.

Lemma leadersAt_NoDup i v t : NoDup (leadersAt i v t).
Proof.
  revert i. induction v as [|o v IH]; intros i; simpl; [constructor|].
  case_decide; simpl; [|done]. constructor; [|done].
  rewrite leadersAt_elem. intros (j & ? & _). lia.
Qed.

Lemma leadersAt_short v :
  onePerTerm v <-> forall t, length (leadersAt 0 v t) <= 1.
Proof.
  split.
  - intros H t. pose proof (leadersAt_NoDup 0 v t) as Hn.
    destruct (leadersAt 0 v t) as [|x [|y l]] eqn:E; simpl; try lia. exfalso.
    assert (x ∈ leadersAt 0 v t) as (j & -> & Hj)%leadersAt_elem by (rewrite E; by left).
    assert (y ∈ leadersAt 0 v t) as (j' & -> & Hj')%leadersAt_elem by (rewrite E; right; by left).
    rewrite (H _ _ _ Hj Hj') in Hn. apply NoDup_cons in Hn as [Hn _]. apply Hn. by left.
  - intros H j j' t Hj Hj'.
    assert (Z.of_nat j ∈ leadersAt 0 v t) as H1 by (apply leadersAt_elem; eauto).
    assert (Z.of_nat j' ∈ leadersAt 0 v t) as H2 by (apply leadersAt_elem; eauto).
    specialize (H t). destruct (leadersAt 0 v t) as [|x [|y l]]; simpl in H; [|  |lia].
    + by apply elem_of_nil in H1.
    + apply list_elem_of_singleton in H1, H2. lia.
Qed.

Lemma leadersOf_lookup i v m t :
  leadersOf i v m !! t =
  if decide (leadersAt i v t = []) then m !! t else Some (default [] (m !! t) ++ leadersAt i v t).
Proof.
  revert i m. induction v as [|o v IH]; intros i m; simpl; [done|].
  assert (forall m', leadersOf i (o :: v) m' = leadersOf (i + 1) v
    match o with Some (t', true) => <[t' := default [] (m' !! t') ++ [i]]> m' | _ => m' end) as Ho
    by by destruct o as [[? []]|].
  simpl in Ho. rewrite Ho, IH. clear Ho.
  destruct o as [[t' []]|];
    [|by rewrite (decide_False (P := Some (t', false) = Some (t, true)))
     |by rewrite (decide_False (P := None = Some (t, true)))].
  destruct (decide (t' = t)) as [->|Hne].
  - rewrite lookup_insert_eq, (decide_True (P := Some (t, true) = Some (t, true))) by done. simpl.
    case_decide as E; [by rewrite E|]. simpl. by rewrite <-(assoc_L (++)).
  - rewrite lookup_insert_ne, (decide_False (P := Some (t', true) = Some (t, true))) by congruence.
    done.
Qed.

Lemma leadersOf_empty v : leadersOf 0 v ∅ = ∅ <-> forall j t, ~ isLeader v j t.
Proof.
  rewrite map_empty. split.
  - intros H j t Hj. specialize (H t). rewrite leadersOf_lookup in H.
    case_decide as E; [|done].
    assert (Z.of_nat j ∈ leadersAt 0 v t) as Hin by (apply leadersAt_elem; eauto).
    rewrite E in Hin. by apply elem_of_nil in Hin.
  - intros H t. rewrite leadersOf_lookup. case_decide as E; [done|].
    destruct (leadersAt 0 v t) as [|x l] eqn:E'; [done|].
    assert (x ∈ leadersAt 0 v t) as (j & _ & Hj)%leadersAt_elem by (rewrite E'; by left).
    by apply H in Hj.
Qed.

Lemma scanTerms_spec order m last r :
  scanTerms order m last = Return r <->
  Forall (fun t => length (default [] (m !! t)) <= 1) order /\ r = foldl Z.max last order.
Proof.
  revert last. induction order as [|t order IH]; intros last; simpl.
  - split; [intros [= ->]; by split; [constructor|]|by intros [_ ->]].
  - rewrite Forall_cons. unfold len. case_decide as Hd.
    + split; [done|]. intros [[? _] _]. lia.
    + rewrite IH. replace (if decide (last < t)%Z then t else last) with (last `max` t)%Z
        by (case_decide; lia).
      split; [intros [? ?]|intros [[_ ?] ?]]; split_and!; try done. lia.
Qed.

Lemma foldl_max_spec last order :
  let r := foldl Z.max last order in
  (last <= r)%Z /\ (forall t, t ∈ order -> (t <= r)%Z) /\ (r = last \/ r ∈ order).
Proof.
  simpl. revert last. induction order as [|t order IH]; intros last; simpl.
  - split_and!; [done| |by left]. intros t Ht. by apply elem_of_nil in Ht.
  - destruct (IH (last `max` t)%Z) as (H1 & H2 & H3). split_and!; [lia| |].
    + intros t' [-> | Ht]%elem_of_cons; [lia|auto].
    + destruct H3 as [-> | H3]; [|right; by right].
      destruct (Z.max_spec last t) as [[_ ->]|[_ ->]]; [right; by left|by left].
Qed.

(** Server [i] is the leader of the latest term that has one, and no term has
    two. *)
Definition leads (v : view) (i : Z) : Prop :=
  onePerTerm v /\ exists j t, i = Z.of_nat j /\ isLeader v j t /\
    forall j' t', isLeader v j' t' -> (t' <= t)%Z.

Definition noLeader (v : view) : Prop := forall j t, ~ isLeader v j t.

Section Leader.
Context (order : gmap Z (list Z) -> list Z).
Hypothesis order_perm : forall m, order m ≡ₚ elements (dom m).

Lemma order_elem m t : t ∈ order m <-> is_Some (m !! t).
Proof using Type order_perm. by rewrite order_perm, elem_of_elements, elem_of_dom. Qed.

Lemma leaders_lookup v t :
  is_Some (leadersOf 0 v ∅ !! t) -> leadersOf 0 v ∅ !! t = Some (leadersAt 0 v t).
Proof. rewrite leadersOf_lookup. case_decide; rewrite lookup_empty; [by intros [??]|done]. Qed.

Lemma scan_onePerTerm v last r :
  scanTerms (order (leadersOf 0 v ∅)) (leadersOf 0 v ∅) last = Return r <->
  onePerTerm v /\ r = foldl Z.max last (order (leadersOf 0 v ∅)).
Proof using Type order_perm.
  rewrite scanTerms_spec, leadersAt_short, Forall_forall.
  split; intros [H ->]; (split; [|done]); intros t.
  - destruct (leadersOf 0 v ∅ !! t) as [l|] eqn:E.
    + assert (is_Some (leadersOf 0 v ∅ !! t)) as Hs by eauto.
      specialize (H t). rewrite order_elem, (leaders_lookup _ _ Hs) in H. simpl in H. eauto.
    + rewrite leadersOf_lookup in E. case_decide as E'; [|done]. rewrite E'. simpl. lia.
  - intros Hs%order_elem. rewrite (leaders_lookup _ _ Hs). apply H.
Qed.

Lemma view_leads v i :
  Forall (fun o => forall t b, o = Some (t, b) -> (0 <= t)%Z) v -> leadersOf 0 v ∅ <> ∅ ->
  (last ← scanTerms (order (leadersOf 0 v ∅)) (leadersOf 0 v ∅) (-1);
   slice_get (default [] (leadersOf 0 v ∅ !! last)) 0) = Return i <-> leads v i.
Proof using Type order_perm.
  intros Hnn Hne. set (m := leadersOf 0 v ∅) in *. set (r := foldl Z.max (-1)%Z (order m)).
  destruct (foldl_max_spec (-1) (order m)) as (Hr1 & Hr2 & Hr3). fold r in Hr1, Hr2, Hr3.
  assert (forall j t, isLeader v j t -> is_Some (m !! t)) as Hl.
  { intros j t Hj. unfold m. rewrite leadersOf_lookup. case_decide as E; [|eauto].
    assert (Z.of_nat j ∈ leadersAt 0 v t) as Hin by (apply leadersAt_elem; eauto).
    rewrite E in Hin. by apply elem_of_nil in Hin. }
  assert (forall t, is_Some (m !! t) -> exists j, isLeader v j t) as Hl'.
  { intros t Ht. pose proof (leaders_lookup _ _ Ht) as E. fold m in E.
    destruct (leadersAt 0 v t) as [|z l] eqn:E'.
    - unfold m in Ht. rewrite leadersOf_lookup, E' in Ht. simpl in Ht. by apply lookup_empty_is_Some in Ht.
    - assert (z ∈ leadersAt 0 v t) as (j & _ & Hj)%leadersAt_elem by (rewrite E'; by left). eauto. }
  assert (is_Some (m !! r)) as Hr.
  { apply order_elem. destruct Hr3 as [Hr3|?]; [|done].
    apply map_choose in Hne as (t & l & Ht). destruct (Hl' t) as [j Hj]; [by eexists|].
    rewrite Forall_lookup in Hnn. specialize (Hnn _ _ Hj _ _ eq_refl).
    specialize (Hr2 t ltac:(apply order_elem; by eexists)). lia. }
  destruct (Hl' _ Hr) as [j0 Hj0].
  assert (onePerTerm v -> default [] (m !! r) = [Z.of_nat j0]) as Hone.
  { intros H1. pose proof (proj1 (leadersAt_short v) H1 r) as H.
    pose proof (leaders_lookup _ _ Hr) as E. fold m in E. rewrite E. simpl.
    assert (Z.of_nat j0 ∈ leadersAt 0 v r) as Hin by (apply leadersAt_elem; eauto).
    destruct (leadersAt 0 v r) as [|x [|y l]]; simpl in H; [by apply elem_of_nil in Hin| |lia].
    by apply list_elem_of_singleton in Hin as ->. }
  split.
  - intros H. apply bind_Return in H as (last & [H1 ->]%scan_onePerTerm & H).
    fold m in H. fold r in H. rewrite (Hone H1) in H.
    change (slice_get [Z.of_nat j0] (Z.of_nat 0) = Return i) in H.
    rewrite (slice_get_Some _ 0 (Z.of_nat j0)) in H by done. injection H as <-.
    split; [done|]. exists j0, r. split_and!; [done|done|].
    intros j' t' Hj'. apply Hr2, order_elem. eauto.
  - intros (H1 & j & t & -> & Hj & Hmax).
    assert (scanTerms (order m) m (-1) = Return r) as -> by by apply scan_onePerTerm.
    simpl. rewrite (Hone H1). change (slice_get [Z.of_nat j0] (Z.of_nat 0) = Return (Z.of_nat j)).
    rewrite (slice_get_Some _ 0 (Z.of_nat j0)) by done. do 2 f_equal.
    assert (t = r) as -> by (specialize (Hmax _ _ Hj0); specialize (Hr2 t ltac:(apply order_elem; eauto)); lia).
    eapply H1; eauto.
Qed.

Lemma oneLeaderLoop_spec views i :
  Forall (Forall (fun o => forall t b, o = Some (t, b) -> (0 <= t)%Z)) views ->
  oneLeaderLoop order views = Return i <->
  exists k v, views !! k = Some v /\ leads v i /\ Forall noLeader (take k views).
Proof using Type order_perm.
  induction 1 as [|v views Hv Hvs IH]; simpl.
  { split; [done|]. by intros (k & v & ? & _). }
  destruct (decide (leadersOf 0 v ∅ = ∅)) as [E|E].
  - rewrite E. assert (order ∅ = []) as Ho.
    { apply Permutation_nil. symmetry. by rewrite order_perm, dom_empty_L, elements_empty. }
    rewrite Ho. simpl. rewrite decide_False by (intros Hn; by apply Hn). rewrite IH.
    pose proof (proj1 (leadersOf_empty v) E) as E'. split.
    + intros (k & v' & Hk & Hl & Hn). exists (S k), v'. split_and!; [done|done|by constructor].
    + intros ([|k] & v' & Hk & Hl & Hn); simplify_eq/=.
      * destruct Hl as (_ & j & t & _ & Hj & _). by apply E' in Hj.
      * apply Forall_cons in Hn as [_ Hn]. eauto.
  - destruct (decide (leadersOf 0 v ∅ <> ∅)) as [_|]; [|done].
    rewrite (view_leads v i Hv E). split.
    + intros Hl. exists 0, v. split_and!; [done|done|constructor].
    + intros ([|k] & v' & Hk & Hl & Hn); simplify_eq/=; [done|].
      apply Forall_cons in Hn as [Hn _]. by destruct E; apply leadersOf_empty.
Qed.
End Leader.

(** ** Terms *)

Lemma checkTermsLoop_spec v term t :
  term <> (-1)%Z ->
  checkTermsLoop v term = Return t <-> t = term /\ forall x b, Some (x, b) ∈ v -> x = term.
Proof.
  intros Hne. induction v as [|[[x b]|] v IH]; simpl.
  - split; [intros [= ->]; split; [done|]; intros x b H; by apply elem_of_nil in H|by intros [-> _]].
  - rewrite decide_False by done. case_decide as Hx.
    + split; [done|]. intros [_ H]. destruct Hx. symmetry. eapply (H x b). by left.
    + subst x. rewrite IH. split; intros [-> H]; (split; [done|]).
      * intros x b' [Hx|Hx]%elem_of_cons; [congruence|eauto].
      * intros x b' Hx. apply (H x b'). by right.
  - rewrite IH. split; intros [-> H]; (split; [done|]).
    + intros x b [Hx|Hx]%elem_of_cons; [done|eauto].
    + intros x b Hx. apply (H x b). by right.
Qed.

Lemma checkTerms_spec v t :
  Forall (fun o => forall t b, o = Some (t, b) -> (0 <= t)%Z) v ->
  checkTerms v = Return t <->
  (forall x b, Some (x, b) ∈ v -> x = t) /\ (t = (-1)%Z <-> Forall (.= None) v).
Proof.
  unfold checkTerms. induction 1 as [|[[x b]|] v Ho Hv IH]; simpl.
  - split; [intros [= <-]; split|intros [_ H]; f_equal; symmetry; by apply H].
    + intros x b H. by apply elem_of_nil in H.
    + split; [constructor|done].
  - specialize (Ho _ _ eq_refl). rewrite checkTermsLoop_spec by lia. split.
    + intros [-> H]. split.
      * intros y b' [Hy|Hy]%elem_of_cons; [congruence|eauto].
      * split; [lia|]. intros [? _]%Forall_cons. done.
    + intros [H _]. assert (x = t) as -> by (eapply (H x b); by left). split; [done|].
      intros y b' Hy. apply (H y b'). by right.
  - rewrite IH, Forall_cons. split; intros [H1 H2]; split.
    + intros y b [Hy|Hy]%elem_of_cons; [done|eauto].
    + rewrite H2. split; [by split|by intros [_ ?]].
    + intros y b Hy. apply (H1 y b). by right.
    + rewrite H2. split; [by intros [_ ?]|by split].
Qed.

(** ** Snapshots *)

Lemma zip_seq_lookup {A} (l : list A) (k : nat) (j : Z) :
  (list_to_map (zip (Z.of_nat <$> seq k (length l)) l) : gmap Z A) !! j
  = if decide (Z.of_nat k <= j)%Z then l !! (Z.to_nat j - k) else None.
Proof.
  revert k. induction l as [|x l IH]; intros k; simpl.
  { rewrite lookup_empty. by case_decide. }
  destruct (decide (Z.of_nat k = j)) as [<-|Hne].
  - rewrite lookup_insert_eq, decide_True, Nat2Z.id, Nat.sub_diag by lia. done.
  - rewrite lookup_insert_ne, IH by done. case_decide; case_decide; try lia; [|done].
    replace (Z.to_nat j - k) with (S (Z.to_nat j - S k)) by lia. done.
Qed.

Lemma snapLog_lookup rs idx (j : nat) :
  (Z.of_nat j <= idx)%Z -> snapLog rs idx !! j = Some (default None (logs rs !! Z.of_nat j)).
Proof.
  intros Hj. unfold snapLog. rewrite list_lookup_fmap, lookup_seq_lt by lia. done.
Qed.

(** A command accepted by [applierSnap] was checked, and a snapshot handed to
    Raft is the instance's log. *)
Lemma applierSnap_command a m ts ts' s rs :
  applierSnap a m ts = Return (ts', s) -> SnapshotValid m = false -> CommandValid m = true ->
  heap ts !! a = Some rs ->
  exists ts1 prevok rs', checkLogs (me rs) m ts = Return ("", prevok, ts1) /\
    CommandIndex m = (lastApplied rs + 1)%Z /\ ((1 < CommandIndex m)%Z -> prevok = true) /\
    heap ts' !! a = Some rs' /\ lastApplied rs' = CommandIndex m /\
    (forall idx b, s = Some (idx, b) -> idx = CommandIndex m /\ b = encodeSnap idx (snapLog rs' idx)).
Proof.
  intros H HS HC Ha. unfold applierSnap in H.
  apply bind_Return in H as (rs0 & (? & [= <-] & Ha0)%deref_inv & H).
  rewrite Ha in Ha0. injection Ha0 as <-. rewrite HS, HC in H. apply bind_Return in H as ([[err t2] s2] & H & Hr).
  apply bind_Return in H as ([err1 t1] & Hc & H).
  apply bind_Return in H as (rs1 & (? & [= <-] & Ha1)%deref_inv & H). simpl in *.
  destruct (decide (err = "")) as [->|]; [|done]. simplify_eq.
  assert (err1 = "" /\ ts' = set_heap t1 a (set_logs rs1 (logs rs1) (CommandIndex m)) (maxIndex t1) /\
    (forall idx b, s = Some (idx, b) -> idx = CommandIndex m /\ b = encodeSnap idx (snapLog rs1 idx)))
    as (-> & -> & Hs).
  { case_decide; [destruct (raft rs1)|]; simplify_eq; split_and!; naive_solver. }
  destruct (decide (CommandIndex m <> lastApplied rs + 1)%Z) as [|Hi]; [done|].
  apply bind_Return in Hc as ([[e prevok] t3] & Hc & Hc'). simpl in Hc'.
  destruct (bool_decide (1 < CommandIndex m)%Z && negb prevok) eqn:Eo; simplify_eq.
  eexists _, prevok, _. split_and!; [done|lia| |apply lookup_insert_eq|done|].
  - intros Hlt. rewrite bool_decide_eq_true_2 in Eo by done. by destruct prevok.
  - intros idx b [-> ->]%Hs. done.
Qed.

(** ** Theorems *)

(** C32: the appliers enforce agreement.  In every execution of a test without
    snapshots that has not failed -- any interleaving of messages from Raft,
    whatever they contain, with restarts and messages from superseded
    instances -- the current servers' logs agree on every index, have no gap
    above index 1, hold no index beyond the tester's [maxIndex], and no apply
    error is ever recorded (it is reported by terminating). *)
Theorem appliers_agree n ts :
  reachable n false ts ->
  (forall r1 r2 i v w, current ts r1 -> current ts r2 ->
     logs r1 !! i = Some v -> logs r2 !! i = Some w -> v = w) /\
  (forall rs i, current ts rs -> is_Some (logs rs !! i) ->
     (i <= maxIndex ts)%Z /\ ((1 < i)%Z -> is_Some (logs rs !! (i - 1)%Z))) /\
  (forall rs, current ts rs -> applyErr rs = "").
Proof.
  intros [? ? He Hl Hg Hm]%Agreed_reachable. split_and!; [done| |].
  - intros rs i Hr Hi. split; [eauto|]. intros. by apply Hg.
  - intros rs (a & _ & Ha). eauto.
Qed.

(** [nCommitted] counts, and never fails.  In such an execution, once every
    server has been started, [nCommitted] returns the number of servers that
    have an entry at the index, with the entry they all have; and
    [checkNoAgreement] passes exactly when there is none. *)
Theorem n_committed_counts n ts index :
  reachable n false ts -> Forall is_Some (srvs ts) ->
  (exists c, nCommitted index ts = Return (Z.of_nat (committed ts index), c) /\
     forall rs v, current ts rs -> logs rs !! index = Some v -> v = c) /\
  (checkNoAgreement index ts = Return tt <-> forall rs, current ts rs -> logs rs !! index = None).
Proof.
  intros HA%Agreed_reachable Hs. destruct (nCommitted_ok ts index HA Hs) as [[k c] Hk].
  pose proof (nCommitted_inv _ _ _ _ Hk) as [-> Hc].
  assert (forall a rs, heap ts !! a = Some rs -> entryOf ts index (Some a) = logs rs !! index) as He.
  { intros a rs Ha. unfold entryOf. simpl. by rewrite Ha. }
  split.
  - exists c. split; [done|]. intros rs v (a & Hin & Ha) Hv.
    apply (Hc (Some a)); [done|]. by rewrite (He _ _ Ha).
  - unfold checkNoAgreement. rewrite Hk. simpl. unfold committed.
    rewrite Forall_forall in Hs. case_decide as Hd; split; try done.
    + intros H. exfalso. rewrite count_none in Hd; [simpl in Hd; lia|].
      apply Forall_forall. intros o Ho [v Hv]. destruct (Hs _ Ho) as [a ->].
      destruct (agreed_live _ HA _ Ho) as [rs Ha]. rewrite (He _ _ Ha) in Hv.
      rewrite H in Hv; [done|]. by exists a.
    + intros _ rs (a & Hin & Ha). destruct (logs rs !! index) as [v|] eqn:Ev; [|done]. exfalso.
      apply Hd. apply list_elem_of_lookup in Hin as (k & Hk').
      assert (0 < count (fun o => is_Some (entryOf ts index o)) (srvs ts)); [|lia].
      unfold count. assert (Some a ∈ filter (fun o => is_Some (entryOf ts index o)) (srvs ts)) as Hf.
      { apply list_elem_of_filter. split; [rewrite (He _ _ Ha); eauto|by eapply list_elem_of_lookup_2]. }
      destruct (filter _ (srvs ts)); [by apply elem_of_nil in Hf|simpl; lia].
Qed.

(** C33: [one] returns an index only for an agreement.  When it returns an index
    other than -1, a connected server with a Raft had accepted the command at
    that index, and at a later moment at least the expected number of servers
    (and at least one) had an entry there, all of them the command. *)
Theorem one_reached_agreement n c expected retry attempts fin index :
  0 < n -> one n c expected retry attempts fin = Return index -> index <> (-1)%Z ->
  exists a s ts, a ∈ attempts /\ s < n /\ at_connected a s = true /\ at_raft a s = true /\
    at_start a s = Some index /\ ts ∈ at_polls a /\
    (Z.max 1 expected <= Z.of_nat (committed ts index))%Z /\
    forall o v, o ∈ srvs ts -> entryOf ts index o = Some v -> v = c.
Proof.
  intros Hn H Hi. destruct (oneLoop_inv _ _ _ _ _ _ _ _ H Hn Hi) as (a & s & ts & ?).
  destr_hyps. exists a, s, ts. split_and!; try done. lia.
Qed.

(** C34: [checkOneLeader] finds the leader.  With terms that are not negative and
    any iteration order over its map, it returns [i] exactly when, the first
    time within its ten looks that some connected server says it is leader, no
    term has two leaders and [i] is the leader of the latest term. *)
Theorem check_one_leader_iff order views i :
  (forall m, order m ≡ₚ elements (dom m)) ->
  (forall k, Forall (fun o => forall t b, o = Some (t, b) -> (0 <= t)%Z) (views k)) ->
  checkOneLeader order views = Return i <->
  exists k, k < 10 /\ leads (views k) i /\ forall k', k' < k -> noLeader (views k').
Proof.
  intros Ho Hv. unfold checkOneLeader. rewrite oneLeaderLoop_spec; [|done|].
  2: { apply Forall_fmap, Forall_true. intros k. apply Hv. }
  split.
  - intros (k & v & Hk & Hl & Hn). rewrite list_lookup_fmap in Hk.
    apply fmap_Some in Hk as (x & Hx & ->). apply lookup_seq in Hx as [-> Hk].
    rewrite Nat.add_0_l in Hl.
    exists k. split_and!; [done|done|]. intros k' Hk'.
    rewrite Forall_forall in Hn. apply Hn. rewrite <-fmap_take, take_seq.
    apply list_elem_of_fmap_2, elem_of_seq. lia.
  - intros (k & Hk & Hl & Hn). exists k, (views k).
    rewrite list_lookup_fmap, lookup_seq_lt by done. split_and!; [done|done|].
    rewrite <-fmap_take, take_seq. apply Forall_fmap, Forall_forall.
    intros x Hx%elem_of_seq. apply Hn. lia.
Qed.

(** With snapshots, commands are applied in order.  A command that
    [applierSnap] accepts has the index after the instance's last applied one,
    agrees with every current server's entry at that index, follows an entry
    already there, and becomes the last applied. *)
Theorem applier_snap_in_order a m ts ts' s rs :
  applierSnap a m ts = Return (ts', s) -> SnapshotValid m = false -> CommandValid m = true ->
  heap ts !! a = Some rs ->
  CommandIndex m = (lastApplied rs + 1)%Z /\
  (forall r old, current ts r -> logs r !! CommandIndex m = Some old -> old = Command m) /\
  ((1 < CommandIndex m)%Z -> exists r, current ts r /\ is_Some (logs r !! (CommandIndex m - 1)%Z)) /\
  exists rs', heap ts' !! a = Some rs' /\ lastApplied rs' = CommandIndex m.
Proof.
  intros H HS HC Ha. destruct (applierSnap_command _ _ _ _ _ _ H HS HC Ha)
    as (ts1 & prevok & rs' & Hc & Hi & Hp & Ha' & Hl & _).
  apply checkLogs_inv in Hc as (b & rb & Hb & Hrb & _ & Hpo & _ & Hag).
  split_and!; [done|by apply Hag| |by exists rs'].
  intros Hlt. exists rb. split; [by exists b|]. specialize (Hp Hlt). rewrite Hp in Hpo.
  symmetry in Hpo. by apply bool_decide_eq_true in Hpo.
Qed.

(** C35: a snapshot restores the log.  The snapshot made after a command is
    accepted by any instance that ingests it, at start-up or from Raft with
    its index; the instance then has the maker's last applied index and its
    entries up to it (nil for those it did not have), and no others. *)
Theorem snapshot_restores `{!SnapCodec encodeSnap decodeSnap} a m ts rs ts1 idx b a2 r2 i ts2 :
  applierSnap a m ts = Return (ts1, Some (idx, b)) ->
  SnapshotValid m = false -> CommandValid m = true -> heap ts !! a = Some rs ->
  heap ts2 !! a2 = Some r2 -> i = (-1)%Z \/ i = idx ->
  exists r1 ts3 r3, heap ts1 !! a = Some r1 /\ ingestSnap a2 (Some b) i ts2 = Return ("", ts3) /\
    heap ts3 !! a2 = Some r3 /\ lastApplied r3 = lastApplied r1 /\ lastApplied r1 = idx /\
    forall j, logs r3 !! j =
      if decide (0 <= j <= idx)%Z then Some (default None (logs r1 !! j)) else None.
Proof.
  intros H HS HC Ha Ha2 Hi. destruct (applierSnap_command _ _ _ _ _ _ H HS HC Ha)
    as (_ & _ & r1 & _ & _ & _ & Ha' & Hl & Hs).
  destruct (Hs _ _ eq_refl) as [-> ->]. unfold ingestSnap, deref. simpl. rewrite Ha2. simpl.
  rewrite snap_roundtrip, decide_False by naive_solver.
  eexists r1, _, _. split_and!; [done|done|apply lookup_insert_eq|by simpl|done|].
  intros j. simpl. rewrite (zip_seq_lookup _ 0). case_decide as Hj; case_decide as Hj'; try lia; try done.
  - rewrite Nat.sub_0_r, snapLog_lookup by lia. by rewrite Z2Nat.id by lia.
  - apply lookup_ge_None. unfold snapLog. rewrite length_fmap, length_seq. lia.
Qed.

End RaftTest.

(** ** Examples and witnesses *)

(** A concrete codec: the binary digits of the code of the value. *)
Definition encSnap (i : Z) (xlog : list (option Z)) : string := pos_str (encode (i, xlog)).
Definition decSnap (s : string) : option (Z * list (option Z)) := decode (str_pos s).

#[export] Instance binary_SnapCodec : SnapCodec encSnap decSnap.
Proof. intros i xlog. unfold decSnap, encSnap. by rewrite str_pos_str, decode_encode. Qed.

Definition fmtZ (v : option Z) : string := match v with Some z => Itoa z | None => "<nil>" end.
Definition command (i z : Z) : ApplyMsg :=
  {| CommandValid := true; Command := Some z; CommandIndex := i; SnapshotValid := false;
     Snapshot := None; SnapshotTerm := 0; SnapshotIndex := 0 |}.

Definition exStore : Persister.store := (Persister.MakePersister Persister.empty_store).2.
Definition exStart (a : nat) (i : Z) (ts : Test) : outcome Test :=
  r ← mksrv decSnap false a i 0 exStore ts; Return r.1.
Definition got {A} (d : A) (m : outcome A) : A := match m with Return a => a | _ => d end.

(** Two servers, both having committed 7 at index 1 in [ex2], one in [ex1]. *)
Definition ex0 : Test :=
  got (makeTest 2 false) (ts ← exStart 0 0 (makeTest 2 false); exStart 1 1 ts).
Definition ex1 : Test := got ex0 (applier fmtZ 0 (command 1 7) ex0).
Definition ex2 : Test := got ex0 (applier fmtZ 1 (command 1 7) ex1).

Lemma ex2_reachable : reachable fmtZ encSnap decSnap 2 false ex2.
Proof.
  apply rtc_l with (got (makeTest 2 false) (exStart 0 0 (makeTest 2 false))).
  { eapply (step_mksrv _ _ _ _ false 0 0 0 exStore _ exStore); vm_compute; reflexivity. }
  apply rtc_l with ex0.
  { eapply (step_mksrv _ _ _ _ false 1 1 0 exStore _ exStore); vm_compute; reflexivity. }
  apply rtc_l with ex1; [eapply (step_applier _ _ _ _ 0 (command 1 7)); vm_compute; reflexivity|].
  apply rtc_once. eapply (step_applier _ _ _ _ 1 (command 1 7)); vm_compute; reflexivity.
Qed.

Lemma appliers_agree_witness :
  (exists r1 r2, current ex2 r1 /\ current ex2 r2 /\ r1 <> r2) /\
  forall rs, current ex2 rs -> applyErr rs = "".
Proof.
  split; [|exact (proj2 (proj2 (appliers_agree fmtZ encSnap decSnap 2 ex2 ex2_reachable)))].
  eexists _, _. split_and!;
    [exists 0; split; [by left|vm_compute; reflexivity]
    |exists 1; split; [right; by left|vm_compute; reflexivity]|done].
Defined.

Lemma n_committed_counts_witness :
  exists c, nCommitted fmtZ 1 ex2 = Return (2%Z, c) /\
    forall rs v, current ex2 rs -> logs rs !! 1%Z = Some v -> v = c.
Proof.
  apply (proj1 (n_committed_counts fmtZ encSnap decSnap 2 ex2 1 ex2_reachable
    ltac:(repeat constructor; eexists; reflexivity))).
Defined.

Definition exAttempt : attempt :=
  {| at_connected _ := true; at_raft _ := true; at_start s := if decide (s = 1) then Some 1%Z else None;
     at_polls := [ex1; ex2] |}.

Lemma one_reached_agreement_witness :
  exists a s (ts : Test), a ∈ [exAttempt] /\ s < 2 /\ at_connected a s = true /\ at_raft a s = true /\
    at_start a s = Some 1%Z /\ ts ∈ at_polls a /\
    (Z.max 1 2 <= Z.of_nat (committed ts 1))%Z /\
    forall o v, o ∈ srvs ts -> entryOf ts 1 o = Some v -> v = Some 7%Z.
Proof.
  apply (one_reached_agreement fmtZ 2 (Some 7%Z) 2 true [exAttempt] false 1);
    [lia|vm_compute; reflexivity|lia].
Defined.

Definition exOrder (m : gmap Z (list Z)) : list Z := elements (dom m).
Definition exViews (k : nat) : view :=
  if decide (k = 0) then [Some (1, false); None]%Z
  else [Some (1, false); Some (3, true); None; Some (2, true)]%Z.

Lemma check_one_leader_iff_witness :
  exists k, k < 10 /\ leads (exViews k) 1 /\ forall k', k' < k -> noLeader (exViews k').
Proof.
  apply (check_one_leader_iff exOrder exViews 1); [done| |vm_compute; reflexivity].
  intros k. unfold exViews. case_decide; repeat constructor; intros t b [= <- _] || intros t b [=]; lia.
Defined.

(** One server with snapshots that applied the commands 1 to 8. *)
Definition exS : Test :=
  got (makeTest 1 true) (exStart 0 0 (makeTest 1 true) ≫= fun ts =>
    foldl (fun m i => ts ← m; r ← applierSnap fmtZ encSnap decSnap 0 (command i (10 * i)) ts; Return r.1)
      (Return ts) [1; 2; 3; 4; 5; 6; 7; 8]%Z).
Definition exSrs : rfsrv :=
  got {| me := 0; applyErr := ""; lastApplied := 0; persister := None; raft := false; logs := ∅ |}
    (deref exS (Some 0)).
Definition exR : Test * option (Z * string) :=
  got (exS, None) (applierSnap fmtZ encSnap decSnap 0 (command 9 90) exS).
Definition exFresh : Test := got (makeTest 1 true) (exStart 0 0 (makeTest 1 true)).

Lemma applier_snap_in_order_witness :
  CommandIndex (command 9 90) = (lastApplied exSrs + 1)%Z /\
  exists rs', heap exR.1 !! 0 = Some rs' /\ lastApplied rs' = 9%Z.
Proof.
  destruct (applier_snap_in_order fmtZ encSnap decSnap 0 (command 9 90) exS exR.1 exR.2 exSrs)
    as (H1 & _ & _ & H2); [vm_compute; reflexivity|done|done|vm_compute; reflexivity|].
  split; [exact H1|exact H2].
Defined.

Lemma snapshot_restores_witness :
  exists b r1 ts3 r3, exR.2 = Some (9%Z, b) /\ heap exR.1 !! 0 = Some r1 /\
    ingestSnap decSnap 0 (Some b) 9 exFresh = Return ("", ts3) /\
    heap ts3 !! 0 = Some r3 /\ lastApplied r3 = 9%Z /\ logs r3 !! 9%Z = Some (Some 90%Z).
Proof.
  set (b := match exR.2 with Some (_, b) => b | None => "" end).
  destruct (snapshot_restores fmtZ encSnap decSnap 0 (command 9 90) exS exSrs exR.1 9 b 0
    (got exSrs (deref exFresh (Some 0))) 9 exFresh) as (r1 & ts3 & r3 & H1 & H2 & H3 & H4 & H5 & H6);
    [vm_compute; reflexivity|done|done|vm_compute; reflexivity|vm_compute; reflexivity|by right|].
  exists b, r1, ts3, r3. split_and!; [vm_compute; reflexivity|done|done|done|by rewrite H4|].
  rewrite H6, decide_True by lia. vm_compute in H1. injection H1 as <-. vm_compute. reflexivity.
Defined.

End RaftTest.
