(* ===== verification/RaftSetup.v ===== *)
(** * Setting up the tests of Raft and of the replicated state machine

    Models the rest of [src/src/kvraft1/rsm/test.go] (making a test and its
    servers, cutting the leader off and connecting it again) and of
    [src/src/raft1/test.go] (restarting a server, finishing a test), over the
    configuration of [Config] and the groups of [Groups]. *)

From S2P Require Import Prelude LabRpc Persister Group Groups Raft Clnts Rsm Annotation Config RaftTest.

Module RaftSetup.
Import LabRpc(Network).

Set Default Proof Using "Type".

(** ** Tests of the replicated state machine *)

Module RsmT.
Section RsmT.
Context {state : Type}.

(** [srvs] are the tester's pointers to the servers, nil until [mksrv]; [g] is
    the pointer to group 0 of [Config_]. *)
Record Test := {
  Config_ : Config.Config state;
  maxraftstate : Z;
  srvs : list (option Rsm.rsmSrv);
  leader : Z
}.

Definition set_srvs (ts : Test) (l : list (option Rsm.rsmSrv)) : Test :=
  {| Config_ := Config_ ts; maxraftstate := maxraftstate ts; srvs := l; leader := leader ts |}.
Definition set_world (ts : Test) (w : Groups.world state) : Test :=
  {| Config_ := Config.set_groups (Config_ ts) w; maxraftstate := maxraftstate ts; srvs := srvs ts;
     leader := leader ts |}.
Definition world (ts : Test) : Groups.world state := Config.groups (Config_ ts).
Definition set_store (w : Groups.world state) (st : Persister.store) : Groups.world state :=
  {| Groups.grps := Groups.grps w; Groups.wnet := Groups.wnet w; Groups.wheap := Groups.wheap w;
     Groups.wpst := st; Groups.wkilled := Groups.wkilled w |}.

(** The only service of a server is its Raft peer. *)
Definition mksrv (useRaftStateMachine : bool) (ends : list string) (srv : Z) (p : nat) (st : Persister.store)
    (ts : Test) : outcome (list (option Raft.Raft) * Persister.store * Test) :=
  '(s, st) ← Rsm.makeRsmSrv useRaftStateMachine srv ends p (maxraftstate ts) st;
  l ← slice_set (srvs ts) srv (Some s);
  r ← Rsm.rsmSrv_Raft s;
  mret ([r], st, set_srvs ts l).

(** The calls of [mksrv] by the configuration that is being made, each with the
    ends and the persister that the group has for the server. *)
Fixpoint mkAll (useRaftStateMachine : bool) (b : nat -> Groups.boot state) (sg : Group.ServerGrp)
    (idx : list nat) (ts : Test) : outcome Test :=
  match idx with
  | [] => Return ts
  | i :: idx =>
      s ← slice_get (Group.srvs sg) (Z.of_nat i);
      match Group.saved s with
      | None => Panic "nil pointer dereference"
      | Some p =>
          '(_, st, ts) ← mksrv useRaftStateMachine (Groups.b_names (b i)) (Z.of_nat i) p (Groups.wpst (world ts)) ts;
          mkAll useRaftStateMachine b sg idx (set_world ts (set_store (world ts) st))
      end
  end.

(** [names] has the ends of the [NSRV] servers. *)
Definition makeTest (useRaftStateMachine : bool) (names : list (list string)) (b : nat -> Groups.boot state)
    (heap : gmap nat (LabRpc.Server state)) (st : Persister.store) (an : Annotation.Annotation) (now : Z)
    (maxraft : Z) : outcome Test :=
  cfg ← Config.MakeConfig names true b heap st an now;
  let ts := {| Config_ := cfg; maxraftstate := maxraft; srvs := replicate (Z.to_nat Rsm.NSRV) None; leader := 0 |} in
  match Config.Group Config.GRP0 cfg with
  | None => Return ts
  | Some sg => mkAll useRaftStateMachine b sg (seq 0 (length names)) ts
  end.

Definition cleanup (vis : string) (t t' : Z) (order : list (string * Annotation.Continuous)) (now : Z)
    (ts : Test) : outcome (option Config.report * option (list Annotation.annot) * Test) :=
  r ← Config.End now (Config_ ts);
  '(out, cfg) ← Config.Cleanup vis t t' order now (Config_ ts);
  _ ← Config.CheckTimeout now cfg;
  mret (r, out, {| Config_ := cfg; maxraftstate := maxraftstate ts; srvs := srvs ts; leader := leader ts |}).

(** [ts.g.DisconnectAll(ts.leader)] *)
Definition disconnectLeader (ts : Test) : outcome (Z * Test) :=
  w ← Groups.on_group Config.GRP0 (Groups.on_net (Group.DisconnectAll (leader ts))) (world ts);
  mret (leader ts, set_world ts w).

Definition connect (i : Z) (ts : Test) : outcome Test :=
  w ← Groups.on_group Config.GRP0 (Groups.on_net (Group.ConnectOne i)) (world ts);
  mret (set_world ts w).

(** ** A test that was made *)

(** Reading a persister keeps every persister. *)
Lemma Make_ok ends i p st :
  is_Some (Persister.persisters st !! p) ->
  exists r st', Raft.Make ends i p st = Return (r, st') /\ Persister.persisters st' = Persister.persisters st.
Proof.
  intros [ps Hp]. unfold Raft.Make, Persister.ReadRaftState. rewrite Hp. unfold Persister.clone.
  destruct (Persister.raftstate ps); simpl; by eexists _, _.
Qed.

(** Server [i] of the tester is new. *)
Definition newSrv (u : bool) (i : nat) (o : option Rsm.rsmSrv) : Prop :=
  exists s r, o = Some s /\ Rsm.srv_me s = Z.of_nat i /\ Rsm.counter s = 0%Z /\ Rsm.rsm s = Some r /\
    (u = false <-> is_Some (Rsm.RSM_Raft r)).

Lemma mksrv_ok u ends i p st ts :
  is_Some (Persister.persisters st !! p) -> i < length (srvs ts) ->
  exists rs st' o, mksrv u ends (Z.of_nat i) p st ts = Return (rs, st', set_srvs ts (<[i := o]> (srvs ts))) /\
    newSrv u i o /\ Persister.persisters st' = Persister.persisters st.
Proof.
  intros Hp Hi. unfold mksrv, Rsm.makeRsmSrv, Rsm.MakeRSM. destruct u; cbn [negb].
  - cbn [mbind outcome_bind mret outcome_ret]. rewrite Group.slice_set_nat by done.
    eexists _, _, _. split; [reflexivity|]. split; [|done]. eexists _, _. split; [done|]. simpl.
    split_and!; try done. split; [done|]. by intros [? ?].
  - destruct (Make_ok ends (Z.of_nat i) p st Hp) as (r & st' & -> & E).
    cbn [mbind outcome_bind mret outcome_ret]. rewrite Group.slice_set_nat by done.
    eexists _, _, _. split; [reflexivity|]. split; [|done]. eexists _, _. split; [done|]. simpl.
    split_and!; try done.
Qed.

Lemma mkAll_ok u b sg idx : forall ts,
  (forall i, i ∈ idx -> i < length (srvs ts) /\ exists s p, Group.srvs sg !! i = Some s /\
     Group.saved s = Some p /\ is_Some (Persister.persisters (Groups.wpst (world ts)) !! p)) ->
  exists ts', mkAll u b sg idx ts = Return ts' /\ length (srvs ts') = length (srvs ts) /\
    (forall i, i ∈ idx -> exists o, srvs ts' !! i = Some o /\ newSrv u i o) /\
    (forall i, i ∉ idx -> srvs ts' !! i = srvs ts !! i) /\
    Groups.wnet (world ts') = Groups.wnet (world ts) /\ Groups.grps (world ts') = Groups.grps (world ts) /\
    leader ts' = leader ts.
Proof.
  induction idx as [|i idx IH]; intros ts H; cbn [mkAll].
  { exists ts. split_and!; try done. by intros i ?%elem_of_nil. }
  destruct (H i) as (Hi & s & p & Hs & Hp & Hps); [left|].
  rewrite (slice_get_Some _ _ _ Hs). cbn [mbind outcome_bind]. rewrite Hp.
  destruct (mksrv_ok u (Groups.b_names (b i)) i p _ ts Hps Hi) as (rs & st' & o & -> & Ho & Ep).
  cbn [mbind outcome_bind]. edestruct IH as (ts' & -> & L & N1 & N2 & N3 & N4 & N5).
  2: { exists ts'. split; [reflexivity|]. cbn in L, N2, N3, N4, N5. rewrite length_insert in L.
    split_and!; try done.
    - intros j [->|Hj]%elem_of_cons; [|by apply N1]. destruct (decide (i ∈ idx)) as [Hin|Hni]; [by apply N1|].
      exists o. split; [|done]. rewrite N2 by done. by apply list_lookup_insert_eq.
    - intros j [Hne Hni]%not_elem_of_cons. rewrite N2 by done. by apply list_lookup_insert_ne. }
  intros j Hj. destruct (H j) as (Hj' & s' & p' & ? & ? & ?); [by right|].
  cbn. rewrite length_insert, Ep. split; [done|]. by exists s', p'.
Qed.

(** ** Cutting the leader off *)

(** Group 0 of a test, its servers all connected to each other. *)
Definition meshed (ts : Test) : Prop :=
  exists sg, Groups.grps (world ts) !! Config.GRP0 = Some sg /\ Group.wf sg /\
    length (Group.srvs sg) = Z.to_nat Rsm.NSRV /\
    forall x, x < length (Group.srvs sg) -> Group.online sg x /\
      forall y, y < length (Group.srvs sg) -> Group.linked sg (Groups.wnet (world ts)) x y.

Lemma makeTest_ok u names b (heap : gmap nat (LabRpc.Server state)) st an now maxraft :
  Groups.startOk names b (Groups.newGroups LabRpc.MakeNetwork heap st) -> length names = Z.to_nat Rsm.NSRV ->
  exists ts, makeTest u names b heap st an now maxraft = Return ts /\ leader ts = 0%Z /\
    meshed ts /\ length (srvs ts) = Z.to_nat Rsm.NSRV /\
    forall i, i < length names -> exists o, srvs ts !! i = Some o /\ newSrv u i o.
Proof.
  intros Hok Hn. unfold makeTest.
  destruct (Config.MakeConfig_ok names true b heap st an now Hok) as (cfg & w & -> & Hm & Eg & Hw & _).
  cbn [mbind outcome_bind]. pose proof (Groups.gm_grp _ _ _ _ _ Hm) as (sg & Es & _ & Hc & Hl & _ & Hlk & Hs).
  assert (Groups.grps w !! Config.GRP0 = Some sg) as Hsg by (rewrite Es; apply lookup_insert_eq).
  assert (Config.Group Config.GRP0 cfg = Some sg) as -> by (unfold Config.Group, Groups.lookupGroup; by rewrite Eg).
  edestruct (mkAll_ok u b sg (seq 0 (length names))) as (ts & E & L & N1 & _ & N3 & N4 & N5).
  2: { exists ts. split; [exact E|]. cbn in L, N5. split; [done|]. split; [|split; [by rewrite L, length_replicate|]].
    - exists sg. unfold world in *. rewrite N4, N3. cbn [Config_]. rewrite Eg. split; [exact Hsg|].
      split; [apply Hc|]. split; [congruence|]. rewrite Hl. intros x Hx.
      split; [by eapply (Groups.gm_online _ _ _ _ _ Hm)|]. intros y Hy. exact (Hlk x y Hx Hy).
    - intros i Hi. apply N1, elem_of_seq. lia. }
  intros i [_ Hi]%elem_of_seq. cbn [srvs]. rewrite length_replicate. split; [lia|].
  destruct (Hs i) as (s & p & E1 & _ & E2 & _); [lia|]. exists s, p. split; [done|]. split; [done|].
  unfold world. simpl. rewrite Eg. simpl. by eapply (Groups.ci_saved _ _ _ Hc).
Qed.

Lemma all_seq sg : Group.all sg = Z.of_nat <$> seq 0 (length (Group.srvs sg)).
Proof. done. Qed.

Lemma cut_leader (ts : Test) :
  meshed ts -> (0 <= leader ts < Rsm.NSRV)%Z ->
  exists ts1 sg1, disconnectLeader ts = Return (leader ts, ts1) /\
    Groups.grps (world ts1) !! Config.GRP0 = Some sg1 /\ Group.wf sg1 /\ length (Group.srvs sg1) = 3 /\
    (forall x, x < 3 -> Z.of_nat x <> leader ts -> Group.online sg1 x) /\
    (forall x y, x < 3 -> y < 3 -> Group.linked sg1 (Groups.wnet (world ts1)) x y <->
       Z.of_nat x <> leader ts /\ Z.of_nat y <> leader ts).
Proof.
  intros (sg & Hg & Hw & Hl & Hon) Hr. change (Z.to_nat Rsm.NSRV) with 3 in Hl. unfold Rsm.NSRV in Hr.
  set (i := Z.to_nat (leader ts)). assert (leader ts = Z.of_nat i) as Ei by lia. clearbody i.
  rewrite Hl in Hon.
  destruct (Group.disconnect_spec sg (Groups.wnet (world ts)) i (seq 0 (length (Group.srvs sg)))) as
    (sg1 & net1 & Hd & (Hw1 & Es & _) & Ho & Hlk); [done|lia|apply Groups.inRange_all|].
  unfold disconnectLeader, Groups.on_group, Groups.lookupGroup, Groups.on_net, Group.DisconnectAll.
  rewrite Hg. cbn [Group.grp Group.cnet]. rewrite all_seq, Ei, Hd. cbn [mbind outcome_bind mret outcome_ret].
  eexists _, sg1. split; [reflexivity|].
  unfold world. cbn. rewrite lookup_insert_eq. split; [done|]. split; [done|]. split; [congruence|]. split.
  - intros x Hx Hne. apply Ho. split; [lia|]. by apply Hon.
  - intros x y Hx Hy. unfold Group.linked, Group.endOf in *. rewrite Es.
    specialize (Hlk x y). unfold Group.linked, Group.endOf in Hlk. rewrite Hlk, !elem_of_seq, Hl.
    destruct (Hon x Hx) as [_ Hxy]. specialize (Hxy y Hy). split.
    + intros (_ & H1 & H2). split; intros E; [apply H1|apply H2]; lia.
    + intros [H1 H2]. split; [exact Hxy|]. split; intros [E _]; subst; [by apply H1|by apply H2].
Qed.

Lemma connect_back l (ts : Test) sg :
  (0 <= l < Rsm.NSRV)%Z -> Groups.grps (world ts) !! Config.GRP0 = Some sg -> Group.wf sg ->
  length (Group.srvs sg) = 3 -> (forall x, x < 3 -> Z.of_nat x <> l -> Group.online sg x) ->
  (forall x y, x < 3 -> y < 3 -> Z.of_nat x <> l -> Z.of_nat y <> l ->
     Group.linked sg (Groups.wnet (world ts)) x y) ->
  exists ts', connect l ts = Return ts' /\ meshed ts'.
Proof.
  intros Hr Hg Hw Hl Hon Hlk. unfold Rsm.NSRV in Hr. set (i := Z.to_nat l).
  destruct (Group.connect_spec sg (Groups.wnet (world ts)) i (seq 0 (length (Group.srvs sg)))) as
    (sg1 & net1 & Hd & (Hw1 & Es & _) & Ho & Hlk1); [done|lia|apply Groups.inRange_all|].
  unfold connect, Groups.on_group, Groups.lookupGroup, Groups.on_net, Group.ConnectOne.
  rewrite Hg. cbn [Group.grp Group.cnet]. rewrite all_seq.
  rewrite <-(Z2Nat.id l) by lia. fold i. rewrite Hd. cbn [mbind outcome_bind mret outcome_ret].
  eexists. split; [reflexivity|]. exists sg1. unfold world. cbn. rewrite lookup_insert_eq.
  assert (forall x, x < 3 -> Group.online sg1 x) as Hall.
  { intros x Hx. apply Ho. destruct (decide (x = i)) as [->|]; [by left|right]. apply Hon; [done|]. lia. }
  split; [done|]. split; [done|]. rewrite Es, Hl. split; [done|]. intros x Hx. split; [by apply Hall|].
  intros y Hy. specialize (Hlk1 x y). unfold Group.linked, Group.endOf in *. rewrite Es. apply Hlk1.
  rewrite Hl, !elem_of_seq. destruct (decide (x = i)), (decide (y = i)).
  1-3: right; intuition (auto; lia).
  left. apply Hlk; lia.
Qed.

(** The leader can be cut off and brought back.  A test of the replicated state
    machine starts with three new servers whose counters are 0, all connected,
    and the first as the leader.  Whenever all are connected and the leader is
    one of them, [disconnectLeader] returns it and cuts exactly its
    connections, in both directions; [connect] of it connects all again. *)
Theorem leader_cut_and_back u names b (heap : gmap nat (LabRpc.Server state)) st an now maxraft :
  Groups.startOk names b (Groups.newGroups LabRpc.MakeNetwork heap st) -> length names = Z.to_nat Rsm.NSRV ->
  (exists ts, makeTest u names b heap st an now maxraft = Return ts /\ leader ts = 0%Z /\ meshed ts /\
     forall i, i < 3 -> exists o, srvs ts !! i = Some o /\ newSrv u i o) /\
  forall (ts : Test), meshed ts -> (0 <= leader ts < Rsm.NSRV)%Z ->
  exists ts1 ts2 sg1, disconnectLeader ts = Return (leader ts, ts1) /\
    Groups.grps (world ts1) !! Config.GRP0 = Some sg1 /\
    (forall x y, x < 3 -> y < 3 -> Group.linked sg1 (Groups.wnet (world ts1)) x y <->
       Z.of_nat x <> leader ts /\ Z.of_nat y <> leader ts) /\
    connect (leader ts) ts1 = Return ts2 /\ meshed ts2.
Proof.
  intros Hok Hn. split.
  { destruct (makeTest_ok u names b heap st an now maxraft Hok Hn) as (ts & E & El & Hm & _ & Hs).
    exists ts. rewrite Hn in Hs. done. }
  intros ts Hm Hr. destruct (cut_leader ts Hm Hr) as (ts1 & sg1 & H1 & Hg1 & Hw1 & Hl1 & Hon1 & Hlk1).
  destruct (connect_back (leader ts) ts1 sg1 Hr Hg1 Hw1 Hl1 Hon1) as (ts2 & H2 & Hm2).
  { intros x y Hx Hy Hnx Hny. by apply Hlk1. }
  exists ts1, ts2, sg1. split_and!; done.
Qed.

End RsmT.
Arguments Test : clear implicits.
End RsmT.

(** ** Tests of Raft *)

Module RaftT.
Section RaftT.
Context {state cmd : Type} `{!EqDecision cmd}.
Context (decodeSnap : string -> option (Z * list (option cmd))).

(** [cleanup] marks the test finished, reports and releases what it holds. *)
Definition cleanup (vis : string) (t t' : Z) (order : list (string * Annotation.Continuous)) (now : Z)
    (ts : RaftTest.Test (cmd := cmd)) (cfg : Config.Config state)
    : outcome (option Config.report * option (list Annotation.annot) * RaftTest.Test (cmd := cmd) * Config.Config state) :=
  let ts := RaftTest.set_finished ts in
  r ← Config.End now cfg;
  '(out, cfg) ← Config.Cleanup vis t t' order now cfg;
  _ ← Config.CheckTimeout now cfg;
  mret (r, out, ts, cfg).

(** The persister of server [i] of group 0. *)
Definition persisterOf (i : Z) (w : Groups.world state) : outcome nat :=
  match Groups.grps w !! Config.GRP0 with
  | None => Panic "nil pointer dereference"
  | Some sg =>
      s ← slice_get (Group.srvs sg) i;
      match Group.saved s with None => Panic "nil pointer dereference" | Some p => Return p end
  end.

(** [restart]: [StartServer] calls [mksrv] for the new instance, at [a]. *)
Definition restart (useRaftStateMachine : bool) (a : nat) (i : Z) (bt : Groups.boot state)
    (ts : RaftTest.Test (cmd := cmd)) (cfg : Config.Config state)
    : outcome (RaftTest.Test (cmd := cmd) * Config.Config state) :=
  w ← Groups.on_group Config.GRP0
        (Group.StartServer i (Groups.b_names bt) (Groups.b_mks bt) (Groups.b_sid bt)) (Config.groups cfg);
  p ← persisterOf i w;
  '(ts, st) ← RaftTest.mksrv decodeSnap useRaftStateMachine a i p (Groups.wpst w) ts;
  w ← Groups.on_group Config.GRP0 (Groups.on_net Group.ConnectAll) (RsmT.set_store w st);
  mret (ts, Config.set_groups cfg w).

(** A restarted server is back.  [restart] of a server of group 0, with fresh
    random names, in a test without snapshots: the tester's entry for the
    server is a new instance with an empty log, whose persister holds what the
    crashed server had saved, and all servers of the group are connected to
    each other, whichever were disconnected before. *)
Theorem restart_brings_back u a i bt (ts : RaftTest.Test (cmd := cmd)) (cfg : Config.Config state) sg s :
  Groups.winv (Config.groups cfg) -> Config.Group Config.GRP0 cfg = Some sg -> Group.srvs sg !! i = Some s ->
  NoDup (Groups.b_names bt) -> length (Groups.b_names bt) = length (Group.srvs sg) ->
  (forall e, e ∈ Groups.b_names bt -> e ∉ LabRpc.ends (Config.net cfg)) ->
  RaftTest.snapshot ts = false -> i < length (RaftTest.srvs ts) ->
  exists ts' cfg' p sg', restart u a (Z.of_nat i) bt ts cfg = Return (ts', cfg') /\
    RaftTest.srvs ts' = <[i := Some a]> (RaftTest.srvs ts) /\
    RaftTest.heap ts' = <[a := {| RaftTest.me := Z.of_nat i; RaftTest.applyErr := ""; RaftTest.lastApplied := 0;
      RaftTest.persister := Some p; RaftTest.raft := negb u; RaftTest.logs := ∅ |}]> (RaftTest.heap ts) /\
    Persister.contents (Groups.wpst (Config.groups cfg')) p
    = Groups.inherited (Groups.wpst (Config.groups cfg)) s /\
    Config.Group Config.GRP0 cfg' = Some sg' /\ length (Group.srvs sg') = length (Group.srvs sg) /\
    forall x y, x < length (Group.srvs sg) -> y < length (Group.srvs sg) ->
      Group.linked sg' (Config.net cfg') x y.
Proof.
  unfold Config.Group, Groups.lookupGroup. intros Hw Hg Hs Hnd Hl Hf Hsn Hi.
  pose proof (lookup_lt_Some _ _ _ Hs) as His. destruct (Groups.wi_grp _ Hw _ sg Hg) as [_ Hc].
  set (w := Config.groups cfg) in *.
  destruct (Groups.StartServer_ok i bt {| Group.grp := sg; Group.cnet := Groups.wnet w; Group.cheap := Groups.wheap w;
    Group.pst := Groups.wpst w; Group.killed := Groups.wkilled w |} Hc His Hnd Hl Hf) as (c1 & H1 & Hst & Hc1).
  destruct Hst as [(s' & np & Hs' & Es & _ & Hin) _ _ _ _ _ _ _]. cbn [Group.grp Group.pst] in *.
  rewrite Hs in Hs'. injection Hs' as <-.
  assert (Groups.on_group Config.GRP0 (Group.StartServer (Z.of_nat i) (Groups.b_names bt) (Groups.b_mks bt)
    (Groups.b_sid bt)) w = Return {| Groups.grps := <[Config.GRP0 := Group.grp c1]> (Groups.grps w);
      Groups.wnet := Group.cnet c1; Groups.wheap := Group.cheap c1; Groups.wpst := Group.pst c1;
      Groups.wkilled := Group.killed c1 |}) as E1 by (unfold Groups.on_group, Groups.lookupGroup; by rewrite Hg, H1).
  unfold restart. fold w. rewrite E1.
  cbn [mbind outcome_bind mret outcome_ret]. unfold persisterOf. cbn [Groups.grps]. rewrite lookup_insert_eq.
  assert (Group.srvs (Group.grp c1) !! i = Some {| Group.saved := Some np; Group.svcs := (Groups.b_mks bt).1;
    Group.endNames := Some (Groups.b_names bt) |}) as Hsi by (rewrite Es; by apply list_lookup_insert_eq).
  rewrite (slice_get_Some _ _ _ Hsi). cbn [mbind outcome_bind Group.saved].
  unfold RaftTest.mksrv, RaftTest.newRfsrv. cbn [RaftTest.snapshot RaftTest.set_heap]. rewrite Hsn.
  cbn [mbind outcome_bind fst snd RaftTest.srvs RaftTest.set_heap]. rewrite Group.slice_set_nat by done.
  cbn [mbind outcome_bind]. unfold Groups.on_group, Groups.lookupGroup, Groups.on_net.
  cbn [Groups.grps RsmT.set_store]. rewrite lookup_insert_eq. cbn [Group.grp Group.cnet Groups.wnet RsmT.set_store].
  destruct (Groups.ConnectAll_ok (Group.grp c1) (Group.cnet c1) (Groups.ci_wf _ _ _ Hc1))
    as (sg' & net' & -> & (_ & Es' & _) & _ & _ & Hlk).
  cbn [mbind outcome_bind mret outcome_ret]. eexists _, _, np, sg'. split; [reflexivity|].
  assert (length (Group.srvs (Group.grp c1)) = length (Group.srvs sg)) as El by (by rewrite Es, length_insert).
  split; [reflexivity|]. split; [reflexivity|]. split; [exact Hin|]. cbn. rewrite lookup_insert_eq.
  split; [done|]. split; [congruence|]. intros x y Hx Hy. apply Hlk; by rewrite El.
Qed.

End RaftT.
End RaftT.

(** ** Witnesses *)

Definition exNames (pre : string) : list (list string) :=
  (fun i => (fun j => pre +:+ Itoa (Z.of_nat i) +:+ Itoa (Z.of_nat j)) <$> seq 0 3) <$> seq 0 3.
Definition exBoot (pre : string) (sid i : nat) : Groups.boot Z :=
  {| Groups.b_names := (fun j => pre +:+ Itoa (Z.of_nat i) +:+ Itoa (Z.of_nat j)) <$> seq 0 3;
     Groups.b_mks := ([10 * sid + i], [LabRpc.counterService]); Groups.b_sid := sid + i |}.

Lemma leader_cut_and_back_witness :
  exists ts ts1 ts2,
    RsmT.makeTest false (exNames "n") (exBoot "b" 1) ∅ Persister.empty_store Annotation.mkAnnotation 0 (-1)
    = Return ts /\ RsmT.disconnectLeader ts = Return (0%Z, ts1) /\ RsmT.connect 0 ts1 = Return ts2 /\ RsmT.meshed ts2.
Proof.
  destruct (RsmT.leader_cut_and_back false (exNames "n") (exBoot "b" 1) ∅ Persister.empty_store
    Annotation.mkAnnotation 0 (-1)) as [(ts & H1 & El & Hm & _) H].
  - apply Groups.startOk_dec. vm_compute. reflexivity.
  - reflexivity.
  - destruct (H ts Hm) as (ts1 & ts2 & sg1 & H2 & _ & _ & H3 & H4); [rewrite El; unfold Rsm.NSRV; lia|].
    rewrite El in H2, H3. exists ts, ts1, ts2. split; [exact H1|]. split; [exact H2|]. split; [exact H3|exact H4].
Defined.

Lemma restart_brings_back_witness :
  exists ts' cfg', RaftT.restart (cmd := Z) (fun _ => None) false 7 1 (Groups.exBoot "r" 9 1)
      (RaftTest.makeTest 2 false) Config.exCfg = Return (ts', cfg') /\
    RaftTest.srvs ts' = [None; Some 7].
Proof.
  destruct (Config.Group Config.GRP0 Config.exCfg) as [sg|] eqn:Hg; [|exfalso; vm_compute in Hg; discriminate].
  assert (length (Group.srvs sg) = 2) as Hl by (vm_compute in Hg; injection Hg as <-; reflexivity).
  destruct (lookup_lt_is_Some_2 (Group.srvs sg) 1) as [s Hs]; [lia|].
  destruct (RaftT.restart_brings_back (cmd := Z) (fun _ => None) false 7 1 (Groups.exBoot "r" 9 1)
    (RaftTest.makeTest 2 false) Config.exCfg sg s Groups.exW1_inv Hg Hs) as (ts' & cfg' & p & sg' & H1 & H2 & _).
  - apply (bool_decide_eq_true_1 _). vm_compute. reflexivity.
  - rewrite Hl. reflexivity.
  - apply Forall_forall, (bool_decide_eq_true_1 _). vm_compute. reflexivity.
  - reflexivity.
  - simpl. lia.
  - exists ts', cfg'. split; [exact H1|]. rewrite H2. reflexivity.
Defined.

End RaftSetup.
